(** * Instagram page analyzer: time-series model, validation and aggregation

    A shallow embedding of the JavaScript sources
    (period_extractor.js, timeseries_models.js, reach_calculator.js,
    timeseries_analytics.js, aggregation_service.js, period_validator.js)
    together with the properties their specification states about them.

    Conventions of the embedding:
    - a JavaScript number is a [jsnum]: NaN, the two infinities, or a finite
      value carried as a rational.  Addition, subtraction, multiplication,
      division and [parseFloat] round their exact result to binary64 ([fl]:
      53 significant bits, ties to the even neighbour, gradual underflow,
      infinity from 2^1024); the sign of zero is outside the model;
    - years, months, counters and list lengths are integers ([Z], [nat]);
    - a [throw] is the [Throw] outcome of [result]; the aggregation paths run
      in the monad [M], which also records the calls made to
      [validateMetricOperation] and to [console.warn];
    - a JavaScript [Map] is an association list in insertion order. *)

From Stdlib Require Import ZArith List String Ascii Bool Lia.
From Stdlib Require Import DecimalString DecimalZ Sorted Permutation.
From Stdlib Require Import QArith Qround Qabs Qpower Qcanon Lqa.
From Stdlib Require Import SpecFloat.
Import ListNotations.

Open Scope Z_scope.

(** ** JavaScript numbers *)

Module JsNum.

Inductive jsnum : Type :=
| NaN
| PInf
| NInf
| Fin (q : Q).

Definition zero : jsnum := Fin 0.
Definition ofZ (z : Z) : jsnum := Fin (inject_Z z).

Definition isNaN (a : jsnum) : bool :=
  match a with NaN => true | _ => false end.

Definition isFinite (a : jsnum) : bool :=
  match a with Fin _ => true | _ => false end.

Definition Qltb (x y : Q) : bool :=
  match (x ?= y)%Q with Lt => true | _ => false end.

(** *** Rounding to binary64 *)

(** [a / (d * 2^e)] as a fraction of two integers. *)
Definition scaled (a d e : Z) : Z * Z :=
  if 0 <=? e then (a, d * 2 ^ e) else (a * 2 ^ (- e), d).

(** The exponent [e] of the last place of the positive number [a / d]: the
    one with [2^52 <= (a / d) / 2^e < 2^53], and -1074 for the numbers too
    small for it. *)
Definition lastPlace (a d : Z) : Z :=
  let e0 := Z.log2 a - Z.log2 d - 52 in
  let (num, den) := scaled a d e0 in
  Z.max (-1074) (if num <? 2 ^ 52 * den then e0 - 1 else e0).

(** The integer nearest to [num / den], the even one of two that are equally
    near. *)
Definition nearestEven (num den : Z) : Z :=
  let m := num / den in
  match 2 * (num mod den) ?= den with
  | Lt => m
  | Gt => m + 1
  | Eq => if Z.even m then m else m + 1
  end.

(** The Number nearest to the rational [q]: the multiple of the last place
    of [q] nearest to it, in lowest terms; an infinity when that multiple
    reaches 2^1024. *)
Definition fl (q : Q) : jsnum :=
  let r := Qred q in
  let n := Qnum r in
  if n =? 0 then Fin 0
  else
    let e := lastPlace (Z.abs n) (Z.pos (Qden r)) in
    let (num, den) := scaled (Z.abs n) (Z.pos (Qden r)) e in
    let m := nearestEven num den in
    if (971 <? e) || ((e =? 971) && (2 ^ 53 <=? m))
    then (if n <? 0 then NInf else PInf)
    else Fin (Qred (inject_Z (Z.sgn n * m) * 2 ^ e)).

(** A rational that a Number holds: the multiple of a power of two from
    2^-1074 to 2^971 by an integer of at most 53 bits. *)
Definition isDouble (q : Q) : Prop :=
  exists M E : Z,
    (Z.abs M < 2 ^ 53)%Z /\ (-1074 <= E <= 971)%Z /\ (q == inject_Z M * 2 ^ E)%Q.

(** A value of the embedding that is a Number: finite values are carried as
    rationals, of which a Number holds only the ones above. *)
Definition isNumber (a : jsnum) : Prop :=
  match a with
  | Fin q => isDouble q
  | _ => True
  end.

(** The largest Number. *)
Definition maxValue : Q := (inject_Z (2 ^ 53 - 1) * 2 ^ 971)%Q.

(** The Standard Library's specification of floating-point numbers, read
    at binary64, against which [fl] is compared. *)
Definition ofSpecFloat (f : spec_float) : jsnum :=
  match f with
  | S754_zero _ => Fin 0
  | S754_infinity s => if s then NInf else PInf
  | S754_nan => NaN
  | S754_finite s m e =>
      Fin (Qred (inject_Z (if s then Z.neg m else Z.pos m) * 2 ^ e))
  end.

Definition binary64 (z : Z) : spec_float := binary_normalize 53 1024 z 0 false.

Definition neg (a : jsnum) : jsnum :=
  match a with
  | NaN => NaN
  | PInf => NInf
  | NInf => PInf
  | Fin q => Fin (- q)
  end.

Definition add (a b : jsnum) : jsnum :=
  match a, b with
  | NaN, _ | _, NaN => NaN
  | PInf, NInf | NInf, PInf => NaN
  | PInf, _ | _, PInf => PInf
  | NInf, _ | _, NInf => NInf
  | Fin x, Fin y => fl (x + y)
  end.

Definition sub (a b : jsnum) : jsnum := add a (neg b).

(** The infinity carrying the sign of [q]; NaN when [q] is zero. *)
Definition signedInf (q : Q) (positive : bool) : jsnum :=
  match (q ?= 0)%Q with
  | Eq => NaN
  | Gt => if positive then PInf else NInf
  | Lt => if positive then NInf else PInf
  end.

Definition mul (a b : jsnum) : jsnum :=
  match a, b with
  | NaN, _ | _, NaN => NaN
  | Fin x, Fin y => fl (x * y)
  | Fin x, PInf | PInf, Fin x => signedInf x true
  | Fin x, NInf | NInf, Fin x => signedInf x false
  | PInf, PInf | NInf, NInf => PInf
  | PInf, NInf | NInf, PInf => NInf
  end.

(** Division; a zero divisor counts as +0. *)
Definition div (a b : jsnum) : jsnum :=
  match a, b with
  | NaN, _ | _, NaN => NaN
  | Fin x, Fin y =>
      if Qeq_bool y 0 then signedInf x true else fl (x / y)
  | Fin _, PInf | Fin _, NInf => Fin 0
  | PInf, Fin y => if Qltb y 0 then NInf else PInf
  | NInf, Fin y => if Qltb y 0 then PInf else NInf
  | _, _ => NaN
  end.

(** [a < b], false as soon as one side is NaN. *)
Definition ltb (a b : jsnum) : bool :=
  match a, b with
  | NaN, _ | _, NaN => false
  | NInf, NInf => false
  | NInf, _ => true
  | _, NInf => false
  | PInf, _ => false
  | Fin _, PInf => true
  | Fin x, Fin y => Qltb x y
  end.

(** [a === b] on numbers. *)
Definition eqb (a b : jsnum) : bool :=
  match a, b with
  | PInf, PInf | NInf, NInf => true
  | Fin x, Fin y => Qeq_bool x y
  | _, _ => false
  end.

Definition gtb (a b : jsnum) : bool := ltb b a.
Definition leb (a b : jsnum) : bool := ltb a b || eqb a b.
Definition geb (a b : jsnum) : bool := leb b a.

(** [Math.round]: the nearest integer, halves going up. *)
Definition Math_round (a : jsnum) : jsnum :=
  match a with
  | Fin q => Fin (inject_Z (Qfloor (q + (1 # 2))))
  | other => other
  end.

Definition min2 (a b : jsnum) : jsnum :=
  if isNaN a || isNaN b then NaN else if ltb b a then b else a.

Definition max2 (a b : jsnum) : jsnum :=
  if isNaN a || isNaN b then NaN else if ltb a b then b else a.

(** [Math.min(...values)] and [Math.max(...values)]. *)
Definition Math_min (values : list jsnum) : jsnum := fold_left min2 values PInf.
Definition Math_max (values : list jsnum) : jsnum := fold_left max2 values NInf.

(** [values.reduce((sum, val) => sum + val, 0)]. *)
Definition sum (values : list jsnum) : jsnum := fold_left add values zero.

(** Numeric equality of two results: the same special value, or equal
    rationals. *)
Definition same (a b : jsnum) : Prop :=
  match a, b with
  | NaN, NaN | PInf, PInf | NInf, NInf => True
  | Fin x, Fin y => (x == y)%Q
  | _, _ => False
  end.

(** A finite value that is an integer. *)
Definition isInteger (a : jsnum) : Prop :=
  exists z : Z, same a (ofZ z).

End JsNum.
Export JsNum.

(** ** Exceptions, results and the effect monad *)

Module Eff.

(** One constructor per [throw] site of the sources. *)
Inductive exn : Type :=
| ErrRequires (fn : string)
| ErrInvalidPeriod (year month : Z)
| ErrUniquePersonsSum (metric : string)
| ErrUnknownOperation (operation : string)
| ErrNotSummable (metric : string)
| ErrMarketShare (metric : string)
| ErrAccountRequires
| ErrCSVRowMissing
| ErrMonthlyRequires
| ErrOtherAccount
| ErrNoValidData
| TypeError (what : string).

Inductive result (A : Type) : Type :=
| Ok (a : A)
| Throw (e : exn).
Arguments Ok {A} a.
Arguments Throw {A} e.

Definition rbind {A B} (r : result A) (k : A -> result B) : result B :=
  match r with
  | Ok a => k a
  | Throw e => Throw e
  end.

(** What the aggregation paths can be observed to do besides returning. *)
Inductive event : Type :=
| CallValidateMetricOperation (operation metric : string)
| ConsoleWarn (metric : string).

Definition M (A : Type) : Type := (list event * result A)%type.

Definition ret {A} (a : A) : M A := ([], Ok a).
Definition throw {A} (e : exn) : M A := ([], Throw e).
Definition tell (ev : event) : M unit := ([ev], Ok tt).

Definition bind {A B} (m : M A) (k : A -> M B) : M B :=
  match m with
  | (log, Ok a) => let (log', r) := k a in (log ++ log', r)
  | (log, Throw e) => (log, Throw e)
  end.

Definition trace {A} (m : M A) : list event := fst m.
Definition outcome {A} (m : M A) : result A := snd m.



End Eff.
Export Eff.

Declare Scope eff_scope.
Delimit Scope eff_scope with eff.
Notation "x <- m ;; k" := (bind m (fun x => k))
  (at level 61, m at next level, right associativity) : eff_scope.
Notation "m ;;; k" := (bind m (fun _ => k))
  (at level 61, right associativity) : eff_scope.

(** ** Arrays, strings and maps *)

Module Js.

(** [Array.prototype.sort(compare)], stable; [after a b] stands for
    [compare(a, b) > 0]. *)
Section Sort.
Context {A : Type} (after : A -> A -> bool).

Fixpoint insertSorted (x : A) (l : list A) : list A :=
  match l with
  | [] => [x]
  | y :: ys => if after x y then y :: insertSorted x ys else x :: y :: ys
  end.

Fixpoint sort (l : list A) : list A :=
  match l with
  | [] => []
  | x :: xs => insertSorted x (sort xs)
  end.
End Sort.

(** [`${n}`] for an integer. *)
Definition Z_to_string (z : Z) : string := NilEmpty.string_of_int (Z.to_int z).

(** [`${year}_${month}`], the key of a period in every [Set] and [Map]. *)
Definition periodKey (year month : Z) : string :=
  (Z_to_string year ++ "_" ++ Z_to_string month)%string.

(** [Set.prototype.has] on a set of strings built from a list. *)
Definition setHas (keys : list string) (k : string) : bool :=
  existsb (String.eqb k) keys.

(** [s.padStart(2, '0')]. *)
Definition padStart2 (s : string) : string :=
  match s with
  | String c EmptyString => String "0"%char (String c EmptyString)
  | EmptyString => "00"%string
  | _ => s
  end.

(** A [Map] with string keys: entries in insertion order; [set] on a key
    already present replaces the value where it stands. *)
Section Map.
Context {V : Type}.
Definition map : Type := list (string * V).

Fixpoint get (m : map) (k : string) : option V :=
  match m with
  | [] => None
  | (k', v) :: rest => if String.eqb k k' then Some v else get rest k
  end.

Definition has (m : map) (k : string) : bool :=
  match get m k with Some _ => true | None => false end.

Fixpoint set (m : map) (k : string) (v : V) : map :=
  match m with
  | [] => [(k, v)]
  | (k', v') :: rest =>
      if String.eqb k k' then (k', v) :: rest else (k', v') :: set rest k v
  end.

Definition values (m : map) : list V := List.map snd m.
Definition size (m : map) : nat := List.length m.
End Map.
Arguments map V : clear implicits.

End Js.


(** ** Cells of a parsed CSV row and [parseFloat] *)

Module Csv.

(** A value read from a row object.  Papa Parse runs with
    [dynamicTyping: false], so a cell that is present is a string. *)
Inductive cell : Type :=
| Undefined
| Null
| Str (s : string).

(** A row object: its own properties, keyed by the header names. *)
Definition row : Type := list (string * string).

Fixpoint prop (r : row) (k : string) : cell :=
  match r with
  | [] => Undefined
  | (k', v) :: rest => if String.eqb k k' then Str v else prop rest k
  end.

Definition truthy (c : cell) : bool :=
  match c with
  | Str EmptyString => false
  | Str _ => true
  | _ => false
  end.

(** [String(c)]. *)
Definition text (c : cell) : string :=
  match c with
  | Undefined => "undefined"
  | Null => "null"
  | Str s => s
  end.

(** [a || b]. *)
Definition or_else (a b : cell) : cell := if truthy a then a else b.

(** White space as [trim] and [parseFloat] see it, within ASCII: tab, line
    feed, vertical tab, form feed, carriage return and space. *)
Definition isWhiteSpace (c : ascii) : bool :=
  let n := nat_of_ascii c in
  ((9 <=? n) && (n <=? 13))%nat || (n =? 32)%nat.

Fixpoint trimStart (s : string) : string :=
  match s with
  | String c rest => if isWhiteSpace c then trimStart rest else s
  | EmptyString => EmptyString
  end.

Fixpoint trimEnd (s : string) : string :=
  match s with
  | EmptyString => EmptyString
  | String c rest =>
      match trimEnd rest with
      | EmptyString => if isWhiteSpace c then EmptyString else String c EmptyString
      | kept => String c kept
      end
  end.

Definition trim (s : string) : string := trimEnd (trimStart s).

(** [s.replace(/,/g, '')]. *)
Fixpoint removeCommas (s : string) : string :=
  match s with
  | EmptyString => EmptyString
  | String c rest =>
      if Ascii.eqb c ","%char then removeCommas rest
      else String c (removeCommas rest)
  end.

Definition isDigit (c : ascii) : bool :=
  let n := nat_of_ascii c in ((48 <=? n) && (n <=? 57))%nat.

Definition digitValue (c : ascii) : Z := Z.of_nat (nat_of_ascii c) - 48.

(** Reads a run of decimal digits: the number read so far extended by the
    run, the length of the run, and what follows it. *)
Fixpoint readDigits (s : string) (acc : Z) (count : nat) : Z * nat * string :=
  match s with
  | String c rest =>
      if isDigit c then readDigits rest (10 * acc + digitValue c) (S count)
      else (acc, count, s)
  | EmptyString => (acc, count, s)
  end.

(** Reads an optional sign; [true] for a minus. *)
Definition readSign (s : string) : bool * string :=
  match s with
  | String c rest =>
      if Ascii.eqb c "-"%char then (true, rest)
      else if Ascii.eqb c "+"%char then (false, rest)
      else (false, s)
  | EmptyString => (false, s)
  end.

(** The exponent part [e[+-]digits], 0 when it is absent or incomplete. *)
Definition readExponent (s : string) : Z :=
  match s with
  | String c rest =>
      if Ascii.eqb c "e"%char || Ascii.eqb c "E"%char then
        let (negative, digits) := readSign rest in
        let '(value, count, _) := readDigits digits 0 0 in
        match count with
        | O => 0
        | S _ => if negative then - value else value
        end
      else 0
  | EmptyString => 0
  end.

(** [parseFloat(s)]: leading white space is skipped, then the longest prefix
    that is a decimal literal is read and rounded to a Number; NaN when there
    is none. *)
Definition parseFloat (s : string) : jsnum :=
  let (negative, body) := readSign (trimStart s) in
  if String.prefix "Infinity" body then (if negative then NInf else PInf)
  else
    let '(whole, wholeCount, afterWhole) := readDigits body 0 0 in
    let '(mantissa, fracCount, afterFrac) :=
      match afterWhole with
      | String c rest =>
          if Ascii.eqb c "."%char then readDigits rest whole 0
          else (whole, O, afterWhole)
      | EmptyString => (whole, O, afterWhole)
      end in
    match wholeCount, fracCount with
    | O, O => NaN
    | _, _ =>
        let exponent := readExponent afterFrac - Z.of_nat fracCount in
        let magnitude := (inject_Z mantissa * (inject_Z 10) ^ exponent)%Q in
        fl (if negative then (- magnitude)%Q else magnitude)
    end.

End Csv.

(** ** period_extractor.js *)

Module PeriodExtractor.
Import Js.

(** A period object; of its fields only [year] and [month] are read. *)
Record Period : Type := mkPeriod { year : Z; month : Z }.

(** An entry of the list [findMissingPeriods] returns. *)
Record MissingPeriod : Type :=
  mkMissing { missingYear : Z; missingMonth : Z; filename : string }.

Section Clock.
(** [new Date().getFullYear()]. *)
Variable currentYear : Z.

Definition isValidYear (year : Z) : bool :=
  (2010 <=? year) && (year <=? currentYear + 5).

Definition isValidMonth (month : Z) : bool :=
  (1 <=? month) && (month <=? 12).

Definition isValidPeriod (year month : Z) : bool :=
  isValidYear year && isValidMonth month.

Definition createStandardFilename (year month : Z) : result string :=
  if negb (isValidPeriod year month) then Throw (ErrInvalidPeriod year month)
  else
    let paddedMonth := padStart2 (Z_to_string month) in
    Ok ("IG_" ++ Z_to_string year ++ "_" ++ paddedMonth ++ ".csv")%string.

(** The comparator of every chronological sort, read as [compare(a, b) > 0]:
    [if (a.year !== b.year) return a.year - b.year; return a.month - b.month]. *)
Definition chronoAfter (ay am byr bm : Z) : bool :=
  if negb (ay =? byr) then ay - byr >? 0 else am - bm >? 0.

Definition periodAfter (a b : Period) : bool :=
  chronoAfter (year a) (month a) (year b) (month b).

(** The body of the [while] loop, [fuel] bounding the number of turns; the
    loop runs out of it only if [None] comes back. *)
Fixpoint walkMonths (fuel : nat) (existingPeriods : list string)
    (lastYear lastMonth curYear curMonth : Z)
    : option (result (list MissingPeriod)) :=
  if (curYear <? lastYear) || ((curYear =? lastYear) && (curMonth <=? lastMonth))
  then
    match fuel with
    | O => None
    | S fuel' =>
        let periodKey := periodKey curYear curMonth in
        let nextMonth := if curMonth + 1 >? 12 then 1 else curMonth + 1 in
        let nextYear := if curMonth + 1 >? 12 then curYear + 1 else curYear in
        let rest := walkMonths fuel' existingPeriods lastYear lastMonth
                      nextYear nextMonth in
        if negb (setHas existingPeriods periodKey) then
          match createStandardFilename curYear curMonth with
          | Throw e => Some (Throw e)
          | Ok name =>
              option_map
                (fun r => rbind r (fun missing =>
                   Ok (mkMissing curYear curMonth name :: missing)))
                rest
          end
        else rest
    end
  else Some (Ok []).

(** Turns the loop can take from [(firstYear, firstMonth)] at most. *)
Definition walkFuel (firstYear firstMonth lastYear : Z) : nat :=
  Z.to_nat (13 * (lastYear - firstYear) + 14 - Z.min firstMonth 13).

Definition findMissingPeriods (periods : list Period)
    : option (result (list MissingPeriod)) :=
  match periods with
  | [] => Some (Ok [])
  | _ :: _ =>
      let sortedPeriods := sort periodAfter periods in
      match sortedPeriods with
      | [] => Some (Throw (TypeError "first"))
      | first :: _ =>
          let last := List.last sortedPeriods first in
          let existingPeriods :=
            List.map (fun p => periodKey (year p) (month p)) periods in
          walkMonths (walkFuel (year first) (month first) (year last))
            existingPeriods (year last) (month last) (year first) (month first)
      end
  end.

(** [parseInt(s, 10)]: leading white space, an optional sign, then the
    longest run of decimal digits; [None] stands for NaN. *)
Definition parseInt10 (s : string) : option Z :=
  let (negative, body) := Csv.readSign (Csv.trimStart s) in
  let '(value, count, _) := Csv.readDigits body 0 0 in
  match count with
  | O => None
  | S _ => Some (if negative then - value else value)
  end.

(** [Canonicalize] of a pattern without the flag [u]: a letter of ASCII goes
    to its upper case, and no other character goes to a character of ASCII. *)
Definition canonicalize (c : ascii) : ascii :=
  let n := nat_of_ascii c in
  if ((97 <=? n) && (n <=? 122))%nat then ascii_of_nat (n - 32) else c.

(** Two characters that match under the flag [i]. *)
Definition sameLetter (a b : ascii) : bool :=
  Ascii.eqb (canonicalize a) (canonicalize b).

(** Reads a literal at the head of [s], letters in either case; what follows
    it when it is there. *)
Fixpoint readLiteral (literal s : string) : option string :=
  match literal with
  | EmptyString => Some s
  | String c literal' =>
      match s with
      | String d s' => if sameLetter c d then readLiteral literal' s' else None
      | EmptyString => None
      end
  end.

(** Reads exactly [n] decimal digits: the digits and what follows them. *)
Fixpoint readExactDigits (n : nat) (s : string) : option (string * string) :=
  match n with
  | O => Some (EmptyString, s)
  | S k =>
      match s with
      | String c s' =>
          if Csv.isDigit c then
            match readExactDigits k s' with
            | Some (digits, rest) => Some (String c digits, rest)
            | None => None
            end
          else None
      | EmptyString => None
      end
  end.

(** [\.csv$] at the end of the name. *)
Definition matchExtension (s : string) : bool :=
  match readLiteral ".csv" s with
  | Some EmptyString => true
  | _ => false
  end.

(** [(\d{4})_(\d{1,2})\.csv$]: the two groups.  The month takes two digits
    when it can and falls back to one. *)
Definition matchPeriodPart (s : string) : option (string * string) :=
  match readExactDigits 4 s with
  | Some (yearDigits, afterYear) =>
      match readLiteral "_" afterYear with
      | Some afterSeparator =>
          let withDigits n :=
            match readExactDigits n afterSeparator with
            | Some (monthDigits, afterMonth) =>
                if matchExtension afterMonth then Some (yearDigits, monthDigits) else None
            | None => None
            end in
          match withDigits 2%nat with
          | Some groups => Some groups
          | None => withDigits 1%nat
          end
      | None => None
      end
  | None => None
  end.

(** [filename.match(IG_FILENAME_PATTERN)], the pattern being
    [/^IG_(\d{4})_(\d{1,2})\.csv$/i]. *)
Definition matchStrict (filename : string) : option (string * string) :=
  match readLiteral "IG_" filename with
  | Some rest => matchPeriodPart rest
  | None => None
  end.

(** [filename.match(FLEXIBLE_FILENAME_PATTERN)], the pattern being
    [/^(?:IG_)?(\d{4})_(\d{1,2})\.csv$/i]: with the prefix first, without it
    when that fails. *)
Definition matchFlexible (filename : string) : option (string * string) :=
  match matchStrict filename with
  | Some groups => Some groups
  | None => matchPeriodPart filename
  end.

(** The object [extractPeriodFromFilename] returns; its [isValid] field is
    always [true]. *)
Record ExtractedPeriod : Type :=
  mkExtracted { extractedYear : Z; extractedMonth : Z; extractedFrom : string }.

Definition extractPeriodFromFilename (filename : string) (strict : bool)
    : option ExtractedPeriod :=
  if String.eqb filename "" then None
  else
    match (if strict then matchStrict filename else matchFlexible filename) with
    | None => None
    | Some (yearDigits, monthDigits) =>
        match parseInt10 yearDigits, parseInt10 monthDigits with
        | Some year, Some month =>
            if negb (isValidYear year) || negb (isValidMonth month) then None
            else Some (mkExtracted year month filename)
        | _, _ => None
        end
    end.

(** [extractPeriodsFromFiles], a file being its name: the periods of the
    names that parse, in chronological order. *)
Definition extractPeriodsFromFiles (files : list string) (strict : bool)
    : list ExtractedPeriod :=
  let periods :=
    flat_map (fun name =>
                if String.eqb name "" then []
                else match extractPeriodFromFilename name strict with
                     | Some period => [period]
                     | None => []
                     end)
             files in
  sort (fun a b => chronoAfter (extractedYear a) (extractedMonth a)
                               (extractedYear b) (extractedMonth b))
       periods.

(** The result of [validatePeriodSequence]; an error is kept by its kind. *)
Inductive sequenceError : Type :=
| NoPeriods
| MalformedPeriod (p : Period)
| DuplicatePeriod (p : Period)
| InvalidPeriod (p : Period).

Record sequenceReport : Type := mkSequenceReport {
  sequenceIsValid : bool;
  sequenceErrors : list sequenceError;
  duplicates : list Period
}.

(** The loop of [validatePeriodSequence] over the periods, [seenPeriods]
    being the set of keys met so far. *)
Fixpoint scanSequence (periods : list Period) (seenPeriods : list string)
    (report : sequenceReport) : sequenceReport :=
  match periods with
  | [] => report
  | period :: rest =>
      if (year period =? 0) || (month period =? 0) then
        scanSequence rest seenPeriods
          {| sequenceIsValid := false;
             sequenceErrors := sequenceErrors report ++ [MalformedPeriod period];
             duplicates := duplicates report |}
      else
        let key := periodKey (year period) (month period) in
        let isDuplicate := setHas seenPeriods key in
        let report1 :=
          if isDuplicate then
            {| sequenceIsValid := false;
               sequenceErrors := sequenceErrors report ++ [DuplicatePeriod period];
               duplicates := duplicates report ++ [period] |}
          else report in
        let seen1 := if isDuplicate then seenPeriods else seenPeriods ++ [key] in
        let report2 :=
          if negb (isValidPeriod (year period) (month period)) then
            {| sequenceIsValid := false;
               sequenceErrors := sequenceErrors report1 ++ [InvalidPeriod period];
               duplicates := duplicates report1 |}
          else report1 in
        scanSequence rest seen1 report2
  end.

Definition validatePeriodSequence (periods : list Period) : sequenceReport :=
  match periods with
  | [] => {| sequenceIsValid := false; sequenceErrors := [NoPeriods]; duplicates := [] |}
  | _ :: _ => scanSequence periods [] (mkSequenceReport true [] [])
  end.

End Clock.
End PeriodExtractor.

(** ** timeseries_models.js *)

Module InstagramAccount.
Import Csv.

(** The [createdAt] time stamp of the objects of this file is left out: no
    operation reads it. *)
Record t : Type := mk { username : string; accountId : string; displayName : string }.

(** [new InstagramAccount(username, accountId, displayName)]; the arguments
    are cells of a row. *)
Definition new (username accountId displayName : cell) : result t :=
  if negb (truthy username) || negb (truthy accountId) then Throw ErrAccountRequires
  else
    Ok {| username := trim (text username);
          accountId := trim (text accountId);
          displayName := if truthy displayName then trim (text displayName)
                         else trim (text username) |}.

Definition fromCSVRow (csvRow : row) : result t :=
  if negb (truthy (prop csvRow "Account")) || negb (truthy (prop csvRow "IG ID"))
  then Throw ErrCSVRowMissing
  else new (prop csvRow "Account") (prop csvRow "IG ID")
           (or_else (prop csvRow "Account Name") (prop csvRow "Account")).

Definition getKey (a : t) : string := ("account_" ++ accountId a)%string.

End InstagramAccount.

Module MonthlyAccountData.
Import Csv.

Record Metrics : Type := mkMetrics { reach : jsnum; followers : jsnum; views : jsnum }.

Record t : Type :=
  mk { account : InstagramAccount.t; year : Z; month : Z; metrics : Metrics }.

(** [data.metrics[metric]]: the value of an own property, [None] for
    [undefined].  Names of members of [Object.prototype] are not considered. *)
Definition metric (m : Metrics) (name : string) : option jsnum :=
  if String.eqb name "reach" then Some (reach m)
  else if String.eqb name "followers" then Some (followers m)
  else if String.eqb name "views" then Some (views m)
  else None.

Definition parseNumeric (value : cell) : jsnum :=
  match value with
  | Null | Undefined => zero
  | Str s =>
      if String.eqb s "" then zero
      else
        let parsed := parseFloat (removeCommas s) in
        if isNaN parsed then zero else parsed
  end.

Definition validateMetrics (rawMetrics : row) : Metrics :=
  {| reach := parseNumeric (or_else (prop rawMetrics "reach") (prop rawMetrics "Reach"));
     followers := parseNumeric (or_else (prop rawMetrics "followers") (prop rawMetrics "Followers"));
     views := parseNumeric (or_else (prop rawMetrics "views") (prop rawMetrics "Views")) |}.

(** [new MonthlyAccountData(account, year, month, metrics)], with an integer
    year and month. *)
Definition new (account : InstagramAccount.t) (year month : Z) (rawMetrics : row)
    : result t :=
  if (year =? 0) || (month =? 0) || (month <? 1) || (month >? 12)
  then Throw ErrMonthlyRequires
  else Ok {| account := account; year := year; month := month;
             metrics := validateMetrics rawMetrics |}.

Definition fromCSVRow (csvRow : row) (year month : Z) : result t :=
  rbind (InstagramAccount.fromCSVRow csvRow)
        (fun account => new account year month csvRow).

Definition getPeriod (d : t) : PeriodExtractor.Period :=
  PeriodExtractor.mkPeriod (year d) (month d).

End MonthlyAccountData.

Module AccountTimeseries.
Import Js.

Record t : Type :=
  mk { account : InstagramAccount.t; monthlyData : map MonthlyAccountData.t }.

Definition new (account : InstagramAccount.t) : t :=
  {| account := account; monthlyData := [] |}.

Definition addMonthlyData (ts : t) (monthlyData : MonthlyAccountData.t) : result t :=
  if negb (String.eqb
             (InstagramAccount.accountId (MonthlyAccountData.account monthlyData))
             (InstagramAccount.accountId (account ts)))
  then Throw ErrOtherAccount
  else
    let key := periodKey (MonthlyAccountData.year monthlyData)
                         (MonthlyAccountData.month monthlyData) in
    Ok {| account := account ts;
          monthlyData := set (AccountTimeseries.monthlyData ts) key monthlyData |}.

Definition getMonthlyData (ts : t) (year month : Z) : option MonthlyAccountData.t :=
  get (monthlyData ts) (periodKey year month).

Definition dataAfter (a b : MonthlyAccountData.t) : bool :=
  PeriodExtractor.chronoAfter
    (MonthlyAccountData.year a) (MonthlyAccountData.month a)
    (MonthlyAccountData.year b) (MonthlyAccountData.month b).

Definition getAllMonthlyData (ts : t) : list MonthlyAccountData.t :=
  sort dataAfter (values (monthlyData ts)).

Definition getMonthCount (ts : t) : nat := size (monthlyData ts).

(** [getAvailablePeriods()]. *)
Definition getAvailablePeriods (ts : t) : list PeriodExtractor.Period :=
  sort PeriodExtractor.periodAfter
       (List.map MonthlyAccountData.getPeriod (values (monthlyData ts))).

Definition hasDataForPeriod (ts : t) (year month : Z) : bool :=
  match getMonthlyData ts year month with
  | Some _ => true
  | None => false
  end.

End AccountTimeseries.

Module TimeseriesDataset.
Import Js.

Record t : Type := mk { accountTimeseries : map AccountTimeseries.t }.

Definition new : t := {| accountTimeseries := [] |}.

Definition addMonthlyData (ds : t) (monthlyData : MonthlyAccountData.t) : result t :=
  let accountKey := InstagramAccount.getKey (MonthlyAccountData.account monthlyData) in
  let series :=
    if negb (has (accountTimeseries ds) accountKey)
    then set (accountTimeseries ds) accountKey
           (AccountTimeseries.new (MonthlyAccountData.account monthlyData))
    else accountTimeseries ds in
  match get series accountKey with
  | None => Throw (TypeError "addMonthlyData")
  | Some ts =>
      rbind (AccountTimeseries.addMonthlyData ts monthlyData)
            (fun ts' => Ok {| accountTimeseries := set series accountKey ts' |})
  end.

Definition getAccountTimeseries (ds : t) (accountId : string)
    : option AccountTimeseries.t :=
  get (accountTimeseries ds) ("account_" ++ accountId)%string.

Section Locale.
(** [a.localeCompare(b)], which the host's collation decides. *)
Variable localeCompare : string -> string -> Z.

Definition usernameAfter (a b : MonthlyAccountData.t) : bool :=
  localeCompare (InstagramAccount.username (MonthlyAccountData.account a))
                (InstagramAccount.username (MonthlyAccountData.account b)) >? 0.

Definition getDataForPeriod (ds : t) (year month : Z) : list MonthlyAccountData.t :=
  let result :=
    flat_map (fun timeseries =>
                match AccountTimeseries.getMonthlyData timeseries year month with
                | Some monthlyData => [monthlyData]
                | None => []
                end)
             (values (accountTimeseries ds)) in
  sort usernameAfter result.
End Locale.

(** [getStats().totalDataPoints]: the number of records in the dataset. *)
Definition totalDataPoints (ds : t) : nat :=
  fold_left (fun sum timeseries => (sum + AccountTimeseries.getMonthCount timeseries)%nat)
            (values (accountTimeseries ds)) O.

Definition clear (ds : t) : t := {| accountTimeseries := [] |}.

(** [parseInt(s)] without a radix: leading white space, an optional sign,
    then hexadecimal digits after [0x] or [0X] and decimal digits otherwise;
    [None] stands for NaN. *)
Definition hexValue (c : ascii) : option Z :=
  let n := nat_of_ascii c in
  if ((48 <=? n) && (n <=? 57))%nat then Some (Z.of_nat n - 48)
  else if ((97 <=? n) && (n <=? 102))%nat then Some (Z.of_nat n - 87)
  else if ((65 <=? n) && (n <=? 70))%nat then Some (Z.of_nat n - 55)
  else None.

Fixpoint readHexDigits (s : string) (acc : Z) (count : nat) : Z * nat :=
  match s with
  | String c rest =>
      match hexValue c with
      | Some v => readHexDigits rest (16 * acc + v) (S count)
      | None => (acc, count)
      end
  | EmptyString => (acc, count)
  end.

Definition parseInt (s : string) : option Z :=
  let (negative, body) := Csv.readSign (Csv.trimStart s) in
  let decimal := let '(value, count, _) := Csv.readDigits body 0 0 in (value, count) in
  let (value, count) :=
    match body with
    | String "0" (String x rest) =>
        if Ascii.eqb x "x" || Ascii.eqb x "X" then readHexDigits rest 0 0 else decimal
    | _ => decimal
    end in
  match count with
  | O => None
  | S _ => Some (if negative then - value else value)
  end.

(** [key.split('_')]. *)
Fixpoint splitUnderscore (s : string) : list string :=
  match s with
  | EmptyString => [EmptyString]
  | String c rest =>
      if Ascii.eqb c "_" then EmptyString :: splitUnderscore rest
      else match splitUnderscore rest with
           | head :: tail => String c head :: tail
           | [] => [String c EmptyString]
           end
  end.

(** [Set.prototype.add]: a new key goes to the end. *)
Definition setAdd (keys : list string) (k : string) : list string :=
  if setHas keys k then keys else (keys ++ [k])%list.

(** A period as [getAllPeriods] reads it back from a key; [None] stands for
    NaN. *)
Record ParsedPeriod : Type :=
  mkParsed { parsedYear : option Z; parsedMonth : option Z }.

(** [a !== b] on numbers. *)
Definition numberDiffers (a b : option Z) : bool :=
  match a, b with
  | Some x, Some y => negb (x =? y)
  | _, _ => true
  end.

(** [a - b > 0] on numbers. *)
Definition differencePositive (a b : option Z) : bool :=
  match a, b with
  | Some x, Some y => x - y >? 0
  | _, _ => false
  end.

Definition parsedAfter (a b : ParsedPeriod) : bool :=
  if numberDiffers (parsedYear a) (parsedYear b)
  then differencePositive (parsedYear a) (parsedYear b)
  else differencePositive (parsedMonth a) (parsedMonth b).

(** The keys [getAllPeriods] collects in [periodsSet]. *)
Definition periodKeys (ds : t) : list string :=
  fold_left
    (fun periodsSet timeseries =>
       fold_left
         (fun periodsSet period =>
            setAdd periodsSet
              (periodKey (PeriodExtractor.year period) (PeriodExtractor.month period)))
         (AccountTimeseries.getAvailablePeriods timeseries) periodsSet)
    (values (accountTimeseries ds)) [].

(** [const [year, month] = key.split('_')] and the object made of them;
    [parseInt(undefined)] is NaN. *)
Definition parseKey (key : string) : ParsedPeriod :=
  let parts := splitUnderscore key in
  let part i := match nth_error parts i with
                | Some text => parseInt text
                | None => None
                end in
  {| parsedYear := part 0%nat; parsedMonth := part 1%nat |}.

Definition getAllPeriods (ds : t) : list ParsedPeriod :=
  sort parsedAfter (List.map parseKey (periodKeys ds)).

Section Accounts.
Variable localeCompare : string -> string -> Z.

Definition accountAfter (a b : InstagramAccount.t) : bool :=
  localeCompare (InstagramAccount.username a) (InstagramAccount.username b) >? 0.

Definition getAllAccounts (ds : t) : list InstagramAccount.t :=
  sort accountAfter (List.map AccountTimeseries.account (values (accountTimeseries ds))).
End Accounts.

(** [getStats()]. *)
Record Stats : Type :=
  mkStats { totalAccounts : nat; totalPeriods : nat; statsDataPoints : nat }.

Definition getStats (ds : t) : Stats :=
  {| totalAccounts := size (accountTimeseries ds);
     totalPeriods := List.length (getAllPeriods ds);
     statsDataPoints := totalDataPoints ds |}.

End TimeseriesDataset.

(** ** csv_processor.js: from parsed rows to the dataset *)

Module CsvProcessor.
Import Csv.

(** [convertToMonthlyData(csvRows, year, month)]: a row without account and
    identifier is skipped, a row whose conversion throws is reported on the
    console and left out. *)
Definition convertToMonthlyData (csvRows : list row) (year month : Z)
    : result (list MonthlyAccountData.t) :=
  let monthlyDataList :=
    flat_map (fun r =>
                if negb (truthy (prop r "Account")) && negb (truthy (prop r "IG ID"))
                then []
                else match MonthlyAccountData.fromCSVRow r year month with
                     | Ok monthlyData => [monthlyData]
                     | Throw _ => []
                     end)
             csvRows in
  match monthlyDataList with
  | [] => Throw ErrNoValidData
  | _ :: _ => Ok monthlyDataList
  end.

(** The loop of [processMultipleInstagramCSVs] that merges the records of one
    file, [for (const monthlyData of result.data) dataset.addMonthlyData(monthlyData)];
    a throw leaves the loop and the file is reported as failed. *)
Fixpoint addAll (dataset : TimeseriesDataset.t) (data : list MonthlyAccountData.t)
    : TimeseriesDataset.t :=
  match data with
  | [] => dataset
  | monthlyData :: rest =>
      match TimeseriesDataset.addMonthlyData dataset monthlyData with
      | Ok dataset' => addAll dataset' rest
      | Throw _ => dataset
      end
  end.

(** The dataset [processMultipleInstagramCSVs] returns: one file after the
    other, each a list of rows with its period; a file that cannot be
    converted is reported and skipped. *)
Fixpoint ingest (dataset : TimeseriesDataset.t) (files : list (list row * (Z * Z)))
    : TimeseriesDataset.t :=
  match files with
  | [] => dataset
  | (csvRows, (year, month)) :: rest =>
      match convertToMonthlyData csvRows year month with
      | Ok data => ingest (addAll dataset data) rest
      | Throw _ => ingest dataset rest
      end
  end.

Definition EXPECTED_COLUMNS : list string :=
  ["Account"; "Account Name"; "IG ID"; "FB Page"; "Reach"; "Views"; "Followers";
   "Status"; "Comment"]%string.

(** What the checks read of a result of Papa Parse: [meta.fields], [None]
    when [meta] or [meta.fields] is missing; [data], [None] when it is
    missing; the number of entries of [errors]. *)
Record ParseResult : Type := mkParseResult {
  fields : option (list string);
  data : option (list row);
  parseErrors : nat
}.

(** The errors [validateCSVStructure] throws, by their message. *)
Inductive structureError : Type :=
| NoHeader
| ColumnCount (found expected : nat)
| ColumnNames
| NoRows.

(** [normalizedActual[i] !== normalizedExpected[i]] for [i] below the length
    of the expected columns, the two lists being of one length. *)
Fixpoint mismatches (actual expected : list string) : list (string * string) :=
  match actual, expected with
  | a :: actual', e :: expected' =>
      if negb (String.eqb a e) then (e, a) :: mismatches actual' expected'
      else mismatches actual' expected'
  | _, _ => []
  end.

(** [validateCSVStructure(parseResult, filename)] of [csv_processor.js]:
    [None] when it returns, the error when it throws. *)
Definition validateCSVStructure (parseResult : ParseResult) : option structureError :=
  match fields parseResult with
  | None => Some NoHeader
  | Some actualColumns =>
      let normalizedActual := List.map trim actualColumns in
      let normalizedExpected := List.map trim EXPECTED_COLUMNS in
      if negb (List.length normalizedActual =? List.length normalizedExpected)%nat
      then Some (ColumnCount (List.length normalizedActual) (List.length normalizedExpected))
      else
        match mismatches normalizedActual normalizedExpected with
        | _ :: _ => Some ColumnNames
        | [] =>
            match data parseResult with
            | None | Some [] => Some NoRows
            | Some (_ :: _) => None
            end
        end
  end.

(** The entries of the [errors] list of [validateCSVRow]. *)
Inductive rowError : Type :=
| NoAccount
| NoIgId
| InvalidValue (field value : string).

Record rowCheck : Type := mkRowCheck { rowValid : bool; rowErrors : list rowError }.

Definition validateCSVRow (r : row) : rowCheck :=
  let noAccount :=
    negb (truthy (prop r "Account")) || String.eqb (trim (text (prop r "Account"))) "" in
  let noIgId :=
    negb (truthy (prop r "IG ID")) || String.eqb (trim (text (prop r "IG ID"))) "" in
  let numeric :=
    flat_map (fun field =>
                match prop r field with
                | Str s =>
                    if String.eqb s "" then []
                    else
                      let numValue := parseFloat (removeCommas s) in
                      if isNaN numValue || ltb numValue zero then [InvalidValue field s]
                      else []
                | _ => []
                end)
             ["Reach"; "Views"; "Followers"]%string in
  {| rowValid := negb noAccount && negb noIgId;
     rowErrors := ((if noAccount then [NoAccount] else [])
                   ++ (if noIgId then [NoIgId] else []) ++ numeric)%list |}.

End CsvProcessor.

(** ** Result objects *)

Module Obj.

(** The value of a field of a result object. *)
Inductive value : Type :=
| VNum (n : jsnum)
| VStr (s : string)
| VNull
| VUndefined.

(** An object literal: its fields in the order they are written. *)
Definition obj : Type := list (string * value).

Fixpoint field (o : obj) (name : string) : option value :=
  match o with
  | [] => None
  | (k, v) :: rest => if String.eqb name k then Some v else field rest name
  end.

Definition hasField (o : obj) (name : string) : bool :=
  match field o name with Some _ => true | None => false end.

(** A field read as a number; [None] when it is missing or not a number. *)
Definition numField (o : obj) (name : string) : option jsnum :=
  match field o name with Some (VNum n) => Some n | _ => None end.

End Obj.

(** ** reach_calculator.js *)

Module ReachCalculator.
Import Obj.
Open Scope eff_scope.
Open Scope string_scope.

Definition NON_SUMMABLE_METRICS : list string := ["reach"].
Definition SUMMABLE_METRICS : list string := ["followers"; "views"].

(** [list.includes(x)] on strings. *)
Definition includes (l : list string) (x : string) : bool :=
  existsb (String.eqb x) l.

Definition isMetricSummable (metric : string) : bool :=
  includes SUMMABLE_METRICS metric.

Definition isMetricUniquePersons (metric : string) : bool :=
  includes NON_SUMMABLE_METRICS metric.

(** The test every aggregation applies to a metric value:
    [value !== null && value !== undefined && !isNaN(value) && value >= 0]. *)
Definition isValidValue (value : option jsnum) : bool :=
  match value with
  | None => false
  | Some v => negb (isNaN v) && geb v zero
  end.

(** [list.map(data => data.metrics[metric]).filter(valid)]. *)
Definition validValues (monthlyData : list MonthlyAccountData.t) (metric : string)
    : list jsnum :=
  flat_map (fun data =>
              let value := MonthlyAccountData.metric (MonthlyAccountData.metrics data) metric in
              if isValidValue value then
                match value with Some v => [v] | None => [] end
              else [])
           monthlyData.

Definition validateMetricOperation (operation metric : string) : M unit :=
  tell (CallValidateMetricOperation operation metric) ;;;
  (if (String.eqb operation "sum" || String.eqb operation "total")
      && includes NON_SUMMABLE_METRICS metric
   then throw (ErrUniquePersonsSum metric) else ret tt) ;;;
  if (String.eqb operation "average" || String.eqb operation "mean")
     && includes SUMMABLE_METRICS metric
  then tell (ConsoleWarn metric) else ret tt.

(** [s.toLowerCase()], on the letters of ASCII. *)
Definition lowerChar (c : ascii) : ascii :=
  let n := nat_of_ascii c in
  if ((65 <=? n) && (n <=? 90))%nat then ascii_of_nat (n + 32) else c.

Fixpoint toLowerCase (s : string) : string :=
  match s with
  | EmptyString => EmptyString
  | String c rest => String (lowerChar c) (toLowerCase rest)
  end.

(** [values.length] as a number. *)
Definition lengthOf {A} (l : list A) : jsnum := ofZ (Z.of_nat (List.length l)).

Definition safeMetricAggregation (accountTimeseries : AccountTimeseries.t)
    (metric operation : string) : M jsnum :=
  if String.eqb metric "" || String.eqb operation ""
  then throw (ErrRequires "safeMetricAggregation")
  else
    validateMetricOperation operation metric ;;;
    let monthlyData := AccountTimeseries.getAllMonthlyData accountTimeseries in
    match monthlyData with
    | [] => ret zero
    | _ :: _ =>
        let values := validValues monthlyData metric in
        match values with
        | [] => ret zero
        | _ :: _ =>
            let op := toLowerCase operation in
            if String.eqb op "sum" || String.eqb op "total" then
              ret (sum values)
            else if String.eqb op "average" || String.eqb op "mean" then
              ret (Math_round (div (sum values) (lengthOf values)))
            else if String.eqb op "min" || String.eqb op "minimum" then
              ret (Math_min values)
            else if String.eqb op "max" || String.eqb op "maximum" then
              ret (Math_max values)
            else throw (ErrUnknownOperation operation)
        end
    end.

(** The object [calculateAverageReach] returns.  The functions below are
    given a series, so that their first test never throws. *)
Record ReachStats : Type := mkReachStats {
  averageReach : jsnum;
  minReach : jsnum;
  maxReach : jsnum;
  totalPeriods : nat;
  validPeriods : nat
}.

(** The variables of the loop of [calculateAverageReach]. *)
Record ReachLoop : Type := mkReachLoop {
  totalReach : jsnum;
  validCount : nat;
  loopMin : jsnum;
  loopMax : jsnum
}.

Definition reachStep (state : ReachLoop) (data : MonthlyAccountData.t) : ReachLoop :=
  let reach := MonthlyAccountData.reach (MonthlyAccountData.metrics data) in
  if negb (isNaN reach) && geb reach zero then
    {| totalReach := add (totalReach state) reach;
       validCount := S (validCount state);
       loopMin := min2 (loopMin state) reach;
       loopMax := max2 (loopMax state) reach |}
  else state.

Definition calculateAverageReach (accountTimeseries : AccountTimeseries.t) : ReachStats :=
  let monthlyData := AccountTimeseries.getAllMonthlyData accountTimeseries in
  match monthlyData with
  | [] => mkReachStats zero zero zero 0 0
  | _ :: _ =>
      let final := fold_left reachStep monthlyData (mkReachLoop zero 0 PInf NInf) in
      match validCount final with
      | O => mkReachStats zero zero zero (List.length monthlyData) 0
      | S _ =>
          {| averageReach :=
               Math_round (div (totalReach final) (ofZ (Z.of_nat (validCount final))));
             minReach := if eqb (loopMin final) PInf then zero else loopMin final;
             maxReach := if eqb (loopMax final) NInf then zero else loopMax final;
             totalPeriods := List.length monthlyData;
             validPeriods := validCount final |}
      end
  end.

(** An entry of the list [compareMonthlyReach] returns. *)
Record ReachComparison : Type := mkReachComparison {
  reachCurrentPeriod : PeriodExtractor.Period;
  reachPreviousPeriod : PeriodExtractor.Period;
  currentReach : jsnum;
  previousReach : jsnum;
  reachAbsoluteChange : jsnum;
  reachPercentageChange : option jsnum;
  reachUsername : string;
  reachAccountId : string
}.

(** [x || 0] on a number: zero and NaN are falsy. *)
Definition orZero (x : jsnum) : jsnum :=
  match x with
  | NaN => zero
  | Fin q => if Qeq_bool q 0 then zero else x
  | _ => x
  end.

(** A number read as a condition. *)
Definition truthyNumber (x : jsnum) : bool :=
  match x with
  | NaN => false
  | Fin q => negb (Qeq_bool q 0)
  | _ => true
  end.

Definition reachComparison (previous current : MonthlyAccountData.t) : ReachComparison :=
  let currentReach := orZero (MonthlyAccountData.reach (MonthlyAccountData.metrics current)) in
  let previousReach := orZero (MonthlyAccountData.reach (MonthlyAccountData.metrics previous)) in
  let percentageChange :=
    if gtb previousReach zero
    then Some (mul (div (sub currentReach previousReach) previousReach) (ofZ 100))
    else if gtb currentReach zero then Some (ofZ 100)
    else None in
  {| reachCurrentPeriod := MonthlyAccountData.getPeriod current;
     reachPreviousPeriod := MonthlyAccountData.getPeriod previous;
     currentReach := currentReach;
     previousReach := previousReach;
     reachAbsoluteChange := sub currentReach previousReach;
     reachPercentageChange :=
       match percentageChange with
       | Some change =>
           if truthyNumber change
           then Some (div (Math_round (mul change (ofZ 100))) (ofZ 100))
           else None
       | None => None
       end;
     reachUsername := InstagramAccount.username (MonthlyAccountData.account current);
     reachAccountId := InstagramAccount.accountId (MonthlyAccountData.account current) |}.

(** The pairs [(l[i - 1], l[i])] of a loop [for (let i = 1; i < l.length; i++)]. *)
Fixpoint consecutive {A} (l : list A) : list (A * A) :=
  match l with
  | previous :: ((current :: _) as rest) => (previous, current) :: consecutive rest
  | _ => []
  end.

Definition compareMonthlyReach (accountTimeseries : AccountTimeseries.t)
    : list ReachComparison :=
  let monthlyData := AccountTimeseries.getAllMonthlyData accountTimeseries in
  if (List.length monthlyData <? 2)%nat then []
  else List.map (fun pair => reachComparison (fst pair) (snd pair)) (consecutive monthlyData).

End ReachCalculator.

(** ** metric_categorizer.js: the table of metrics *)

Module MetricCategorizer.
Open Scope string_scope.

(** An entry of [METRIC_DEFINITIONS], with the fields that rule aggregation. *)
Record definition : Type := mkDefinition {
  category : string;
  defCanSumAcrossTime : bool;
  defCanSumAcrossPages : bool;
  preferredAggregation : string;
  validAggregations : list string
}.

Definition METRIC_DEFINITIONS : list (string * definition) :=
  [("reach",
    {| category := "unique_persons";
       defCanSumAcrossTime := false;
       defCanSumAcrossPages := false;
       preferredAggregation := "average";
       validAggregations := ["average"; "min"; "max"] |});
   ("followers",
    {| category := "countable_metric";
       defCanSumAcrossTime := true;
       defCanSumAcrossPages := true;
       preferredAggregation := "sum";
       validAggregations := ["sum"; "average"; "min"; "max"] |});
   ("views",
    {| category := "countable_events";
       defCanSumAcrossTime := true;
       defCanSumAcrossPages := true;
       preferredAggregation := "sum";
       validAggregations := ["sum"; "average"; "min"; "max"] |})].

(** [METRIC_DEFINITIONS[metricKey] || null]. *)
Definition getMetricDefinition (metricKey : string) : option definition :=
  Js.get METRIC_DEFINITIONS metricKey.

Definition canSumAcrossTime (metricKey : string) : bool :=
  match getMetricDefinition metricKey with
  | Some d => defCanSumAcrossTime d
  | None => false
  end.

Definition canSumAcrossPages (metricKey : string) : bool :=
  match getMetricDefinition metricKey with
  | Some d => defCanSumAcrossPages d
  | None => false
  end.

(** The names every object literal inherits from [Object.prototype]: for
    them [METRIC_DEFINITIONS[metricKey]] is a function or an object, which
    counts as true and has none of the fields of a definition. *)
Definition inheritedNames : list string :=
  ["constructor"; "__defineGetter__"; "__defineSetter__"; "hasOwnProperty";
   "__lookupGetter__"; "__lookupSetter__"; "isPrototypeOf"; "propertyIsEnumerable";
   "toString"; "valueOf"; "__proto__"; "toLocaleString"].

(** The result of [validateMetricOperation]; the texts of [error] and
    [suggestion] are kept by their kind. *)
Inductive operationError : Type :=
| UnknownMetric
| InvalidOperation
| NeverSummedOverMonths.

Record operationCheck : Type :=
  mkOperationCheck { isValid : bool; error : option operationError }.

(** [validateMetricOperation(operation, metricKey)] of this module, which
    returns its verdict.  For an inherited name [getValidAggregations] returns
    [undefined], and calling [includes] on it throws. *)
Definition validateMetricOperation (operation metricKey : string) : result operationCheck :=
  if ReachCalculator.includes inheritedNames metricKey
  then Throw (TypeError "Cannot read properties of undefined")
  else
    match getMetricDefinition metricKey with
    | None => Ok (mkOperationCheck false (Some UnknownMetric))
    | Some definition =>
        if negb (ReachCalculator.includes (validAggregations definition) operation)
        then Ok (mkOperationCheck false (Some InvalidOperation))
        else if (String.eqb operation "sum" || String.eqb operation "total")
                && negb (defCanSumAcrossTime definition)
        then Ok (mkOperationCheck false (Some NeverSummedOverMonths))
        else Ok (mkOperationCheck true None)
    end.

End MetricCategorizer.

(** ** timeseries_analytics.js *)

Module TimeseriesAnalytics.
Import ReachCalculator.
Open Scope eff_scope.
Open Scope string_scope.

Definition hundred : jsnum := ofZ 100.

(** [calculatePercentageChange]; an argument is [None] when it is
    [undefined], the result is [None] when it is [null]. *)
Definition calculatePercentageChange (currentValue previousValue : option jsnum)
    : option jsnum :=
  match previousValue with
  | None =>
      Some (match currentValue with
            | Some c => if gtb c zero then hundred else zero
            | None => zero
            end)
  | Some p =>
      if eqb p zero then
        Some (match currentValue with
              | Some c => if gtb c zero then hundred else zero
              | None => zero
              end)
      else
        match currentValue with
        | None => None
        | Some c => Some (mul (div (sub c p) p) hundred)
        end
  end.

Record TrendEntry : Type := mkTrend {
  period : PeriodExtractor.Period;
  previousPeriod : PeriodExtractor.Period;
  currentValue : option jsnum;
  previousValue : option jsnum;
  absoluteChange : jsnum;
  percentageChange : option jsnum;
  trendMetric : string;
  username : string;
  accountId : string
}.

(** [a - b] where a side may be [undefined]. *)
Definition subValues (a b : option jsnum) : jsnum :=
  match a, b with
  | Some x, Some y => sub x y
  | _, _ => NaN
  end.

Definition trendEntry (metric : string) (previous current : MonthlyAccountData.t)
    : TrendEntry :=
  let currentValue := MonthlyAccountData.metric (MonthlyAccountData.metrics current) metric in
  let previousValue := MonthlyAccountData.metric (MonthlyAccountData.metrics previous) metric in
  let percentageChange := calculatePercentageChange currentValue previousValue in
  {| period := MonthlyAccountData.getPeriod current;
     previousPeriod := MonthlyAccountData.getPeriod previous;
     currentValue := currentValue;
     previousValue := previousValue;
     absoluteChange := subValues currentValue previousValue;
     percentageChange := percentageChange;
     trendMetric := metric;
     username := InstagramAccount.username (MonthlyAccountData.account current);
     accountId := InstagramAccount.accountId (MonthlyAccountData.account current) |}.

(** The loop [for (let i = 1; i < monthlyData.length; i++)] over the pairs
    [(monthlyData[i - 1], monthlyData[i])]. *)
Fixpoint adjacentPairs {A} (l : list A) : list (A * A) :=
  match l with
  | previous :: ((current :: _) as rest) => (previous, current) :: adjacentPairs rest
  | _ => []
  end.

Definition calculateMonthToMonthTrend (accountTimeseries : AccountTimeseries.t)
    (metric : string) : M (list TrendEntry) :=
  if String.eqb metric "" then throw (ErrRequires "calculateMonthToMonthTrend")
  else
    let monthlyData := AccountTimeseries.getAllMonthlyData accountTimeseries in
    if (List.length monthlyData <? 2)%nat then ret []
    else ret (List.map (fun pair => trendEntry metric (fst pair) (snd pair))
                       (adjacentPairs monthlyData)).

Definition summerableMetrics : list string := ["followers"; "views"].

Definition calculateMetricTotal (accountTimeseries : AccountTimeseries.t)
    (metric : string) : M jsnum :=
  if String.eqb metric "" then throw (ErrRequires "calculateMetricTotal")
  else if negb (includes summerableMetrics metric) then throw (ErrNotSummable metric)
  else
    let monthlyData := AccountTimeseries.getAllMonthlyData accountTimeseries in
    match monthlyData with
    | [] => ret zero
    | _ :: _ =>
        ret (fold_left
               (fun total data =>
                  match MonthlyAccountData.metric (MonthlyAccountData.metrics data) metric with
                  | Some value => if negb (isNaN value) then add total value else total
                  | None => total
                  end)
               monthlyData zero)
    end.

(** The object [calculateAverageTrend] returns. *)
Record AverageTrend : Type := mkAverageTrend {
  averageAbsoluteChange : jsnum;
  averagePercentageChange : jsnum;
  trendTotalPeriods : nat;
  positiveMonths : nat;
  negativeMonths : nat;
  stableMonths : nat
}.

(** The variables of the loop of [calculateAverageTrend]. *)
Record TrendLoop : Type := mkTrendLoop {
  totalAbsolute : jsnum;
  totalPercentage : jsnum;
  validPercentageCount : nat;
  loopPositive : nat;
  loopNegative : nat;
  loopStable : nat
}.

Definition trendStep (state : TrendLoop) (trend : TrendEntry) : TrendLoop :=
  let totalAbsolute := add (totalAbsolute state) (absoluteChange trend) in
  match percentageChange trend with
  | Some change =>
      if negb (isNaN change) then
        {| totalAbsolute := totalAbsolute;
           totalPercentage := add (totalPercentage state) change;
           validPercentageCount := S (validPercentageCount state);
           loopPositive := if gtb change (ofZ 1) then S (loopPositive state)
                           else loopPositive state;
           loopNegative := if gtb change (ofZ 1) then loopNegative state
                           else if ltb change (ofZ (-1)) then S (loopNegative state)
                           else loopNegative state;
           loopStable := if gtb change (ofZ 1) then loopStable state
                         else if ltb change (ofZ (-1)) then loopStable state
                         else S (loopStable state) |}
      else
        {| totalAbsolute := totalAbsolute;
           totalPercentage := totalPercentage state;
           validPercentageCount := validPercentageCount state;
           loopPositive := loopPositive state;
           loopNegative := loopNegative state;
           loopStable := loopStable state |}
  | None =>
      {| totalAbsolute := totalAbsolute;
         totalPercentage := totalPercentage state;
         validPercentageCount := validPercentageCount state;
         loopPositive := loopPositive state;
         loopNegative := loopNegative state;
         loopStable := loopStable state |}
  end.

Definition calculateAverageTrend (trendData : list TrendEntry) : AverageTrend :=
  match trendData with
  | [] => mkAverageTrend zero zero 0 0 0 0
  | _ :: _ =>
      let final := fold_left trendStep trendData (mkTrendLoop zero zero 0 0 0 0) in
      {| averageAbsoluteChange := div (totalAbsolute final) (lengthOf trendData);
         averagePercentageChange :=
           match validPercentageCount final with
           | O => zero
           | S _ => div (totalPercentage final)
                        (ofZ (Z.of_nat (validPercentageCount final)))
           end;
         trendTotalPeriods := List.length trendData;
         positiveMonths := loopPositive final;
         negativeMonths := loopNegative final;
         stableMonths := loopStable final |}
  end.

(** [data.metrics[metric]]. *)
Definition metricOf (metric : string) (data : MonthlyAccountData.t) : option jsnum :=
  MonthlyAccountData.metric (MonthlyAccountData.metrics data) metric.

(** [a > b] where a side may be [undefined]. *)
Definition greater (a b : option jsnum) : bool :=
  match a, b with
  | Some x, Some y => gtb x y
  | _, _ => false
  end.

(** One turn of the loop of [findPerformanceExtremes] on [(best, worst)]; a
    value of a record is a number or [undefined], never [null]. *)
Definition extremesStep (metric : string)
    (state : MonthlyAccountData.t * MonthlyAccountData.t) (data : MonthlyAccountData.t)
    : MonthlyAccountData.t * MonthlyAccountData.t :=
  let (best, worst) := state in
  match metricOf metric data with
  | Some _ =>
      (if greater (metricOf metric data) (metricOf metric best) then data else best,
       if greater (metricOf metric worst) (metricOf metric data) then data else worst)
  | None => state
  end.

(** [findPerformanceExtremes]: the records [best.data] and [worst.data], or
    [None] for [{ best: null, worst: null }]. *)
Definition findPerformanceExtremes (accountTimeseries : AccountTimeseries.t)
    (metric : string) : M (option (MonthlyAccountData.t * MonthlyAccountData.t)) :=
  if String.eqb metric "" then throw (ErrRequires "findPerformanceExtremes")
  else
    let monthlyData := AccountTimeseries.getAllMonthlyData accountTimeseries in
    match monthlyData with
    | [] => ret None
    | first :: _ => ret (Some (fold_left (extremesStep metric) monthlyData (first, first)))
    end.

Definition calculateMetricAverage (accountTimeseries : AccountTimeseries.t)
    (metric : string) : M jsnum :=
  if String.eqb metric "" then throw (ErrRequires "calculateMetricAverage")
  else
    let monthlyData := AccountTimeseries.getAllMonthlyData accountTimeseries in
    match monthlyData with
    | [] => ret zero
    | _ :: _ =>
        let (total, validCount) :=
          fold_left
            (fun state data =>
               match metricOf metric data with
               | Some value =>
                   if negb (isNaN value) then (add (fst state) value, S (snd state))
                   else state
               | None => state
               end)
            monthlyData (zero, O) in
        match validCount with
        | O => ret zero
        | S _ => ret (div total (ofZ (Z.of_nat validCount)))
        end
    end.

End TimeseriesAnalytics.

(** ** aggregation_service.js *)

Module AggregationService.
Import Obj ReachCalculator.
Import PeriodExtractor(Period, mkPeriod).
Open Scope eff_scope.
Open Scope string_scope.

Definition allMetrics : list string := ["reach"; "followers"; "views"].

(** [for (const x of xs) { ... }] with a body that may throw. *)
Fixpoint forEach {A B} (body : A -> M B) (xs : list A) : M (list B) :=
  match xs with
  | [] => ret []
  | x :: rest =>
      y <- body x ;;
      ys <- forEach body rest ;;
      ret (y :: ys)
  end.

Record AccountAggregation : Type := mkAccountAggregation {
  aggAccount : InstagramAccount.t;
  periodsTotal : nat;
  periodsFirst : option Period;
  periodsLast : option Period;
  periodsIncluded : list Period;
  aggMetrics : list (string * obj)
}.

Definition createEmptyAggregation (account : InstagramAccount.t) : AccountAggregation :=
  let metrics :=
    List.map (fun metric =>
      if includes NON_SUMMABLE_METRICS metric then
        (metric, [("type", VStr "average"); ("average", VNum zero);
                  ("min", VNum zero); ("max", VNum zero);
                  ("note", VStr "Inga data tillgängliga")])
      else
        (metric, [("type", VStr "total"); ("total", VNum zero);
                  ("average", VNum zero);
                  ("note", VStr "Inga data tillgängliga")]))
      allMetrics in
  {| aggAccount := account; periodsTotal := 0; periodsFirst := None;
     periodsLast := None; periodsIncluded := []; aggMetrics := metrics |}.

(** The object built for one metric in the loop of [aggregateAccountData]. *)
Definition aggregateMetric (accountTimeseries : AccountTimeseries.t) (metric : string)
    : M (string * obj) :=
  if includes NON_SUMMABLE_METRICS metric then
    average <- safeMetricAggregation accountTimeseries metric "average" ;;
    min <- safeMetricAggregation accountTimeseries metric "min" ;;
    max <- safeMetricAggregation accountTimeseries metric "max" ;;
    ret (metric,
         [("type", VStr "average"); ("average", VNum average);
          ("min", VNum min); ("max", VNum max);
          ("note", VStr "Genomsnitt - kan ej summeras över månader (unika personer)")])
  else
    total <- safeMetricAggregation accountTimeseries metric "sum" ;;
    average <- safeMetricAggregation accountTimeseries metric "average" ;;
    ret (metric,
         [("type", VStr "total"); ("total", VNum total);
          ("average", VNum average);
          ("note", VStr "Total - kan summeras över månader")]).

(** [periods] is [None] for the default [null]. *)
Definition aggregateAccountData (accountTimeseries : AccountTimeseries.t)
    (periods : option (list Period)) : M AccountAggregation :=
  let allData := AccountTimeseries.getAllMonthlyData accountTimeseries in
  let monthlyData :=
    match periods with
    | Some ((_ :: _) as ps) =>
        let periodKeys :=
          List.map (fun p => Js.periodKey (PeriodExtractor.year p) (PeriodExtractor.month p)) ps in
        filter (fun data =>
                  Js.setHas periodKeys
                    (Js.periodKey (MonthlyAccountData.year data) (MonthlyAccountData.month data)))
               allData
    | _ => allData
    end in
  match monthlyData with
  | [] => ret (createEmptyAggregation (AccountTimeseries.account accountTimeseries))
  | firstData :: _ =>
      metrics <- forEach (aggregateMetric accountTimeseries) allMetrics ;;
      ret {| aggAccount := AccountTimeseries.account accountTimeseries;
             periodsTotal := List.length monthlyData;
             periodsFirst := Some (MonthlyAccountData.getPeriod firstData);
             periodsLast := Some (MonthlyAccountData.getPeriod (List.last monthlyData firstData));
             periodsIncluded := List.map MonthlyAccountData.getPeriod monthlyData;
             aggMetrics := metrics |}
  end.

Record PeriodSummary : Type := mkPeriodSummary {
  summaryPeriod : Period;
  totalAccounts : nat;
  summaryMetrics : list (string * obj)
}.

Section Locale.
Variable localeCompare : string -> string -> Z.

(** The object built for one metric in the loop of [calculatePeriodSummary]. *)
Definition summarizeMetric (periodData : list MonthlyAccountData.t) (metric : string)
    : string * obj :=
  let values := validValues periodData metric in
  match values with
  | [] =>
      (metric,
       [("total", VNum zero); ("average", VNum zero); ("min", VNum zero);
        ("max", VNum zero); ("validAccounts", VNum zero);
        ("type", VStr (if includes NON_SUMMABLE_METRICS metric
                       then "unique_persons" else "countable"))])
  | _ :: _ =>
      if includes NON_SUMMABLE_METRICS metric then
        (metric,
         [("average", VNum (Math_round (div (sum values) (lengthOf values))));
          ("min", VNum (Math_min values));
          ("max", VNum (Math_max values));
          ("validAccounts", VNum (lengthOf values));
          ("type", VStr "unique_persons");
          ("note", VStr "Genomsnitt över konton - total reach kan inte beräknas (överlappning okänd)")])
      else
        let total := sum values in
        (metric,
         [("total", VNum total);
          ("average", VNum (Math_round (div total (lengthOf values))));
          ("min", VNum (Math_min values));
          ("max", VNum (Math_max values));
          ("validAccounts", VNum (lengthOf values));
          ("type", VStr "countable")])
  end.

Definition calculatePeriodSummary (dataset : TimeseriesDataset.t) (year month : Z)
    : M PeriodSummary :=
  let periodData := TimeseriesDataset.getDataForPeriod localeCompare dataset year month in
  match periodData with
  | [] => ret {| summaryPeriod := mkPeriod year month; totalAccounts := 0;
                 summaryMetrics := [] |}
  | _ :: _ =>
      ret {| summaryPeriod := mkPeriod year month;
             totalAccounts := List.length periodData;
             summaryMetrics := List.map (summarizeMetric periodData) allMetrics |}
  end.


Record Comparison : Type := mkComparison {
  currentPeriod : Period;
  comparedPeriod : Period;
  accountCountChange : Z;
  comparisonMetrics : list (string * obj)
}.

(** [summary.metrics[metric]]. *)
Fixpoint metricEntry (metrics : list (string * obj)) (metric : string) : option obj :=
  match metrics with
  | [] => None
  | (k, o) :: rest => if String.eqb metric k then Some o else metricEntry rest metric
  end.

(** A number that may be [undefined], as the value of a field. *)
Definition numValue (v : option jsnum) : value :=
  match v with Some n => VNum n | None => VUndefined end.

(** [previousVal > 0 ? ((currentVal - previousVal) / previousVal) * 100 : null]. *)
Definition comparisonPercentage (currentVal previousVal : option jsnum) : value :=
  match previousVal with
  | Some p =>
      if gtb p zero
      then VNum (mul (div (TimeseriesAnalytics.subValues currentVal previousVal) p)
                     TimeseriesAnalytics.hundred)
      else VNull
  | None => VNull
  end.

(** The object built for one metric in the inner loop of [comparePeriods];
    reading a field of a summary that has no entry for the metric throws. *)
Definition compareMetric (current previous : PeriodSummary) (metric : string)
    : M (string * obj) :=
  match metricEntry (summaryMetrics current) metric, metricEntry (summaryMetrics previous) metric with
  | Some currentMetric, Some previousMetric =>
      if includes NON_SUMMABLE_METRICS metric then
        let currentVal := numField currentMetric "average" in
        let previousVal := numField previousMetric "average" in
        ret (metric,
             [("currentAverage", numValue currentVal);
              ("previousAverage", numValue previousVal);
              ("absoluteChange", VNum (TimeseriesAnalytics.subValues currentVal previousVal));
              ("percentageChange", comparisonPercentage currentVal previousVal);
              ("type", VStr "average_comparison")])
      else
        let currentVal := numField currentMetric "total" in
        let previousVal := numField previousMetric "total" in
        ret (metric,
             [("currentTotal", numValue currentVal);
              ("previousTotal", numValue previousVal);
              ("absoluteChange", VNum (TimeseriesAnalytics.subValues currentVal previousVal));
              ("percentageChange", comparisonPercentage currentVal previousVal);
              ("type", VStr "total_comparison")])
  | _, _ => throw (TypeError "Cannot read properties of undefined")
  end.

Definition comparePair (pair : PeriodSummary * PeriodSummary) : M Comparison :=
  let (previous, current) := pair in
  metrics <- forEach (compareMetric current previous) allMetrics ;;
  ret {| currentPeriod := summaryPeriod current;
         comparedPeriod := summaryPeriod previous;
         accountCountChange :=
           Z.of_nat (totalAccounts current) - Z.of_nat (totalAccounts previous);
         comparisonMetrics := metrics |}.

Definition comparePeriods (dataset : TimeseriesDataset.t) (periods : list Period)
    : M (list Comparison) :=
  if (List.length periods <? 2)%nat then throw (ErrRequires "comparePeriods")
  else
    periodSummaries <-
      forEach (fun period =>
                 calculatePeriodSummary dataset
                   (PeriodExtractor.year period) (PeriodExtractor.month period))
              periods ;;
    forEach comparePair (TimeseriesAnalytics.adjacentPairs periodSummaries).

Record MarketShareEntry : Type := mkShare {
  shareAccount : InstagramAccount.t;
  sharePeriod : Period;
  shareMetric : string;
  shareValue : jsnum;
  marketShare : jsnum;
  totalMarket : jsnum
}.

(** [data.metrics[metric]] used as a number. *)
Definition metricNumber (data : MonthlyAccountData.t) (metric : string) : jsnum :=
  match MonthlyAccountData.metric (MonthlyAccountData.metrics data) metric with
  | Some v => v
  | None => NaN
  end.

(** [(a, b) => b.marketShare - a.marketShare], read as [compare(a, b) > 0]. *)
Definition shareAfter (a b : MarketShareEntry) : bool :=
  gtb (sub (marketShare b) (marketShare a)) zero.

Definition calculateMarketShare (dataset : TimeseriesDataset.t) (year month : Z)
    (metric : string) : M (list MarketShareEntry) :=
  if String.eqb metric "" then throw (ErrRequires "calculateMarketShare")
  else if includes NON_SUMMABLE_METRICS metric then throw (ErrMarketShare metric)
  else
    let periodData := TimeseriesDataset.getDataForPeriod localeCompare dataset year month in
    match periodData with
    | [] => ret []
    | _ :: _ =>
        let validData :=
          filter (fun data =>
                    isValidValue (MonthlyAccountData.metric (MonthlyAccountData.metrics data) metric))
                 periodData in
        match validData with
        | [] => ret []
        | _ :: _ =>
            let totalMarket :=
              fold_left (fun sum data => add sum (metricNumber data metric)) validData zero in
            if eqb totalMarket zero then ret []
            else
              ret (Js.sort shareAfter
                     (List.map (fun data =>
                        {| shareAccount := MonthlyAccountData.account data;
                           sharePeriod := mkPeriod year month;
                           shareMetric := metric;
                           shareValue := metricNumber data metric;
                           marketShare :=
                             div (Math_round (mul (div (metricNumber data metric) totalMarket)
                                                  (ofZ 10000)))
                                 (ofZ 100);
                           totalMarket := totalMarket |})
                        validData))
        end
    end.

(** An entry of the list [getTopPerformers] returns. *)
Record TopPerformer : Type := mkTopPerformer {
  rank : nat;
  topAccount : InstagramAccount.t;
  topPeriod : Period;
  topMetric : string;
  topValue : jsnum;
  topAllMetrics : MonthlyAccountData.Metrics
}.

(** [(a, b) => b.metrics[metric] - a.metrics[metric]], read as
    [compare(a, b) > 0]. *)
Definition valueAfter (metric : string) (a b : MonthlyAccountData.t) : bool :=
  gtb (sub (metricNumber b metric) (metricNumber a metric)) zero.

(** [l.slice(0, n)] for an integer [n]: a negative [n] counts from the end. *)
Definition slice0 {A} (l : list A) (n : Z) : list A :=
  if (n <? 0)%Z then firstn (Z.to_nat (Z.max (Z.of_nat (List.length l) + n) 0)) l
  else firstn (Z.to_nat n) l.

(** [l.map((x, index) => f(x, index))] from a first index. *)
Fixpoint mapIndexed {A B} (f : A -> nat -> B) (l : list A) (index : nat) : list B :=
  match l with
  | [] => []
  | x :: rest => f x index :: mapIndexed f rest (S index)
  end.

Definition getTopPerformers (dataset : TimeseriesDataset.t) (year month : Z)
    (metric : string) (topCount : Z) : M (list TopPerformer) :=
  if String.eqb metric "" then throw (ErrRequires "getTopPerformers")
  else
    let periodData := TimeseriesDataset.getDataForPeriod localeCompare dataset year month in
    match periodData with
    | [] => ret []
    | _ :: _ =>
        let sorted :=
          slice0
            (Js.sort (valueAfter metric)
               (filter (fun data =>
                          isValidValue
                            (MonthlyAccountData.metric (MonthlyAccountData.metrics data) metric))
                       periodData))
            topCount in
        ret (mapIndexed
               (fun data index =>
                  {| rank := (index + 1)%nat;
                     topAccount := MonthlyAccountData.account data;
                     topPeriod := mkPeriod year month;
                     topMetric := metric;
                     topValue := metricNumber data metric;
                     topAllMetrics := MonthlyAccountData.metrics data |})
               sorted 0)
    end.

(** The parameters [validateAggregationParams] reads.  [periods], when it is
    given, is an array here, so the error for a value that is no array does
    not arise. *)
Record AggregationParams : Type := mkAggregationParams {
  paramDataset : option TimeseriesDataset.t;
  paramPeriods : option (list Period);
  paramMetric : option string;
  paramOperation : option string
}.

Inductive paramIssue : Type :=
| DatasetRequired
| CannotSumOverMonths (metric : string)
| EmptyPeriods.

Record paramReport : Type := mkParamReport {
  paramsValid : bool;
  paramErrors : list paramIssue;
  paramWarnings : list paramIssue
}.

Definition validateAggregationParams (params : AggregationParams) : paramReport :=
  let errors :=
    ((match paramDataset params with None => [DatasetRequired] | Some _ => [] end)
     ++ (match paramMetric params, paramOperation params with
         | Some metric, Some operation =>
             if negb (String.eqb metric "") && includes NON_SUMMABLE_METRICS metric
                && String.eqb operation "sum"
             then [CannotSumOverMonths metric] else []
         | _, _ => []
         end))%list in
  let warnings :=
    match paramPeriods params with
    | Some [] => [EmptyPeriods]
    | _ => []
    end in
  {| paramsValid := match errors with [] => true | _ :: _ => false end;
     paramErrors := errors;
     paramWarnings := warnings |}.

End Locale.
End AggregationService.

(** ** timeseries_analytics.js: the comprehensive analysis *)

Module TrendAnalysis.
Import ReachCalculator TimeseriesAnalytics.
Import PeriodExtractor(Period).
Open Scope eff_scope.
Open Scope string_scope.

(** [{ type, value }]. *)
Record Aggregated : Type :=
  mkAggregated { aggregatedType : string; aggregatedValue : jsnum }.

(** The entry of a metric in [metricsAnalysis]. *)
Record MetricAnalysis : Type := mkMetricAnalysis {
  aggregated : Aggregated;
  trend : AverageTrend;
  extremes : option (MonthlyAccountData.t * MonthlyAccountData.t);
  monthlyTrends : list TrendEntry
}.

(** The object [calculateComprehensiveTrendAnalysis] returns; without data
    it has neither [firstPeriod] nor [lastPeriod]. *)
Record Analysis : Type := mkAnalysis {
  analysisUsername : string;
  analysisAccountId : string;
  analysisTotalPeriods : nat;
  firstPeriod : option Period;
  lastPeriod : option Period;
  analysisMetrics : list (string * MetricAnalysis)
}.

(** The body of the loop over the metrics. *)
Definition analyseMetric (accountTimeseries : AccountTimeseries.t) (metric : string)
    : M (string * MetricAnalysis) :=
  trendData <- calculateMonthToMonthTrend accountTimeseries metric ;;
  let averageTrend := calculateAverageTrend trendData in
  extremes <- findPerformanceExtremes accountTimeseries metric ;;
  aggregatedValue <-
    (if includes summerableMetrics metric then
       value <- calculateMetricTotal accountTimeseries metric ;;
       ret (mkAggregated "total" value)
     else
       value <- calculateMetricAverage accountTimeseries metric ;;
       ret (mkAggregated "average" value)) ;;
  ret (metric,
       {| aggregated := aggregatedValue;
          trend := averageTrend;
          extremes := extremes;
          monthlyTrends := trendData |}).

Definition calculateComprehensiveTrendAnalysis (accountTimeseries : AccountTimeseries.t)
    : M Analysis :=
  let monthlyData := AccountTimeseries.getAllMonthlyData accountTimeseries in
  let account := AccountTimeseries.account accountTimeseries in
  match monthlyData with
  | [] =>
      ret {| analysisUsername := InstagramAccount.username account;
             analysisAccountId := InstagramAccount.accountId account;
             analysisTotalPeriods := 0;
             firstPeriod := None;
             lastPeriod := None;
             analysisMetrics := [] |}
  | first :: _ =>
      metricsAnalysis <-
        AggregationService.forEach (analyseMetric accountTimeseries)
          AggregationService.allMetrics ;;
      ret {| analysisUsername := InstagramAccount.username account;
             analysisAccountId := InstagramAccount.accountId account;
             analysisTotalPeriods := List.length monthlyData;
             firstPeriod := Some (MonthlyAccountData.getPeriod first);
             lastPeriod := Some (MonthlyAccountData.getPeriod (List.last monthlyData first));
             analysisMetrics := metricsAnalysis |}
  end.

End TrendAnalysis.

(** ** period_validator.js: content validation *)

Module PeriodValidator.
Import Csv.
Open Scope string_scope.

(** The entries of the [errors] and [warnings] lists, one constructor per
    message. *)
Inductive rowIssue : Type :=
| MissingAccount (rowNumber : nat)
| MissingIgId (rowNumber : nat)
| NotNumeric (rowNumber : nat) (field : string) (value : string)
| Negative (rowNumber : nat) (field : string) (numValue : jsnum).

Inductive issue : Type :=
| NoData
| RowIssue (i : rowIssue)
| NoValidRows
| FewValidRows (validRows total : nat)
| RowErrorsWarning (count : nat) (rowErrors : list rowIssue)
| TooManyRowErrors (count total : nat).

(** The outcome of [validateDataRow]. *)
Record rowReport : Type := mkRowReport {
  rowIsValid : bool;
  rowErrorList : list rowIssue;
  rowWarningList : list rowIssue
}.

Record report : Type := mkReport {
  isValid : bool;
  errors : list issue;
  warnings : list issue
}.

Definition numericFields : list string :=
  ["Reach"; "Views"; "Followers"; "Status"; "Comment"].

(** [!cell || cell.trim() === ''] for a cell of a row. *)
Definition blank (c : cell) : bool :=
  negb (truthy c) || String.eqb (trim (text c)) "".

Definition validateDataRow (r : row) (rowNumber : nat) : rowReport :=
  let errors :=
    ((if blank (prop r "Account") then [MissingAccount rowNumber] else [])
     ++ (if blank (prop r "IG ID") then [MissingIgId rowNumber] else []))%list in
  let warnings :=
    flat_map (fun field =>
                match prop r field with
                | Str s =>
                    if String.eqb s "" then []
                    else
                      let numValue := parseFloat (removeCommas s) in
                      if isNaN numValue then [NotNumeric rowNumber field s]
                      else if ltb numValue zero then [Negative rowNumber field numValue]
                      else []
                | _ => []
                end)
             numericFields in
  {| rowIsValid := match errors with [] => true | _ => false end;
     rowErrorList := errors;
     rowWarningList := warnings |}.

(** The state of the loop over the rows. *)
Record rowScan : Type := mkScan {
  validRows : nat;
  rowErrors : list rowIssue;
  rowWarnings : list rowIssue
}.

(** [for (let i = 0; i < csvData.length; i++)], row [i] carrying the number
    [i + 1]. *)
Fixpoint scanRows (csvData : list row) (i : nat) (acc : rowScan) : rowScan :=
  match csvData with
  | [] => acc
  | r :: rest =>
      let rowValidation := validateDataRow r (i + 1) in
      scanRows rest (S i)
        {| validRows := if rowIsValid rowValidation then S (validRows acc)
                        else validRows acc;
           rowErrors := if rowIsValid rowValidation then rowErrors acc
                        else (rowErrors acc ++ rowErrorList rowValidation)%list;
           rowWarnings := (rowWarnings acc ++ rowWarningList rowValidation)%list |}
  end.

(** [validateCSVDataContent(csvData, filename)].  The products
    [csvData.length * 0.8] and [csvData.length * 0.5] are compared exactly. *)
Definition validateCSVDataContent (csvData : list row) : report :=
  match csvData with
  | [] => {| isValid := false; errors := [NoData]; warnings := [] |}
  | _ :: _ =>
      let total := List.length csvData in
      let scan := scanRows csvData 0 (mkScan 0 [] []) in
      let count := List.length (rowErrors scan) in
      let errors1 :=
        if (validRows scan =? 0)%nat then [NoValidRows] else [] in
      let warnings1 :=
        if (validRows scan =? 0)%nat then []
        else if (5 * validRows scan <? 4 * total)%nat
             then [FewValidRows (validRows scan) total] else [] in
      let warnings2 :=
        if (0 <? count)%nat && (2 * count <? total)%nat
        then [RowErrorsWarning count (firstn 10 (rowErrors scan))] else [] in
      let errors2 :=
        if (0 <? count)%nat && (2 * count <? total)%nat then []
        else if (total <=? 2 * count)%nat then [TooManyRowErrors count total] else [] in
      let errors := (errors1 ++ errors2)%list in
      {| isValid := match errors with [] => true | _ => false end;
         errors := errors;
         warnings := (List.map RowIssue (rowWarnings scan) ++ warnings1 ++ warnings2)%list |}
  end.

(** The rows that fail [validateDataRow]. *)
Definition invalidRows (csvData : list row) : nat :=
  List.length (filter (fun r => negb (rowIsValid (validateDataRow r 0))) csvData).

(** *** The structure of a parsed file *)

Definition REQUIRED_COLUMNS_COUNT : nat := 9.
Definition MIN_ROWS : nat := 1.
Definition MAX_ROWS : nat := 200.
Definition MAX_FILE_SIZE : Z := (5 * 1024 * 1024)%Z.

Inductive structureIssue : Type :=
| UnreadableColumns
| WrongColumnCount (found : nat)
| WrongColumnNames (missingColumns extraColumns : list (option string))
| TooFewRows (rowCount : nat)
| ManyRows (rowCount : nat)
| ParseWarnings (count : nat).

Record structureReport : Type := mkStructureReport {
  structureIsValid : bool;
  structureErrors : list structureIssue;
  structureWarnings : list structureIssue
}.

(** A column name read as a condition: [undefined] and the empty string are
    false. *)
Definition named (column : option string) : bool :=
  match column with
  | Some s => negb (String.eqb s "")
  | None => false
  end.

(** [actual !== expected], a side being [undefined] beyond its list. *)
Definition differs (actual expected : option string) : bool :=
  match actual, expected with
  | Some a, Some e => negb (String.eqb a e)
  | None, None => false
  | _, _ => true
  end.

(** The loop over the positions below [Math.max] of the two lengths, from
    position [i] on for [count] turns: the lists [missingColumns] and
    [extraColumns]. *)
Fixpoint compareColumns (actual expected : list string) (i count : nat)
    : list (option string) * list (option string) :=
  match count with
  | O => ([], [])
  | S count' =>
      let a := nth_error actual i in
      let e := nth_error expected i in
      let (missingColumns, extraColumns) := compareColumns actual expected (S i) count' in
      if differs a e then
        if named e && negb (named a) then (e :: missingColumns, extraColumns)
        else if named a && negb (named e) then (missingColumns, a :: extraColumns)
        else (e :: missingColumns, a :: extraColumns)
      else (missingColumns, extraColumns)
  end.

(** [validateCSVStructure(parseResult, filename)] of [period_validator.js]. *)
Definition validateCSVStructure (parseResult : CsvProcessor.ParseResult) : structureReport :=
  match CsvProcessor.fields parseResult with
  | None => mkStructureReport false [UnreadableColumns] []
  | Some actualColumns =>
      let countErrors :=
        if negb (List.length actualColumns =? REQUIRED_COLUMNS_COUNT)%nat
        then [WrongColumnCount (List.length actualColumns)] else [] in
      let normalizedActual := List.map trim actualColumns in
      let normalizedExpected := List.map trim CsvProcessor.EXPECTED_COLUMNS in
      let (missingColumns, extraColumns) :=
        compareColumns normalizedActual normalizedExpected 0
          (Nat.max (List.length normalizedActual) (List.length normalizedExpected)) in
      let nameErrors :=
        match missingColumns, extraColumns with
        | [], [] => []
        | _, _ => [WrongColumnNames missingColumns extraColumns]
        end in
      let rowCount :=
        match CsvProcessor.data parseResult with
        | Some rows => List.length rows
        | None => O
        end in
      let rowErrors := if (rowCount <? MIN_ROWS)%nat then [TooFewRows rowCount] else [] in
      let errors := (countErrors ++ nameErrors ++ rowErrors)%list in
      let warnings :=
        ((if (MAX_ROWS <? rowCount)%nat then [ManyRows rowCount] else [])
         ++ (if (0 <? CsvProcessor.parseErrors parseResult)%nat
             then [ParseWarnings (CsvProcessor.parseErrors parseResult)] else []))%list in
      {| structureIsValid := match errors with [] => true | _ :: _ => false end;
         structureErrors := errors;
         structureWarnings := warnings |}
  end.

(** *** The file itself *)

(** What the checks read of a [File]. *)
Record File : Type := mkFile { fileName : string; fileSize : Z; fileType : string }.

Inductive severity : Type := SeverityError | SeverityWarning.

Inductive fileIssue : Type :=
| InvalidFileObject
| EmptyFile
| FileTooLarge (size : Z)
| WrongFileType (type : string).

(** The [severity] each entry is pushed with. *)
Definition severityOf (i : fileIssue) : severity :=
  match i with
  | WrongFileType _ => SeverityWarning
  | _ => SeverityError
  end.

Definition isError (i : fileIssue) : bool :=
  match severityOf i with SeverityError => true | SeverityWarning => false end.

Record fileReport : Type := mkFileReport {
  fileIsValid : bool;
  fileErrors : list fileIssue
}.

Definition validateBasicFileProperties (file : File) : fileReport :=
  if String.eqb (fileName file) "" then mkFileReport false [InvalidFileObject]
  else
    let errors :=
      ((if (fileSize file =? 0)%Z then [EmptyFile] else [])
       ++ (if (fileSize file >? MAX_FILE_SIZE)%Z then [FileTooLarge (fileSize file)] else [])
       ++ (if negb (String.eqb (fileType file) "")
              && negb (String.eqb (fileType file) "text/csv")
              && negb (String.eqb (fileType file) "application/csv")
           then [WrongFileType (fileType file)] else []))%list in
    {| fileIsValid := (List.length (filter isError errors) =? 0)%nat;
       fileErrors := errors |}.

(** [s.endsWith(suffix)]. *)
Definition endsWith (s suffix : string) : bool :=
  (String.length suffix <=? String.length s)%nat
  && String.eqb (substring (String.length s - String.length suffix)
                           (String.length suffix) s) suffix.

Inductive filenameIssue : Type :=
| WrongExtension
| WrongFormat
| InvalidPeriodInName (year month : Z).

Record filenameReport : Type := mkFilenameReport {
  filenameIsValid : bool;
  filenameErrors : list filenameIssue;
  filenamePeriod : option PeriodExtractor.ExtractedPeriod
}.

Section Clock.
Variable currentYear : Z.

Definition validateFilenameAndExtractPeriod (file : File) : filenameReport :=
  let errors :=
    if negb (endsWith (ReachCalculator.toLowerCase (fileName file)) ".csv")
    then [WrongExtension] else [] in
  match PeriodExtractor.extractPeriodFromFilename currentYear (fileName file) true with
  | None => mkFilenameReport false (errors ++ [WrongFormat]) None
  | Some period =>
      let errors :=
        (errors ++
         if negb (PeriodExtractor.isValidPeriod currentYear
                    (PeriodExtractor.extractedYear period)
                    (PeriodExtractor.extractedMonth period))
         then [InvalidPeriodInName (PeriodExtractor.extractedYear period)
                                   (PeriodExtractor.extractedMonth period)]
         else [])%list in
      {| filenameIsValid := match errors with [] => true | _ :: _ => false end;
         filenameErrors := errors;
         filenamePeriod := Some period |}
  end.
End Clock.

End PeriodValidator.

(** ** Concrete inputs *)

Module Examples.
Import Csv.
Import PeriodExtractor(mkPeriod).
Open Scope string_scope.

(** A row of an export file, with its nine columns. *)
Definition exportRow (account igId reach views followers : string) : row :=
  [("Account", account); ("Account Name", account); ("IG ID", igId);
   ("FB Page", ""); ("Reach", reach); ("Views", views);
   ("Followers", followers); ("Status", ""); ("Comment", "")].

(** A collation for the examples: the order of the character codes. *)
Definition codeOrder (a b : string) : Z :=
  match String.compare a b with Lt => -1 | Eq => 0 | Gt => 1 end.

(** August 2025: one account, every metric at zero. *)
Definition august : list row * (Z * Z) :=
  ([exportRow "anna" "1" "0" "0" "0"], (2025, 8)).

(** Two accounts in September 2025, the scenario of the specification. *)
Definition september : list row * (Z * Z) :=
  ([exportRow "anna" "1" "1000" "100" "100";
    exportRow "bert" "2" "3000" "200" "0"], (2025, 9)).

(** October 2025: both accounts report a negative reach. *)
Definition october : list row * (Z * Z) :=
  ([exportRow "anna" "1" "-5" "300" "150";
    exportRow "bert" "2" "-1" "100" "50"], (2025, 10)).

(** November 2025: one account only. *)
Definition november : list row * (Z * Z) :=
  ([exportRow "anna" "1" "1500" "250" "90"], (2025, 11)).

Definition twoMonths : TimeseriesDataset.t :=
  CsvProcessor.ingest TimeseriesDataset.new [september; october].

Definition fromZero : TimeseriesDataset.t :=
  CsvProcessor.ingest TimeseriesDataset.new [august; september].

Definition threeMonths : TimeseriesDataset.t :=
  CsvProcessor.ingest TimeseriesDataset.new [september; october; november].

(** The series of account 1 in a dataset, empty when it has none. *)
Definition seriesOf (dataset : TimeseriesDataset.t) (accountId : string)
    : AccountTimeseries.t :=
  match TimeseriesDataset.getAccountTimeseries dataset accountId with
  | Some ts => ts
  | None => AccountTimeseries.new (InstagramAccount.mk "" accountId "")
  end.

Definition anna : AccountTimeseries.t := seriesOf threeMonths "1".

(** One month in which two accounts have 57 and 743 of 800 views. *)
Definition smallShare : TimeseriesDataset.t :=
  CsvProcessor.ingest TimeseriesDataset.new
    [([exportRow "anna" "1" "10" "57" "1";
       exportRow "bert" "2" "20" "743" "2"], (2025, 9))].


(** Four months of one account: a reach of 2^53, then 1 three times. *)
Definition largeReach : AccountTimeseries.t :=
  seriesOf
    (CsvProcessor.ingest TimeseriesDataset.new
       [([exportRow "anna" "1" "9007199254740992" "0" "0"], (2025, 1));
        ([exportRow "anna" "1" "1" "0" "0"], (2025, 2));
        ([exportRow "anna" "1" "1" "0" "0"], (2025, 3));
        ([exportRow "anna" "1" "1" "0" "0"], (2025, 4))])
    "1".

(** Three rows in order and one with neither account nor identifier. *)
Definition oneBlankOfFour : list row :=
  [exportRow "anna" "1" "1000" "100" "100";
   exportRow "bert" "2" "3000" "200" "0";
   exportRow "cleo" "3" "500" "50" "70";
   exportRow "" " " "10" "20" "5"].

End Examples.

(** * Vocabulary of the properties *)

Module Spec.
Import Csv Obj ReachCalculator TimeseriesAnalytics AggregationService.
Import PeriodExtractor(mkPeriod).
Open Scope string_scope.

(** ** Shapes of result objects *)

(** The object of a non-summable metric as [aggregateAccountData] builds it. *)
Definition averageShaped (o : obj) : Prop :=
  hasField o "sum" = false /\ hasField o "total" = false /\
  hasField o "average" = true /\ hasField o "min" = true /\ hasField o "max" = true.

(** ** Records of a dataset *)

(** The record a dataset holds for an account and a period. *)
Definition recordOf (dataset : TimeseriesDataset.t) (accountId : string) (year month : Z)
    : option MonthlyAccountData.t :=
  match TimeseriesDataset.getAccountTimeseries dataset accountId with
  | Some ts => AccountTimeseries.getMonthlyData ts year month
  | None => None
  end.

(** Every series of the dataset stands under the key of its own account. *)
Definition wellKeyed (dataset : TimeseriesDataset.t) : Prop :=
  forall key ts,
    Js.get (TimeseriesDataset.accountTimeseries dataset) key = Some ts ->
    key = InstagramAccount.getKey (AccountTimeseries.account ts).

(** The cell [validateMetrics] reads for a metric:
    [rawMetrics.reach || rawMetrics.Reach] and likewise for the others. *)
Definition metricCell (r : row) (name : string) : cell :=
  if String.eqb name "reach" then or_else (prop r "reach") (prop r "Reach")
  else if String.eqb name "followers" then or_else (prop r "followers") (prop r "Followers")
  else or_else (prop r "views") (prop r "Views").

(** A cell that is missing, empty or not the start of a number. *)
Definition unusable (c : cell) : Prop :=
  match c with
  | Undefined | Null => True
  | Str s => s = "" \/ parseFloat (removeCommas s) = NaN
  end.

(** ** Averages *)

(** The finite values of a list, as rationals. *)
Definition rationals (values : list jsnum) : list Q :=
  flat_map (fun v => match v with Fin q => [q] | _ => [] end) values.

Definition Qsum (qs : list Q) : Q := fold_left Qplus qs 0%Q.

(** The mean of a list of finite values, not rounded. *)
Definition exactMean (values : list jsnum) : Q :=
  (Qsum (rationals values) / inject_Z (Z.of_nat (List.length values)))%Q.

Definition allFinite (values : list jsnum) : Prop :=
  Forall (fun v => isFinite v = true) values.

(** The average every aggregation path computes: 0 without values, else
    [Math.round(sum / values.length)]. *)
Definition averageOf (values : list jsnum) : jsnum :=
  match values with
  | [] => zero
  | _ :: _ => Math_round (div (JsNum.sum values) (lengthOf values))
  end.

(** Whole numbers that add up without rounding: integers whose sum stays
    below 2^52. *)
Definition smallWhole (values : list jsnum) : Prop :=
  Forall isInteger values /\ (Qsum (rationals values) < inject_Z (2 ^ 52))%Q.

(** The months [aggregateAccountData] selects: those of the periods asked
    for, every month of the series when none is asked for. *)
Definition selectedData (ts : AccountTimeseries.t)
    (periods : option (list PeriodExtractor.Period)) : list MonthlyAccountData.t :=
  let allData := AccountTimeseries.getAllMonthlyData ts in
  match periods with
  | Some ((_ :: _) as ps) =>
      let periodKeys :=
        List.map (fun p => Js.periodKey (PeriodExtractor.year p) (PeriodExtractor.month p)) ps in
      filter (fun data =>
                Js.setHas periodKeys
                  (Js.periodKey (MonthlyAccountData.year data) (MonthlyAccountData.month data)))
             allData
  | _ => allData
  end.

(** The values [aggregateAccountData] averages for a metric: none when no
    month is selected, else the valid values of the whole series. *)
Definition averagedValues (ts : AccountTimeseries.t)
    (periods : option (list PeriodExtractor.Period)) (metric : string) : list jsnum :=
  match selectedData ts periods with
  | [] => []
  | _ :: _ => validValues (AccountTimeseries.getAllMonthlyData ts) metric
  end.

(** [v] is an integer, and within one half of the mean of [values] when
    there are values. *)
Definition roundedMeanOf (values : list jsnum) (v : jsnum) : Prop :=
  exists z : Z,
    v = ofZ z /\
    (values <> [] -> (Qabs (inject_Z z - exactMean values) <= 1 # 2)%Q).

(** ** Percentage changes *)

(** The convention of [calculatePercentageChange], on an entry of a trend. *)
Definition trendConvention (e : TrendEntry) : Prop :=
  forall current previous,
    currentValue e = Some current -> previousValue e = Some previous ->
    (eqb previous zero = true ->
     percentageChange e = Some (if gtb current zero then hundred else zero)) /\
    (eqb previous zero = false ->
     percentageChange e = Some (mul (div (sub current previous) previous) hundred)).

(** The value [comparePeriods] compares for a metric in a period: the
    rounded average of the valid values for a metric that is not summed,
    their total for another. *)
Definition comparedValue (periodData : list MonthlyAccountData.t) (metric : string)
    : jsnum :=
  let values := validValues periodData metric in
  if includes NON_SUMMABLE_METRICS metric then averageOf values else JsNum.sum values.

(** What [comparePeriods] reports for a metric, on the object [o] of a
    comparison between a [previous] and a [current] value: both values, their
    difference, and as percentage change [null] from a previous value of 0
    and the relative change from a positive one. *)
Definition comparisonOf (metric : string) (previous current : jsnum) (o : obj) : Prop :=
  let which := if includes NON_SUMMABLE_METRICS metric then "Average" else "Total" in
  numField o ("previous" ++ which) = Some previous /\
  numField o ("current" ++ which) = Some current /\
  numField o "absoluteChange" = Some (sub current previous) /\
  (eqb previous zero = true -> field o "percentageChange" = Some VNull) /\
  (gtb previous zero = true ->
   field o "percentageChange"
     = Some (VNum (mul (div (sub current previous) previous) hundred))).

(** ** Market shares *)

(** [Math.round((value / totalMarket) * 10000) / 100]. *)
Definition shareOf (value totalMarket : jsnum) : jsnum :=
  div (Math_round (mul (div value totalMarket) (ofZ 10000))) (ofZ 100).

(** The entry [calculateMarketShare] builds for a record. *)
Definition shareEntry (year month : Z) (metric : string) (totalMarket : jsnum)
    (data : MonthlyAccountData.t) : MarketShareEntry :=
  {| shareAccount := MonthlyAccountData.account data;
     sharePeriod := mkPeriod year month;
     shareMetric := metric;
     shareValue := metricNumber data metric;
     marketShare := shareOf (metricNumber data metric) totalMarket;
     totalMarket := totalMarket |}.

(** The records of a period whose value for the metric is valid. *)
Definition validRecords (periodData : list MonthlyAccountData.t) (metric : string)
    : list MonthlyAccountData.t :=
  filter (fun data =>
            isValidValue (MonthlyAccountData.metric (MonthlyAccountData.metrics data) metric))
         periodData.


(** A valid value: plus infinity or a rational that is not negative. *)
Definition nonNegative (v : jsnum) : Prop :=
  match v with
  | PInf => True
  | Fin q => (0 <= q)%Q
  | _ => False
  end.

(** A value that sorts like a number: plus infinity, or a Number that is not
    negative. *)
Definition orderly (v : jsnum) : Prop :=
  nonNegative v /\ isNumber v.



(** ** Keys *)

(** No character of [s] is an underscore. *)
Fixpoint plain (s : string) : bool :=
  match s with
  | EmptyString => true
  | String c rest => negb (Ascii.eqb c "_"%char) && plain rest
  end.

End Spec.

(** ** Ranges of months *)

Module Months.
Import PeriodExtractor.

(** The rank of a period among the months: twelve to a year. *)
Definition monthIndex (p : Period) : Z := 12 * year p + (month p - 1).

Definition validMonth (p : Period) : Prop := 1 <= month p <= 12.

(** The period of a given rank. *)
Definition periodAt (i : Z) : Period := mkPeriod (i / 12) (i mod 12 + 1).

(** The month after a period. *)
Definition nextPeriod (p : Period) : Period :=
  mkPeriod (if month p + 1 >? 12 then year p + 1 else year p)
           (if month p + 1 >? 12 then 1 else month p + 1).

(** The contiguous range of [n] months that starts at [first]. *)
Fixpoint monthsFrom (first : Period) (n : nat) : list Period :=
  match n with
  | O => []
  | S k => first :: monthsFrom (nextPeriod first) k
  end.

Definition samePeriod (p q : Period) : bool :=
  (year p =? year q) && (month p =? month q).

(** A list with every occurrence of a period removed. *)
Definition without (removed : Period) (l : list Period) : list Period :=
  filter (fun p => negb (samePeriod p removed)) l.

End Months.

(** ** File names of periods *)

Module Names.
Import PeriodExtractor.

(** The name [createStandardFilename] builds. *)
Definition standardName (year month : Z) : string :=
  ("IG_" ++ Js.Z_to_string year ++ "_" ++ Js.padStart2 (Js.Z_to_string month) ++ ".csv")%string.

(** The decimal form of a year is four digits that [parseInt] reads back. *)
Definition yearReadsBack (year : Z) : bool :=
  match readExactDigits 4 (Js.Z_to_string year) with
  | Some (digits, EmptyString) =>
      match parseInt10 digits with
      | Some y => y =? year
      | None => false
      end
  | _ => false
  end.

(** The years [first + k] for [k < count]. *)
Definition yearsFrom (first : Z) (count : nat) : list Z :=
  List.map (fun k => first + Z.of_nat k) (seq 0 count).

Definition periodOf (e : ExtractedPeriod) : Period :=
  mkPeriod (extractedYear e) (extractedMonth e).

Definition validPeriod (currentYear : Z) (p : Period) : Prop :=
  isValidPeriod currentYear (year p) (month p) = true.

(** The entry [findMissingPeriods] makes for a period. *)
Definition missingEntry (p : Period) : MissingPeriod :=
  mkMissing (year p) (month p) (standardName (year p) (month p)).

(** A period that is not in a list. *)
Definition absent (periods : list Period) (p : Period) : bool :=
  negb (existsb (Months.samePeriod p) periods).

(** The number of months from one period to another, both counted. *)
Definition monthsBetween (first last : Period) : nat :=
  Z.to_nat (Months.monthIndex last - Months.monthIndex first + 1).

End Names.

(** ** Datasets as the operations build them *)

Module Store.
Import PeriodExtractor.

(** The keys of a [Map] are distinct. *)
Definition distinctKeys {V} (m : Js.map V) : Prop := NoDup (List.map fst m).

(** A series holds each record under the key of the record's period, and
    only records of its own account. *)
Definition seriesWellFormed (ts : AccountTimeseries.t) : Prop :=
  distinctKeys (AccountTimeseries.monthlyData ts)
  /\ forall k d, In (k, d) (AccountTimeseries.monthlyData ts) ->
       k = Js.periodKey (MonthlyAccountData.year d) (MonthlyAccountData.month d)
       /\ InstagramAccount.accountId (MonthlyAccountData.account d)
          = InstagramAccount.accountId (AccountTimeseries.account ts).

(** A dataset holds each series under the key of the series' account. *)
Definition wellFormed (ds : TimeseriesDataset.t) : Prop :=
  distinctKeys (TimeseriesDataset.accountTimeseries ds)
  /\ forall key ts, In (key, ts) (TimeseriesDataset.accountTimeseries ds) ->
       key = InstagramAccount.getKey (AccountTimeseries.account ts)
       /\ seriesWellFormed ts.

(** Chronological order on any two periods: by year, then by month. *)
Definition notLater (p q : Period) : Prop :=
  year p < year q \/ (year p = year q /\ month p <= month q).

Definition earlier (p q : Period) : Prop :=
  year p < year q \/ (year p = year q /\ month p < month q).

(** The period [getAllPeriods] returns for a period it holds. *)
Definition parsed (p : Period) : TimeseriesDataset.ParsedPeriod :=
  TimeseriesDataset.mkParsed (Some (year p)) (Some (month p)).

(** [Set.prototype.add] on periods rather than on their keys. *)
Definition addPeriod (seen : list Period) (p : Period) : list Period :=
  if existsb (Months.samePeriod p) seen then seen else (seen ++ [p])%list.

(** The periods of a dataset in the order [getAllPeriods] first meets them. *)
Definition collected (ds : TimeseriesDataset.t) : list Period :=
  fold_left
    (fun seen timeseries =>
       fold_left addPeriod (AccountTimeseries.getAvailablePeriods timeseries) seen)
    (Js.values (TimeseriesDataset.accountTimeseries ds)) [].

(** Some account of the dataset has a record for the period. *)
Definition hasPeriod (ds : TimeseriesDataset.t) (p : Period) : Prop :=
  exists accountId d, Spec.recordOf ds accountId (year p) (month p) = Some d.

End Store.

(** ** Further concrete inputs *)

Module Samples.
Import PeriodExtractor(mkPeriod).
Open Scope string_scope.

Definition account (username accountId : string) : InstagramAccount.t :=
  InstagramAccount.mk username accountId username.

(** A record of an account for a month of 2025. *)
Definition record (username accountId : string) (month reach followers views : Z)
    : MonthlyAccountData.t :=
  MonthlyAccountData.mk (account username accountId) 2025 month
    (MonthlyAccountData.mkMetrics (ofZ reach) (ofZ followers) (ofZ views)).

Definition annaSeptember : MonthlyAccountData.t := record "anna" "1" 9 1000 100 100.

End Samples.

(** ** Vocabulary of the analytics *)

Module Trends.
Import TimeseriesAnalytics.

(** A percentage change that [calculateAverageTrend] counts: neither [null]
    nor NaN. *)
Definition definedChange (trend : TrendEntry) : bool :=
  match percentageChange trend with
  | Some change => negb (isNaN change)
  | None => false
  end.

(** The value of a metric in a record is a number, and not NaN. *)
Definition hasNumber (metric : string) (data : MonthlyAccountData.t) : Prop :=
  exists v, metricOf metric data = Some v /\ isNaN v = false.

(** [a <= b] on the values of two records. *)
Definition atMost (metric : string) (a b : MonthlyAccountData.t) : Prop :=
  greater (metricOf metric a) (metricOf metric b) = false.

End Trends.

(** ** Vocabulary of the comparisons *)

Module Coverage.
Import PeriodExtractor.

(** The dataset holds a record of some account for the period. *)
Definition hasData (localeCompare : string -> string -> Z) (dataset : TimeseriesDataset.t)
    (p : Period) : bool :=
  match TimeseriesDataset.getDataForPeriod localeCompare dataset (year p) (month p) with
  | [] => false
  | _ :: _ => true
  end.

End Coverage.

(** ** Vocabulary of the monthly comparisons *)

Module Unchanged.
Import ReachCalculator TimeseriesAnalytics.

(** The reach of two records is one finite number. *)
Definition sameReach (previous current : MonthlyAccountData.t) : Prop :=
  exists q,
    MonthlyAccountData.reach (MonthlyAccountData.metrics previous) = Fin q
    /\ MonthlyAccountData.reach (MonthlyAccountData.metrics current) = Fin q.

(** An entry of [compareMonthlyReach] beside the entry of
    [calculateMonthToMonthTrend] for the same two months: between months of
    the same reach the first has no percentage and the second has zero. *)
Definition unchangedMonth (pair : MonthlyAccountData.t * MonthlyAccountData.t)
    (comparison : ReachComparison) (trend : TrendEntry) : Prop :=
  reachCurrentPeriod comparison = period trend
  /\ reachPreviousPeriod comparison = previousPeriod trend
  /\ (sameReach (fst pair) (snd pair) ->
      reachPercentageChange comparison = None
      /\ exists change, percentageChange trend = Some change /\ same change zero).

End Unchanged.
(** * Facts about the rounding to binary64 *)

Lemma Qltb_lt a b : Qltb a b = true <-> (a < b)%Q.
Proof.
  unfold Qltb. rewrite Qlt_alt. destruct (a ?= b)%Q; split; congruence.
Qed.

Lemma Qltb_ge a b : Qltb a b = false <-> (b <= a)%Q.
Proof.
  rewrite <- not_true_iff_false, Qltb_lt. split; [apply Qnot_lt_le | apply Qle_not_lt].
Qed.

Module Binary64.
Local Open Scope Q_scope.

Lemma pow_pos e : 0 < 2 ^ e.
Proof. now apply Qpower_0_lt. Qed.

Lemma pow_add a b : 2 ^ (a + b) == 2 ^ a * 2 ^ b.
Proof. now apply Qpower_plus. Qed.

Lemma pow_le a b : (a <= b)%Z -> 2 ^ a <= 2 ^ b.
Proof. intros H. now apply Qpower_le_compat_l. Qed.

Lemma pow_lt a b : (a < b)%Z -> 2 ^ a < 2 ^ b.
Proof. intros H. now apply Qpower_lt_compat_l. Qed.

Lemma pow_inject n : (0 <= n)%Z -> inject_Z (2 ^ n) == 2 ^ n.
Proof. intros H. now rewrite Zpower_Qpower. Qed.

Lemma pow_cancel a : 2 ^ a * 2 ^ (- a) == 1.
Proof. rewrite <- pow_add, Z.add_opp_diag_r. reflexivity. Qed.

Lemma inject_pos d : (0 < d)%Z -> 0 < inject_Z d.
Proof. intros H. change 0 with (inject_Z 0). now rewrite <- Zlt_Qlt. Qed.

Lemma inject_nonzero d : (0 < d)%Z -> ~ inject_Z d == 0.
Proof.
  intros H E. pose proof (inject_pos d H) as P. rewrite E in P.
  exact (Qlt_irrefl 0 P).
Qed.

(** [scaled a d e] is the fraction [(a / d) / 2^e]. *)
Lemma scaled_ratio a d e :
  (0 < d)%Z ->
  (0 < snd (scaled a d e))%Z /\
  inject_Z (fst (scaled a d e))
    == inject_Z a / inject_Z d * 2 ^ (- e) * inject_Z (snd (scaled a d e)).
Proof.
  intros Hd. unfold scaled.
  pose proof (inject_nonzero d Hd) as Dq.
  destruct (Z.leb_spec 0 e) as [He | He]; cbn [fst snd].
  - split; [apply Z.mul_pos_pos; [exact Hd | now apply Z.pow_pos_nonneg] |].
    rewrite inject_Z_mult, (pow_inject _ He).
    pose proof (pow_cancel e) as C. pose proof (pow_pos e) as P.
    transitivity (inject_Z a * (2 ^ e * 2 ^ (- e))); [rewrite C; ring |].
    field. exact Dq.
  - split; [exact Hd |].
    rewrite inject_Z_mult, pow_inject by lia. field. exact Dq.
Qed.

(** The integer [nearestEven] returns is within one half of the fraction,
    and is the fraction when that is an integer. *)
Lemma nearestEven_near num den :
  (0 < den)%Z ->
  (Z.abs (2 * (nearestEven num den * den - num)) <= den)%Z.
Proof.
  intros Hd. unfold nearestEven.
  pose proof (Z.div_mod num den ltac:(lia)) as E.
  pose proof (Z.mod_pos_bound num den Hd) as B.
  set (m := (num / den)%Z) in *. set (r := (num mod den)%Z) in *.
  destruct (Z.compare_spec (2 * r) den) as [C | C | C];
    [destruct (Z.even m) | |]; nia.
Qed.

Lemma nearestEven_exact k den :
  (0 < den)%Z -> nearestEven (k * den) den = k.
Proof.
  intros Hd. unfold nearestEven.
  rewrite Z.mod_mul, Z.div_mul by lia.
  destruct (Z.compare_spec (2 * 0) den); lia.
Qed.

Lemma nearestEven_floor num den :
  (0 < den)%Z -> (num / den <= nearestEven num den)%Z.
Proof.
  intros Hd. unfold nearestEven.
  destruct (2 * (num mod den) ?= den)%Z; [destruct (Z.even _) | |]; lia.
Qed.

Lemma log2_bounds a :
  (0 < a)%Z -> 2 ^ Z.log2 a <= inject_Z a /\ inject_Z a < 2 ^ (Z.log2 a + 1).
Proof.
  intros H. destruct (Z.log2_spec a H) as [L U].
  pose proof (Z.log2_nonneg a) as N.
  rewrite <- !pow_inject by lia. rewrite <- Zle_Qle, <- Zlt_Qlt.
  split; [exact L |]. replace (Z.log2 a + 1)%Z with (Z.succ (Z.log2 a)) by lia.
  exact U.
Qed.

(** The test of [lastPlace], read on the fraction. *)
Lemma scaled_below a d e k :
  (0 < d)%Z -> (0 <= k)%Z ->
  (fst (scaled a d e) < 2 ^ k * snd (scaled a d e))%Z
  <-> inject_Z a / inject_Z d < 2 ^ (e + k).
Proof.
  intros Hd Hk. destruct (scaled_ratio a d e Hd) as [P E].
  set (x := inject_Z a / inject_Z d) in *.
  rewrite Zlt_Qlt, inject_Z_mult, (pow_inject _ Hk), E.
  rewrite (Qmult_lt_r _ _ _ (inject_pos _ P)).
  rewrite <- (Qmult_lt_r x (2 ^ (e + k)) (2 ^ (- e)) (pow_pos _)).
  rewrite <- (pow_add (e + k) (- e)).
  replace (e + k + - e)%Z with k by ring. reflexivity.
Qed.

(** The last place of [a / d]: below it the number has fewer than 53 bits,
    and it has 53 unless the exponent is the least one. *)
Lemma lastPlace_spec a d :
  (0 < a)%Z -> (0 < d)%Z ->
  (-1074 <= lastPlace a d)%Z
  /\ inject_Z a / inject_Z d < 2 ^ (lastPlace a d + 53)
  /\ ((-1074 < lastPlace a d)%Z -> 2 ^ (lastPlace a d + 52) <= inject_Z a / inject_Z d).
Proof.
  intros Ha Hd. unfold lastPlace.
  set (e0 := (Z.log2 a - Z.log2 d - 52)%Z).
  set (x := inject_Z a / inject_Z d).
  destruct (log2_bounds a Ha) as [La Ua]. destruct (log2_bounds d Hd) as [Ld Ud].
  pose proof (inject_pos d Hd) as Dp.
  assert (X1 : 2 ^ (e0 + 51) < x).
  { apply Qlt_shift_div_l; [exact Dp |].
    apply Qlt_le_trans with (2 ^ (e0 + 51) * 2 ^ (Z.log2 d + 1)).
    - apply Qmult_lt_l; [apply pow_pos | exact Ud].
    - rewrite <- pow_add.
      replace (e0 + 51 + (Z.log2 d + 1))%Z with (Z.log2 a) by (unfold e0; ring).
      exact La. }
  assert (X2 : x < 2 ^ (e0 + 53)).
  { apply Qlt_shift_div_r; [exact Dp |].
    apply Qlt_le_trans with (2 ^ (e0 + 53) * 2 ^ Z.log2 d).
    - rewrite <- pow_add.
      replace (e0 + 53 + Z.log2 d)%Z with (Z.log2 a + 1)%Z by (unfold e0; ring).
      exact Ua.
    - apply Qmult_le_l; [apply pow_pos | exact Ld]. }
  destruct (scaled a d e0) as [num den] eqn:S.
  assert (T : (num < 2 ^ 52 * den)%Z <-> x < 2 ^ (e0 + 52)).
  { pose proof (scaled_below a d e0 52 Hd ltac:(lia)) as B.
    rewrite S in B. exact B. }
  destruct (Z.ltb_spec num (2 ^ 52 * den)) as [Lt | Ge].
  - apply T in Lt.
    destruct (Z.max_spec (-1074) (e0 - 1)) as [[M ->] | [M ->]].
    + split; [lia |]. split.
      * replace (e0 - 1 + 53)%Z with (e0 + 52)%Z by ring. exact Lt.
      * intros _. replace (e0 - 1 + 52)%Z with (e0 + 51)%Z by ring.
        now apply Qlt_le_weak.
    + split; [lia |]. split; [| lia].
      apply Qlt_le_trans with (1 := Lt). apply pow_le. lia.
  - assert (G : 2 ^ (e0 + 52) <= x).
    { apply Qnot_lt_le. intros C. apply T in C. lia. }
    destruct (Z.max_spec (-1074) e0) as [[M ->] | [M ->]].
    + split; [lia |]. split; [exact X2 | intros _; exact G].
    + split; [lia |]. split; [| lia].
      apply Qlt_le_trans with (1 := X2). apply pow_le. lia.
Qed.

Lemma near_half m num den y :
  (0 < den)%Z -> inject_Z num == y * inject_Z den ->
  (Z.abs (2 * (m * den - num)) <= den)%Z ->
  Qabs (inject_Z m - y) <= 1 # 2.
Proof.
  intros Dp S N. pose proof (inject_pos den Dp) as Dq.
  assert (L : (- den <= 2 * (m * den - num))%Z) by lia.
  assert (U : (2 * (m * den - num) <= den)%Z) by lia.
  rewrite Zle_Qle in L, U.
  rewrite inject_Z_mult in L, U. unfold Z.sub in L, U.
  rewrite inject_Z_plus, inject_Z_mult, !inject_Z_opp in L.
  rewrite inject_Z_plus, inject_Z_mult, !inject_Z_opp in U.
  rewrite S in L, U. change (inject_Z 2) with 2 in L, U.
  apply Qabs_Qle_condition. split; apply (Qmult_le_r _ _ _ Dq).
  - setoid_replace ((inject_Z m - y) * inject_Z den)
      with (inject_Z m * inject_Z den + - (y * inject_Z den)) by ring.
    lra.
  - setoid_replace ((inject_Z m - y) * inject_Z den)
      with (inject_Z m * inject_Z den + - (y * inject_Z den)) by ring.
    lra.
Qed.

(** What [fl] computes for a number that is not 0: the sign [sg], the
    exponent [e] of the last place and the multiple [m] of it. *)
Lemma fl_cases q :
  ~ q == 0 ->
  exists e m sg : Z,
    (sg = 1%Z /\ 0 < q \/ sg = (-1)%Z /\ q < 0)
    /\ (-1074 <= e)%Z
    /\ Qabs q < 2 ^ (e + 53)
    /\ ((-1074 < e)%Z -> 2 ^ (e + 52) <= Qabs q)
    /\ Qabs (inject_Z m - Qabs q * 2 ^ (- e)) <= 1 # 2
    /\ (forall k, Qabs q * 2 ^ (- e) == inject_Z k -> m = k)
    /\ (forall k, inject_Z k <= Qabs q * 2 ^ (- e) -> (k <= m)%Z)
    /\ fl q = if (971 <? e)%Z || ((e =? 971)%Z && (2 ^ 53 <=? m)%Z)
              then (if (sg <? 0)%Z then NInf else PInf)
              else Fin (Qred (inject_Z (sg * m) * 2 ^ e)).
Proof.
  intros Hq. unfold fl.
  pose proof (Qred_correct q) as R.
  destruct (Qred q) as [n dpos]. cbn [Qnum Qden].
  assert (Hn : n <> 0%Z).
  { intros ->. apply Hq. rewrite <- R. reflexivity. }
  rewrite (proj2 (Z.eqb_neq n 0) Hn).
  set (a := Z.abs n). set (d := Z.pos dpos).
  assert (Ha : (0 < a)%Z) by (unfold a; lia).
  assert (Hd : (0 < d)%Z) by (unfold d; lia).
  assert (X : Qabs q == inject_Z a / inject_Z d).
  { rewrite <- R. unfold a, d. rewrite <- Qmake_Qdiv. reflexivity. }
  destruct (lastPlace_spec a d Ha Hd) as (E1 & E2 & E3).
  set (e := lastPlace a d) in *.
  destruct (scaled_ratio a d e Hd) as [Dp S].
  destruct (scaled a d e) as [num den]. cbn [fst snd] in Dp, S.
  rewrite <- X in E2, E3, S.
  pose proof (inject_pos den Dp) as Dq.
  exists e, (nearestEven num den), (Z.sgn n).
  set (y := Qabs q * 2 ^ (- e)) in *.
  split.
  { destruct (Z.lt_trichotomy n 0) as [L | [L | L]]; [right | contradiction | left].
    - split; [lia |]. rewrite <- R. unfold Qlt. cbn. lia.
    - split; [lia |]. rewrite <- R. unfold Qlt. cbn. lia. }
  split; [exact E1 |]. split; [exact E2 |]. split; [exact E3 |].
  split.
  { apply (near_half _ num den); [exact Dp | exact S |].
    now apply nearestEven_near. }
  split.
  { intros k K. rewrite K, <- inject_Z_mult in S.
    rewrite inject_Z_injective in S. rewrite S. now apply nearestEven_exact. }
  split.
  { intros k K.
    apply Z.le_trans with (2 := nearestEven_floor num den Dp).
    apply Z.div_le_lower_bound; [exact Dp |].
    rewrite Zle_Qle, S, inject_Z_mult, Qmult_comm.
    apply Qmult_le_compat_r; [exact K | now apply Qlt_le_weak]. }
  replace (n <? 0)%Z with (Z.sgn n <? 0)%Z; [reflexivity |].
  destruct n; reflexivity.
Qed.

Lemma fl_zero q : q == 0 -> fl q = Fin 0.
Proof.
  intros H. unfold fl. rewrite (Qred_complete _ _ H). reflexivity.
Qed.

Lemma fl_proper q q' : q == q' -> fl q = fl q'.
Proof. intros H. unfold fl. now rewrite (Qred_complete q q' H). Qed.


Lemma pow_53 : 2 ^ 53 == inject_Z (2 ^ 53).
Proof. reflexivity. Qed.

Lemma pow_exponent_lt a b : 2 ^ a < 2 ^ b -> (a < b)%Z.
Proof. intros H. now apply (Qpower_lt_compat_l_inv 2). Qed.


Lemma scale_ge x e k : 2 ^ (e + k) <= x -> 2 ^ k <= x * 2 ^ (- e).
Proof.
  intros H. apply (Qmult_le_r _ _ (2 ^ e) (pow_pos e)).
  rewrite <- Qmult_assoc, (Qmult_comm (2 ^ (- e))), pow_cancel, Qmult_1_r.
  rewrite <- pow_add, Z.add_comm. exact H.
Qed.

Lemma unscale x e : x * 2 ^ (- e) * 2 ^ e == x.
Proof.
  rewrite <- Qmult_assoc, (Qmult_comm (2 ^ (- e))), pow_cancel. ring.
Qed.

Lemma pow_half e : 2 ^ (e - 1) == (1 # 2) * 2 ^ e.
Proof.
  replace (e - 1)%Z with (e + (-1))%Z by ring. rewrite pow_add.
  setoid_replace (2 ^ (-1)) with (1 # 2) by reflexivity. ring.
Qed.

Lemma maxValue_pow : 2 ^ 1023 <= maxValue.
Proof. unfold maxValue. vm_compute. discriminate. Qed.

Lemma maxValue_below : maxValue < 2 ^ 1024.
Proof. unfold maxValue. vm_compute. reflexivity. Qed.

(** [fl] on a number within the range of the finite Numbers. *)
Lemma fl_finite q :
  ~ q == 0 -> Qabs q <= maxValue ->
  exists e m sg : Z,
    (sg = 1%Z /\ 0 < q \/ sg = (-1)%Z /\ q < 0)
    /\ (-1074 <= e <= 971)%Z
    /\ ((-1074 < e)%Z -> 2 ^ (e + 52) <= Qabs q)
    /\ (0 <= m)%Z
    /\ Qabs (inject_Z m - Qabs q * 2 ^ (- e)) <= 1 # 2
    /\ (forall k, Qabs q * 2 ^ (- e) == inject_Z k -> m = k)
    /\ (forall k, inject_Z k <= Qabs q * 2 ^ (- e) -> (k <= m)%Z)
    /\ fl q = Fin (Qred (inject_Z (sg * m) * 2 ^ e)).
Proof.
  intros Hq Hmax.
  destruct (fl_cases q Hq) as (e & m & sg & Hs & E1 & E2 & E3 & M1 & M2 & M3 & F).
  assert (Xp : 0 <= Qabs q * 2 ^ (- e)).
  { apply Qmult_le_0_compat; [apply Qabs_nonneg | apply Qlt_le_weak, pow_pos]. }
  assert (Le : (e <= 971)%Z).
  { destruct (Z.le_gt_cases e 971) as [L | G]; [exact L |].
    assert (C : 2 ^ (e + 52) < 2 ^ 1024).
    { apply Qle_lt_trans with (Qabs q); [apply E3; lia |].
      apply Qle_lt_trans with (1 := Hmax). apply maxValue_below. }
    apply pow_exponent_lt in C. lia. }
  exists e, m, sg.
  split; [exact Hs |]. split; [lia |]. split; [exact E3 |].
  split; [apply M3; exact Xp |].
  split; [exact M1 |]. split; [exact M2 |]. split; [exact M3 |].
  rewrite F.
  replace (971 <? e)%Z with false by (symmetry; apply Z.ltb_ge; exact Le).
  destruct (Z.eqb_spec e 971) as [-> | Ne]; [| reflexivity].
  assert (Y : Qabs q * 2 ^ (- (971)) <= inject_Z (2 ^ 53 - 1)).
  { apply (Qmult_le_r _ _ (2 ^ 971) (pow_pos _)). rewrite unscale. exact Hmax. }
  apply Qabs_Qle_condition in M1. destruct M1 as [_ M1].
  assert (B : inject_Z m < inject_Z (2 ^ 53)).
  { apply Qle_lt_trans with (inject_Z (2 ^ 53 - 1) + (1 # 2)); [lra |].
    vm_compute. reflexivity. }
  rewrite <- Zlt_Qlt in B.
  replace (2 ^ 53 <=? m)%Z with false by (symmetry; apply Z.leb_gt; exact B).
  reflexivity.
Qed.

(** The value [fl] returns, by the sign of the number. *)
Lemma signed_value sg m e q :
  (sg = 1%Z /\ 0 < q \/ sg = (-1)%Z /\ q < 0) ->
  inject_Z (sg * m) * 2 ^ e - q
    == inject_Z sg * ((inject_Z m - Qabs q * 2 ^ (- e)) * 2 ^ e).
Proof.
  intros Hs.
  assert (A : q == inject_Z sg * Qabs q).
  { destruct Hs as [[-> P] | [-> P]].
    - rewrite Qabs_pos by now apply Qlt_le_weak. change (inject_Z 1) with 1. ring.
    - rewrite Qabs_neg by now apply Qlt_le_weak. change (inject_Z (-1)) with (-(1)).
      ring. }
  rewrite inject_Z_mult.
  setoid_replace ((inject_Z m - Qabs q * 2 ^ (- e)) * 2 ^ e)
    with (inject_Z m * 2 ^ e - Qabs q * 2 ^ (- e) * 2 ^ e) by ring.
  rewrite unscale. rewrite A at 1. ring.
Qed.

(** The error of rounding: a relative error of 2^-53, and 2^-1075 for the
    numbers below the normal range. *)
Lemma fl_error q :
  Qabs q <= maxValue ->
  exists r,
    fl q = Fin r
    /\ Qabs (r - q) <= Qabs q * 2 ^ (- 53) + 2 ^ (- 1075)
    /\ (2 ^ (- 1022) <= Qabs q -> Qabs (r - q) <= Qabs q * 2 ^ (- 53))
    /\ (0 <= q -> 0 <= r) /\ (q <= 0 -> r <= 0).
Proof.
  intros Hmax.
  destruct (Qeq_dec q 0) as [Z0 | Hq].
  { exists 0. rewrite (fl_zero q Z0). split; [reflexivity |].
    rewrite Z0. repeat split; try (intros; apply Qle_refl); vm_compute; discriminate. }
  destruct (fl_finite q Hq Hmax) as (e & m & sg & Hs & E1 & E3 & M0 & M1 & _ & _ & F).
  exists (Qred (inject_Z (sg * m) * 2 ^ e)). split; [exact F |].
  rewrite Qred_correct.
  assert (D : Qabs (inject_Z (sg * m) * 2 ^ e - q) <= 2 ^ (e - 1)).
  { rewrite (signed_value sg m e q Hs), !Qabs_Qmult.
    rewrite (Qabs_pos (2 ^ e)) by apply Qlt_le_weak, pow_pos.
    setoid_replace (Qabs (inject_Z sg)) with 1
      by (destruct Hs as [[-> _] | [-> _]]; reflexivity).
    rewrite Qmult_1_l.
    rewrite pow_half.
    apply Qmult_le_compat_r; [exact M1 | apply Qlt_le_weak, pow_pos]. }
  assert (N : 2 ^ (e + 52) <= Qabs q -> 2 ^ (e - 1) <= Qabs q * 2 ^ (- 53)).
  { intros G. replace (e - 1)%Z with (e + 52 + - 53)%Z by ring.
    rewrite pow_add. apply Qmult_le_compat_r; [exact G | apply Qlt_le_weak, pow_pos]. }
  assert (P53 : 0 <= Qabs q * 2 ^ (- 53)).
  { apply Qmult_le_0_compat; [apply Qabs_nonneg | apply Qlt_le_weak, pow_pos]. }
  split; [| split; [| split]].
  - apply Qle_trans with (1 := D).
    destruct (Z.eq_dec e (-1074)) as [-> | Ne].
    + change (2 ^ (-1074 - 1)) with (2 ^ (- 1075)).
      pose proof (pow_pos (- 1075)). lra.
    + pose proof (pow_pos (- 1075)). specialize (N (E3 ltac:(lia))). lra.
  - intros G. apply Qle_trans with (1 := D). apply N.
    destruct (Z.eq_dec e (-1074)) as [-> | Ne]; [exact G | apply E3; lia].
  - intros P. destruct Hs as [[-> _] | [-> L]]; [| exfalso; lra].
    apply Qmult_le_0_compat; [| apply Qlt_le_weak, pow_pos].
    change 0 with (inject_Z 0). rewrite <- Zle_Qle. lia.
  - intros P. destruct Hs as [[-> L] | [-> _]]; [exfalso; lra |].
    setoid_replace (inject_Z (-1 * m) * 2 ^ e) with (- (inject_Z m * 2 ^ e))
      by (rewrite inject_Z_mult; change (inject_Z (-1)) with (-(1)); ring).
    assert (0 <= inject_Z m * 2 ^ e); [| lra].
    apply Qmult_le_0_compat; [| apply Qlt_le_weak, pow_pos].
    change 0 with (inject_Z 0). rewrite <- Zle_Qle. lia.
Qed.

Lemma pow_nonneg e : 0 <= 2 ^ e.
Proof. apply Qlt_le_weak, pow_pos. Qed.

Lemma abs_double M E : Qabs (inject_Z M * 2 ^ E) == inject_Z (Z.abs M) * 2 ^ E.
Proof.
  rewrite Qabs_Qmult, (Qabs_pos (2 ^ E)) by apply pow_nonneg.
  reflexivity.
Qed.

Lemma isDouble_range q : isDouble q -> Qabs q <= maxValue.
Proof.
  intros (M & E & HM & HE & ->). rewrite abs_double. unfold maxValue.
  apply Qle_trans with (inject_Z (2 ^ 53 - 1) * 2 ^ E).
  - apply Qmult_le_compat_r; [| apply pow_nonneg]. rewrite <- Zle_Qle. lia.
  - apply Qmult_le_l; [reflexivity | apply pow_le; lia].
Qed.

(** When the number is a multiple of its last place, [fl] returns it. *)
Lemma fl_exact q : isDouble q -> fl q = Fin (Qred q).
Proof.
  intros D.
  destruct (Qeq_dec q 0) as [Z0 | Hq].
  { rewrite (fl_zero q Z0), (Qred_complete q 0 Z0). reflexivity. }
  pose proof (isDouble_range q D) as Hmax.
  destruct D as (M & E & HM & HE & Eq).
  destruct (fl_finite q Hq Hmax) as (e & m & sg & Hs & E1 & E3 & M0 & M1 & M2 & _ & F).
  rewrite F. f_equal. apply Qred_complete.
  assert (A : Qabs q == inject_Z (Z.abs M) * 2 ^ E) by (rewrite Eq; apply abs_double).
  assert (Le : (e <= E)%Z).
  { destruct (Z.eq_dec e (-1074)) as [-> | Ne]; [lia |].
    assert (C : 2 ^ (e + 52) < 2 ^ (53 + E)).
    { apply Qle_lt_trans with (Qabs q); [apply E3; lia |].
      rewrite A, pow_add. apply Qmult_lt_r; [apply pow_pos |].
      rewrite pow_53, <- Zlt_Qlt. exact HM. }
    apply pow_exponent_lt in C. lia. }
  assert (K : Qabs q * 2 ^ (- e) == inject_Z (Z.abs M * 2 ^ (E - e))).
  { rewrite A, inject_Z_mult, pow_inject by lia.
    unfold Z.sub. rewrite pow_add. ring. }
  specialize (M2 _ K).
  pose proof (signed_value sg m e q Hs) as S. rewrite K, <- M2 in S.
  setoid_replace (inject_Z (sg * m) * 2 ^ e)
    with (inject_Z (sg * m) * 2 ^ e - q + q) by ring.
  rewrite S. ring.
Qed.

Lemma Qred_inject z : Qred (inject_Z z) = inject_Z z.
Proof. apply Qred_identity. cbn. apply Z.gcd_1_r. Qed.

Lemma isDouble_inject z : (Z.abs z <= 2 ^ 53)%Z -> isDouble (inject_Z z).
Proof.
  intros H. destruct (Z.eq_dec (Z.abs z) (2 ^ 53)) as [E | Ne].
  - exists (Z.sgn z * 2 ^ 52)%Z, 1%Z. split; [lia |]. split; [lia |].
    assert (S : z = (Z.sgn z * 2 ^ 53)%Z) by lia.
    rewrite S at 1. rewrite !inject_Z_mult.
    setoid_replace (inject_Z (2 ^ 53)) with (inject_Z (2 ^ 52) * 2 ^ 1) by reflexivity.
    ring.
  - exists z, 0%Z. split; [lia |]. split; [lia |]. change (2 ^ 0) with 1. ring.
Qed.

(** Integers up to 2^53 are Numbers. *)
Lemma fl_ofZ q z : (Z.abs z <= 2 ^ 53)%Z -> q == inject_Z z -> fl q = ofZ z.
Proof.
  intros H E. rewrite (fl_proper _ _ E), (fl_exact _ (isDouble_inject z H)).
  unfold ofZ. now rewrite Qred_inject.
Qed.


(** The sign of what [fl] returns. *)
Lemma fl_pos q : 2 ^ (- 1074) <= q -> gtb (fl q) zero = true.
Proof.
  intros H.
  assert (P : 0 < q) by (apply Qlt_le_trans with (2 := H); apply pow_pos).
  assert (Hq : ~ q == 0) by (intros E; rewrite E in P; exact (Qlt_irrefl 0 P)).
  destruct (fl_cases q Hq) as (e & m & sg & Hs & E1 & E2 & E3 & M1 & _ & M3 & F).
  destruct Hs as [[-> _] | [_ N]]; [| exfalso; lra].
  rewrite F.
  assert (A : Qabs q == q) by (apply Qabs_pos; lra).
  assert (M : (1 <= m)%Z).
  { apply M3. rewrite A. change (inject_Z 1) with (2 ^ 0).
    apply scale_ge. rewrite Z.add_0_r.
    destruct (Z.eq_dec e (-1074)) as [-> | Ne]; [exact H |].
    rewrite <- A. apply Qle_trans with (2 := E3 ltac:(lia)).
    apply pow_le. lia. }
  destruct ((971 <? e)%Z || ((e =? 971)%Z && (2 ^ 53 <=? m)%Z)); [reflexivity |].
  unfold gtb, ltb, zero. apply Qltb_lt. rewrite Qred_correct.
  apply Qmult_lt_0_compat; [| apply pow_pos].
  change 0 with (inject_Z 0). rewrite <- Zlt_Qlt. lia.
Qed.

Lemma fl_nonpos q : q <= 0 -> gtb (fl q) zero = false.
Proof.
  intros H.
  destruct (Qeq_dec q 0) as [Z0 | Hq]; [now rewrite (fl_zero q Z0) |].
  destruct (fl_cases q Hq) as (e & m & sg & Hs & E1 & E2 & E3 & M1 & _ & M3 & F).
  assert (M0 : (0 <= m)%Z).
  { apply M3. apply Qmult_le_0_compat; [apply Qabs_nonneg | apply pow_nonneg]. }
  destruct Hs as [[_ P] | [-> _]]; [exfalso; lra |].
  rewrite F.
  destruct ((971 <? e)%Z || ((e =? 971)%Z && (2 ^ 53 <=? m)%Z)); [reflexivity |].
  unfold gtb, ltb, zero. apply Qltb_ge. rewrite Qred_correct.
  setoid_replace (inject_Z (-1 * m) * 2 ^ e) with (- (inject_Z m * 2 ^ e))
    by (rewrite inject_Z_mult; change (inject_Z (-1)) with (-(1)); ring).
  assert (0 <= inject_Z m * 2 ^ e); [| lra].
  apply Qmult_le_0_compat; [| apply pow_nonneg].
  change 0 with (inject_Z 0). rewrite <- Zle_Qle. lia.
Qed.


(** [fl] after an exact operation gives what the Standard Library's
    binary64 operations give: quotients that are rounded down (57/800, 2/3)
    and up (1/10), a tie that goes to the even neighbour in both
    directions, a negative quotient, an overflow and a subnormal result. *)
Lemma fl_agrees_with_SpecFloat :
  fl (57 # 800) = ofSpecFloat (SFdiv 53 1024 (binary64 57) (binary64 800)) /\
  fl (1 # 10) = ofSpecFloat (SFdiv 53 1024 (binary64 1) (binary64 10)) /\
  fl (2 # 3) = ofSpecFloat (SFdiv 53 1024 (binary64 2) (binary64 3)) /\
  fl (- 2 # 3) = ofSpecFloat (SFdiv 53 1024 (binary64 (-2)) (binary64 3)) /\
  fl (inject_Z (2 ^ 53) + 1)
    = ofSpecFloat (SFadd 53 1024 (binary64 (2 ^ 53)) (binary64 1)) /\
  fl (inject_Z (2 ^ 53) + 3)
    = ofSpecFloat (SFadd 53 1024 (binary64 (2 ^ 53)) (binary64 3)) /\
  fl (inject_Z (2 ^ 1023) * 2)
    = ofSpecFloat (SFmul 53 1024 (binary64 (2 ^ 1023)) (binary64 2)) /\
  fl (1 # Z.to_pos (3 * 2 ^ 1073))
    = ofSpecFloat
        (SFdiv 53 1024 (SFdiv 53 1024 (binary64 1) (binary64 (2 ^ 1023)))
           (binary64 (3 * 2 ^ 50))).
Proof. vm_compute. repeat split. Qed.

End Binary64.

(** * Properties *)

Import Csv Obj ReachCalculator TimeseriesAnalytics AggregationService.
Import PeriodExtractor(mkPeriod).
Import Spec.
Open Scope string_scope.

(** ** The effect monad *)

Lemma bind_ok {A B} (m : M A) (k : A -> M B) log a :
  m = (log, Ok a) ->
  bind m k = ((log ++ trace (k a))%list, outcome (k a)).
Proof.
  intros ->. unfold bind, trace, outcome. now destruct (k a).
Qed.

Lemma bind_throw {A B} (m : M A) (k : A -> M B) log e :
  m = (log, Throw e) -> bind m k = (log, Throw e).
Proof. now intros ->. Qed.

Lemma outcome_bind {A B} (m : M A) (k : A -> M B) :
  outcome (bind m k) =
  match outcome m with Ok a => outcome (k a) | Throw e => Throw e end.
Proof.
  destruct m as [log [a | e]]; simpl; [| reflexivity].
  unfold outcome. now destruct (k a).
Qed.



(** ** [safeMetricAggregation] on the calls [aggregateAccountData] makes *)

Arguments validValues : simpl never.
Arguments includes : simpl never.
Arguments AccountTimeseries.getAllMonthlyData : simpl never.
Arguments TimeseriesDataset.getDataForPeriod : simpl never.
Arguments JsNum.sum : simpl never.
Arguments Math_min : simpl never.
Arguments Math_max : simpl never.
Arguments Math_round : simpl never.
Arguments JsNum.div : simpl never.
Arguments JsNum.mul : simpl never.

Lemma safeMetricAggregation_returns ts metric operation :
  In (metric, operation)
     [("reach", "average"); ("reach", "min"); ("reach", "max");
      ("followers", "sum"); ("followers", "average");
      ("views", "sum"); ("views", "average")] ->
  exists log v, safeMetricAggregation ts metric operation = (log, Ok v).
Proof.
  intros H. simpl in H.
  repeat (destruct H as [H | H]; [inversion H; subst; clear H |]);
    try contradiction;
    unfold safeMetricAggregation; simpl;
    destruct (AccountTimeseries.getAllMonthlyData ts); simpl; eauto;
    match goal with |- context [validValues ?l ?m] => destruct (validValues l m) end;
    simpl; eauto.
Qed.

Lemma aggregateMetric_reach ts :
  exists log o, aggregateMetric ts "reach" = (log, Ok ("reach", o)) /\ averageShaped o.
Proof.
  unfold aggregateMetric. simpl.
  destruct (safeMetricAggregation_returns ts "reach" "average") as (l1 & v1 & E1);
    [simpl; auto |].
  destruct (safeMetricAggregation_returns ts "reach" "min") as (l2 & v2 & E2);
    [simpl; auto |].
  destruct (safeMetricAggregation_returns ts "reach" "max") as (l3 & v3 & E3);
    [simpl; auto 10 |].
  rewrite E1. simpl. rewrite E2. simpl. rewrite E3. simpl.
  do 2 eexists. split; [reflexivity |]. repeat split.
Qed.

Lemma aggregateMetric_summable ts metric :
  metric = "followers" \/ metric = "views" ->
  exists log o, aggregateMetric ts metric = (log, Ok (metric, o)).
Proof.
  intros [-> | ->]; unfold aggregateMetric; simpl.
  - destruct (safeMetricAggregation_returns ts "followers" "sum") as (l1 & v1 & E1);
      [simpl; auto 10 |].
    destruct (safeMetricAggregation_returns ts "followers" "average") as (l2 & v2 & E2);
      [simpl; auto 10 |].
    rewrite E1. simpl. rewrite E2. simpl. eauto.
  - destruct (safeMetricAggregation_returns ts "views" "sum") as (l1 & v1 & E1);
      [simpl; auto 10 |].
    destruct (safeMetricAggregation_returns ts "views" "average") as (l2 & v2 & E2);
      [simpl; auto 10 |].
    rewrite E1. simpl. rewrite E2. simpl. eauto.
Qed.

(** [aggregateAccountData] always returns, and what it returns for [reach]
    carries average, min and max and neither a sum nor a total. *)
Lemma aggregateAccountData_reach_shape ts periods :
  exists agg o,
    outcome (aggregateAccountData ts periods) = Ok agg /\
    metricEntry (aggMetrics agg) "reach" = Some o /\ averageShaped o.
Proof.
  unfold aggregateAccountData.
  match goal with |- context [match ?d with [] => _ | _ :: _ => _ end] =>
    destruct d as [| firstData others] end.
  - do 2 eexists. split; [reflexivity |]. split; [reflexivity |]. repeat split.
  - destruct (aggregateMetric_reach ts) as (l1 & o & E1 & Ho).
    destruct (aggregateMetric_summable ts "followers") as (l2 & o2 & E2); [auto |].
    destruct (aggregateMetric_summable ts "views") as (l3 & o3 & E3); [auto |].
    unfold allMetrics, forEach. rewrite E1. simpl. rewrite E2. simpl. rewrite E3. simpl.
    do 2 eexists. split; [reflexivity |]. split; [reflexivity | exact Ho].
Qed.

(** ** C1: no sum or total for a non-summable metric *)

(** With at least one valid value, [calculatePeriodSummary] builds for
    [reach] an object with average, min and max and without a total. *)
Lemma summarizeMetric_reach_shape periodData :
  validValues periodData "reach" <> [] ->
  averageShaped (snd (summarizeMetric periodData "reach")).
Proof.
  intros H. unfold summarizeMetric.
  destruct (validValues periodData "reach"); [contradiction |].
  simpl. repeat split.
Qed.

(** C1 (evaluated where it fails): the file of October 2025 in
    [Examples.twoMonths] passes content validation, and every account in it
    reports a negative reach, so no value of [reach] is valid that month; the
    object [calculatePeriodSummary] returns for [reach] then has a [total]
    field, which a metric that is not summable must not have. *)
Theorem calculatePeriodSummary_total_without_valid_reach :
  exists summary o,
    PeriodValidator.isValid
      (PeriodValidator.validateCSVDataContent (fst Examples.october)) = true /\
    validValues
      (TimeseriesDataset.getDataForPeriod Examples.codeOrder Examples.twoMonths 2025 10)
      "reach" = [] /\
    outcome (calculatePeriodSummary Examples.codeOrder Examples.twoMonths 2025 10)
      = Ok summary /\
    metricEntry (summaryMetrics summary) "reach" = Some o /\
    includes NON_SUMMABLE_METRICS "reach" = true /\
    hasField o "total" = true /\
    field o "type" = Some (VStr "unique_persons").
Proof.
  do 2 eexists. vm_compute. repeat split.
Qed.

(** ** C2: where the rule against summing is enforced *)

Lemma includes_In l x : includes l x = true <-> In x l.
Proof.
  unfold includes. rewrite existsb_exists. split.
  - intros (y & Hy & E). apply String.eqb_eq in E. now subst.
  - intros H. exists x. split; [exact H | apply String.eqb_refl].
Qed.



Lemma eqb_empty_false s : s <> "" -> String.eqb s "" = false.
Proof. intros H. now apply String.eqb_neq. Qed.














(** A name outside the table is not summable over time according to
    [canSumAcrossTime], and yet its sum passes the check. *)
Lemma validateMetricOperation_unknown_metric :
  MetricCategorizer.canSumAcrossTime "likes" = false /\
  outcome (validateMetricOperation "sum" "likes") = Ok tt.
Proof. split; reflexivity. Qed.

(** The check compares the operation as it is given while the [switch]
    lowers its case first: an upper-case [SUM] passes the check and sums
    [reach]. *)
Lemma safeMetricAggregation_upper_case_sum :
  outcome (safeMetricAggregation Examples.anna "reach" "SUM") = Ok (ofZ 2500) /\
  outcome (safeMetricAggregation Examples.anna "reach" "sum")
    = Throw (ErrUniquePersonsSum "reach").
Proof. vm_compute. split; reflexivity. Qed.

(** ** C3: the period filter of [aggregateAccountData] *)

(** C3 (evaluated where it fails): the series [Examples.anna] has followers
    100, 150 and 90 in September, October and November 2025.  Filtered to
    September alone, [aggregateAccountData] reports one included period, yet
    the total of followers is 340 and their average 113, the sum and the
    rounded mean of all three months, where the records of the filter give
    100 for both. *)
Theorem aggregateAccountData_ignores_period_filter :
  exists agg o,
    outcome (aggregateAccountData Examples.anna (Some [mkPeriod 2025 9])) = Ok agg /\
    periodsTotal agg = 1%nat /\
    periodsIncluded agg = [mkPeriod 2025 9] /\
    option_map (fun d => MonthlyAccountData.followers (MonthlyAccountData.metrics d))
      (AccountTimeseries.getMonthlyData Examples.anna 2025 9) = Some (ofZ 100) /\
    metricEntry (aggMetrics agg) "followers" = Some o /\
    numField o "total" = Some (ofZ 340) /\
    numField o "average" = Some (ofZ 113).
Proof.
  do 2 eexists. vm_compute. repeat split.
Qed.

(** ** The scenarios of the specification *)

(** Views of 100 and 200 for two accounts in September 2025. *)
Lemma scenario_views_of_a_period :
  exists summary,
    outcome (calculatePeriodSummary Examples.codeOrder Examples.twoMonths 2025 9)
      = Ok summary /\
    metricEntry (summaryMetrics summary) "views"
      = Some [("total", VNum (ofZ 300)); ("average", VNum (ofZ 150));
              ("min", VNum (ofZ 100)); ("max", VNum (ofZ 200));
              ("validAccounts", VNum (ofZ 2)); ("type", VStr "countable")].
Proof. eexists. vm_compute. split; reflexivity. Qed.

(** Reach of 1000 and 3000 for two accounts in the same period: an average,
    a minimum and a maximum, no total, and no market share. *)
Lemma scenario_reach_of_a_period :
  exists summary o,
    outcome (calculatePeriodSummary Examples.codeOrder Examples.twoMonths 2025 9)
      = Ok summary /\
    metricEntry (summaryMetrics summary) "reach" = Some o /\
    numField o "average" = Some (ofZ 2000) /\
    numField o "min" = Some (ofZ 1000) /\
    numField o "max" = Some (ofZ 3000) /\
    hasField o "total" = false /\
    outcome (calculateMarketShare Examples.codeOrder Examples.twoMonths 2025 9 "reach")
      = Throw (ErrMarketShare "reach").
Proof. do 2 eexists. vm_compute. repeat split. Qed.

(** ** C6: adding a record is an upsert *)

Arguments InstagramAccount.getKey : simpl never.
Arguments Js.periodKey : simpl never.

Section MapFacts.
Context {V : Type}.
Implicit Types (m : Js.map V) (k : string) (v : V).

Lemma get_set_same m k v : Js.get (Js.set m k v) k = Some v.
Proof.
  induction m as [| [k' v'] rest IH]; simpl.
  - now rewrite String.eqb_refl.
  - destruct (String.eqb k k') eqn:E; simpl; rewrite E; [reflexivity | exact IH].
Qed.

Lemma set_set m k v v' : Js.set (Js.set m k v) k v' = Js.set m k v'.
Proof.
  induction m as [| [k0 v0] rest IH]; simpl.
  - now rewrite String.eqb_refl.
  - destruct (String.eqb k k0) eqn:E; simpl; rewrite E; [reflexivity | now rewrite IH].
Qed.

Lemma has_set m k v : Js.has (Js.set m k v) k = true.
Proof. unfold Js.has. now rewrite get_set_same. Qed.

Lemma size_set_present m k v :
  Js.has m k = true -> Js.size (Js.set m k v) = Js.size m.
Proof.
  unfold Js.has, Js.size.
  induction m as [| [k0 v0] rest IH]; simpl; [discriminate |].
  destruct (String.eqb k k0); simpl; [reflexivity |].
  intros H. now rewrite IH.
Qed.

(** Replacing the value under a key by one of the same weight leaves the
    total weight of the map unchanged. *)
Lemma weight_set_present (w : V -> nat) m k v v0 :
  Js.get m k = Some v0 -> w v = w v0 ->
  fold_left (fun sum x => (sum + w x)%nat) (Js.values (Js.set m k v)) O =
  fold_left (fun sum x => (sum + w x)%nat) (Js.values m) O.
Proof.
  unfold Js.values. generalize O.
  induction m as [| [k0 x0] rest IH]; simpl; [discriminate |].
  intros n. destruct (String.eqb k k0); simpl.
  - intros [= ->] ->. reflexivity.
  - intros Hg Hw. now apply IH.
Qed.
Lemma get_set_other m k k' v : k' <> k -> Js.get (Js.set m k v) k' = Js.get m k'.
Proof.
  intros H. induction m as [| [k0 v0] rest IH]; simpl.
  - now apply String.eqb_neq in H as ->.
  - destruct (String.eqb k k0) eqn:E; simpl.
    + apply String.eqb_eq in E. subst k0.
      now apply String.eqb_neq in H as ->.
    + destruct (String.eqb k' k0); [reflexivity | exact IH].
Qed.
End MapFacts.

Lemma addMonthlyData_inversion dataset monthlyData dataset' :
  TimeseriesDataset.addMonthlyData dataset monthlyData = Ok dataset' ->
  exists series ts,
    let accountKey := InstagramAccount.getKey (MonthlyAccountData.account monthlyData) in
    let key := Js.periodKey (MonthlyAccountData.year monthlyData)
                            (MonthlyAccountData.month monthlyData) in
    Js.get series accountKey = Some ts /\
    String.eqb (InstagramAccount.accountId (MonthlyAccountData.account monthlyData))
               (InstagramAccount.accountId (AccountTimeseries.account ts)) = true /\
    dataset' =
      TimeseriesDataset.mk
        (Js.set series accountKey
           (AccountTimeseries.mk (AccountTimeseries.account ts)
              (Js.set (AccountTimeseries.monthlyData ts) key monthlyData))).
Proof.
  unfold TimeseriesDataset.addMonthlyData.
  set (accountKey := InstagramAccount.getKey (MonthlyAccountData.account monthlyData)).
  set (series := if negb (Js.has _ accountKey) then _ else _).
  destruct (Js.get series accountKey) as [ts |] eqn:G; [| discriminate].
  unfold AccountTimeseries.addMonthlyData.
  destruct (String.eqb _ _) eqn:E; simpl; [| discriminate].
  intros [= <-]. exists series, ts. simpl. auto.
Qed.

Lemma new_wellKeyed : wellKeyed TimeseriesDataset.new.
Proof. intros key ts H. discriminate H. Qed.

(** On a dataset built by [addMonthlyData] from the empty one, adding a record
    never throws. *)
Lemma addMonthlyData_returns dataset monthlyData :
  wellKeyed dataset ->
  exists dataset',
    TimeseriesDataset.addMonthlyData dataset monthlyData = Ok dataset' /\
    wellKeyed dataset'.
Proof.
  intros W. unfold TimeseriesDataset.addMonthlyData.
  set (accountKey := InstagramAccount.getKey (MonthlyAccountData.account monthlyData)).
  assert (Step : forall series ts,
             Js.get series accountKey = Some ts ->
             InstagramAccount.accountId (AccountTimeseries.account ts)
               = InstagramAccount.accountId (MonthlyAccountData.account monthlyData) ->
             (forall k t, Js.get series k = Some t ->
                          k = InstagramAccount.getKey (AccountTimeseries.account t)) ->
             exists dataset',
               match Js.get series accountKey with
               | None => Throw (TypeError "addMonthlyData")
               | Some ts =>
                   rbind (AccountTimeseries.addMonthlyData ts monthlyData)
                     (fun ts' => Ok {| TimeseriesDataset.accountTimeseries :=
                                         Js.set series accountKey ts' |})
               end = Ok dataset' /\ wellKeyed dataset').
  { intros series ts G Hid Hk. rewrite G. unfold AccountTimeseries.addMonthlyData.
    rewrite Hid, String.eqb_refl. simpl. eexists. split; [reflexivity |].
    intros k t. simpl. destruct (String.eqb_spec k accountKey) as [-> | N].
    - rewrite get_set_same. intros [= <-]. simpl. apply (Hk _ _ G).
    - rewrite get_set_other by exact N. apply Hk. }
  destruct (Js.has (TimeseriesDataset.accountTimeseries dataset) accountKey) eqn:H;
    cbn [negb].
  - assert (G : exists ts,
               Js.get (TimeseriesDataset.accountTimeseries dataset) accountKey = Some ts).
    { unfold Js.has in H.
      destruct (Js.get (TimeseriesDataset.accountTimeseries dataset) accountKey);
        [eauto | discriminate]. }
    destruct G as [ts G].
    apply (Step _ ts G); [| exact W].
    apply W in G. unfold accountKey, InstagramAccount.getKey in G.
    now injection G.
  - apply (Step _ (AccountTimeseries.new (MonthlyAccountData.account monthlyData))).
    + apply get_set_same.
    + reflexivity.
    + intros k t. destruct (String.eqb_spec k accountKey) as [-> | N].
      * rewrite get_set_same. now intros [= <-].
      * rewrite get_set_other by exact N. apply W.
Qed.

(** C6: once a record has been added, adding it again returns the very same
    dataset, so the number of records does not change; and adding another
    record for the same account and period keeps the number of records and
    leaves that other record, whole, under the key. *)
Theorem addMonthlyData_upsert dataset monthlyData dataset1 :
  TimeseriesDataset.addMonthlyData dataset monthlyData = Ok dataset1 ->
  TimeseriesDataset.addMonthlyData dataset1 monthlyData = Ok dataset1 /\
  forall other,
    InstagramAccount.accountId (MonthlyAccountData.account other)
      = InstagramAccount.accountId (MonthlyAccountData.account monthlyData) ->
    MonthlyAccountData.year other = MonthlyAccountData.year monthlyData ->
    MonthlyAccountData.month other = MonthlyAccountData.month monthlyData ->
    exists dataset2,
      TimeseriesDataset.addMonthlyData dataset1 other = Ok dataset2 /\
      TimeseriesDataset.totalDataPoints dataset2
        = TimeseriesDataset.totalDataPoints dataset1 /\
      recordOf dataset2
        (InstagramAccount.accountId (MonthlyAccountData.account other))
        (MonthlyAccountData.year other) (MonthlyAccountData.month other) = Some other.
Proof.
  intros H. destruct (addMonthlyData_inversion _ _ _ H) as (series & ts & G & E & ->).
  clear H. cbv zeta in G.
  set (accountKey := InstagramAccount.getKey (MonthlyAccountData.account monthlyData)) in *.
  set (key := Js.periodKey (MonthlyAccountData.year monthlyData)
                           (MonthlyAccountData.month monthlyData)).
  assert (Again : forall other,
    InstagramAccount.accountId (MonthlyAccountData.account other)
      = InstagramAccount.accountId (MonthlyAccountData.account monthlyData) ->
    MonthlyAccountData.year other = MonthlyAccountData.year monthlyData ->
    MonthlyAccountData.month other = MonthlyAccountData.month monthlyData ->
    TimeseriesDataset.addMonthlyData
      (TimeseriesDataset.mk
         (Js.set series accountKey
            (AccountTimeseries.mk (AccountTimeseries.account ts)
               (Js.set (AccountTimeseries.monthlyData ts) key monthlyData))))
      other
    = Ok (TimeseriesDataset.mk
            (Js.set series accountKey
               (AccountTimeseries.mk (AccountTimeseries.account ts)
                  (Js.set (AccountTimeseries.monthlyData ts) key other))))).
  { intros other Ha Hy Hm.
    assert (K : InstagramAccount.getKey (MonthlyAccountData.account other) = accountKey)
      by (unfold accountKey, InstagramAccount.getKey; now rewrite Ha).
    unfold TimeseriesDataset.addMonthlyData. rewrite K. simpl.
    rewrite has_set. simpl. rewrite get_set_same.
    unfold AccountTimeseries.addMonthlyData. simpl.
    rewrite Ha, E, Hy, Hm. simpl. fold key. now rewrite !set_set. }
  split.
  - apply (Again monthlyData eq_refl eq_refl eq_refl).
  - intros other Ha Hy Hm. eexists. split; [apply (Again other Ha Hy Hm) |]. split.
    + unfold TimeseriesDataset.totalDataPoints. simpl.
      rewrite <- (set_set series accountKey
                    (AccountTimeseries.mk (AccountTimeseries.account ts)
                       (Js.set (AccountTimeseries.monthlyData ts) key monthlyData))).
      eapply weight_set_present; [apply get_set_same |].
      unfold AccountTimeseries.getMonthCount. simpl.
      rewrite <- (set_set (AccountTimeseries.monthlyData ts) key monthlyData other).
      apply size_set_present, has_set.
    + unfold recordOf, TimeseriesDataset.getAccountTimeseries. simpl.
      rewrite Ha. fold (InstagramAccount.getKey (MonthlyAccountData.account monthlyData)).
      fold accountKey. rewrite get_set_same.
      unfold AccountTimeseries.getMonthlyData. simpl.
      rewrite Hy, Hm. fold key. apply get_set_same.
Qed.

(** C6, at the record of account 1 for September 2025 added to the empty
    dataset. *)
Lemma addMonthlyData_upsert_witness :
  exists monthlyData dataset1,
    MonthlyAccountData.fromCSVRow (Examples.exportRow "anna" "1" "1000" "100" "100") 2025 9
      = Ok monthlyData /\
    TimeseriesDataset.addMonthlyData TimeseriesDataset.new monthlyData = Ok dataset1 /\
    TimeseriesDataset.addMonthlyData dataset1 monthlyData = Ok dataset1.
Proof.
  do 2 eexists. split; [reflexivity |]. split; [reflexivity |].
  refine (proj1 (addMonthlyData_upsert TimeseriesDataset.new _ _ _)).
  reflexivity.
Defined.

(** ** C7: the metrics of a record built from a row *)

Lemma parseNumeric_not_NaN c : isNaN (MonthlyAccountData.parseNumeric c) = false.
Proof.
  destruct c as [| | s]; simpl; try reflexivity.
  destruct (String.eqb s ""); [reflexivity |].
  destruct (parseFloat (removeCommas s)) eqn:E; reflexivity.
Qed.

Lemma parseNumeric_unusable c : unusable c -> MonthlyAccountData.parseNumeric c = zero.
Proof.
  destruct c as [| | s]; simpl; try reflexivity.
  intros [-> | H]; [reflexivity |].
  destruct (String.eqb s ""); [reflexivity |]. now rewrite H.
Qed.

Lemma validateMetrics_metric r name :
  In name allMetrics ->
  MonthlyAccountData.metric (MonthlyAccountData.validateMetrics r) name
    = Some (MonthlyAccountData.parseNumeric (metricCell r name)).
Proof.
  intros H. simpl in H. destruct H as [<- | [<- | [<- | []]]]; reflexivity.
Qed.

Lemma fromCSVRow_metrics r year month d :
  MonthlyAccountData.fromCSVRow r year month = Ok d ->
  MonthlyAccountData.metrics d = MonthlyAccountData.validateMetrics r.
Proof.
  unfold MonthlyAccountData.fromCSVRow, rbind.
  destruct (InstagramAccount.fromCSVRow r); [| discriminate].
  unfold MonthlyAccountData.new.
  destruct (_ || _); [discriminate |]. now intros [= <-].
Qed.

Lemma convertToMonthlyData_accepted csvRows year month data d :
  CsvProcessor.convertToMonthlyData csvRows year month = Ok data -> In d data ->
  exists r, In r csvRows /\ MonthlyAccountData.fromCSVRow r year month = Ok d.
Proof.
  unfold CsvProcessor.convertToMonthlyData.
  match goal with |- context [flat_map ?f csvRows] => set (l := flat_map f csvRows) end.
  intros H Hin.
  assert (data = l) by (destruct l; [discriminate | now injection H]). subst data.
  apply in_flat_map in Hin. destruct Hin as (r & Hr & Hd). exists r. split; [exact Hr |].
  destruct (_ && _); [contradiction |].
  destruct (MonthlyAccountData.fromCSVRow r year month); [| contradiction].
  destruct Hd as [-> | []]. reflexivity.
Qed.

(** The conversion of a row fails on its account fields or on the period
    only: whatever the metric cells hold, it goes through. *)
Lemma fromCSVRow_succeeds r year month account :
  InstagramAccount.fromCSVRow r = Ok account ->
  year <> 0 -> 1 <= month <= 12 ->
  MonthlyAccountData.fromCSVRow r year month
    = Ok (MonthlyAccountData.mk account year month (MonthlyAccountData.validateMetrics r)).
Proof.
  intros Ha Hy Hm. unfold MonthlyAccountData.fromCSVRow. rewrite Ha. simpl.
  unfold MonthlyAccountData.new.
  replace (year =? 0)%Z with false by (symmetry; apply Z.eqb_neq; exact Hy).
  replace (month =? 0)%Z with false by (symmetry; apply Z.eqb_neq; lia).
  replace (month <? 1)%Z with false by (symmetry; apply Z.ltb_ge; lia).
  replace (month >? 12)%Z with false by (rewrite Z.gtb_ltb; symmetry; apply Z.ltb_ge; lia).
  reflexivity.
Qed.

(** C7 (as stated, refuted): the row of account 1 for October 2025, whose
    reach cell reads [-5], passes [validateDataRow] with a warning, is
    accepted, and the record built from it holds a negative reach. *)
Lemma accepted_row_with_negative_reach :
  exists d,
    PeriodValidator.validateDataRow (Examples.exportRow "anna" "1" "-5" "300" "150") 1
      = PeriodValidator.mkRowReport true []
          [PeriodValidator.Negative 1 "Reach" (ofZ (-5))] /\
    CsvProcessor.convertToMonthlyData
      [Examples.exportRow "anna" "1" "-5" "300" "150"] 2025 10 = Ok [d] /\
    MonthlyAccountData.metric (MonthlyAccountData.metrics d) "reach" = Some (ofZ (-5)) /\
    ltb (ofZ (-5)) zero = true.
Proof. eexists. vm_compute. repeat split. Qed.

(** C7 (amended): a record built from an accepted row holds for each of the
    three metrics a number that is not NaN, namely [parseNumeric] of the cell
    read for it, which is 0 when the cell is missing, empty or unparsable;
    and a row whose account fields and period pass is converted whatever its
    metric cells hold. *)
Theorem accepted_row_metrics csvRows year month data d :
  CsvProcessor.convertToMonthlyData csvRows year month = Ok data -> In d data ->
  exists r,
    In r csvRows /\
    MonthlyAccountData.fromCSVRow r year month = Ok d /\
    (forall name, In name allMetrics ->
       exists v,
         MonthlyAccountData.metric (MonthlyAccountData.metrics d) name = Some v /\
         v = MonthlyAccountData.parseNumeric (metricCell r name) /\
         isNaN v = false /\
         (unusable (metricCell r name) -> v = zero)) /\
    (forall r' account,
       InstagramAccount.fromCSVRow r' = Ok account ->
       exists d', MonthlyAccountData.fromCSVRow r' year month = Ok d').
Proof.
  intros H Hin.
  destruct (convertToMonthlyData_accepted _ _ _ _ _ H Hin) as (r & Hr & Hd).
  exists r. split; [exact Hr |]. split; [exact Hd |]. split.
  - intros name Hn. eexists. split.
    + rewrite (fromCSVRow_metrics _ _ _ _ Hd). now apply validateMetrics_metric.
    + split; [reflexivity |]. split; [apply parseNumeric_not_NaN | apply parseNumeric_unusable].
  - intros r' account Ha.
    assert (Hp : year <> 0 /\ 1 <= month <= 12).
    { revert Hd. unfold MonthlyAccountData.fromCSVRow, rbind.
      destruct (InstagramAccount.fromCSVRow r); [| discriminate].
      unfold MonthlyAccountData.new.
      destruct (year =? 0)%Z eqn:E1; [discriminate |].
      destruct (month =? 0)%Z eqn:E2; [discriminate |].
      destruct (month <? 1)%Z eqn:E3; [discriminate |].
      destruct (month >? 12)%Z eqn:E4; [discriminate |].
      intros _. apply Z.eqb_neq in E1. apply Z.ltb_ge in E3.
      rewrite Z.gtb_ltb in E4. apply Z.ltb_ge in E4. lia. }
    eexists. apply (fromCSVRow_succeeds _ _ _ _ Ha); apply Hp.
Qed.

(** C7, at a file whose second row has an empty views cell and a followers
    cell that is not a number. *)
Lemma accepted_row_metrics_witness :
  let csvRows := [Examples.exportRow "anna" "1" "-5" "300" "150";
                  Examples.exportRow "bert" "2" "12" "" "n/a"] in
  exists data d r,
    CsvProcessor.convertToMonthlyData csvRows 2025 10 = Ok data /\
    nth_error data 1 = Some d /\
    In r csvRows /\
    MonthlyAccountData.fromCSVRow r 2025 10 = Ok d /\
    MonthlyAccountData.metrics d = MonthlyAccountData.mkMetrics (ofZ 12) zero zero.
Proof.
  intros csvRows.
  pose (data := match CsvProcessor.convertToMonthlyData csvRows 2025 10 with
                | Ok l => l | Throw _ => [] end).
  pose (d := nth 1 data (MonthlyAccountData.mk (InstagramAccount.mk "" "" "") 0 0
                           (MonthlyAccountData.mkMetrics zero zero zero))).
  destruct (accepted_row_metrics csvRows 2025 10 data d) as (r & Hr & Hd & _).
  - reflexivity.
  - vm_compute. auto.
  - exists data, d, r. split; [reflexivity |]. split; [reflexivity |].
    split; [exact Hr |]. split; [exact Hd |]. reflexivity.
Defined.
(** ** C10: averages are rounded to the nearest integer *)

Section RoundedMeans.
Import Binary64.
Local Open Scope Q_scope.

Lemma Qfloor_unique y k :
  inject_Z k <= y -> y < inject_Z (k + 1) -> Qfloor y = k.
Proof.
  intros L U. pose proof (Qfloor_le y) as F1. pose proof (Qlt_floor y) as F2.
  assert (A : (Qfloor y < k + 1)%Z) by (rewrite Zlt_Qlt; lra).
  assert (B : (k < Qfloor y + 1)%Z) by (rewrite Zlt_Qlt; lra).
  lia.
Qed.

Lemma tiny_1075 : 2 ^ (- 1075) <= 1 # 1329227995784915872903807060280344576.
Proof. vm_compute. discriminate. Qed.

Lemma pow_literal_53 : 2 ^ (- 53) == 1 # 9007199254740992.
Proof. reflexivity. Qed.

(** The quotient of two whole numbers, rounded to a Number and then to an
    integer, is within one half of the exact quotient when the dividend is
    below 2^52. *)
Lemma round_div_whole S n :
  (0 <= S < 2 ^ 52)%Z -> (0 < n)%Z ->
  exists z,
    Math_round (div (ofZ S) (ofZ n)) = ofZ z
    /\ Qabs (inject_Z z - inject_Z S / inject_Z n) <= 1 # 2.
Proof.
  intros HS Hn.
  pose proof (inject_pos n Hn) as Dp. pose proof (inject_nonzero n Hn) as Dn.
  unfold JsNum.div, ofZ.
  replace (Qeq_bool (inject_Z n) 0) with false
    by (symmetry; apply not_true_is_false; intros E; apply Qeq_bool_iff in E; now apply Dn).
  set (D := inject_Z n) in *. set (x := inject_Z S / D).
  assert (Dx : D * x == inject_Z S) by (unfold x; field; exact Dn).
  assert (S0 : 0 <= inject_Z S) by (change 0 with (inject_Z 0); rewrite <- Zle_Qle; lia).
  assert (S1 : inject_Z S <= 4503599627370495).
  { change 4503599627370495 with (inject_Z (2 ^ 52 - 1)). rewrite <- Zle_Qle. lia. }
  assert (D1 : 1 <= D) by (change 1 with (inject_Z 1); unfold D; rewrite <- Zle_Qle; lia).
  assert (X0 : 0 <= x) by (apply Qle_shift_div_l; [exact Dp | lra]).
  assert (XS : x <= inject_Z S).
  { assert (0 <= (D - 1) * x) by (apply Qmult_le_0_compat; lra). lra. }
  assert (Hmax : Qabs x <= maxValue).
  { rewrite Qabs_pos by exact X0. apply Qle_trans with (2 := maxValue_pow).
    apply Qle_trans with (1 := XS). apply Qle_trans with (1 := S1).
    vm_compute. discriminate. }
  destruct (fl_error x Hmax) as (r & F & B & _ & R0 & _).
  specialize (R0 X0). rewrite F. unfold Math_round.
  exists (Qfloor (r + (1 # 2))). split; [reflexivity |].
  rewrite (Qabs_pos x X0), pow_literal_53 in B.
  pose proof tiny_1075 as T. pose proof (pow_pos (- 1075)) as Tp.
  set (eta := 2 ^ (- 1075)) in *.
  apply Qabs_Qle_condition in B. destruct B as [B1 B2].
  destruct (Z_le_gt_dec (4 * S) n) as [Small | Large].
  - (* the quotient is at most a quarter *)
    assert (Q4 : 4 * inject_Z S <= D).
    { change 4 with (inject_Z 4). unfold D. rewrite <- inject_Z_mult, <- Zle_Qle. exact Small. }
    assert (X4 : x <= 1 # 4) by (apply (Qmult_le_l _ _ D Dp); lra).
    rewrite (Qfloor_unique (r + (1 # 2)) 0).
    + apply Qabs_Qle_condition. change (inject_Z 0) with 0. lra.
    + change (inject_Z 0) with 0. lra.
    + change (inject_Z (0 + 1)) with 1. lra.
  - set (u := (2 * S + n)%Z).
    pose proof (Z.div_mod u (2 * n) ltac:(lia)) as E.
    pose proof (Z.mod_pos_bound u (2 * n) ltac:(lia)) as Bd.
    set (k := (u / (2 * n))%Z) in *. set (rho := (u mod (2 * n))%Z) in *.
    assert (K : 2 * (D * inject_Z k) + inject_Z rho == 2 * inject_Z S + D).
    { unfold D. change 2 with (inject_Z 2).
      rewrite <- !inject_Z_mult, <- !inject_Z_plus. apply inject_Z_injective.
      unfold u in E. lia. }
    assert (R1 : 0 <= inject_Z rho)
      by (change 0 with (inject_Z 0); rewrite <- Zle_Qle; lia).
    assert (R2 : inject_Z rho + 1 <= 2 * D).
    { unfold D. change 2 with (inject_Z 2). change 1 with (inject_Z 1).
      rewrite <- inject_Z_mult, <- inject_Z_plus, <- Zle_Qle. lia. }
    destruct (Z.eq_dec rho 0) as [Z0 | NZ].
    + (* the quotient is a half-integer, which is a Number *)
      rewrite Z0 in K. change (inject_Z 0) with 0 in K.
      assert (Xk : x == inject_Z k - (1 # 2)).
      { apply (Qmult_inj_l _ _ D Dn). lra. }
      assert (Dbl : isDouble x).
      { exists (2 * k - 1)%Z, (-1)%Z. split; [| split; [lia |]].
        - rewrite Z0 in E. unfold u in E. nia.
        - replace (2 * k - 1)%Z with (2 * k + -1)%Z by ring.
          rewrite Xk, inject_Z_plus, inject_Z_mult.
          setoid_replace (2 ^ (-1)) with (1 # 2) by reflexivity.
          change (inject_Z 2) with 2. change (inject_Z (-1)) with (-(1)). ring. }
      rewrite (fl_exact x Dbl) in F.
      assert (Rx : r == x).
      { assert (R : Qred x = r) by (injection F as F0; exact F0).
        rewrite <- R. apply Qred_correct. }
      rewrite (Qfloor_unique (r + (1 # 2)) k).
      * apply Qabs_Qle_condition. lra.
      * lra.
      * rewrite inject_Z_plus. change (inject_Z 1) with 1. lra.
    + assert (R3 : 1 <= inject_Z rho)
        by (change 1 with (inject_Z 1); rewrite <- Zle_Qle; lia).
      assert (De : D * eta <= 1 # 1152921504606846976).
      { apply Qle_trans with (inject_Z (2 ^ 54) * (1 # 1329227995784915872903807060280344576)).
        - apply Qmult_le_compat_nonneg.
          + split; [lra |]. unfold D. rewrite <- Zle_Qle. lia.
          + split; [lra | exact T].
        - vm_compute. discriminate. }
      assert (L1 : D * (- (x * (1 # 9007199254740992) + eta)) <= D * (r - x))
        by (apply Qmult_le_l; [exact Dp | exact B1]).
      assert (L2 : D * (r - x) <= D * (x * (1 # 9007199254740992) + eta))
        by (apply Qmult_le_l; [exact Dp | exact B2]).
      rewrite (Qfloor_unique (r + (1 # 2)) k).
      * apply Qabs_Qle_condition. split; apply (Qmult_le_l _ _ D Dp); lra.
      * apply (Qmult_le_l _ _ D Dp). lra.
      * apply (Qmult_lt_l _ _ D Dp). rewrite inject_Z_plus.
        change (inject_Z 1) with 1. lra.
Qed.

Lemma fold_Qplus_proper qs a b :
  a == b -> fold_left Qplus qs a == fold_left Qplus qs b.
Proof.
  revert a b. induction qs as [| q rest IH]; intros a b E; [exact E |].
  cbn [fold_left]. apply IH. now rewrite E.
Qed.

Lemma fold_Qplus_ge qs a :
  Forall (fun q => 0 <= q) qs -> a <= fold_left Qplus qs a.
Proof.
  revert a. induction qs as [| q rest IH]; intros a H; [apply Qle_refl |].
  inversion H as [| ? ? Hq Hrest]; subst. cbn [fold_left].
  apply Qle_trans with (2 := IH (a + q) Hrest). lra.
Qed.

Lemma validValues_nonNegative periodData metric :
  Forall nonNegative (validValues periodData metric).
Proof.
  unfold validValues. apply Forall_forall. intros v Hv.
  apply in_flat_map in Hv. destruct Hv as (d & _ & Hv).
  destruct (MonthlyAccountData.metric (MonthlyAccountData.metrics d) metric) as [w |];
    [| destruct (isValidValue None); contradiction].
  destruct (isValidValue (Some w)) eqn:E; [| contradiction].
  destruct Hv as [<- | []].
  unfold isValidValue in E. apply andb_prop in E. destruct E as [E1 E2].
  destruct w as [| | | q]; try discriminate; simpl; [exact I |].
  unfold geb, leb, ltb, eqb, zero in E2. apply orb_prop in E2.
  destruct E2 as [E2 | E2].
  - apply Qltb_lt in E2. now apply Qlt_le_weak.
  - apply Qeq_bool_iff in E2. rewrite E2. apply Qle_refl.
Qed.

Lemma rationals_nonNegative values :
  Forall nonNegative values -> Forall (fun q => 0 <= q) (rationals values).
Proof.
  induction 1 as [| v rest Hv _ IH]; [constructor |].
  destruct v as [| | | q]; try contradiction; cbn; [exact IH | now constructor].
Qed.

(** Whole numbers that are not negative add up without rounding while the
    sum stays within 2^53. *)
Lemma sum_whole_from values za :
  Forall isInteger values -> Forall nonNegative values -> (0 <= za)%Z ->
  fold_left Qplus (rationals values) (inject_Z za) <= inject_Z (2 ^ 53) ->
  exists S,
    fold_left add values (ofZ za) = ofZ S
    /\ inject_Z S == fold_left Qplus (rationals values) (inject_Z za)
    /\ (0 <= S)%Z.
Proof.
  intros Hi Hn. revert za.
  induction values as [| v rest IH]; intros za Hz Hb.
  - exists za. split; [reflexivity |]. split; [reflexivity | exact Hz].
  - inversion Hi as [| ? ? [z Ev] Hirest]; subst.
    inversion Hn as [| ? ? Hv Hnrest]; subst.
    destruct v as [| | | q]; try contradiction.
    cbn [same ofZ] in Ev. cbn [nonNegative] in Hv.
    cbn [rationals flat_map app fold_left] in Hb |- *.
    fold (rationals rest) in Hb |- *.
    assert (Z0 : (0 <= z)%Z) by (rewrite Zle_Qle, <- Ev; exact Hv).
    assert (E : inject_Z za + q == inject_Z (za + z))
      by (rewrite inject_Z_plus, Ev; reflexivity).
    pose proof (fold_Qplus_proper (rationals rest) _ _ E) as P.
    assert (Bz : (za + z <= 2 ^ 53)%Z).
    { rewrite Zle_Qle. apply Qle_trans with (2 := Hb). rewrite <- E.
      apply fold_Qplus_ge. now apply rationals_nonNegative. }
    unfold add, ofZ at 1.
    rewrite (fl_ofZ (inject_Z za + q) (za + z)) by (lia || exact E).
    destruct (IH Hirest Hnrest (za + z)%Z ltac:(lia)) as (S & F & ES & S0).
    + rewrite <- P. exact Hb.
    + exists S. split; [exact F |]. split; [| exact S0]. now rewrite ES, <- P.
Qed.

(** The mean of small whole numbers, as its model computes it. *)
Lemma roundedMeanOf_average values :
  Forall nonNegative values -> smallWhole values ->
  roundedMeanOf values (averageOf values).
Proof.
  intros Hn [Hi Hb].
  destruct values as [| v rest] eqn:Ev.
  { exists 0%Z. split; [reflexivity | intros H; now elim H]. }
  rewrite <- Ev in *.
  assert (A : averageOf values = Math_round (div (JsNum.sum values) (lengthOf values)))
    by (rewrite Ev; reflexivity).
  rewrite A.
  destruct (sum_whole_from values 0 Hi Hn ltac:(lia)) as (S & F & ES & S0).
  { apply Qlt_le_weak. apply Qlt_le_trans with (1 := Hb).
    rewrite <- Zle_Qle. lia. }
  fold (Qsum (rationals values)) in ES.
  assert (S52 : (S < 2 ^ 52)%Z) by (rewrite Zlt_Qlt, ES; exact Hb).
  assert (Np : (0 < Z.of_nat (List.length values))%Z) by (rewrite Ev; cbn; lia).
  destruct (round_div_whole S _ (conj S0 S52) Np) as (z & R & B).
  exists z. unfold JsNum.sum, zero, lengthOf.
  change (Fin 0) with (ofZ 0). rewrite F. split; [exact R |].
  intros _. unfold exactMean. rewrite <- ES. exact B.
Qed.

Lemma averageOf_integer values :
  isFinite (averageOf values) = true -> isInteger (averageOf values).
Proof.
  unfold averageOf. destruct values as [| v rest].
  - intros _. exists 0%Z. reflexivity.
  - destruct (div (JsNum.sum (v :: rest)) (lengthOf (v :: rest))); try discriminate.
    intros _. eexists. cbn. reflexivity.
Qed.

End RoundedMeans.

(** What [safeMetricAggregation] returns for [average]. *)
Lemma safeMetricAggregation_average ts metric operation :
  metric <> "" ->
  toLowerCase operation = "average" \/ toLowerCase operation = "mean" ->
  exists log,
    safeMetricAggregation ts metric operation =
    (log,
     Ok (averageOf (validValues (AccountTimeseries.getAllMonthlyData ts) metric))).
Proof.
  intros Hm Ho. unfold safeMetricAggregation. rewrite (eqb_empty_false _ Hm).
  assert (Hop : String.eqb operation "" = false /\ String.eqb operation "sum" = false /\
                String.eqb operation "total" = false).
  { repeat split; apply String.eqb_neq; intros ->; destruct Ho as [Ho | Ho];
      discriminate Ho. }
  destruct Hop as (H0 & H1 & H2).
  assert (Hv : exists log, validateMetricOperation operation metric = (log, Ok tt)).
  { unfold validateMetricOperation. rewrite H1, H2. simpl.
    destruct ((String.eqb operation "average" || String.eqb operation "mean")
              && includes SUMMABLE_METRICS metric); simpl; eauto. }
  destruct Hv as [log Hv].
  rewrite H0. simpl orb. cbv iota. rewrite (bind_ok _ _ _ _ Hv).
  eexists. f_equal.
  destruct (AccountTimeseries.getAllMonthlyData ts) as [| d ds].
  - reflexivity.
  - destruct (validValues (d :: ds) metric); [reflexivity |].
    cbv zeta. destruct Ho as [-> | ->]; reflexivity.
Qed.

(** The [average] field [aggregateMetric] fills is what
    [safeMetricAggregation] returns for [average]. *)
Lemma aggregateMetric_average ts metric :
  In metric allMetrics ->
  exists log o,
    aggregateMetric ts metric = (log, Ok (metric, o)) /\
    numField o "average" =
      Some (averageOf (validValues (AccountTimeseries.getAllMonthlyData ts) metric)).
Proof.
  intros H. simpl in H.
  destruct H as [<- | [<- | [<- | []]]]; unfold aggregateMetric; simpl.
  - destruct (safeMetricAggregation_average ts "reach" "average") as (l1 & E1);
      [discriminate | auto |].
    destruct (safeMetricAggregation_returns ts "reach" "min") as (l2 & v2 & E2);
      [simpl; auto |].
    destruct (safeMetricAggregation_returns ts "reach" "max") as (l3 & v3 & E3);
      [simpl; auto 10 |].
    rewrite E1. simpl. rewrite E2. simpl. rewrite E3. simpl.
    do 2 eexists. split; reflexivity.
  - destruct (safeMetricAggregation_returns ts "followers" "sum") as (l1 & v1 & E1);
      [simpl; auto 10 |].
    destruct (safeMetricAggregation_average ts "followers" "average") as (l2 & E2);
      [discriminate | auto |].
    rewrite E1. simpl. rewrite E2. simpl.
    do 2 eexists. split; reflexivity.
  - destruct (safeMetricAggregation_returns ts "views" "sum") as (l1 & v1 & E1);
      [simpl; auto 10 |].
    destruct (safeMetricAggregation_average ts "views" "average") as (l2 & E2);
      [discriminate | auto |].
    rewrite E1. simpl. rewrite E2. simpl.
    do 2 eexists. split; reflexivity.
Qed.

Lemma summarizeMetric_average periodData metric :
  exists o,
    summarizeMetric periodData metric = (metric, o) /\
    numField o "average" =
      Some (averageOf (validValues periodData metric)).
Proof.
  unfold summarizeMetric.
  destruct (validValues periodData metric).
  - eexists. split; reflexivity.
  - destruct (includes NON_SUMMABLE_METRICS metric); eexists; split; reflexivity.
Qed.

Lemma metricEntry_map (f : string -> string * obj) metric :
  (forall m, fst (f m) = m) -> In metric allMetrics ->
  metricEntry (List.map f allMetrics) metric = Some (snd (f metric)).
Proof.
  intros Hf H. unfold allMetrics. simpl.
  destruct (f "reach") as [k1 o1] eqn:E1.
  destruct (f "followers") as [k2 o2] eqn:E2.
  destruct (f "views") as [k3 o3] eqn:E3.
  pose proof (Hf "reach") as H1. pose proof (Hf "followers") as H2.
  pose proof (Hf "views") as H3.
  rewrite E1 in H1. rewrite E2 in H2. rewrite E3 in H3. simpl in *. subst.
  destruct H as [<- | [<- | [<- | []]]]; simpl.
  - now rewrite E1.
  - now rewrite E2.
  - now rewrite E3.
Qed.

Lemma aggregateAccountData_average ts periods metric :
  In metric allMetrics ->
  exists agg o,
    outcome (aggregateAccountData ts periods) = Ok agg /\
    metricEntry (aggMetrics agg) metric = Some o /\
    numField o "average" = Some (averageOf (averagedValues ts periods metric)).
Proof.
  intros Hin. unfold aggregateAccountData, averagedValues.
  change (match periods with
          | Some ((_ :: _) as ps) =>
              filter
                (fun data =>
                   Js.setHas
                     (List.map
                        (fun p => Js.periodKey (PeriodExtractor.year p) (PeriodExtractor.month p))
                        ps)
                     (Js.periodKey (MonthlyAccountData.year data)
                                   (MonthlyAccountData.month data)))
                (AccountTimeseries.getAllMonthlyData ts)
          | _ => AccountTimeseries.getAllMonthlyData ts
          end)
    with (selectedData ts periods).
  destruct (selectedData ts periods) as [| firstData others].
  - simpl in Hin.
    destruct Hin as [<- | [<- | [<- | []]]];
      (do 2 eexists; split; [reflexivity |]; split; reflexivity).
  - destruct (aggregateMetric_average ts "reach") as (l1 & o1 & E1 & A1);
      [simpl; auto |].
    destruct (aggregateMetric_average ts "followers") as (l2 & o2 & E2 & A2);
      [simpl; auto |].
    destruct (aggregateMetric_average ts "views") as (l3 & o3 & E3 & A3);
      [simpl; auto |].
    unfold allMetrics, forEach.
    rewrite E1. simpl. rewrite E2. simpl. rewrite E3. simpl.
    simpl in Hin.
    destruct Hin as [<- | [<- | [<- | []]]];
      (do 2 eexists; split; [reflexivity |]; split; [reflexivity | eassumption]).
Qed.

(** C10: every average of the aggregation paths is
    [Math.round(sum / count)] of the values averaged, 0 when there are none:
    what [safeMetricAggregation] returns for an operation that reads
    [average] or [mean] in any case of letters, the [average] field of every
    metric in the result of [aggregateAccountData], and the [average] field
    of every metric in the result of [calculatePeriodSummary] for a period
    with data.  The values averaged are the valid values of the metric: over
    the whole series for an account (none when no month is selected), over
    the accounts of the period for a period summary.  When they are
    integers whose sum is below 2^52, the average is an integer within one
    half of their exact mean; an average that is finite is an integer in
    every case. *)
Theorem averages_are_rounded :
  (forall ts metric operation,
      metric <> "" ->
      toLowerCase operation = "average" \/ toLowerCase operation = "mean" ->
      let values := validValues (AccountTimeseries.getAllMonthlyData ts) metric in
      outcome (safeMetricAggregation ts metric operation) = Ok (averageOf values) /\
      (smallWhole values -> roundedMeanOf values (averageOf values))) /\
  (forall ts periods metric,
      In metric allMetrics ->
      let values := averagedValues ts periods metric in
      exists agg o,
        outcome (aggregateAccountData ts periods) = Ok agg /\
        metricEntry (aggMetrics agg) metric = Some o /\
        numField o "average" = Some (averageOf values) /\
        (smallWhole values -> roundedMeanOf values (averageOf values))) /\
  (forall localeCompare dataset year month metric,
      In metric allMetrics ->
      let periodData :=
        TimeseriesDataset.getDataForPeriod localeCompare dataset year month in
      let values := validValues periodData metric in
      periodData <> [] ->
      exists summary o,
        outcome (calculatePeriodSummary localeCompare dataset year month) = Ok summary /\
        metricEntry (summaryMetrics summary) metric = Some o /\
        numField o "average" = Some (averageOf values) /\
        (smallWhole values -> roundedMeanOf values (averageOf values))) /\
  (forall values, isFinite (averageOf values) = true -> isInteger (averageOf values)).
Proof.
  split; [| split; [| split]].
  - intros ts metric operation Hm Ho values.
    destruct (safeMetricAggregation_average ts metric operation Hm Ho) as (log & E).
    rewrite E. split; [reflexivity |].
    apply roundedMeanOf_average. apply validValues_nonNegative.
  - intros ts periods metric Hin values.
    destruct (aggregateAccountData_average ts periods metric Hin) as (agg & o & E1 & E2 & E3).
    exists agg, o. split; [exact E1 |]. split; [exact E2 |]. split; [exact E3 |].
    apply roundedMeanOf_average. unfold values, averagedValues.
    destruct (selectedData ts periods); [constructor | apply validValues_nonNegative].
  - intros localeCompare dataset year month metric Hin periodData values Hne.
    subst values. unfold calculatePeriodSummary. fold periodData.
    destruct periodData as [| d ds] eqn:Ep; [contradiction |]. rewrite <- Ep in *.
    destruct (summarizeMetric_average periodData metric) as (o & Eo & Ho).
    do 2 eexists. split; [reflexivity |]. simpl summaryMetrics.
    split.
    + rewrite (metricEntry_map (summarizeMetric periodData)); [| | exact Hin].
      * rewrite Eo. reflexivity.
      * intros m. destruct (summarizeMetric_average periodData m) as (o' & -> & _).
        reflexivity.
    + split; [exact Ho |].
      apply roundedMeanOf_average. apply validValues_nonNegative.
  - exact averageOf_integer.
Qed.

(** C10, at the followers of [Examples.anna] (100, 150 and 90 average to
    113, a third below their mean), over the account as
    [aggregateAccountData] averages it, and at the views of September 2025
    in [Examples.twoMonths] (100 and 200 average to 150). *)
Lemma averages_are_rounded_witness :
  (outcome (safeMetricAggregation Examples.anna "followers" "average") = Ok (ofZ 113) /\
   roundedMeanOf
     (validValues (AccountTimeseries.getAllMonthlyData Examples.anna) "followers")
     (ofZ 113)) /\
  (exists agg o,
     outcome (aggregateAccountData Examples.anna None) = Ok agg /\
     metricEntry (aggMetrics agg) "followers" = Some o /\
     numField o "average" = Some (ofZ 113) /\
     roundedMeanOf (averagedValues Examples.anna None "followers") (ofZ 113)) /\
  (exists summary o,
     outcome (calculatePeriodSummary Examples.codeOrder Examples.twoMonths 2025 9)
       = Ok summary /\
     metricEntry (summaryMetrics summary) "views" = Some o /\
     numField o "average" = Some (ofZ 150) /\
     roundedMeanOf
       (validValues
          (TimeseriesDataset.getDataForPeriod Examples.codeOrder Examples.twoMonths 2025 9)
          "views")
       (ofZ 150)).
Proof.
  destruct averages_are_rounded as (H1 & H2 & H3 & _).
  assert (W3 : smallWhole [ofZ 100; ofZ 150; ofZ 90]).
  { split; [| vm_compute; reflexivity].
    repeat (constructor; [eexists; reflexivity |]). constructor. }
  assert (W2 : smallWhole [ofZ 100; ofZ 200]).
  { split; [| vm_compute; reflexivity].
    repeat (constructor; [eexists; reflexivity |]). constructor. }
  split; [| split].
  - destruct (H1 Examples.anna "followers" "average") as [E R];
      [discriminate | now left |].
    split; [exact E | exact (R W3)].
  - destruct (H2 Examples.anna None "followers") as (agg & o & E1 & E2 & E3 & R);
      [simpl; auto |].
    exists agg, o. split; [exact E1 |]. split; [exact E2 |].
    split; [exact E3 | exact (R W3)].
  - destruct (H3 Examples.codeOrder Examples.twoMonths 2025 9 "views")
      as (summary & o & E1 & E2 & E3 & R); [simpl; auto | discriminate |].
    exists summary, o. split; [exact E1 |]. split; [exact E2 |].
    split; [exact E3 | exact (R W2)].
Defined.

(** C10 as it is stated fails on large whole numbers: four months with a
    reach of 2^53, 1, 1 and 1 add up to 2^53 in Numbers, and the average
    reported, 2^51, is three quarters below their mean. *)
Lemma average_misses_the_mean_of_large_values :
  Forall isInteger
    (validValues (AccountTimeseries.getAllMonthlyData Examples.largeReach) "reach") /\
  exists average,
    outcome (safeMetricAggregation Examples.largeReach "reach" "average") = Ok average /\
    ~ roundedMeanOf
        (validValues (AccountTimeseries.getAllMonthlyData Examples.largeReach) "reach")
        average.
Proof.
  assert (E : validValues (AccountTimeseries.getAllMonthlyData Examples.largeReach) "reach"
              = [ofZ 9007199254740992; ofZ 1; ofZ 1; ofZ 1])
    by (vm_compute; reflexivity).
  rewrite E. split.
  - repeat (constructor; [eexists; reflexivity |]). constructor.
  - exists (ofZ 2251799813685248). split; [vm_compute; reflexivity |].
    intros (z & Ez & H). injection Ez as Ez. subst z.
    specialize (H ltac:(discriminate)). revert H. vm_compute. intros H. now apply H.
Qed.

(** ** C8: content validation *)

Module ContentValidation.
Import PeriodValidator.

Lemma rowIsValid_any_number r i j :
  rowIsValid (validateDataRow r i) = rowIsValid (validateDataRow r j).
Proof.
  unfold validateDataRow. simpl.
  destruct (blank (prop r "Account")), (blank (prop r "IG ID")); reflexivity.
Qed.

(** A row that fails contributes one or two entries to [rowErrors]. *)
Lemma rowErrorList_length r i :
  (if rowIsValid (validateDataRow r i)
   then List.length (rowErrorList (validateDataRow r i)) = 0
   else 1 <= List.length (rowErrorList (validateDataRow r i)) <= 2)%nat.
Proof.
  unfold validateDataRow. simpl.
  destruct (blank (prop r "Account")), (blank (prop r "IG ID")); simpl; lia.
Qed.

Arguments validateDataRow : simpl never.

Lemma scanRows_counts csvData : forall i acc,
  let scan := scanRows csvData i acc in
  (validRows scan + invalidRows csvData = validRows acc + List.length csvData /\
   List.length (rowErrors acc) + invalidRows csvData <= List.length (rowErrors scan) /\
   List.length (rowErrors scan) <= List.length (rowErrors acc) + 2 * invalidRows csvData)%nat.
Proof.
  unfold invalidRows.
  induction csvData as [| r rest IH]; intros i acc; [simpl; lia |].
  cbn -[validateDataRow Nat.mul].
  specialize (IH (S i)
    {| validRows := if rowIsValid (validateDataRow r (i + 1)) then S (validRows acc)
                    else validRows acc;
       rowErrors := if rowIsValid (validateDataRow r (i + 1)) then rowErrors acc
                    else (rowErrors acc ++ rowErrorList (validateDataRow r (i + 1)))%list;
       rowWarnings := (rowWarnings acc ++ rowWarningList (validateDataRow r (i + 1)))%list |}).
  cbn -[validateDataRow Nat.mul] in IH.
  pose proof (rowErrorList_length r (i + 1)) as Hl.
  rewrite (rowIsValid_any_number r 0 (i + 1)).
  destruct (rowIsValid (validateDataRow r (i + 1))); cbn -[validateDataRow Nat.mul] in *.
  - lia.
  - rewrite length_app in IH. lia.
Qed.

(** The part of C8 about files without a valid row holds. *)
Lemma no_valid_row_is_fatal csvData :
  invalidRows csvData = List.length csvData ->
  isValid (validateCSVDataContent csvData) = false.
Proof.
  intros H. destruct csvData as [| r rest]; [reflexivity |].
  unfold validateCSVDataContent.
  pose proof (scanRows_counts (r :: rest) 0 (mkScan 0 [] [])) as (Hv & _ & _).
  cbv zeta in Hv. simpl validRows in Hv at 2.
  set (scan := scanRows (r :: rest) 0 (mkScan 0 [] [])) in *.
  assert (E : validRows scan = O) by lia. rewrite E. reflexivity.
Qed.

(** The part of C8 about files with half of the rows or more in error
    holds. *)
Lemma half_invalid_is_fatal csvData :
  (List.length csvData <= 2 * invalidRows csvData)%nat ->
  isValid (validateCSVDataContent csvData) = false.
Proof.
  intros H. destruct csvData as [| r rest]; [reflexivity |].
  unfold validateCSVDataContent.
  pose proof (scanRows_counts (r :: rest) 0 (mkScan 0 [] [])) as (_ & Hlo & _).
  cbv zeta in Hlo. simpl rowErrors in Hlo at 1. simpl List.length in Hlo at 1.
  set (scan := scanRows (r :: rest) 0 (mkScan 0 [] [])) in *.
  set (total := List.length (r :: rest)) in *.
  set (count := List.length (rowErrors scan)) in *.
  assert (E1 : (2 * count <? total)%nat = false) by (apply Nat.ltb_ge; lia).
  assert (E2 : (total <=? 2 * count)%nat = true) by (apply Nat.leb_le; lia).
  rewrite E1, E2, andb_false_r.
  destruct (validRows scan =? 0)%nat; reflexivity.
Qed.

(** What decides between warning and error is the number of entries of
    [rowErrors], not the number of rows they come from: below half the number
    of rows, with a valid row, the file is valid and the warning lists at
    most ten entries. *)
Lemma few_row_errors_is_a_warning csvData :
  let scan := scanRows csvData 0 (mkScan 0 [] []) in
  let count := List.length (rowErrors scan) in
  (0 < count)%nat -> (2 * count < List.length csvData)%nat ->
  isValid (validateCSVDataContent csvData) = true /\
  In (RowErrorsWarning count (firstn 10 (rowErrors scan)))
     (warnings (validateCSVDataContent csvData)) /\
  (List.length (firstn 10 (rowErrors scan)) <= 10)%nat.
Proof.
  intros scan count Hpos Hlt.
  destruct csvData as [| r rest]; [simpl in Hlt; lia |].
  pose proof (scanRows_counts (r :: rest) 0 (mkScan 0 [] [])) as (Hv & Hlo & Hhi).
  cbv zeta in Hv, Hlo, Hhi. fold scan in Hv, Hlo, Hhi. fold count in Hlo, Hhi.
  simpl validRows in Hv at 2. simpl rowErrors in Hlo at 1. simpl List.length in Hlo at 1.
  set (total := List.length (r :: rest)) in *.
  assert (E0 : (validRows scan =? 0)%nat = false) by (apply Nat.eqb_neq; lia).
  assert (E1 : (0 <? count)%nat = true) by (apply Nat.ltb_lt; lia).
  assert (E2 : (2 * count <? total)%nat = true) by (apply Nat.ltb_lt; lia).
  split; [| split]; [| | apply firstn_le_length];
    unfold validateCSVDataContent; fold scan; fold count; fold total;
    rewrite E0, E1, E2; cbn [andb isValid warnings app].
  - reflexivity.
  - apply in_or_app. right. apply in_or_app. right. now left.
Qed.

End ContentValidation.

(** C8 (evaluated where it fails): of the four rows of
    [Examples.oneBlankOfFour] one is in error, a quarter of the
    file; it lacks both required fields, which makes two entries in
    [rowErrors], and two is not below half of four: the file is rejected
    where a quarter of the rows in error calls for a valid file with a
    warning. *)
Theorem validateCSVDataContent_counts_entries_not_rows :
  PeriodValidator.invalidRows Examples.oneBlankOfFour = 1%nat /\
  List.length Examples.oneBlankOfFour = 4%nat /\
  PeriodValidator.isValid
    (PeriodValidator.validateCSVDataContent Examples.oneBlankOfFour) = false /\
  PeriodValidator.errors
    (PeriodValidator.validateCSVDataContent Examples.oneBlankOfFour)
    = [PeriodValidator.TooManyRowErrors 2 4].
Proof. vm_compute. repeat split. Qed.
(** ** Loops and neighbours *)

Lemma forEach_map {A B} (body : A -> M B) (f : A -> B) xs :
  (forall x, In x xs -> outcome (body x) = Ok (f x)) ->
  outcome (forEach body xs) = Ok (List.map f xs).
Proof.
  induction xs as [| x rest IH]; intros H; cbn [forEach List.map]; [reflexivity |].
  rewrite outcome_bind, (H x (or_introl eq_refl)), outcome_bind.
  now rewrite (IH (fun y Hy => H y (or_intror Hy))).
Qed.


Lemma adjacentPairs_map {A B} (f : A -> B) (l : list A) :
  adjacentPairs (List.map f l)
  = List.map (fun pair => (f (fst pair), f (snd pair))) (adjacentPairs l).
Proof.
  induction l as [| x [| y rest] IH]; try reflexivity.
  cbn [List.map adjacentPairs] in *. now rewrite IH.
Qed.


Lemma adjacentPairs_length {A} (l : list A) :
  List.length (adjacentPairs l) = (List.length l - 1)%nat.
Proof.
  induction l as [| x [| y rest] IH]; try reflexivity.
  cbn [adjacentPairs List.length] in *. rewrite IH. lia.
Qed.


Lemma metricEntry_summarized periodData metric :
  In metric allMetrics ->
  metricEntry (List.map (summarizeMetric periodData) allMetrics) metric
  = Some (snd (summarizeMetric periodData metric)).
Proof.
  assert (K : forall m, fst (summarizeMetric periodData m) = m).
  { intros m. unfold summarizeMetric. destruct (validValues periodData m); [reflexivity |].
    now destruct (includes NON_SUMMABLE_METRICS m). }
  assert (S : forall m, summarizeMetric periodData m = (m, snd (summarizeMetric periodData m))).
  { intros m. rewrite <- (K m) at 2. now destruct (summarizeMetric periodData m). }
  intros H. cbn [allMetrics List.map metricEntry].
  rewrite (S "reach"), (S "followers"), (S "views").
  cbn in H. destruct H as [<- | [<- | [<- | []]]]; reflexivity.
Qed.


(** ** C4: percentage change between adjacent periods *)

Lemma trendEntry_convention metric previous current :
  trendConvention (trendEntry metric previous current).
Proof.
  unfold trendConvention, trendEntry. simpl.
  intros c p -> ->. unfold calculatePercentageChange.
  destruct (eqb p zero); split; intros H; try discriminate; reflexivity.
Qed.

Lemma gtb_zero_not_eqb p : gtb p zero = true -> eqb p zero = false.
Proof.
  destruct p as [| | | q]; simpl; try reflexivity; try discriminate.
  unfold gtb, ltb, Qltb. destruct (0 ?= q)%Q eqn:E; try discriminate. intros _.
  apply not_true_is_false. intros H. apply Qeq_bool_iff in H.
  rewrite <- Qlt_alt in E. rewrite H in E. now apply Qlt_irrefl in E.
Qed.

Lemma eqb_zero_not_gtb p : eqb p zero = true -> gtb p zero = false.
Proof.
  intros H. destruct (gtb p zero) eqn:E; [| reflexivity].
  apply gtb_zero_not_eqb in E. congruence.
Qed.

Lemma forEach_Forall2 {A B} (body : A -> M B) (P : A -> B -> Prop) xs :
  (forall x, In x xs -> exists y, outcome (body x) = Ok y /\ P x y) ->
  exists ys, outcome (forEach body xs) = Ok ys /\ Forall2 P xs ys.
Proof.
  induction xs as [| x rest IH]; intros H; cbn [forEach].
  - exists []. split; [reflexivity | constructor].
  - destruct (H x (or_introl eq_refl)) as (y & Ey & Py).
    destruct (IH (fun z Hz => H z (or_intror Hz))) as (ys & Eys & Pys).
    exists (y :: ys). rewrite outcome_bind, Ey, outcome_bind, Eys.
    split; [reflexivity | now constructor].
Qed.

Lemma Forall2_mapped {A B C} (f : A -> B) (P : B -> C -> Prop) xs ys :
  Forall2 P (List.map f xs) ys -> Forall2 (fun x y => P (f x) y) xs ys.
Proof.
  revert ys. induction xs as [| x rest IH]; intros ys H; inversion H; subst;
    constructor; auto.
Qed.

Lemma entry_of_metric (P : string -> obj -> Prop) entries metric :
  Forall2 (fun m entry => fst entry = m /\ P m (snd entry)) allMetrics entries ->
  In metric allMetrics ->
  exists o, metricEntry entries metric = Some o /\ P metric o.
Proof.
  unfold allMetrics. intros F Hin.
  inversion F as [| m1 [k1 o1] ms1 es1 [J1 P1] F1]; subst.
  inversion F1 as [| m2 [k2 o2] ms2 es2 [J2 P2] F2]; subst.
  inversion F2 as [| m3 [k3 o3] ms3 es3 [J3 P3] F3]; subst.
  cbn [fst snd] in *. subst.
  destruct Hin as [<- | [<- | [<- | []]]]; eexists; (split; [reflexivity | eassumption]).
Qed.

(** The field of a summary that [comparePeriods] reads for a metric. *)
Lemma summarizeMetric_compared periodData metric :
  numField (snd (summarizeMetric periodData metric))
           (if includes NON_SUMMABLE_METRICS metric then "average" else "total")
  = Some (comparedValue periodData metric).
Proof.
  unfold summarizeMetric, comparedValue, averageOf.
  destruct (validValues periodData metric) as [| v rest];
    destruct (includes NON_SUMMABLE_METRICS metric); reflexivity.
Qed.

Lemma compareMetric_compared current previous pdc pdp metric :
  In metric allMetrics ->
  summaryMetrics current = List.map (summarizeMetric pdc) allMetrics ->
  summaryMetrics previous = List.map (summarizeMetric pdp) allMetrics ->
  exists o,
    outcome (compareMetric current previous metric) = Ok (metric, o) /\
    comparisonOf metric (comparedValue pdp metric) (comparedValue pdc metric) o.
Proof.
  intros Hin Ec Ep. unfold compareMetric, comparisonOf.
  rewrite Ec, Ep, !metricEntry_summarized by exact Hin.
  pose proof (summarizeMetric_compared pdc metric) as Vc.
  pose proof (summarizeMetric_compared pdp metric) as Vp.
  destruct (includes NON_SUMMABLE_METRICS metric); rewrite Vc, Vp;
    (eexists; split; [reflexivity |]);
    (split; [reflexivity |]); (split; [reflexivity |]); (split; [reflexivity |]);
    unfold field; cbn [String.eqb Ascii.eqb Bool.eqb]; unfold comparisonPercentage;
    (split; [intros H0; now rewrite (eqb_zero_not_gtb _ H0) | intros ->; reflexivity]).
Qed.

(** The summary of a period for which the dataset has records. *)
Lemma calculatePeriodSummary_with_data localeCompare dataset p :
  Coverage.hasData localeCompare dataset p = true ->
  let periodData :=
    TimeseriesDataset.getDataForPeriod localeCompare dataset
      (PeriodExtractor.year p) (PeriodExtractor.month p) in
  outcome (calculatePeriodSummary localeCompare dataset
             (PeriodExtractor.year p) (PeriodExtractor.month p))
  = Ok {| summaryPeriod := p;
          totalAccounts := List.length periodData;
          summaryMetrics := List.map (summarizeMetric periodData) allMetrics |}.
Proof.
  unfold Coverage.hasData, calculatePeriodSummary.
  destruct (TimeseriesDataset.getDataForPeriod localeCompare dataset _ _) as [| d l];
    [discriminate |].
  intros _. destruct p. reflexivity.
Qed.

(** The comparison of two periods that have records. *)
Lemma comparePair_compared previous current pdp pdc :
  summaryMetrics previous = List.map (summarizeMetric pdp) allMetrics ->
  summaryMetrics current = List.map (summarizeMetric pdc) allMetrics ->
  exists comparison,
    outcome (comparePair (previous, current)) = Ok comparison /\
    comparedPeriod comparison = summaryPeriod previous /\
    currentPeriod comparison = summaryPeriod current /\
    Forall2 (fun metric entry =>
               fst entry = metric /\
               comparisonOf metric (comparedValue pdp metric) (comparedValue pdc metric)
                            (snd entry))
            allMetrics (comparisonMetrics comparison).
Proof.
  intros Ep Ec. unfold comparePair. rewrite outcome_bind.
  destruct (forEach_Forall2 (compareMetric current previous)
              (fun metric entry =>
                 fst entry = metric /\
                 comparisonOf metric (comparedValue pdp metric) (comparedValue pdc metric)
                              (snd entry))
              allMetrics) as (entries & -> & F).
  { intros metric Hin.
    destruct (compareMetric_compared current previous pdc pdp metric Hin Ec Ep)
      as (o & E & C).
    exists (metric, o). split; [exact E |]. split; [reflexivity | exact C]. }
  eexists. split; [reflexivity |]. cbn [comparedPeriod currentPeriod comparisonMetrics].
  split; [reflexivity |]. split; [reflexivity | exact F].
Qed.

(** C4 (as stated, refuted): between August 2025, where the views of the
    dataset [Examples.fromZero] total 0, and September, where they total 300,
    [comparePeriods] reports a percentage change of [null], not of 100. *)
Lemma comparePeriods_null_from_zero :
  exists comparison o,
    outcome (comparePeriods Examples.codeOrder Examples.fromZero
               [mkPeriod 2025 8; mkPeriod 2025 9]) = Ok [comparison] /\
    metricEntry (comparisonMetrics comparison) "views" = Some o /\
    numField o "previousTotal" = Some zero /\
    numField o "currentTotal" = Some (ofZ 300) /\
    field o "percentageChange" = Some VNull.
Proof. do 2 eexists. vm_compute. repeat split. Qed.

(** C4 (amended): [calculateMonthToMonthTrend] returns one entry for each
    pair of adjacent records of the chronological series, and each entry
    follows the convention: from a previous value of 0 the percentage change
    is 100 when the current value is positive and 0 otherwise, from any other
    previous value it is ((current - previous) / previous) * 100.
    [comparePeriods], given two periods or more that all have records,
    returns one comparison for each pair of adjacent periods, of the later
    period with the earlier; for each metric it carries the values compared,
    the rounded average of the period for [reach] and the total of the
    period for the other metrics, and as percentage change [null] from a
    previous value of 0 and the same relative change from a positive one. *)
Theorem percentage_change_conventions :
  (forall ts metric entries,
      outcome (calculateMonthToMonthTrend ts metric) = Ok entries ->
      entries = List.map (fun pair => trendEntry metric (fst pair) (snd pair))
                  (adjacentPairs (AccountTimeseries.getAllMonthlyData ts)) /\
      Forall trendConvention entries) /\
  (forall localeCompare dataset periods,
      (2 <= List.length periods)%nat ->
      forallb (Coverage.hasData localeCompare dataset) periods = true ->
      let dataOf := fun p =>
        TimeseriesDataset.getDataForPeriod localeCompare dataset
          (PeriodExtractor.year p) (PeriodExtractor.month p) in
      exists comparisons,
        outcome (comparePeriods localeCompare dataset periods) = Ok comparisons /\
        Forall2 (fun pair comparison =>
                   comparedPeriod comparison = fst pair /\
                   currentPeriod comparison = snd pair /\
                   Forall2 (fun metric entry =>
                              fst entry = metric /\
                              comparisonOf metric
                                (comparedValue (dataOf (fst pair)) metric)
                                (comparedValue (dataOf (snd pair)) metric)
                                (snd entry))
                           allMetrics (comparisonMetrics comparison))
                (adjacentPairs periods) comparisons).
Proof.
  split.
  - intros ts metric entries. unfold calculateMonthToMonthTrend.
    destruct (String.eqb metric ""); [discriminate |].
    set (monthlyData := AccountTimeseries.getAllMonthlyData ts).
    assert (E : entries = List.map (fun pair => trendEntry metric (fst pair) (snd pair))
                            (adjacentPairs monthlyData) ->
                entries = List.map (fun pair => trendEntry metric (fst pair) (snd pair))
                            (adjacentPairs monthlyData) /\
                Forall trendConvention entries).
    { intros ->. split; [reflexivity |]. apply Forall_forall. intros e He.
      apply in_map_iff in He. destruct He as (pair & <- & _).
      apply trendEntry_convention. }
    destruct (List.length monthlyData <? 2)%nat eqn:L; simpl; intros [= <-]; apply E.
    + destruct monthlyData as [| a [| b rest]]; [reflexivity | reflexivity |].
      simpl in L. discriminate.
    + reflexivity.
  - intros localeCompare dataset periods L Hd dataOf. unfold comparePeriods.
    replace (List.length periods <? 2)%nat with false
      by (symmetry; apply Nat.ltb_ge; lia).
    rewrite outcome_bind.
    set (summaryOf := fun p =>
           {| summaryPeriod := p;
              totalAccounts := List.length (dataOf p);
              summaryMetrics := List.map (summarizeMetric (dataOf p)) allMetrics |}).
    rewrite (forEach_map _ summaryOf).
    2:{ intros p Hp. apply calculatePeriodSummary_with_data.
        now apply (proj1 (forallb_forall _ _) Hd). }
    rewrite adjacentPairs_map.
    destruct (forEach_Forall2 comparePair
                (fun pair comparison =>
                   comparedPeriod comparison = summaryPeriod (fst pair) /\
                   currentPeriod comparison = summaryPeriod (snd pair) /\
                   exists pdp pdc,
                     summaryMetrics (fst pair) = List.map (summarizeMetric pdp) allMetrics /\
                     summaryMetrics (snd pair) = List.map (summarizeMetric pdc) allMetrics /\
                     Forall2 (fun metric entry =>
                                fst entry = metric /\
                                comparisonOf metric (comparedValue pdp metric)
                                  (comparedValue pdc metric) (snd entry))
                             allMetrics (comparisonMetrics comparison))
                (List.map (fun pair => (summaryOf (fst pair), summaryOf (snd pair)))
                          (adjacentPairs periods)))
      as (comparisons & E & F).
    { intros pair Hp. apply in_map_iff in Hp. destruct Hp as ([a b] & <- & _).
      cbn [fst snd].
      destruct (comparePair_compared (summaryOf a) (summaryOf b) (dataOf a) (dataOf b)
                  eq_refl eq_refl) as (comparison & Ec & C1 & C2 & C3).
      exists comparison. split; [exact Ec |]. split; [exact C1 |]. split; [exact C2 |].
      exists (dataOf a), (dataOf b). repeat split. exact C3. }
    exists comparisons. split; [exact E |].
    apply Forall2_mapped in F. eapply Forall2_impl; [| exact F].
    intros [a b] comparison (C1 & C2 & pdp & pdc & Ea & Eb & C3). cbn [fst snd] in *.
    unfold summaryOf in Ea, Eb. cbn [summaryMetrics] in Ea, Eb.
    split; [exact C1 |]. split; [exact C2 |].
    assert (Sa : forall m, In m allMetrics ->
                   comparedValue pdp m = comparedValue (dataOf a) m).
    { intros m Hm. apply (f_equal (fun l => metricEntry l m)) in Ea.
      rewrite !metricEntry_summarized in Ea by exact Hm.
      pose proof (summarizeMetric_compared pdp m) as V1.
      pose proof (summarizeMetric_compared (dataOf a) m) as V2.
      injection Ea as Ea. rewrite Ea in V2. congruence. }
    assert (Sb : forall m, In m allMetrics ->
                   comparedValue pdc m = comparedValue (dataOf b) m).
    { intros m Hm. apply (f_equal (fun l => metricEntry l m)) in Eb.
      rewrite !metricEntry_summarized in Eb by exact Hm.
      pose proof (summarizeMetric_compared pdc m) as V1.
      pose proof (summarizeMetric_compared (dataOf b) m) as V2.
      injection Eb as Eb. rewrite Eb in V2. congruence. }
    clear - C3 Sa Sb.
    assert (G : forall metrics, (forall m, In m metrics -> In m allMetrics) ->
              forall entries,
              Forall2 (fun metric entry =>
                         fst entry = metric /\
                         comparisonOf metric (comparedValue pdp metric)
                           (comparedValue pdc metric) (snd entry)) metrics entries ->
              Forall2 (fun metric entry =>
                         fst entry = metric /\
                         comparisonOf metric (comparedValue (dataOf a) metric)
                           (comparedValue (dataOf b) metric) (snd entry)) metrics entries).
    { induction 2 as [| m e ms es [H1 H2] _ IH]; constructor.
      - split; [exact H1 |]. rewrite <- Sa, <- Sb by (apply H; now left). exact H2.
      - apply IH. intros m' Hm'. apply H. now right. }
    apply G; [auto | exact C3].
Qed.

(** C4, at the followers of [Examples.anna], 100, 150 and 90 over three
    months, and at the comparison of September with October 2025 in
    [Examples.twoMonths]. *)
Lemma percentage_change_conventions_witness :
  (exists entries,
     outcome (calculateMonthToMonthTrend Examples.anna "followers") = Ok entries /\
     List.map percentageChange entries = [Some (ofZ 50); Some (ofZ (-40))] /\
     Forall trendConvention entries) /\
  (exists comparison o,
     outcome (comparePeriods Examples.codeOrder Examples.twoMonths
                [mkPeriod 2025 9; mkPeriod 2025 10]) = Ok [comparison] /\
     comparedPeriod comparison = mkPeriod 2025 9 /\
     currentPeriod comparison = mkPeriod 2025 10 /\
     metricEntry (comparisonMetrics comparison) "views" = Some o /\
     comparisonOf "views" (ofZ 300) (ofZ 400) o).
Proof.
  destruct percentage_change_conventions as [HT HP].
  split.
  - pose (entries := match outcome (calculateMonthToMonthTrend Examples.anna "followers") with
                     | Ok l => l | Throw _ => [] end).
    exists entries.
    assert (E1 : outcome (calculateMonthToMonthTrend Examples.anna "followers") = Ok entries)
      by (vm_compute; reflexivity).
    split; [exact E1 |]. split; [vm_compute; reflexivity |]. apply (HT _ _ _ E1).
  - destruct (HP Examples.codeOrder Examples.twoMonths [mkPeriod 2025 9; mkPeriod 2025 10])
      as (comparisons & E & F); [cbn; lia | reflexivity |].
    cbn [adjacentPairs] in F.
    inversion F as [| pair comparison pairs rest (C1 & C2 & C3) Frest]; subst.
    inversion Frest; subst. cbn [fst snd] in C1, C2, C3.
    cbn [PeriodExtractor.year PeriodExtractor.month] in C3.
    destruct (entry_of_metric
                (fun m o =>
                   comparisonOf m
                     (comparedValue
                        (TimeseriesDataset.getDataForPeriod Examples.codeOrder
                           Examples.twoMonths 2025 9) m)
                     (comparedValue
                        (TimeseriesDataset.getDataForPeriod Examples.codeOrder
                           Examples.twoMonths 2025 10) m) o)
                _ "views" C3) as (o & Eo & Co); [simpl; auto |].
    exists comparison, o. split; [exact E |]. split; [exact C1 |].
    split; [exact C2 |]. split; [exact Eo |].
    assert (V1 : comparedValue
                   (TimeseriesDataset.getDataForPeriod Examples.codeOrder
                      Examples.twoMonths 2025 9) "views" = ofZ 300)
      by (vm_compute; reflexivity).
    assert (V2 : comparedValue
                   (TimeseriesDataset.getDataForPeriod Examples.codeOrder
                      Examples.twoMonths 2025 10) "views" = ofZ 400)
      by (vm_compute; reflexivity).
    rewrite V1, V2 in Co. exact Co.
Defined.

(** ** [Array.prototype.sort] *)

Section SortFacts.
Context {A : Type} (after : A -> A -> bool).

Lemma insertSorted_permutation x l :
  Permutation (Js.insertSorted after x l) (x :: l).
Proof.
  induction l as [| y ys IH]; simpl; [apply Permutation_refl |].
  destruct (after x y); [| apply Permutation_refl].
  eapply Permutation_trans; [apply perm_skip, IH | apply perm_swap].
Qed.

Lemma sort_permutation l : Permutation (Js.sort after l) l.
Proof.
  induction l as [| x xs IH]; simpl; [constructor |].
  eapply Permutation_trans; [apply insertSorted_permutation | now apply perm_skip].
Qed.

(** When on the elements at hand the comparator decides an order [before]
    that is transitive, the result is in that order. *)
Context (P : A -> Prop) (before : A -> A -> Prop).
Hypothesis before_trans :
  forall x y z, P x -> P y -> P z -> before x y -> before y z -> before x z.
Hypothesis not_after : forall x y, P x -> P y -> after x y = false -> before x y.
Hypothesis is_after : forall x y, P x -> P y -> after x y = true -> before y x.

Lemma insertSorted_sorted x l :
  P x -> Forall P l -> StronglySorted before l ->
  StronglySorted before (Js.insertSorted after x l).
Proof.
  intros Px Pl Hs. induction Hs as [| y ys Hys IH Hy]; simpl.
  - repeat constructor.
  - inversion Pl as [| ? ? Py Pys]; subst.
    destruct (after x y) eqn:E.
    + constructor; [now apply IH |].
      apply Forall_forall. intros z Hz.
      apply (Permutation_in _ (insertSorted_permutation x ys)) in Hz.
      destruct Hz as [<- | Hz]; [now apply is_after |].
      now apply (proj1 (Forall_forall _ _) Hy).
    + constructor; [now constructor |].
      constructor; [now apply not_after |].
      apply Forall_forall. intros z Hz.
      apply before_trans with (y := y); auto.
      * now apply (proj1 (Forall_forall _ _) Pys).
      * now apply (proj1 (Forall_forall _ _) Hy).
Qed.

Lemma sort_sorted l : Forall P l -> StronglySorted before (Js.sort after l).
Proof.
  induction l as [| x xs IH]; simpl; intros H; [constructor |].
  inversion H as [| ? ? Px Pxs]; subst.
  apply insertSorted_sorted; [exact Px | | now apply IH].
  apply Forall_forall. intros z Hz.
  apply (Permutation_in _ (sort_permutation xs)) in Hz.
  now apply (proj1 (Forall_forall _ _) Pxs).
Qed.
End SortFacts.
(** ** C5: market share *)

Section ShareFacts.
Import Binary64.
Local Open Scope Q_scope.

Lemma validValues_records periodData metric :
  validValues periodData metric
    = List.map (fun data => metricNumber data metric) (validRecords periodData metric).
Proof.
  unfold validValues, validRecords, metricNumber.
  induction periodData as [| d rest IH]; [reflexivity |].
  cbn [flat_map filter].
  destruct (MonthlyAccountData.metric (MonthlyAccountData.metrics d) metric)
    as [v |] eqn:E; [| cbn [isValidValue app]; exact IH].
  destruct (isValidValue (Some v)); cbn [List.map app]; [| exact IH].
  now rewrite E, IH.
Qed.

Lemma totalMarket_sum periodData metric :
  fold_left (fun sum data => add sum (metricNumber data metric))
            (validRecords periodData metric) zero
    = JsNum.sum (validValues periodData metric).
Proof.
  rewrite validValues_records. unfold JsNum.sum. generalize zero.
  induction (validRecords periodData metric) as [| d rest IH]; intros acc;
    [reflexivity | apply IH].
Qed.


(** Two Numbers that differ are at least 2^-1074 apart. *)
Lemma double_gap a b : isDouble a -> isDouble b -> a < b -> 2 ^ (- 1074) <= b - a.
Proof.
  intros (Ma & Ea & _ & HEa & Eqa) (Mb & Eb & _ & HEb & Eqb) L.
  assert (Ga : a == inject_Z (Ma * 2 ^ (Ea + 1074)) * 2 ^ (- 1074)).
  { rewrite Eqa, inject_Z_mult, pow_inject by lia.
    rewrite <- Qmult_assoc, <- pow_add. replace (Ea + 1074 + - 1074)%Z with Ea by ring.
    reflexivity. }
  assert (Gb : b == inject_Z (Mb * 2 ^ (Eb + 1074)) * 2 ^ (- 1074)).
  { rewrite Eqb, inject_Z_mult, pow_inject by lia.
    rewrite <- Qmult_assoc, <- pow_add. replace (Eb + 1074 + - 1074)%Z with Eb by ring.
    reflexivity. }
  set (Ka := (Ma * 2 ^ (Ea + 1074))%Z) in *. set (Kb := (Mb * 2 ^ (Eb + 1074))%Z) in *.
  pose proof (pow_pos (- 1074)) as P. set (g := 2 ^ (- 1074)) in *.
  assert (K : (Ka < Kb)%Z).
  { rewrite Zlt_Qlt. apply (Qmult_lt_r _ _ g P). rewrite <- Ga, <- Gb. exact L. }
  assert (K1 : inject_Z Ka + 1 <= inject_Z Kb).
  { change 1 with (inject_Z 1). rewrite <- inject_Z_plus, <- Zle_Qle. lia. }
  rewrite Ga, Gb.
  setoid_replace (inject_Z Kb * g - inject_Z Ka * g)
    with ((inject_Z Kb - inject_Z Ka) * g) by ring.
  setoid_replace g with (1 * g) at 1 by ring.
  apply Qmult_le_compat_r; [lra | now apply Qlt_le_weak].
Qed.

(** On Numbers the comparator of the sort reads the order of the values. *)
Lemma sub_positive a b :
  isDouble a -> isDouble b -> gtb (sub (Fin b) (Fin a)) zero = Qltb a b.
Proof.
  intros Da Db. unfold sub, neg, add.
  destruct (Qlt_le_dec a b) as [L | G].
  - rewrite (proj2 (Qltb_lt a b) L). apply fl_pos.
    pose proof (double_gap a b Da Db L). lra.
  - rewrite (proj2 (Qltb_ge a b) G). apply fl_nonpos. lra.
Qed.

Lemma orderly_after a b :
  orderly a -> orderly b -> gtb (sub b a) zero = ltb a b.
Proof.
  intros [Na Ia] [Nb Ib].
  destruct a as [| | | qa], b as [| | | qb]; try contradiction; try reflexivity.
  now apply sub_positive.
Qed.








(** C5, the rounding: against a total that is not 0 the share of a value is
    the quotient by 100 of an integer number of hundredths, which the
    rounding of the two operations before it leaves within one half and
    2^-38 of value / total * 10000. *)
Lemma shareOf_hundredths v t :
  0 <= v -> v <= t -> 0 < t ->
  exists z : Z,
    shareOf (Fin v) (Fin t) = div (ofZ z) (ofZ 100)
    /\ (0 <= z <= 10000)%Z
    /\ Qabs (inject_Z z - 10000 * (v / t)) <= (1 # 2) + (1 # 274877906944).
Proof.
  intros Hv Hvt Ht. unfold shareOf, JsNum.div at 2.
  replace (Qeq_bool t 0) with false
    by (symmetry; apply not_true_is_false; intros E; apply Qeq_bool_iff in E; lra).
  set (x := v / t).
  assert (X0 : 0 <= x) by (apply Qle_shift_div_l; lra).
  assert (X1 : x <= 1) by (apply Qle_shift_div_r; lra).
  pose proof tiny_1075 as T. pose proof (pow_pos (- 1075)) as Tp.
  assert (M1 : Qabs x <= maxValue).
  { rewrite Qabs_pos by exact X0. apply Qle_trans with (2 := maxValue_pow).
    apply Qle_trans with (1 := X1). vm_compute. discriminate. }
  destruct (fl_error x M1) as (r1 & F1 & B1 & _ & P1 & _).
  specialize (P1 X0). rewrite F1.
  rewrite (Qabs_pos x X0) in B1.
  setoid_replace (2 ^ (- 53)) with (1 # 9007199254740992) in B1 by reflexivity.
  set (eta := 2 ^ (- 1075)) in *.
  apply Qabs_Qle_condition in B1. destruct B1 as [B1a B1b].
  unfold mul, ofZ at 1. set (y := r1 * inject_Z 10000).
  assert (Y : y == 10000 * r1) by (unfold y; change (inject_Z 10000) with 10000; ring).
  assert (M2 : Qabs y <= maxValue).
  { rewrite Qabs_pos by lra. apply Qle_trans with (2 := maxValue_pow).
    apply Qle_trans with 20000; [lra | vm_compute; discriminate]. }
  destruct (fl_error y M2) as (r2 & F2 & B2 & _ & P2 & _).
  specialize (P2 ltac:(lra)). rewrite F2.
  rewrite (Qabs_pos y) in B2 by lra.
  setoid_replace (2 ^ (- 53)) with (1 # 9007199254740992) in B2 by reflexivity.
  fold eta in B2.
  apply Qabs_Qle_condition in B2. destruct B2 as [B2a B2b].
  unfold Math_round. exists (Qfloor (r2 + (1 # 2))). split; [reflexivity |].
  pose proof (Qfloor_le (r2 + (1 # 2))) as Fl.
  pose proof (Qlt_floor (r2 + (1 # 2))) as Fu.
  rewrite inject_Z_plus in Fu. change (inject_Z 1) with 1 in Fu.
  set (z := Qfloor (r2 + (1 # 2))) in *.
  split.
  - assert (L : inject_Z (-1) < inject_Z z) by (change (inject_Z (-1)) with (-(1)); lra).
    assert (U : inject_Z z < inject_Z 10001) by (change (inject_Z 10001) with 10001; lra).
    rewrite <- Zlt_Qlt in L, U. lia.
  - apply Qabs_Qle_condition. split; lra.
Qed.

End ShareFacts.

(** What [calculateMarketShare] returns for a metric it accepts. *)
Lemma calculateMarketShare_accepted localeCompare dataset year month metric :
  metric <> "" -> ~ In metric NON_SUMMABLE_METRICS ->
  let periodData := TimeseriesDataset.getDataForPeriod localeCompare dataset year month in
  let total := JsNum.sum (validValues periodData metric) in
  outcome (calculateMarketShare localeCompare dataset year month metric)
    = Ok (if eqb total zero then []
          else Js.sort shareAfter
                 (List.map (shareEntry year month metric total)
                           (validRecords periodData metric))).
Proof.
  intros Hm Hn periodData total. unfold calculateMarketShare.
  rewrite (eqb_empty_false _ Hm).
  destruct (includes NON_SUMMABLE_METRICS metric) eqn:E;
    [apply includes_In in E; contradiction |].
  fold periodData. unfold total. rewrite <- totalMarket_sum.
  destruct periodData as [| d ds] eqn:Ep; [reflexivity |]. rewrite <- Ep.
  fold (validRecords periodData metric).
  destruct (validRecords periodData metric) as [| r rs] eqn:Er; [reflexivity |].
  rewrite <- Er.
  match goal with |- context [eqb ?t zero] => destruct (eqb t zero) end; reflexivity.
Qed.





(** ** Period keys *)

Module Keys.

Lemma string_of_uint_plain d : plain (NilEmpty.string_of_uint d) = true.
Proof. induction d; simpl; auto. Qed.

Lemma Z_to_string_plain z : plain (Js.Z_to_string z) = true.
Proof.
  unfold Js.Z_to_string. destruct (Z.to_int z); simpl; apply string_of_uint_plain.
Qed.

Lemma Z_to_string_inj z z' : Js.Z_to_string z = Js.Z_to_string z' -> z = z'.
Proof.
  unfold Js.Z_to_string. intros H. apply to_int_inj.
  assert (E : Some (Z.to_int z) = Some (Z.to_int z'))
    by (rewrite <- !NilEmpty.isi; now rewrite H).
  now injection E.
Qed.

Lemma split_at_underscore s1 : forall s2 t1 t2,
  plain s1 = true -> plain s2 = true ->
  (s1 ++ "_" ++ t1 = s2 ++ "_" ++ t2)%string -> s1 = s2 /\ t1 = t2.
Proof.
  induction s1 as [| c s1 IH]; intros [| c' s2] t1 t2 H1 H2 E; simpl in *.
  - now injection E.
  - injection E as <- _. discriminate.
  - injection E as -> _. discriminate.
  - injection E as <- E. apply andb_prop in H1, H2.
    destruct (IH s2 t1 t2) as [-> ->]; tauto.
Qed.

Lemma periodKey_inj y m y' m' :
  Js.periodKey y m = Js.periodKey y' m' -> y = y' /\ m = m'.
Proof.
  unfold Js.periodKey. intros E.
  apply split_at_underscore in E; try apply Z_to_string_plain.
  destruct E as [Ey Em]. split; now apply Z_to_string_inj.
Qed.

Lemma setHas_periodKey (periods : list PeriodExtractor.Period) y m :
  Js.setHas
    (List.map (fun p => Js.periodKey (PeriodExtractor.year p) (PeriodExtractor.month p))
              periods)
    (Js.periodKey y m) = true
  <-> In (mkPeriod y m) periods.
Proof.
  unfold Js.setHas. rewrite existsb_exists. split.
  - intros (k & Hk & E). apply in_map_iff in Hk. destruct Hk as (p & <- & Hp).
    apply String.eqb_eq, periodKey_inj in E. destruct E as [-> ->].
    now destruct p.
  - intros H. eexists. split; [| apply String.eqb_refl].
    apply in_map_iff. exists (mkPeriod y m). now split.
Qed.

End Keys.

(** ** C9: [findMissingPeriods] *)

Module MissingPeriods.
Import PeriodExtractor Months.
Local Open Scope Z_scope.

Lemma monthIndex_periodAt i : monthIndex (periodAt i) = i.
Proof.
  unfold monthIndex, periodAt. cbn [year month].
  pose proof (Z.div_mod i 12 ltac:(lia)). lia.
Qed.

Lemma validMonth_periodAt i : validMonth (periodAt i).
Proof.
  unfold validMonth, periodAt. cbn [month].
  pose proof (Z.mod_pos_bound i 12 ltac:(lia)). lia.
Qed.

Lemma monthIndex_inj p q :
  validMonth p -> validMonth q -> monthIndex p = monthIndex q -> p = q.
Proof.
  destruct p as [y m], q as [y' m']. unfold validMonth, monthIndex. cbn [year month].
  intros Hp Hq E. assert (y = y') by lia. subst. f_equal. lia.
Qed.

Lemma periodAfter_index p q :
  validMonth p -> validMonth q ->
  periodAfter p q = (monthIndex p >? monthIndex q).
Proof.
  destruct p as [y m], q as [y' m'].
  unfold validMonth, monthIndex, periodAfter, chronoAfter. cbn [year month].
  intros Hp Hq.
  destruct (y =? y') eqn:E; cbn [negb].
  - apply Z.eqb_eq in E. subst.
    destruct (m - m' >? 0) eqn:E1, (12 * y' + (m - 1) >? 12 * y' + (m' - 1)) eqn:E2;
      try reflexivity; rewrite Z.gtb_ltb in E1, E2;
      try apply Z.ltb_lt in E1; try apply Z.ltb_ge in E1;
      try apply Z.ltb_lt in E2; try apply Z.ltb_ge in E2; lia.
  - apply Z.eqb_neq in E.
    destruct (y - y' >? 0) eqn:E1, (12 * y + (m - 1) >? 12 * y' + (m' - 1)) eqn:E2;
      try reflexivity; rewrite Z.gtb_ltb in E1, E2;
      try apply Z.ltb_lt in E1; try apply Z.ltb_ge in E1;
      try apply Z.ltb_lt in E2; try apply Z.ltb_ge in E2; lia.
Qed.

(** The test of the [while] loop, on valid months, compares ranks. *)
Lemma loop_test_index cur last :
  validMonth cur -> validMonth last ->
  (year cur <? year last) || ((year cur =? year last) && (month cur <=? month last))
    = (monthIndex cur <=? monthIndex last).
Proof.
  destruct cur as [y m], last as [y' m'].
  unfold validMonth, monthIndex. cbn [year month]. intros Hc Hl.
  destruct (y <? y') eqn:E1; cbn [orb].
  - apply Z.ltb_lt in E1. symmetry. apply Z.leb_le. lia.
  - apply Z.ltb_ge in E1. destruct (y =? y') eqn:E2; cbn [andb].
    + apply Z.eqb_eq in E2. subst.
      destruct (m <=? m') eqn:E3; symmetry;
        [apply Z.leb_le; apply Z.leb_le in E3 | apply Z.leb_gt; apply Z.leb_gt in E3]; lia.
    + apply Z.eqb_neq in E2. symmetry. apply Z.leb_gt. lia.
Qed.

(** One turn of the loop. *)
Lemma walkMonths_turn currentYear fuel existing lastYear lastMonth curYear curMonth :
  (curYear <? lastYear) || ((curYear =? lastYear) && (curMonth <=? lastMonth)) = true ->
  walkMonths currentYear (S fuel) existing lastYear lastMonth curYear curMonth =
  let rest :=
    walkMonths currentYear fuel existing lastYear lastMonth
      (if curMonth + 1 >? 12 then curYear + 1 else curYear)
      (if curMonth + 1 >? 12 then 1 else curMonth + 1) in
  if negb (Js.setHas existing (Js.periodKey curYear curMonth)) then
    match createStandardFilename currentYear curYear curMonth with
    | Throw e => Some (Throw e)
    | Ok name =>
        option_map
          (fun r => rbind r (fun missing =>
             Ok (mkMissing curYear curMonth name :: missing)))
          rest
    end
  else rest.
Proof. intros H. simpl. rewrite H. reflexivity. Qed.

Lemma walkMonths_done currentYear fuel existing lastYear lastMonth curYear curMonth :
  (curYear <? lastYear) || ((curYear =? lastYear) && (curMonth <=? lastMonth)) = false ->
  walkMonths currentYear fuel existing lastYear lastMonth curYear curMonth = Some (Ok []).
Proof. intros H. destruct fuel; simpl; rewrite H; reflexivity. Qed.

(** The loop never runs out of the fuel [findMissingPeriods] gives it. *)
Lemma walkMonths_enough_fuel currentYear existing lastYear lastMonth fuel :
  forall curYear curMonth,
    13 * (lastYear - curYear) + 14 - Z.min curMonth 13 <= Z.of_nat fuel ->
    walkMonths currentYear fuel existing lastYear lastMonth curYear curMonth <> None.
Proof.
  induction fuel as [| fuel IH]; intros curYear curMonth Hf;
    destruct ((curYear <? lastYear)
              || ((curYear =? lastYear) && (curMonth <=? lastMonth))) eqn:T;
    try (rewrite walkMonths_done by exact T; discriminate).
  - exfalso. apply orb_prop in T. destruct T as [T | T].
    + apply Z.ltb_lt in T. lia.
    + apply andb_prop in T. destruct T as [T _]. apply Z.eqb_eq in T. lia.
  - rewrite walkMonths_turn by exact T. cbv zeta.
    assert (Hy : curYear <= lastYear).
    { apply orb_prop in T. destruct T as [T | T].
      - apply Z.ltb_lt in T. lia.
      - apply andb_prop in T. destruct T as [T _]. apply Z.eqb_eq in T. lia. }
    assert (R : walkMonths currentYear fuel existing lastYear lastMonth
                  (if curMonth + 1 >? 12 then curYear + 1 else curYear)
                  (if curMonth + 1 >? 12 then 1 else curMonth + 1) <> None).
    { apply IH. destruct (curMonth + 1 >? 12) eqn:E; rewrite Z.gtb_ltb in E.
      - apply Z.ltb_lt in E. lia.
      - apply Z.ltb_ge in E. lia. }
    destruct (negb _); [| exact R].
    destruct (createStandardFilename currentYear curYear curMonth); [| discriminate].
    destruct (walkMonths _ _ _ _ _ _ _); [discriminate | contradiction].
Qed.

(** [findMissingPeriods] returns or throws on every list. *)
Lemma findMissingPeriods_terminates currentYear periods :
  findMissingPeriods currentYear periods <> None.
Proof.
  unfold findMissingPeriods. destruct periods as [| p ps]; [discriminate |].
  destruct (Js.sort periodAfter (p :: ps)) as [| first rest]; [discriminate |].
  apply walkMonths_enough_fuel. unfold walkFuel.
  set (n := 13 * _ + 14 - _). destruct (Z.le_gt_cases 0 n); lia.
Qed.


Lemma nextPeriod_index p :
  validMonth p -> validMonth (nextPeriod p) /\ monthIndex (nextPeriod p) = monthIndex p + 1.
Proof.
  unfold validMonth, monthIndex, nextPeriod. cbn [year month]. intros H.
  destruct (month p + 1 >? 12) eqn:E; rewrite Z.gtb_ltb in E;
    [apply Z.ltb_lt in E | apply Z.ltb_ge in E]; lia.
Qed.

Lemma last_in {A} (l : list A) d : l <> [] -> In (List.last l d) l.
Proof.
  induction l as [| x [| y rest] IH]; intros H; [contradiction | now left |].
  right. apply IH. discriminate.
Qed.

Lemma sorted_last_max (l : list Period) d :
  StronglySorted (fun p q => monthIndex p <= monthIndex q) l ->
  forall q, In q l -> monthIndex q <= monthIndex (List.last l d).
Proof.
  induction 1 as [| x rest Hs IH Hx]; intros q Hq; [contradiction |].
  destruct rest as [| y rest']; [destruct Hq as [<- | []]; cbn; lia |].
  change (List.last (x :: y :: rest') d) with (List.last (y :: rest') d).
  destruct Hq as [<- | Hq]; [| now apply IH].
  apply (proj1 (Forall_forall _ _) Hx). apply last_in. discriminate.
Qed.

Lemma sort_by_index (l : list Period) :
  Forall validMonth l ->
  StronglySorted (fun p q => monthIndex p <= monthIndex q) (Js.sort periodAfter l).
Proof.
  apply sort_sorted.
  - intros; lia.
  - intros p q Hp Hq. rewrite (periodAfter_index p q Hp Hq), Z.gtb_ltb.
    intros H. apply Z.ltb_ge in H. lia.
  - intros p q Hp Hq. rewrite (periodAfter_index p q Hp Hq), Z.gtb_ltb.
    intros H. apply Z.ltb_lt in H. lia.
Qed.

Lemma findMissingPeriods_nonempty currentYear periods :
  periods <> [] ->
  findMissingPeriods currentYear periods =
  match Js.sort periodAfter periods with
  | [] => Some (Throw (TypeError "first"))
  | first :: _ =>
      let last := List.last (Js.sort periodAfter periods) first in
      walkMonths currentYear (walkFuel (year first) (month first) (year last))
        (List.map (fun p => Js.periodKey (year p) (month p)) periods)
        (year last) (month last) (year first) (month first)
  end.
Proof. destruct periods; [contradiction | reflexivity]. Qed.

Section Gap.
Variables (currentYear : Z) (periods : list Period) (a b : Z) (removed : Period).
Hypothesis periods_spec :
  forall p, In p periods <-> validMonth p /\ a <= monthIndex p <= b /\ p <> removed.
Hypothesis removed_valid : validMonth removed.
Hypothesis removed_inside : a < monthIndex removed < b.
Hypothesis removed_year : isValidYear currentYear (year removed) = true.

Let existing : list string :=
  List.map (fun p => Js.periodKey (year p) (month p)) periods.

Lemma removed_filename :
  exists name,
    createStandardFilename currentYear (year removed) (month removed) = Ok name.
Proof.
  unfold createStandardFilename, isValidPeriod, isValidMonth.
  rewrite removed_year.
  replace ((1 <=? month removed) && (month removed <=? 12)) with true.
  - eexists. reflexivity.
  - symmetry. apply andb_true_intro. unfold validMonth in removed_valid.
    split; apply Z.leb_le; lia.
Qed.

Lemma existing_has cur :
  validMonth cur -> a <= monthIndex cur <= b ->
  Js.setHas existing (Js.periodKey (year cur) (month cur))
    = negb (monthIndex cur =? monthIndex removed).
Proof.
  intros Hv Hr. unfold existing.
  destruct (monthIndex cur =? monthIndex removed) eqn:E; cbn [negb].
  - apply Z.eqb_eq in E. apply monthIndex_inj in E; auto. subst cur.
    apply not_true_is_false. intros H. apply Keys.setHas_periodKey in H.
    assert (In removed periods) by (now destruct removed).
    apply periods_spec in H0. tauto.
  - apply Z.eqb_neq in E. apply Keys.setHas_periodKey.
    assert (In cur periods); [| now destruct cur].
    apply periods_spec. split; [exact Hv |]. split; [lia |]. intros ->. now apply E.
Qed.

Lemma walkMonths_gap name fuel :
  createStandardFilename currentYear (year removed) (month removed) = Ok name ->
  forall cur,
    validMonth cur -> a <= monthIndex cur <= b + 1 ->
    b + 1 - monthIndex cur <= Z.of_nat fuel ->
    walkMonths currentYear fuel existing
      (year (periodAt b)) (month (periodAt b)) (year cur) (month cur)
    = Some (Ok (if monthIndex cur <=? monthIndex removed
                then [mkMissing (year removed) (month removed) name] else [])).
Proof.
  intros Hname. induction fuel as [| fuel IH]; intros cur Hv Hr Hf;
    pose proof (loop_test_index cur (periodAt b) Hv (validMonth_periodAt b)) as T;
    rewrite monthIndex_periodAt in T;
    destruct (monthIndex cur <=? b) eqn:Eb.
  - apply Z.leb_le in Eb. lia.
  - rewrite walkMonths_done by exact T. apply Z.leb_gt in Eb.
    replace (monthIndex cur <=? monthIndex removed) with false; [reflexivity |].
    symmetry. apply Z.leb_gt. lia.
  - apply Z.leb_le in Eb. rewrite walkMonths_turn by exact T. cbv zeta.
    destruct (nextPeriod_index cur Hv) as [Hnv Hni].
    specialize (IH (nextPeriod cur) Hnv ltac:(lia) ltac:(lia)).
    rewrite Hni in IH. unfold nextPeriod in IH. cbn [year month] in IH. rewrite IH.
    rewrite (existing_has cur Hv ltac:(lia)).
    destruct (monthIndex cur =? monthIndex removed) eqn:E; cbn [negb].
    + apply Z.eqb_eq in E. pose proof E as E'.
      apply monthIndex_inj in E'; auto. subst cur. rewrite Hname.
      replace (monthIndex removed + 1 <=? monthIndex removed) with false
        by (symmetry; apply Z.leb_gt; lia).
      replace (monthIndex removed <=? monthIndex removed) with true
        by (symmetry; apply Z.leb_le; lia).
      reflexivity.
    + apply Z.eqb_neq in E.
      destruct (monthIndex cur <=? monthIndex removed) eqn:E1;
        [apply Z.leb_le in E1 | apply Z.leb_gt in E1].
      * replace (monthIndex cur + 1 <=? monthIndex removed) with true
          by (symmetry; apply Z.leb_le; lia). reflexivity.
      * replace (monthIndex cur + 1 <=? monthIndex removed) with false
          by (symmetry; apply Z.leb_gt; lia). reflexivity.
  - rewrite walkMonths_done by exact T. apply Z.leb_gt in Eb.
    replace (monthIndex cur <=? monthIndex removed) with false; [reflexivity |].
    symmetry. apply Z.leb_gt. lia.
Qed.

Lemma findMissingPeriods_gap :
  exists name,
    createStandardFilename currentYear (year removed) (month removed) = Ok name /\
    findMissingPeriods currentYear periods
      = Some (Ok [mkMissing (year removed) (month removed) name]).
Proof.
  destruct removed_filename as [name Hname]. exists name. split; [exact Hname |].
  assert (Hall : Forall validMonth periods).
  { apply Forall_forall. intros p Hp. now apply periods_spec in Hp. }
  assert (Ha : In (periodAt a) periods).
  { apply periods_spec. rewrite monthIndex_periodAt.
    split; [apply validMonth_periodAt |]. split; [lia |].
    intros E. rewrite <- E, monthIndex_periodAt in removed_inside. lia. }
  assert (Hb : In (periodAt b) periods).
  { apply periods_spec. rewrite monthIndex_periodAt.
    split; [apply validMonth_periodAt |]. split; [lia |].
    intros E. rewrite <- E, monthIndex_periodAt in removed_inside. lia. }
  pose proof (sort_by_index periods Hall) as Hs.
  pose proof (sort_permutation periodAfter periods) as Hp.
  rewrite findMissingPeriods_nonempty by (intros E; rewrite E in Ha; contradiction).
  fold existing.
  destruct (Js.sort periodAfter periods) as [| first rest] eqn:Esort.
  { apply Permutation_nil in Hp. rewrite Hp in Ha. contradiction. }
  assert (Hfirst : first = periodAt a).
  { assert (Hin : In first periods) by (apply (Permutation_in _ Hp); now left).
    pose proof Hin as Hin'. apply periods_spec in Hin'.
    apply monthIndex_inj; try tauto; [apply validMonth_periodAt |].
    rewrite monthIndex_periodAt. apply Z.le_antisymm; [| lia].
    apply (Permutation_in _ (Permutation_sym Hp)) in Ha.
    destruct Ha as [Ha | Ha]; [rewrite Ha, monthIndex_periodAt; lia |].
    inversion Hs as [| ? ? _ Hle]; subst.
    apply (proj1 (Forall_forall _ _) Hle) in Ha.
    now rewrite monthIndex_periodAt in Ha. }
  assert (Hlast : List.last (first :: rest) first = periodAt b).
  { assert (Hin : In (List.last (first :: rest) first) periods).
    { apply (Permutation_in _ Hp). apply last_in. discriminate. }
    pose proof Hin as Hin'. apply periods_spec in Hin'.
    apply monthIndex_inj; try tauto; [apply validMonth_periodAt |].
    rewrite monthIndex_periodAt. apply Z.le_antisymm; [lia |].
    apply (Permutation_in _ (Permutation_sym Hp)) in Hb.
    apply (sorted_last_max _ first Hs) in Hb.
    now rewrite monthIndex_periodAt in Hb. }
  cbv zeta. rewrite Hlast, Hfirst.
  rewrite (walkMonths_gap name _ Hname (periodAt a) (validMonth_periodAt a)).
  - rewrite monthIndex_periodAt.
    replace (a <=? monthIndex removed) with true by (symmetry; apply Z.leb_le; lia).
    reflexivity.
  - rewrite monthIndex_periodAt. lia.
  - rewrite monthIndex_periodAt. unfold walkFuel.
    pose proof (validMonth_periodAt a) as Va. pose proof (validMonth_periodAt b) as Vb.
    pose proof (monthIndex_periodAt a) as Ia. pose proof (monthIndex_periodAt b) as Ib.
    unfold validMonth, monthIndex in *.
    rewrite Z2Nat.id; lia.
Qed.
End Gap.

Lemma samePeriod_eq p q : samePeriod p q = true <-> p = q.
Proof.
  destruct p as [y m], q as [y' m']. unfold samePeriod. cbn [year month].
  rewrite andb_true_iff, !Z.eqb_eq. split; [intros [-> ->] | intros [= -> ->]]; auto.
Qed.

Lemma In_without removed l p : In p (without removed l) <-> In p l /\ p <> removed.
Proof.
  unfold without. rewrite filter_In, negb_true_iff, <- not_true_iff_false, samePeriod_eq.
  tauto.
Qed.

Lemma In_monthsFrom n : forall first p,
  validMonth first ->
  (In p (monthsFrom first n) <->
   validMonth p /\ monthIndex first <= monthIndex p < monthIndex first + Z.of_nat n).
Proof.
  induction n as [| n IH]; intros first p Hv; cbn [monthsFrom In].
  - split; [contradiction | lia].
  - destruct (nextPeriod_index first Hv) as [Hnv Hni].
    rewrite (IH (nextPeriod first) p Hnv), Hni. split.
    + intros [<- | H]; [split; [exact Hv | lia] | split; [tauto | lia]].
    + intros [Hp Hr]. destruct (Z.eq_dec (monthIndex first) (monthIndex p)) as [E | E].
      * left. now apply monthIndex_inj.
      * right. split; [exact Hp | lia].
Qed.

Lemma last_monthsFrom n : forall first d,
  validMonth first ->
  monthIndex (List.last (monthsFrom first (S n)) d) = monthIndex first + Z.of_nat n.
Proof.
  induction n as [| n IH]; intros first d Hv.
  - cbn. lia.
  - change (List.last (monthsFrom first (S (S n))) d)
      with (List.last (monthsFrom (nextPeriod first) (S n)) d).
    destruct (nextPeriod_index first Hv) as [Hnv Hni].
    rewrite (IH _ d Hnv), Hni. lia.
Qed.

End MissingPeriods.

(** C9 (as stated, refuted): from the range of the three months that start
    with January 2025 the first is removed; on the two that remain
    [findMissingPeriods] returns the empty list, not the removed period. *)
Lemma findMissingPeriods_misses_a_removed_end :
  PeriodExtractor.findMissingPeriods 2025
    (Months.without (mkPeriod 2025 1)
       (Months.monthsFrom (mkPeriod 2025 1) 3))
  = Some (Ok []).
Proof. reflexivity. Qed.

(** Outside the years [isValidYear] accepts the gap is not reported either:
    building its file name throws. *)
Lemma findMissingPeriods_throws_on_early_years :
  PeriodExtractor.findMissingPeriods 2025
    (Months.without (mkPeriod 2005 2)
       (Months.monthsFrom (mkPeriod 2005 1) 3))
  = Some (Throw (ErrInvalidPeriod 2005 2)).
Proof. reflexivity. Qed.

(** C9 (amended): on any arrangement of a contiguous range of months from
    which one period other than the first and the last has been removed, the
    year of that period being one [isValidYear] accepts, [findMissingPeriods]
    returns exactly that period, with its standard file name; and on the
    empty list it returns the empty list. *)
Theorem findMissingPeriods_interior_gap currentYear first n removed periods :
  Months.validMonth first ->
  In removed (Months.monthsFrom first n) ->
  removed <> first ->
  removed <> List.last (Months.monthsFrom first n) first ->
  PeriodExtractor.isValidYear currentYear (PeriodExtractor.year removed) = true ->
  Permutation periods (Months.without removed (Months.monthsFrom first n)) ->
  PeriodExtractor.findMissingPeriods currentYear [] = Some (Ok []) /\
  exists name,
    PeriodExtractor.createStandardFilename currentYear
      (PeriodExtractor.year removed) (PeriodExtractor.month removed) = Ok name /\
    PeriodExtractor.findMissingPeriods currentYear periods
      = Some (Ok [PeriodExtractor.mkMissing
                    (PeriodExtractor.year removed) (PeriodExtractor.month removed) name]).
Proof.
  intros Hv Hin Hfirst Hlast Hyear Hperm. split; [reflexivity |].
  destruct n as [| n]; [contradiction |].
  pose proof (MissingPeriods.last_monthsFrom n first first Hv) as Hl.
  pose proof Hin as Hr. apply MissingPeriods.In_monthsFrom in Hr; [| exact Hv].
  destruct Hr as [Hrv Hri].
  apply (MissingPeriods.findMissingPeriods_gap currentYear periods
           (Months.monthIndex first)
           (Months.monthIndex first + Z.of_nat n) removed).
  - intros p. split.
    + intros Hp. apply (Permutation_in _ Hperm) in Hp.
      apply MissingPeriods.In_without in Hp. destruct Hp as [Hp Hne].
      apply MissingPeriods.In_monthsFrom in Hp; [| exact Hv]. split; [tauto |].
      split; [lia | exact Hne].
    + intros (Hp & Hi & Hne). apply (Permutation_in _ (Permutation_sym Hperm)).
      apply MissingPeriods.In_without. split; [| exact Hne].
      apply MissingPeriods.In_monthsFrom; [exact Hv |]. split; [exact Hp | lia].
  - exact Hrv.
  - split.
    + destruct (Z.eq_dec (Months.monthIndex first)
                         (Months.monthIndex removed)) as [E | E]; [| lia].
      apply MissingPeriods.monthIndex_inj in E; auto. congruence.
    + destruct (Z.eq_dec (Months.monthIndex removed)
                         (Months.monthIndex first + Z.of_nat n)) as [E | E]; [| lia].
      rewrite <- Hl in E. apply MissingPeriods.monthIndex_inj in E; auto.
      * congruence.
      * assert (Hll : In (List.last (Months.monthsFrom first (S n)) first)
                         (Months.monthsFrom first (S n)))
          by (apply MissingPeriods.last_in; discriminate).
        apply MissingPeriods.In_monthsFrom in Hll; tauto.
  - exact Hyear.
Qed.

(** C9, at the five months from November 2024 on, shuffled, with February
    2025 removed. *)
Lemma findMissingPeriods_interior_gap_witness :
  PeriodExtractor.findMissingPeriods 2025
    [mkPeriod 2025 3; mkPeriod 2024 11; mkPeriod 2025 1; mkPeriod 2024 12]
  = Some (Ok [PeriodExtractor.mkMissing 2025 2 "IG_2025_02.csv"]).
Proof.
  destruct (findMissingPeriods_interior_gap 2025 (mkPeriod 2024 11) 5 (mkPeriod 2025 2)
              [mkPeriod 2025 3; mkPeriod 2024 11; mkPeriod 2025 1; mkPeriod 2024 12])
    as [_ (name & Hname & H)].
  - unfold Months.validMonth. simpl. lia.
  - simpl. auto.
  - discriminate.
  - discriminate.
  - reflexivity.
  - simpl.
    apply Permutation_trans
      with (l' := [mkPeriod 2024 11; mkPeriod 2025 3; mkPeriod 2025 1; mkPeriod 2024 12]);
      [apply perm_swap |].
    apply perm_skip.
    apply Permutation_trans
      with (l' := [mkPeriod 2025 3; mkPeriod 2024 12; mkPeriod 2025 1]);
      [apply perm_skip, perm_swap |].
    apply Permutation_trans
      with (l' := [mkPeriod 2024 12; mkPeriod 2025 3; mkPeriod 2025 1]);
      [apply perm_swap |].
    apply perm_skip, perm_swap.
  - injection Hname as <-. exact H.
Defined.


(** * Further properties

    Properties of the code beyond those its specification states: round
    trips of file names and of period keys, the invariant of the dataset and
    what the queries return under it, the agreement of functions that compute
    the same thing in two modules, and the behaviour at the edges.  Each
    theorem carries a number of its own, X1 onwards. *)

(** ** period_extractor.js: file names *)

Module FileNames.
Import PeriodExtractor Names.
Local Open Scope Z_scope.

Lemma yearReadsBack_all : forallb yearReadsBack (yearsFrom 2010 (Z.to_nat 7990)) = true.
Proof. vm_compute. reflexivity. Qed.

Lemma yearReadsBack_four_digits y : 2010 <= y <= 9999 -> yearReadsBack y = true.
Proof.
  intros Hy. apply (proj1 (forallb_forall _ _) yearReadsBack_all).
  unfold yearsFrom. apply in_map_iff. exists (Z.to_nat (y - 2010)). split; [lia |].
  apply in_seq. lia.
Qed.

Lemma readExactDigits_append n : forall s digits rest tail,
  readExactDigits n s = Some (digits, rest) ->
  readExactDigits n (s ++ tail) = Some (digits, (rest ++ tail)%string).
Proof.
  induction n as [| n IH]; intros s digits rest tail H; simpl in *.
  - now injection H as <- <-.
  - destruct s as [| c s]; [discriminate |]. simpl.
    destruct (Csv.isDigit c); [| discriminate].
    destruct (readExactDigits n s) as [[d r] |] eqn:E; [| discriminate].
    injection H as <- <-. now rewrite (IH _ _ _ tail E).
Qed.

Lemma readExactDigits_whole n : forall s digits,
  readExactDigits n s = Some (digits, EmptyString) -> digits = s.
Proof.
  induction n as [| n IH]; intros s digits H; simpl in *.
  - now injection H as <- <-.
  - destruct s as [| c s]; [discriminate |].
    destruct (Csv.isDigit c); [| discriminate].
    destruct (readExactDigits n s) as [[d r] |] eqn:E; [| discriminate].
    injection H as <- ->. f_equal. now apply IH.
Qed.

Lemma matchStrict_standardName y m :
  2010 <= y <= 9999 -> 1 <= m <= 12 ->
  exists yearDigits monthDigits,
    matchStrict (standardName y m) = Some (yearDigits, monthDigits)
    /\ parseInt10 yearDigits = Some y /\ parseInt10 monthDigits = Some m.
Proof.
  intros Hy Hm. pose proof (yearReadsBack_four_digits y Hy) as R.
  unfold yearReadsBack in R.
  destruct (readExactDigits 4 (Js.Z_to_string y)) as [[digits rest] |] eqn:E;
    [| discriminate].
  destruct rest; [| discriminate].
  destruct (parseInt10 digits) as [y' |] eqn:Py; [| discriminate].
  apply Z.eqb_eq in R. subst y'.
  exists digits, (Js.padStart2 (Js.Z_to_string m)).
  unfold standardName, matchStrict.
  change (readLiteral "IG_" ("IG_" ++ ?s)) with (Some s).
  unfold matchPeriodPart.
  rewrite (readExactDigits_append _ _ _ _ _ E).
  change (readLiteral "_" ("" ++ "_" ++ ?s)) with (Some s).
  split; [| split; [exact Py |]].
  - assert (C : m = 1 \/ m = 2 \/ m = 3 \/ m = 4 \/ m = 5 \/ m = 6 \/ m = 7 \/ m = 8
                \/ m = 9 \/ m = 10 \/ m = 11 \/ m = 12) by lia.
    repeat (destruct C as [-> | C]; [reflexivity |]). now subst.
  - assert (C : m = 1 \/ m = 2 \/ m = 3 \/ m = 4 \/ m = 5 \/ m = 6 \/ m = 7 \/ m = 8
                \/ m = 9 \/ m = 10 \/ m = 11 \/ m = 12) by lia.
    repeat (destruct C as [-> | C]; [reflexivity |]). now subst.
Qed.


Lemma createStandardFilename_valid currentYear y m :
  isValidPeriod currentYear y m = true ->
  createStandardFilename currentYear y m = Ok (standardName y m).
Proof. intros H. unfold createStandardFilename. now rewrite H. Qed.

Lemma isValidPeriod_bounds currentYear y m :
  isValidPeriod currentYear y m = true <->
  (2010 <= y <= currentYear + 5) /\ (1 <= m <= 12).
Proof.
  unfold isValidPeriod, isValidYear, isValidMonth.
  rewrite !andb_true_iff, !Z.leb_le. tauto.
Qed.

Lemma standardName_not_empty y m : String.eqb (standardName y m) "" = false.
Proof. reflexivity. Qed.

Lemma extract_standardName currentYear y m strict :
  isValidPeriod currentYear y m = true -> y <= 9999 ->
  extractPeriodFromFilename currentYear (standardName y m) strict
  = Some (mkExtracted y m (standardName y m)).
Proof.
  intros V Hy. pose proof V as B. apply isValidPeriod_bounds in B.
  destruct (matchStrict_standardName y m) as (yd & md & Hm & Py & Pm); [lia | lia |].
  unfold extractPeriodFromFilename. rewrite standardName_not_empty.
  assert (E : (if strict then matchStrict (standardName y m)
               else matchFlexible (standardName y m)) = Some (yd, md)).
  { destruct strict; [exact Hm |]. unfold matchFlexible. now rewrite Hm. }
  rewrite E, Py, Pm.
  unfold isValidPeriod in V. apply andb_prop in V. destruct V as [-> ->].
  reflexivity.
Qed.

(** X1.  The standard file name of a valid period is read back as that
    period, in the strict and in the lenient mode, as long as years have four
    digits. *)
Theorem createStandardFilename_round_trip currentYear y m strict :
  isValidPeriod currentYear y m = true ->
  currentYear + 5 <= 9999 ->
  exists name,
    createStandardFilename currentYear y m = Ok name
    /\ extractPeriodFromFilename currentYear name strict = Some (mkExtracted y m name).
Proof.
  intros V Hc. exists (standardName y m). split.
  - now apply createStandardFilename_valid.
  - apply extract_standardName; [exact V |].
    apply isValidPeriod_bounds in V. lia.
Qed.

Lemma createStandardFilename_round_trip_witness :
  exists name,
    createStandardFilename 2025 2025 3 = Ok name
    /\ extractPeriodFromFilename 2025 name true = Some (mkExtracted 2025 3 name).
Proof.
  apply (createStandardFilename_round_trip 2025 2025 3 true); [reflexivity | lia].
Defined.

(** A decimal digit is neither white space nor a sign. *)
Lemma digit_facts c :
  Csv.isDigit c = true ->
  Csv.isWhiteSpace c = false
  /\ Ascii.eqb c "-"%char = false /\ Ascii.eqb c "+"%char = false
  /\ 0 <= Csv.digitValue c <= 9.
Proof.
  destruct c as [[] [] [] [] [] [] [] []]; intros H; try discriminate H;
    vm_compute; repeat split; congruence.
Qed.

Lemma readDigits_exact n : forall s digits rest acc count,
  readExactDigits n s = Some (digits, rest) ->
  exists v, 0 <= v < 10 ^ Z.of_nat n
    /\ Csv.readDigits digits acc count
       = (acc * 10 ^ Z.of_nat n + v, (count + n)%nat, EmptyString).
Proof.
  induction n as [| n IH]; intros s digits rest acc count H.
  - simpl in H. injection H as <- <-. exists 0. simpl. split; [lia |].
    repeat f_equal; lia.
  - cbn [readExactDigits] in H. destruct s as [| c s]; [discriminate |].
    destruct (Csv.isDigit c) eqn:D; [| discriminate].
    destruct (readExactDigits n s) as [[d r] |] eqn:E; [| discriminate].
    injection H as <- <-. cbn [Csv.readDigits]. rewrite D.
    destruct (IH _ _ _ (10 * acc + Csv.digitValue c) (S count) E) as (v & Hv & ->).
    destruct (digit_facts c D) as (_ & _ & _ & Hd).
    exists (Csv.digitValue c * 10 ^ Z.of_nat n + v).
    replace (Z.of_nat (S n)) with (Z.of_nat n + 1) by lia.
    rewrite Z.pow_add_r by lia. change (10 ^ 1) with 10.
    split; [nia |]. f_equal. f_equal; [ring | lia].
Qed.

(** What the pattern captures as a year reads as a number below 10000. *)
Lemma year_group_bound s digits rest y :
  readExactDigits 4 s = Some (digits, rest) ->
  parseInt10 digits = Some y -> 0 <= y <= 9999.
Proof.
  intros H P.
  destruct (readDigits_exact 4 s digits rest 0 0 H) as (v & Hv & R).
  unfold parseInt10 in P.
  assert (T : Csv.readSign (Csv.trimStart digits) = (false, digits)).
  { cbn [readExactDigits] in H. destruct s as [| c s]; [discriminate |].
    destruct (Csv.isDigit c) eqn:D; [| discriminate].
    destruct (match s with String _ _ => _ | EmptyString => None end) as [[d r] |];
      [| discriminate].
    injection H as <- <-. destruct (digit_facts c D) as (W & M & Pl & _).
    cbn [Csv.trimStart]. rewrite W. unfold Csv.readSign. now rewrite M, Pl. }
  rewrite T, R in P. cbn in P. injection P as <-.
  change (10 ^ Z.of_nat 4) with 10000 in Hv. lia.
Qed.

Lemma matchPeriodPart_year s yd md y :
  matchPeriodPart s = Some (yd, md) -> parseInt10 yd = Some y -> 0 <= y <= 9999.
Proof.
  unfold matchPeriodPart. intros H P.
  destruct (readExactDigits 4 s) as [[d r] |] eqn:E; [| discriminate].
  destruct (readLiteral "_" r) as [t |]; [| discriminate].
  assert (G : forall n,
            match readExactDigits n t with
            | Some (monthDigits, afterMonth) =>
                if matchExtension afterMonth then Some (d, monthDigits) else None
            | None => None
            end = Some (yd, md) -> d = yd).
  { intros n. destruct (readExactDigits n t) as [[a b] |]; [| discriminate].
    destruct (matchExtension b); [| discriminate]. now intros [= -> _]. }
  cbv beta zeta in H.
  assert (d = yd).
  { destruct (match readExactDigits 2 t with Some _ => _ | None => None end) as [[a b] |] eqn:E2.
    - injection H as -> ->. exact (G _ E2).
    - exact (G _ H). }
  subst. eapply year_group_bound; eassumption.
Qed.

Lemma matched_year (strict : bool) f yd md y :
  (if strict then matchStrict f else matchFlexible f) = Some (yd, md) ->
  parseInt10 yd = Some y -> 0 <= y <= 9999.
Proof.
  intros H P.
  assert (S : forall g, matchStrict g = Some (yd, md) -> 0 <= y <= 9999).
  { unfold matchStrict. intros g Hg. destruct (readLiteral "IG_" g); [| discriminate].
    eapply matchPeriodPart_year; eassumption. }
  destruct strict; [now apply (S f) |].
  unfold matchFlexible in H. destruct (matchStrict f) as [[a b] |] eqn:E.
  - injection H as -> ->. now apply (S f).
  - eapply matchPeriodPart_year; eassumption.
Qed.

Lemma extract_inversion currentYear f strict e :
  extractPeriodFromFilename currentYear f strict = Some e ->
  extractedFrom e = f
  /\ isValidPeriod currentYear (extractedYear e) (extractedMonth e) = true
  /\ extractedYear e <= 9999.
Proof.
  unfold extractPeriodFromFilename. intros H.
  destruct (String.eqb f ""); [discriminate |].
  destruct (if strict then matchStrict f else matchFlexible f) as [[yd md] |] eqn:M;
    [| discriminate].
  destruct (parseInt10 yd) as [y |] eqn:Py; [| discriminate].
  destruct (parseInt10 md) as [m |] eqn:Pm; [| discriminate].
  destruct (isValidYear currentYear y) eqn:Vy; [| discriminate].
  destruct (isValidMonth m) eqn:Vm; [| discriminate].
  cbn in H. injection H as <-. cbn. unfold isValidPeriod. rewrite Vy, Vm.
  repeat split. eapply matched_year; eassumption.
Qed.

(** X2.  Whatever name is accepted, in either mode, denotes a valid period,
    and the standard name of that period is accepted in both modes as the
    same period: extraction followed by [createStandardFilename] puts a name
    in its normal form. *)
Theorem extractPeriodFromFilename_normal_form currentYear f strict e :
  extractPeriodFromFilename currentYear f strict = Some e ->
  extractedFrom e = f
  /\ isValidPeriod currentYear (extractedYear e) (extractedMonth e) = true
  /\ exists name,
       createStandardFilename currentYear (extractedYear e) (extractedMonth e) = Ok name
       /\ forall strict',
            extractPeriodFromFilename currentYear name strict'
            = Some (mkExtracted (extractedYear e) (extractedMonth e) name).
Proof.
  intros H. apply extract_inversion in H. destruct H as (F & V & B).
  split; [exact F |]. split; [exact V |].
  exists (standardName (extractedYear e) (extractedMonth e)). split.
  - now apply createStandardFilename_valid.
  - intros strict'. now apply extract_standardName.
Qed.

Lemma extractPeriodFromFilename_normal_form_witness :
  extractedFrom (mkExtracted 2025 3 "ig_2025_3.CSV") = "ig_2025_3.CSV"%string
  /\ isValidPeriod 2025 2025 3 = true
  /\ exists name,
       createStandardFilename 2025 2025 3 = Ok name
       /\ forall strict',
            extractPeriodFromFilename 2025 name strict' = Some (mkExtracted 2025 3 name).
Proof.
  apply (extractPeriodFromFilename_normal_form 2025 "ig_2025_3.CSV" true
           (mkExtracted 2025 3 "ig_2025_3.CSV")).
  reflexivity.
Defined.

Lemma matchStrict_prefixed f : matchStrict ("IG_" ++ f) = matchPeriodPart f.
Proof. reflexivity. Qed.

Lemma matchStrict_no_digit f groups :
  matchStrict f = Some groups -> matchPeriodPart f = None.
Proof.
  unfold matchStrict. destruct f as [| c f]; [discriminate |].
  cbn [readLiteral]. destruct (sameLetter "I" c) eqn:E; [| discriminate].
  intros _. unfold matchPeriodPart. cbn [readExactDigits].
  replace (Csv.isDigit c) with false; [reflexivity |].
  destruct c as [[] [] [] [] [] [] [] []]; try reflexivity; discriminate E.
Qed.

(** X3.  The lenient mode accepts the names the strict mode accepts and the
    names that the prefix [IG_] makes acceptable to it, and reads the same
    period from them. *)
Theorem extractPeriodFromFilename_lenient currentYear f :
  extractPeriodFromFilename currentYear f false =
  match extractPeriodFromFilename currentYear f true with
  | Some e => Some e
  | None =>
      match extractPeriodFromFilename currentYear ("IG_" ++ f) true with
      | Some e => Some (mkExtracted (extractedYear e) (extractedMonth e) f)
      | None => None
      end
  end.
Proof.
  unfold extractPeriodFromFilename.
  change (String.eqb ("IG_" ++ f) "") with false. cbv iota.
  rewrite matchStrict_prefixed.
  destruct (String.eqb f "") eqn:Ef.
  - apply String.eqb_eq in Ef. subst. reflexivity.
  - unfold matchFlexible. destruct (matchStrict f) as [[yd md] |] eqn:S.
    + rewrite (matchStrict_no_digit f _ S).
      destruct (parseInt10 yd), (parseInt10 md); try reflexivity.
      now destruct (negb _ || negb _).
    + destruct (matchPeriodPart f) as [[yd md] |]; [| reflexivity].
      destruct (parseInt10 yd), (parseInt10 md); try reflexivity.
      now destruct (negb _ || negb _).
Qed.

End FileNames.

(** ** period_extractor.js: sequences of periods *)

Module Sequences.
Import PeriodExtractor Months Names MissingPeriods FileNames.
Local Open Scope Z_scope.

Lemma scanSequence_invalid currentYear periods : forall seen report,
  sequenceIsValid report = false ->
  sequenceIsValid (scanSequence currentYear periods seen report) = false.
Proof.
  induction periods as [| p ps IH]; intros seen report H; [exact H |].
  cbn [scanSequence].
  destruct ((year p =? 0) || (month p =? 0)); [now apply IH |].
  apply IH.
  destruct (Js.setHas seen _), (negb (isValidPeriod currentYear (year p) (month p)));
    cbn; auto.
Qed.

Lemma setHas_keys periods p :
  Js.setHas (List.map (fun q => Js.periodKey (year q) (month q)) periods)
            (Js.periodKey (year p) (month p)) = true
  <-> In p periods.
Proof. rewrite Keys.setHas_periodKey. now destruct p. Qed.

Lemma scanSequence_valid currentYear periods : forall done report,
  sequenceIsValid
    (scanSequence currentYear periods
       (List.map (fun q => Js.periodKey (year q) (month q)) done) report) = true
  <-> sequenceIsValid report = true
      /\ Forall (validPeriod currentYear) periods
      /\ NoDup periods
      /\ (forall p, In p periods -> ~ In p done).
Proof.
  induction periods as [| p ps IH]; intros done report.
  - cbn. split; [intros H; repeat split; auto using NoDup_nil | tauto].
  - cbn [scanSequence].
    destruct ((year p =? 0) || (month p =? 0)) eqn:Z0.
    + rewrite scanSequence_invalid by reflexivity. split; [discriminate |].
      intros (_ & V & _). inversion V as [| ? ? Vp _]; subst.
      apply isValidPeriod_bounds in Vp.
      apply orb_prop in Z0. destruct Z0 as [E | E]; apply Z.eqb_eq in E; lia.
    + destruct (Js.setHas _ (Js.periodKey (year p) (month p))) eqn:Dup.
      * rewrite scanSequence_invalid
          by (destruct (negb (isValidPeriod currentYear (year p) (month p))); reflexivity).
        split; [discriminate |]. intros (_ & _ & _ & F).
        apply setHas_keys in Dup. exfalso. apply (F p); [now left | exact Dup].
      * assert (Nd : ~ In p done).
        { intros C. apply setHas_keys in C. congruence. }
        replace (List.map (fun q => Js.periodKey (year q) (month q)) done
                   ++ [Js.periodKey (year p) (month p)])%list
          with (List.map (fun q => Js.periodKey (year q) (month q)) (done ++ [p])%list)
          by (now rewrite map_app).
        destruct (isValidPeriod currentYear (year p) (month p)) eqn:V; cbn [negb].
        -- rewrite IH. split.
           ++ intros (R & F & N & D). split; [exact R |]. split; [now constructor |].
              split.
              ** constructor; [| exact N]. intros C. apply (D p C).
                 apply in_or_app. right. now left.
              ** intros q [<- | Hq]; [exact Nd |]. intros C. apply (D q Hq).
                 apply in_or_app. now left.
           ++ intros (R & F & N & D). inversion F; inversion N; subst.
              split; [exact R |]. split; [assumption |]. split; [assumption |].
              intros q Hq C. apply in_app_or in C. destruct C as [C | [<- | []]].
              ** apply (D q); [now right | exact C].
              ** contradiction.
        -- rewrite scanSequence_invalid by reflexivity. split; [discriminate |].
           intros (_ & F & _). inversion F as [| ? ? Vp _]; subst.
           unfold validPeriod in Vp. congruence.
Qed.

(** X4.  [validatePeriodSequence] finds a list valid exactly when it is not
    empty, every period in it is valid and no period occurs in it twice. *)
Theorem validatePeriodSequence_valid_iff currentYear periods :
  sequenceIsValid (validatePeriodSequence currentYear periods) = true
  <-> periods <> [] /\ Forall (validPeriod currentYear) periods /\ NoDup periods.
Proof.
  destruct periods as [| p ps].
  - cbn. split; [discriminate | intros ([] & _)]. reflexivity.
  - unfold validatePeriodSequence.
    rewrite (scanSequence_valid currentYear (p :: ps) [] (mkSequenceReport true [] [])).
    cbn [sequenceIsValid]. split.
    + intros (_ & F & N & _). repeat split; auto. discriminate.
    + intros (_ & F & N). repeat split; auto.
Qed.


Lemma validPeriod_validMonth currentYear p : validPeriod currentYear p -> validMonth p.
Proof. intros H. apply isValidPeriod_bounds in H. exact (proj2 H). Qed.

Lemma chronoAfter_index a b :
  validMonth a -> validMonth b ->
  chronoAfter (year a) (month a) (year b) (month b) = (monthIndex a >? monthIndex b).
Proof. exact (periodAfter_index a b). Qed.

(** X5.  [extractPeriodsFromFiles] returns the periods of exactly the names
    that [extractPeriodFromFilename] accepts, each as often as its name
    occurs, in chronological order. *)
Theorem extractPeriodsFromFiles_sorted currentYear files strict :
  let periods := extractPeriodsFromFiles currentYear files strict in
  StronglySorted (fun a b => monthIndex (periodOf a) <= monthIndex (periodOf b)) periods
  /\ Permutation periods
       (flat_map (fun name =>
                    match extractPeriodFromFilename currentYear name strict with
                    | Some period => [period]
                    | None => []
                    end) files)
  /\ forall e, In e periods ->
       In (extractedFrom e) files /\ validPeriod currentYear (periodOf e).
Proof.
  cbv zeta. unfold extractPeriodsFromFiles.
  assert (E : flat_map (fun name =>
                          if String.eqb name "" then []
                          else match extractPeriodFromFilename currentYear name strict with
                               | Some period => [period]
                               | None => []
                               end) files
              = flat_map (fun name =>
                            match extractPeriodFromFilename currentYear name strict with
                            | Some period => [period]
                            | None => []
                            end) files).
  { apply flat_map_ext. intros name. unfold extractPeriodFromFilename.
    now destruct (String.eqb name ""). }
  rewrite E. clear E.
  set (found := flat_map _ files).
  assert (F : forall e, In e found ->
                In (extractedFrom e) files /\ validPeriod currentYear (periodOf e)).
  { intros e He. apply in_flat_map in He. destruct He as (name & Hn & He).
    destruct (extractPeriodFromFilename currentYear name strict) as [e' |] eqn:X;
      [| contradiction].
    destruct He as [<- | []]. apply extract_inversion in X.
    destruct X as (-> & V & _). now split. }
  split; [| split].
  - apply (sort_sorted _ (fun e => validMonth (periodOf e))).
    + intros; lia.
    + intros a b Ha Hb H.
      change (chronoAfter (year (periodOf a)) (month (periodOf a))
                          (year (periodOf b)) (month (periodOf b)) = false) in H.
      rewrite (chronoAfter_index _ _ Ha Hb), Z.gtb_ltb in H.
      apply Z.ltb_ge in H. lia.
    + intros a b Ha Hb H.
      change (chronoAfter (year (periodOf a)) (month (periodOf a))
                          (year (periodOf b)) (month (periodOf b)) = true) in H.
      rewrite (chronoAfter_index _ _ Ha Hb), Z.gtb_ltb in H.
      apply Z.ltb_lt in H. lia.
    + apply Forall_forall. intros e He.
      apply (validPeriod_validMonth currentYear). now apply F.
  - apply sort_permutation.
  - intros e He. apply F. exact (Permutation_in _ (sort_permutation _ _) He).
Qed.

(** *** [findMissingPeriods] on valid periods *)

Lemma setHas_absent periods p :
  negb (Js.setHas (List.map (fun q => Js.periodKey (year q) (month q)) periods)
                  (Js.periodKey (year p) (month p)))
  = absent periods p.
Proof.
  unfold absent. f_equal. apply eq_iff_eq_true.
  rewrite setHas_keys, existsb_exists. split.
  - intros H. exists p. split; [exact H |]. now apply samePeriod_eq.
  - intros (q & Hq & E). apply samePeriod_eq in E. now subst.
Qed.

Lemma walkMonths_valid currentYear periods last fuel : forall cur,
  validMonth cur -> validMonth last ->
  2010 <= year cur -> year last <= currentYear + 5 ->
  monthIndex last - monthIndex cur + 1 <= Z.of_nat fuel ->
  walkMonths currentYear fuel
    (List.map (fun q => Js.periodKey (year q) (month q)) periods)
    (year last) (month last) (year cur) (month cur)
  = Some (Ok (List.map missingEntry
                (filter (absent periods) (monthsFrom cur (monthsBetween cur last))))).
Proof.
  induction fuel as [| fuel IH]; intros cur Vc Vl Hy Hl Hf;
    pose proof (loop_test_index cur last Vc Vl) as T;
    destruct (monthIndex cur <=? monthIndex last) eqn:L;
    try (apply Z.leb_gt in L; rewrite walkMonths_done by exact T;
         unfold monthsBetween;
         replace (Z.to_nat (monthIndex last - monthIndex cur + 1)) with O by lia;
         reflexivity).
  - apply Z.leb_le in L. lia.
  - apply Z.leb_le in L. rewrite walkMonths_turn by exact T. cbv zeta.
    destruct (nextPeriod_index cur Vc) as [Vn In].
    change (walkMonths currentYear fuel _ (year last) (month last) _ _)
      with (walkMonths currentYear fuel
              (List.map (fun q => Js.periodKey (year q) (month q)) periods)
              (year last) (month last) (year (nextPeriod cur)) (month (nextPeriod cur))).
    rewrite (IH (nextPeriod cur)); try assumption.
    + rewrite setHas_absent.
      unfold monthsBetween. rewrite In.
      replace (Z.to_nat (monthIndex last - monthIndex cur + 1))
        with (S (Z.to_nat (monthIndex last - (monthIndex cur + 1) + 1))) by lia.
      cbn [monthsFrom filter].
      destruct (absent periods cur); [| reflexivity].
      rewrite createStandardFilename_valid; [reflexivity |].
      apply isValidPeriod_bounds. unfold validMonth, monthIndex in *. lia.
    + unfold nextPeriod. cbn [year]. destruct (month cur + 1 >? 12); lia.
    + lia.
Qed.

(** X6.  On a list of valid periods that is not empty [findMissingPeriods]
    returns, in chronological order and each with its standard file name,
    exactly the months from the earliest period of the list to the latest
    that the list does not hold. *)
Theorem findMissingPeriods_valid_periods currentYear periods :
  periods <> [] ->
  Forall (validPeriod currentYear) periods ->
  exists first last,
    In first periods /\ In last periods
    /\ (forall p, In p periods -> monthIndex first <= monthIndex p <= monthIndex last)
    /\ findMissingPeriods currentYear periods
       = Some (Ok (List.map missingEntry
                     (filter (absent periods)
                        (monthsFrom first (monthsBetween first last))))).
Proof.
  intros Ne V.
  assert (Vm : Forall validMonth periods).
  { eapply Forall_impl; [| exact V]. apply validPeriod_validMonth. }
  pose proof (sort_by_index periods Vm) as Sorted.
  pose proof (sort_permutation periodAfter periods) as Perm.
  rewrite (findMissingPeriods_nonempty currentYear periods Ne).
  destruct (Js.sort periodAfter periods) as [| first rest] eqn:E.
  { apply Permutation_nil in Perm. contradiction. }
  cbv zeta. set (last := List.last (first :: rest) first).
  assert (Hfirst : In first periods).
  { apply (Permutation_in _ Perm). now left. }
  assert (Hlast : In last periods).
  { apply (Permutation_in _ Perm). apply last_in. discriminate. }
  assert (Range : forall p, In p periods ->
                    monthIndex first <= monthIndex p <= monthIndex last).
  { intros p Hp. apply (Permutation_in _ (Permutation_sym Perm)) in Hp. split.
    - inversion Sorted as [| ? ? _ Hall]; subst.
      destruct Hp as [<- | Hp]; [lia |].
      exact (proj1 (Forall_forall _ _) Hall p Hp).
    - now apply sorted_last_max. }
  exists first, last. repeat split; try assumption; try (now apply Range).
  pose proof (proj1 (Forall_forall _ _) V first Hfirst) as Vf.
  pose proof (proj1 (Forall_forall _ _) V last Hlast) as Vl.
  apply isValidPeriod_bounds in Vf, Vl.
  apply walkMonths_valid; try (unfold validMonth; lia).
  unfold walkFuel. pose proof (Range first Hfirst) as R.
  unfold monthIndex in *. lia.
Qed.

Lemma findMissingPeriods_valid_periods_witness :
  exists first last,
    In first [mkPeriod 2025 3; mkPeriod 2024 11] /\ In last [mkPeriod 2025 3; mkPeriod 2024 11]
    /\ (forall p, In p [mkPeriod 2025 3; mkPeriod 2024 11] ->
          monthIndex first <= monthIndex p <= monthIndex last)
    /\ findMissingPeriods 2025 [mkPeriod 2025 3; mkPeriod 2024 11]
       = Some (Ok (List.map missingEntry
                     (filter (absent [mkPeriod 2025 3; mkPeriod 2024 11])
                        (monthsFrom first (monthsBetween first last))))).
Proof.
  apply (findMissingPeriods_valid_periods 2025 [mkPeriod 2025 3; mkPeriod 2024 11]).
  - discriminate.
  - repeat constructor.
Defined.

End Sequences.

(** ** timeseries_models.js: the dataset *)

Module Dataset.
Import PeriodExtractor Store.
Local Open Scope Z_scope.

Section Maps.
Context {V : Type}.
Implicit Types m : Js.map V.

Lemma get_In m k v : Js.get m k = Some v -> In (k, v) m.
Proof.
  induction m as [| [k' v'] rest IH]; simpl; [discriminate |].
  destruct (String.eqb k k') eqn:E.
  - apply String.eqb_eq in E. intros [= ->]. subst. now left.
  - intros H. right. now apply IH.
Qed.

Lemma In_get m k v : distinctKeys m -> In (k, v) m -> Js.get m k = Some v.
Proof.
  unfold distinctKeys. induction m as [| [k' v'] rest IH]; simpl; [contradiction |].
  intros N H. inversion N as [| ? ? Hk Nr]; subst.
  destruct H as [[= -> ->] | H].
  - now rewrite String.eqb_refl.
  - destruct (String.eqb k k') eqn:E; [| now apply IH].
    apply String.eqb_eq in E. subst. exfalso. apply Hk.
    change k' with (fst (k', v)). now apply in_map.
Qed.

Lemma keys_set m k v :
  List.map fst (Js.set m k v)
  = if Js.has m k then List.map fst m else (List.map fst m ++ [k])%list.
Proof.
  unfold Js.has. induction m as [| [k' v'] rest IH]; simpl; [reflexivity |].
  destruct (String.eqb k k') eqn:E; simpl; [reflexivity |].
  rewrite IH. now destruct (Js.get rest k).
Qed.

Lemma has_In m k : Js.has m k = true <-> In k (List.map fst m).
Proof.
  unfold Js.has. induction m as [| [k' v'] rest IH]; simpl.
  - split; [discriminate | tauto].
  - destruct (String.eqb k k') eqn:E.
    + apply String.eqb_eq in E. subst. split; auto.
    + apply String.eqb_neq in E. rewrite IH. split; [auto | intros [C | C]; congruence || auto].
Qed.

Lemma distinctKeys_set m k v : distinctKeys m -> distinctKeys (Js.set m k v).
Proof.
  unfold distinctKeys. rewrite keys_set. intros N.
  destruct (Js.has m k) eqn:H; [exact N |].
  apply NoDup_app; [exact N | repeat constructor; simpl; tauto |].
  intros x Hx [<- | []]. apply has_In in Hx. congruence.
Qed.

Lemma In_set m k v k' v' :
  distinctKeys m ->
  In (k', v') (Js.set m k v) <-> (k' = k /\ v' = v) \/ (k' <> k /\ In (k', v') m).
Proof.
  intros N. split.
  - intros H. pose proof (In_get _ _ _ (distinctKeys_set m k v N) H) as G.
    destruct (string_dec k' k) as [-> | Ne].
    + left. rewrite get_set_same in G. now injection G as <-.
    + right. split; [exact Ne |]. rewrite get_set_other in G by exact Ne.
      now apply get_In.
  - intros [[-> ->] | [Ne H]]; apply get_In.
    + apply get_set_same.
    + rewrite get_set_other by exact Ne. now apply In_get.
Qed.

End Maps.

Lemma getKey_inj a b :
  InstagramAccount.getKey a = InstagramAccount.getKey b ->
  InstagramAccount.accountId a = InstagramAccount.accountId b.
Proof. unfold InstagramAccount.getKey. intros H. now injection H. Qed.

Lemma new_wellFormed : wellFormed TimeseriesDataset.new.
Proof. split; [constructor | intros key ts []]. Qed.

Lemma seriesWellFormed_new account : seriesWellFormed (AccountTimeseries.new account).
Proof. split; [constructor | intros k d []]. Qed.

Lemma seriesWellFormed_add ts d :
  seriesWellFormed ts ->
  InstagramAccount.accountId (MonthlyAccountData.account d)
    = InstagramAccount.accountId (AccountTimeseries.account ts) ->
  exists ts',
    AccountTimeseries.addMonthlyData ts d = Ok ts'
    /\ AccountTimeseries.account ts' = AccountTimeseries.account ts
    /\ seriesWellFormed ts'.
Proof.
  intros [N W] E. unfold AccountTimeseries.addMonthlyData.
  rewrite E, String.eqb_refl. cbn [negb]. eexists. split; [reflexivity |].
  split; [reflexivity |]. split; cbn [AccountTimeseries.monthlyData AccountTimeseries.account].
  - now apply distinctKeys_set.
  - intros k d' H. apply In_set in H; [| exact N].
    destruct H as [[-> ->] | [_ H]]; [now split | now apply W].
Qed.

Lemma addMonthlyData_wellFormed_step ds d :
  wellFormed ds ->
  exists ds', TimeseriesDataset.addMonthlyData ds d = Ok ds' /\ wellFormed ds'.
Proof.
  intros [N W]. unfold TimeseriesDataset.addMonthlyData.
  set (accountKey := InstagramAccount.getKey (MonthlyAccountData.account d)).
  set (series := if negb (Js.has _ accountKey) then _ else _).
  assert (Ws : distinctKeys series
               /\ forall key ts, In (key, ts) series ->
                    key = InstagramAccount.getKey (AccountTimeseries.account ts)
                    /\ seriesWellFormed ts).
  { subst series. destruct (Js.has _ accountKey) eqn:H; cbn [negb]; [now split |].
    split; [now apply distinctKeys_set |].
    intros key ts Hin. apply In_set in Hin; [| exact N].
    destruct Hin as [[-> ->] | [_ Hin]]; [| now apply W].
    split; [reflexivity | apply seriesWellFormed_new]. }
  assert (G : exists ts, Js.get series accountKey = Some ts).
  { subst series. destruct (Js.has _ accountKey) eqn:H; cbn [negb].
    - unfold Js.has in H. destruct (Js.get _ accountKey); [eauto | discriminate].
    - rewrite get_set_same. eauto. }
  destruct G as [ts G]. rewrite G. destruct Ws as [Ns Ws].
  destruct (Ws _ _ (get_In _ _ _ G)) as [K Wts].
  destruct (seriesWellFormed_add ts d Wts) as (ts' & -> & A & Wts').
  { now apply getKey_inj. }
  cbn [rbind]. eexists. split; [reflexivity |].
  split; cbn [TimeseriesDataset.accountTimeseries].
  - now apply distinctKeys_set.
  - intros key t Hin. apply In_set in Hin; [| exact Ns].
    destruct Hin as [[-> ->] | [_ Hin]]; [| now apply Ws].
    split; [now rewrite A | exact Wts'].
Qed.

Lemma addAll_wellFormed data : forall ds,
  wellFormed ds -> wellFormed (CsvProcessor.addAll ds data).
Proof.
  induction data as [| d rest IH]; intros ds W; [exact W |].
  cbn [CsvProcessor.addAll].
  destruct (addMonthlyData_wellFormed_step ds d W) as (ds' & -> & W').
  now apply IH.
Qed.

Lemma ingest_keeps_wellFormed files : forall ds,
  wellFormed ds -> wellFormed (CsvProcessor.ingest ds files).
Proof.
  induction files as [| [csvRows [year month]] rest IH]; intros ds W; [exact W |].
  cbn [CsvProcessor.ingest].
  destruct (CsvProcessor.convertToMonthlyData csvRows year month); [| now apply IH].
  apply IH. now apply addAll_wellFormed.
Qed.

(** X7.  The invariant of the dataset.  [addMonthlyData] on a dataset in
    which every series stands under the key of its account and every record
    under the key of its period, in the series of its own account, never
    throws and returns such a dataset again. *)
Theorem addMonthlyData_keeps_wellFormed ds d :
  wellFormed ds ->
  exists ds', TimeseriesDataset.addMonthlyData ds d = Ok ds' /\ wellFormed ds'.
Proof. apply addMonthlyData_wellFormed_step. Qed.

Lemma addMonthlyData_keeps_wellFormed_witness :
  exists ds',
    TimeseriesDataset.addMonthlyData Examples.twoMonths Samples.annaSeptember = Ok ds'
    /\ wellFormed ds'.
Proof.
  apply (addMonthlyData_keeps_wellFormed Examples.twoMonths Samples.annaSeptember).
  apply ingest_keeps_wellFormed, new_wellFormed.
Defined.

(** X8.  Whatever files are processed, the dataset that
    [processMultipleInstagramCSVs] builds from the empty one satisfies the
    invariant. *)
Theorem ingest_wellFormed files :
  wellFormed (CsvProcessor.ingest TimeseriesDataset.new files).
Proof. apply ingest_keeps_wellFormed, new_wellFormed. Qed.

(** X9.  [addMonthlyData] stores the record under its account and period and
    leaves the record of every other account or period as it was. *)
Theorem addMonthlyData_frame ds d ds' :
  TimeseriesDataset.addMonthlyData ds d = Ok ds' ->
  Spec.recordOf ds' (InstagramAccount.accountId (MonthlyAccountData.account d))
    (MonthlyAccountData.year d) (MonthlyAccountData.month d) = Some d
  /\ forall accountId year month,
       (accountId, year, month)
         <> (InstagramAccount.accountId (MonthlyAccountData.account d),
             MonthlyAccountData.year d, MonthlyAccountData.month d) ->
       Spec.recordOf ds' accountId year month = Spec.recordOf ds accountId year month.
Proof.
  unfold TimeseriesDataset.addMonthlyData.
  set (accountKey := InstagramAccount.getKey (MonthlyAccountData.account d)).
  set (series := if negb (Js.has _ accountKey) then _ else _).
  assert (Other : forall k, k <> accountKey ->
            Js.get series k = Js.get (TimeseriesDataset.accountTimeseries ds) k).
  { intros k Hk. subst series. destruct (negb _); [| reflexivity].
    now apply get_set_other. }
  assert (Own : forall ts, Js.get series accountKey = Some ts ->
            Js.get (TimeseriesDataset.accountTimeseries ds) accountKey = Some ts
            \/ (Js.get (TimeseriesDataset.accountTimeseries ds) accountKey = None
                /\ AccountTimeseries.monthlyData ts = [])).
  { intros ts. subst series. unfold Js.has.
    destruct (Js.get (TimeseriesDataset.accountTimeseries ds) accountKey) eqn:G;
      cbn [negb]; [intros H; left; congruence |].
    rewrite get_set_same. intros [= <-]. now right. }
  destruct (Js.get series accountKey) as [ts |] eqn:G; [| discriminate].
  unfold AccountTimeseries.addMonthlyData.
  destruct (negb (String.eqb _ _)); [discriminate |].
  cbn [rbind]. intros [= <-].
  unfold Spec.recordOf, TimeseriesDataset.getAccountTimeseries,
    AccountTimeseries.getMonthlyData. cbn [TimeseriesDataset.accountTimeseries].
  split.
  - change ("account_" ++ InstagramAccount.accountId (MonthlyAccountData.account d))%string
      with accountKey.
    rewrite get_set_same. cbn [AccountTimeseries.monthlyData]. apply get_set_same.
  - intros accountId year month Ne.
    destruct (string_dec accountId
                (InstagramAccount.accountId (MonthlyAccountData.account d))) as [-> | Hid].
    + change ("account_" ++ InstagramAccount.accountId (MonthlyAccountData.account d))%string
        with accountKey.
      rewrite get_set_same. cbn [AccountTimeseries.monthlyData].
      rewrite get_set_other.
      * destruct (Own ts eq_refl) as [-> | [-> ->]]; reflexivity.
      * intros C. apply Keys.periodKey_inj in C. destruct C as [-> ->]. now apply Ne.
    + assert (K : ("account_" ++ accountId)%string <> accountKey).
      { subst accountKey. unfold InstagramAccount.getKey. intros C.
        apply Hid. now injection C. }
      rewrite get_set_other by exact K. now rewrite (Other _ K).
Qed.

Lemma addMonthlyData_frame_witness :
  exists ds',
    TimeseriesDataset.addMonthlyData Examples.twoMonths Samples.annaSeptember = Ok ds'
    /\ Spec.recordOf ds' "1" 2025 9 = Some Samples.annaSeptember
    /\ Spec.recordOf ds' "2" 2025 9 = Spec.recordOf Examples.twoMonths "2" 2025 9.
Proof.
  eexists. split; [reflexivity |].
  destruct (addMonthlyData_frame Examples.twoMonths Samples.annaSeptember _ eq_refl)
    as [Own Other].
  split; [exact Own | apply Other; discriminate].
Defined.

(** *** Chronological order *)

Lemma chronoAfter_false p q :
  chronoAfter (year p) (month p) (year q) (month q) = false -> notLater p q.
Proof.
  unfold chronoAfter, notLater.
  destruct (year p =? year q) eqn:E; cbn [negb]; rewrite Z.gtb_ltb, Z.ltb_ge;
    [apply Z.eqb_eq in E | apply Z.eqb_neq in E]; lia.
Qed.

Lemma chronoAfter_true p q :
  chronoAfter (year p) (month p) (year q) (month q) = true -> notLater q p.
Proof.
  unfold chronoAfter, notLater.
  destruct (year p =? year q) eqn:E; cbn [negb]; rewrite Z.gtb_ltb, Z.ltb_lt;
    [apply Z.eqb_eq in E | apply Z.eqb_neq in E]; lia.
Qed.

Lemma notLater_trans p q r : notLater p q -> notLater q r -> notLater p r.
Proof. unfold notLater. lia. Qed.

(** A sorted list without two elements of one period is strictly sorted. *)
Lemma strictly_sorted {A} (period : A -> Period) (l : list A) :
  StronglySorted (fun a b => notLater (period a) (period b)) l ->
  NoDup (List.map period l) ->
  StronglySorted (fun a b => earlier (period a) (period b)) l.
Proof.
  induction 1 as [| x rest Hs IH Hx]; intros N; [constructor |].
  cbn in N. inversion N as [| ? ? Hn Nr]; subst.
  constructor; [now apply IH |].
  apply Forall_forall. intros y Hy.
  pose proof (proj1 (Forall_forall _ _) Hx y Hy) as L.
  assert (Ne : period x <> period y).
  { intros C. apply Hn. rewrite C. now apply in_map. }
  unfold notLater in L. unfold earlier.
  destruct (period x) as [a b], (period y) as [a' b']. cbn [year month] in *.
  destruct (Z.eq_dec a a'), (Z.eq_dec b b'); subst; try lia. now contradiction Ne.
Qed.

Lemma sort_chronological {A} (period : A -> Period) (l : list A) :
  StronglySorted (fun a b => notLater (period a) (period b))
    (Js.sort (fun a b => chronoAfter (year (period a)) (month (period a))
                                     (year (period b)) (month (period b))) l).
Proof.
  apply (sort_sorted _ (fun _ => True)).
  - intros x y z _ _ _. apply notLater_trans.
  - intros x y _ _. apply chronoAfter_false.
  - intros x y _ _. apply chronoAfter_true.
  - apply Forall_forall. auto.
Qed.

Lemma values_In {V} (m : Js.map V) v : In v (Js.values m) <-> exists k, In (k, v) m.
Proof.
  unfold Js.values. rewrite in_map_iff. split.
  - intros ([k v'] & E & H). cbn in E. subst. eauto.
  - intros (k & H). exists (k, v). now split.
Qed.

Lemma periods_distinct ts :
  seriesWellFormed ts ->
  NoDup (List.map MonthlyAccountData.getPeriod
           (Js.values (AccountTimeseries.monthlyData ts))).
Proof.
  intros [N W]. unfold distinctKeys, Js.values in *.
  induction (AccountTimeseries.monthlyData ts) as [| [k d] rest IH]; cbn; [constructor |].
  cbn in N. inversion N as [| ? ? Hk Nr]; subst.
  constructor.
  - intros C. apply Hk. apply in_map_iff in C. destruct C as (d' & E & Hd).
    apply in_map_iff in Hd. destruct Hd as ([k' d''] & E' & Hin). cbn in E'. subst d''.
    destruct (W k d (or_introl eq_refl)) as [-> _].
    destruct (W k' d' (or_intror Hin)) as [Ek _].
    apply in_map_iff. exists (k', d'). split; [| exact Hin]. cbn. rewrite Ek.
    unfold MonthlyAccountData.getPeriod in E. now injection E as -> ->.
  - apply IH; [exact Nr |]. intros k' d' H. apply W. now right.
Qed.

(** X10.  On a series of the invariant, [getAllMonthlyData] returns the
    records of the series, those that [getMonthlyData] finds under their own
    period, in strictly ascending chronological order. *)
Theorem getAllMonthlyData_chronological ts :
  seriesWellFormed ts ->
  StronglySorted
    (fun a b => earlier (MonthlyAccountData.getPeriod a) (MonthlyAccountData.getPeriod b))
    (AccountTimeseries.getAllMonthlyData ts)
  /\ forall d,
       In d (AccountTimeseries.getAllMonthlyData ts)
       <-> AccountTimeseries.getMonthlyData ts
             (MonthlyAccountData.year d) (MonthlyAccountData.month d) = Some d.
Proof.
  intros W. unfold AccountTimeseries.getAllMonthlyData. split.
  - apply strictly_sorted.
    + exact (sort_chronological MonthlyAccountData.getPeriod _).
    + eapply Permutation_NoDup; [| exact (periods_distinct ts W)].
      apply Permutation_map, Permutation_sym, sort_permutation.
  - intros d. destruct W as [N W]. unfold AccountTimeseries.getMonthlyData. split.
    + intros H. apply (Permutation_in _ (sort_permutation _ _)) in H.
      apply values_In in H. destruct H as (k & H).
      destruct (W k d H) as [-> _]. now apply In_get.
    + intros H. apply (Permutation_in _ (Permutation_sym (sort_permutation _ _))).
      apply values_In. eexists. apply get_In. exact H.
Qed.

Lemma getAllMonthlyData_chronological_witness :
  StronglySorted
    (fun a b => earlier (MonthlyAccountData.getPeriod a) (MonthlyAccountData.getPeriod b))
    (AccountTimeseries.getAllMonthlyData Examples.anna)
  /\ forall d,
       In d (AccountTimeseries.getAllMonthlyData Examples.anna)
       <-> AccountTimeseries.getMonthlyData Examples.anna
             (MonthlyAccountData.year d) (MonthlyAccountData.month d) = Some d.
Proof.
  apply (getAllMonthlyData_chronological Examples.anna).
  split.
  - unfold distinctKeys. cbv. repeat constructor; cbn; intuition discriminate.
  - intros k d H. vm_compute in H.
    repeat (destruct H as [H | H]; [injection H as <- <-; split; reflexivity |]).
    destruct H.
Defined.

(** X11.  On a dataset of the invariant, [getDataForPeriod] returns, whatever
    the collation, exactly the records the accounts hold for the period: each
    belongs to the period and is the record of its account for it. *)
Theorem getDataForPeriod_records localeCompare ds year month :
  wellFormed ds ->
  forall d,
    In d (TimeseriesDataset.getDataForPeriod localeCompare ds year month)
    <-> Spec.recordOf ds (InstagramAccount.accountId (MonthlyAccountData.account d))
          year month = Some d
        /\ MonthlyAccountData.year d = year /\ MonthlyAccountData.month d = month.
Proof.
  intros [N W] d. unfold TimeseriesDataset.getDataForPeriod.
  assert (P : forall l, In d (Js.sort (TimeseriesDataset.usernameAfter localeCompare) l)
                        <-> In d l).
  { intros l. split; apply Permutation_in;
      [| apply Permutation_sym]; apply sort_permutation. }
  rewrite P, in_flat_map.
  unfold Spec.recordOf, TimeseriesDataset.getAccountTimeseries. split.
  - intros (ts & Hts & Hd).
    destruct (AccountTimeseries.getMonthlyData ts year month) as [d' |] eqn:G;
      [| contradiction].
    destruct Hd as [<- | []].
    apply values_In in Hts. destruct Hts as (key & Hts).
    destruct (W key ts Hts) as [K [Nts Wts]].
    unfold AccountTimeseries.getMonthlyData in G.
    destruct (Wts _ _ (get_In _ _ _ G)) as [Ek Eid].
    apply Keys.periodKey_inj in Ek. destruct Ek as [Ey Em].
    rewrite Eid.
    change ("account_" ++ InstagramAccount.accountId (AccountTimeseries.account ts))%string
      with (InstagramAccount.getKey (AccountTimeseries.account ts)).
    rewrite <- K, (In_get _ _ _ N Hts).
    unfold AccountTimeseries.getMonthlyData. auto.
  - intros (R & _ & _).
    destruct (Js.get _ _) as [ts |] eqn:G; [| discriminate].
    exists ts. split.
    + apply values_In. eexists. apply get_In. exact G.
    + rewrite R. now left.
Qed.

Lemma getDataForPeriod_records_witness :
  In Samples.annaSeptember
     (TimeseriesDataset.getDataForPeriod Examples.codeOrder Examples.twoMonths 2025 9)
  <-> Spec.recordOf Examples.twoMonths
        (InstagramAccount.accountId (MonthlyAccountData.account Samples.annaSeptember))
        2025 9 = Some Samples.annaSeptember
      /\ MonthlyAccountData.year Samples.annaSeptember = 2025
      /\ MonthlyAccountData.month Samples.annaSeptember = 9.
Proof.
  apply (getDataForPeriod_records Examples.codeOrder Examples.twoMonths 2025 9).
  apply ingest_keeps_wellFormed, new_wellFormed.
Defined.

(** X28.  On a dataset of the invariant, [getAllAccounts] returns, whatever
    the collation, each account of the dataset once: as many accounts as
    [getStats] counts, no two of them with the same identifier. *)
Theorem getAllAccounts_distinct localeCompare ds :
  wellFormed ds ->
  NoDup (List.map InstagramAccount.accountId
           (TimeseriesDataset.getAllAccounts localeCompare ds))
  /\ List.length (TimeseriesDataset.getAllAccounts localeCompare ds)
     = TimeseriesDataset.totalAccounts (TimeseriesDataset.getStats ds)
  /\ forall account,
       In account (TimeseriesDataset.getAllAccounts localeCompare ds)
       <-> exists ts,
             TimeseriesDataset.getAccountTimeseries ds (InstagramAccount.accountId account)
               = Some ts
             /\ AccountTimeseries.account ts = account.
Proof.
  intros [N W]. unfold TimeseriesDataset.getAllAccounts.
  assert (D : NoDup (List.map InstagramAccount.accountId
                       (List.map AccountTimeseries.account
                          (Js.values (TimeseriesDataset.accountTimeseries ds))))).
  { clear localeCompare. unfold distinctKeys, Js.values in *.
    induction (TimeseriesDataset.accountTimeseries ds) as [| [key ts] rest IH];
      cbn; [constructor |].
    cbn in N. inversion N as [| ? ? Hk Nr]; subst. constructor.
    - intros C. apply Hk. apply in_map_iff in C. destruct C as (a & Ea & Ha).
      apply in_map_iff in Ha. destruct Ha as (t & <- & Ht).
      apply in_map_iff in Ht. destruct Ht as ([k' t'] & Et & Hin). cbn in Et. subst t'.
      destruct (W key ts (or_introl eq_refl)) as [-> _].
      destruct (W k' t (or_intror Hin)) as [Ek _].
      apply in_map_iff. exists (k', t). split; [| exact Hin]. cbn. rewrite Ek.
      unfold InstagramAccount.getKey. now rewrite Ea.
    - apply IH; [exact Nr |]. intros k t H. apply W. now right. }
  set (accounts := List.map AccountTimeseries.account
                     (Js.values (TimeseriesDataset.accountTimeseries ds))) in *.
  pose proof (sort_permutation (TimeseriesDataset.accountAfter localeCompare) accounts) as P.
  split; [| split].
  - eapply Permutation_NoDup; [| exact D]. apply Permutation_map, Permutation_sym, P.
  - rewrite (Permutation_length P). subst accounts. unfold Js.values.
    now rewrite !length_map.
  - intros account. unfold TimeseriesDataset.getAccountTimeseries. split.
    + intros H. apply (Permutation_in _ P) in H. subst accounts.
      apply in_map_iff in H. destruct H as (ts & <- & Hts).
      apply values_In in Hts. destruct Hts as (key & Hts).
      destruct (W key ts Hts) as [K _]. exists ts. split; [| reflexivity].
      change ("account_" ++ InstagramAccount.accountId (AccountTimeseries.account ts))%string
        with (InstagramAccount.getKey (AccountTimeseries.account ts)).
      rewrite <- K. now apply In_get.
    + intros (ts & G & <-). apply (Permutation_in _ (Permutation_sym P)).
      subst accounts. apply in_map. apply values_In. eexists. apply get_In. exact G.
Qed.

Lemma getAllAccounts_distinct_witness :
  NoDup (List.map InstagramAccount.accountId
           (TimeseriesDataset.getAllAccounts Examples.codeOrder Examples.twoMonths))
  /\ List.length (TimeseriesDataset.getAllAccounts Examples.codeOrder Examples.twoMonths)
     = TimeseriesDataset.totalAccounts (TimeseriesDataset.getStats Examples.twoMonths)
  /\ forall account,
       In account (TimeseriesDataset.getAllAccounts Examples.codeOrder Examples.twoMonths)
       <-> exists ts,
             TimeseriesDataset.getAccountTimeseries Examples.twoMonths
               (InstagramAccount.accountId account) = Some ts
             /\ AccountTimeseries.account ts = account.
Proof.
  apply (getAllAccounts_distinct Examples.codeOrder Examples.twoMonths).
  apply ingest_keeps_wellFormed, new_wellFormed.
Defined.

End Dataset.

(** ** timeseries_models.js: the periods of a dataset *)

Module AllPeriods.
Import PeriodExtractor Store Dataset TimeseriesDataset.
Local Open Scope Z_scope.

(** *** Reading a number back from its decimal form *)

Lemma readDigits_uint d : forall e count,
  Csv.readDigits (NilEmpty.string_of_uint d)
    (Z.of_N (DecimalPos.Unsigned.of_lu e)) count
  = (Z.of_N (DecimalPos.Unsigned.of_lu (Decimal.revapp d e)),
     (count + Decimal.nb_digits d)%nat, EmptyString).
Proof.
  induction d; intros e count; cbn [NilEmpty.string_of_uint Decimal.revapp Decimal.nb_digits];
    try (cbn [Csv.readDigits];
         match goal with
         | |- context [Csv.isDigit ?c] => change (Csv.isDigit c) with true
         end; cbv iota;
         match goal with
         | |- context [Csv.digitValue ?c] =>
             let v := eval vm_compute in (Csv.digitValue c) in
             change (Csv.digitValue c) with v
         end;
         match goal with
         | |- Csv.readDigits _ ?acc _ = (Z.of_N (DecimalPos.Unsigned.of_lu (Decimal.revapp _ ?e')), _, _) =>
             replace acc with (Z.of_N (DecimalPos.Unsigned.of_lu e'))
               by (cbn [DecimalPos.Unsigned.of_lu]; lia)
         end;
         rewrite IHd; f_equal; f_equal; lia).
  cbn. f_equal. f_equal. lia.
Qed.


Lemma readDigits_string_of_uint d :
  Csv.readDigits (NilEmpty.string_of_uint d) 0 0
  = (Z.of_uint d, Decimal.nb_digits d, EmptyString).
Proof.
  pose proof (readDigits_uint d Decimal.Nil 0) as H.
  change (Z.of_N (DecimalPos.Unsigned.of_lu Decimal.Nil)) with 0 in H.
  rewrite H. unfold Z.of_uint. rewrite DecimalPos.Unsigned.of_uint_alt.
  reflexivity.
Qed.

(** The decimal form of a number has no prefix [0x] and starts with neither
    white space nor a sign. *)
Lemma string_of_uint_head d :
  d <> Decimal.Nil ->
  exists c rest,
    NilEmpty.string_of_uint d = String c rest
    /\ Csv.isDigit c = true
    /\ match rest with
       | String x _ => Ascii.eqb x "x" || Ascii.eqb x "X" = false
       | EmptyString => True
       end.
Proof.
  intros Hd. destruct d as [| d | d | d | d | d | d | d | d | d | d];
    [contradiction | ..]; cbn [NilEmpty.string_of_uint];
    do 2 eexists; (split; [reflexivity |]); (split; [reflexivity |]);
    destruct d; cbn [NilEmpty.string_of_uint]; auto.
Qed.

Lemma parseInt_digits d :
  d <> Decimal.Nil ->
  parseInt (NilEmpty.string_of_uint d) = Some (Z.of_uint d)
  /\ parseInt (String "-" (NilEmpty.string_of_uint d)) = Some (- Z.of_uint d).
Proof.
  intros Hd. destruct (string_of_uint_head d Hd) as (c & rest & E & D & X).
  destruct (FileNames.digit_facts c D) as (W & M & P & _).
  assert (N : Decimal.nb_digits d <> O) by (destruct d; cbn; congruence).
  pose proof (readDigits_string_of_uint d) as R.
  assert (B : forall negative : bool,
            (let decimal :=
               let '(value, count, _) := Csv.readDigits (NilEmpty.string_of_uint d) 0 0 in
               (value, count) in
             let (value, count) :=
               match NilEmpty.string_of_uint d with
               | String "0" (String x rest) =>
                   if Ascii.eqb x "x" || Ascii.eqb x "X" then readHexDigits rest 0 0
                   else decimal
               | _ => decimal
               end in
             match count with
             | O => None
             | S _ => Some (if negative then - value else value)
             end) = Some (if negative then - Z.of_uint d else Z.of_uint d)).
  { intros negative. cbv zeta. rewrite R.
    assert (Sel : match NilEmpty.string_of_uint d with
                  | String "0" (String x rest) =>
                      if Ascii.eqb x "x" || Ascii.eqb x "X" then readHexDigits rest 0 0
                      else (Z.of_uint d, Decimal.nb_digits d)
                  | _ => (Z.of_uint d, Decimal.nb_digits d)
                  end = (Z.of_uint d, Decimal.nb_digits d)).
    { rewrite E. destruct rest as [| x rest']; [now destruct c as [[] [] [] [] [] [] [] []] |].
      rewrite X. now destruct c as [[] [] [] [] [] [] [] []]. }
    rewrite Sel. destruct (Decimal.nb_digits d); [contradiction | reflexivity]. }
  split.
  - assert (T : Csv.trimStart (NilEmpty.string_of_uint d) = NilEmpty.string_of_uint d)
      by (rewrite E; cbn [Csv.trimStart]; now rewrite W).
    assert (S : Csv.readSign (NilEmpty.string_of_uint d)
                = (false, NilEmpty.string_of_uint d))
      by (rewrite E; unfold Csv.readSign; now rewrite M, P).
    unfold parseInt. rewrite T, S. exact (B false).
  - assert (T : forall s, Csv.readSign (Csv.trimStart (String "-" s)) = (true, s))
      by reflexivity.
    unfold parseInt. rewrite T. exact (B true).
Qed.

Lemma parseInt_Z_to_string z : parseInt (Js.Z_to_string z) = Some z.
Proof.
  unfold Js.Z_to_string.
  assert (V : forall p, Z.of_uint (Pos.to_uint p) = Z.pos p).
  { intros p. unfold Z.of_uint. now rewrite DecimalPos.Unsigned.of_to. }
  destruct z as [| p | p].
  - reflexivity.
  - change (Z.to_int (Z.pos p)) with (Decimal.Pos (Pos.to_uint p)).
    cbn [NilEmpty.string_of_int]. rewrite <- (V p).
    apply parseInt_digits, DecimalPos.Unsigned.to_uint_nonnil.
  - change (Z.to_int (Z.neg p)) with (Decimal.Neg (Pos.to_uint p)).
    cbn [NilEmpty.string_of_int]. change (Z.neg p) with (- Z.pos p). rewrite <- (V p).
    apply parseInt_digits, DecimalPos.Unsigned.to_uint_nonnil.
Qed.


(** *** Keys read back *)

Lemma splitUnderscore_plain s : Spec.plain s = true -> splitUnderscore s = [s].
Proof.
  induction s as [| c s IH]; cbn; [reflexivity |].
  intros H. apply andb_prop in H. destruct H as [Hc Hs].
  apply negb_true_iff in Hc. rewrite Hc, (IH Hs). reflexivity.
Qed.

Lemma splitUnderscore_key s1 s2 :
  Spec.plain s1 = true -> Spec.plain s2 = true ->
  splitUnderscore (s1 ++ "_" ++ s2) = [s1; s2].
Proof.
  intros H1 H2. induction s1 as [| c s IH]; cbn.
  - now rewrite (splitUnderscore_plain s2 H2).
  - cbn in H1. apply andb_prop in H1. destruct H1 as [Hc Hs].
    apply negb_true_iff in Hc. rewrite Hc.
    change (splitUnderscore (s ++ String "_" s2)) with (splitUnderscore (s ++ "_" ++ s2)).
    now rewrite (IH Hs).
Qed.

Lemma parseKey_periodKey p : parseKey (Js.periodKey (year p) (month p)) = parsed p.
Proof.
  unfold parseKey, Js.periodKey.
  rewrite splitUnderscore_key by apply Keys.Z_to_string_plain.
  cbn [nth_error]. now rewrite !parseInt_Z_to_string.
Qed.

Lemma parsedAfter_parsed p q : parsedAfter (parsed p) (parsed q) = periodAfter p q.
Proof. reflexivity. Qed.

Lemma sort_map {A B} (f : A -> B) (after : A -> A -> bool) (after' : B -> B -> bool) :
  (forall a b, after' (f a) (f b) = after a b) ->
  forall l, Js.sort after' (List.map f l) = List.map f (Js.sort after l).
Proof.
  intros H. induction l as [| x xs IH]; cbn; [reflexivity |].
  rewrite IH. clear IH. induction (Js.sort after xs) as [| y ys IH]; cbn; [reflexivity |].
  rewrite H. destruct (after x y); cbn; [now rewrite IH | reflexivity].
Qed.

(** *** The set of keys *)

Lemma setAdd_addPeriod seen p :
  setAdd (List.map (fun q => Js.periodKey (year q) (month q)) seen)
         (Js.periodKey (year p) (month p))
  = List.map (fun q => Js.periodKey (year q) (month q)) (addPeriod seen p).
Proof.
  unfold setAdd, addPeriod.
  pose proof (Sequences.setHas_absent seen p) as H. unfold Names.absent in H.
  apply (f_equal negb) in H. rewrite !negb_involutive in H. rewrite H.
  destruct (existsb _ seen); [reflexivity |]. now rewrite map_app.
Qed.

Lemma fold_setAdd periods : forall seen,
  fold_left (fun periodsSet period =>
               setAdd periodsSet (Js.periodKey (year period) (month period)))
            periods (List.map (fun q => Js.periodKey (year q) (month q)) seen)
  = List.map (fun q => Js.periodKey (year q) (month q)) (fold_left addPeriod periods seen).
Proof.
  induction periods as [| p ps IH]; intros seen; cbn [fold_left]; [reflexivity |].
  now rewrite setAdd_addPeriod, IH.
Qed.

Lemma periodKeys_collected ds :
  periodKeys ds = List.map (fun q => Js.periodKey (year q) (month q)) (collected ds).
Proof.
  unfold periodKeys, collected.
  change (@nil string) with (List.map (fun q => Js.periodKey (year q) (month q)) []).
  generalize (@nil Period).
  induction (Js.values (accountTimeseries ds)) as [| ts rest IH]; intros seen;
    cbn [fold_left]; [reflexivity |].
  now rewrite fold_setAdd, IH.
Qed.

Lemma addPeriod_spec seen p :
  NoDup seen ->
  NoDup (addPeriod seen p) /\ forall q, In q (addPeriod seen p) <-> In q seen \/ q = p.
Proof.
  intros N. unfold addPeriod. destruct (existsb (Months.samePeriod p) seen) eqn:E.
  - split; [exact N |]. intros q. split; [auto |]. intros [H | ->]; [exact H |].
    apply existsb_exists in E. destruct E as (r & Hr & E).
    apply MissingPeriods.samePeriod_eq in E. now subst.
  - split.
    + apply NoDup_app; [exact N | repeat constructor; cbn; tauto |].
      intros q Hq [Eq | []]. subst q.
      assert (C : existsb (Months.samePeriod p) seen = true).
      { apply existsb_exists. exists p. split; [exact Hq |].
        now apply MissingPeriods.samePeriod_eq. }
      congruence.
    + intros q. rewrite in_app_iff. cbn. intuition.
Qed.

Lemma fold_addPeriod periods : forall seen,
  NoDup seen ->
  NoDup (fold_left addPeriod periods seen)
  /\ forall q, In q (fold_left addPeriod periods seen) <-> In q seen \/ In q periods.
Proof.
  induction periods as [| p ps IH]; intros seen N; cbn [fold_left].
  - split; [exact N |]. intros q. cbn. tauto.
  - destruct (addPeriod_spec seen p N) as [N' M'].
    destruct (IH _ N') as [N'' M'']. split; [exact N'' |].
    intros q. rewrite M'', M'. cbn. intuition.
Qed.

Lemma collected_spec ds :
  NoDup (collected ds)
  /\ forall q, In q (collected ds)
       <-> exists ts d,
             In ts (Js.values (accountTimeseries ds))
             /\ In d (Js.values (AccountTimeseries.monthlyData ts))
             /\ MonthlyAccountData.getPeriod d = q.
Proof.
  unfold collected.
  assert (G : forall l seen,
            NoDup seen ->
            NoDup (fold_left
                     (fun seen timeseries =>
                        fold_left addPeriod
                          (AccountTimeseries.getAvailablePeriods timeseries) seen) l seen)
            /\ forall q,
                 In q (fold_left
                         (fun seen timeseries =>
                            fold_left addPeriod
                              (AccountTimeseries.getAvailablePeriods timeseries) seen)
                         l seen)
                 <-> In q seen
                     \/ exists ts d,
                          In ts l /\ In d (Js.values (AccountTimeseries.monthlyData ts))
                          /\ MonthlyAccountData.getPeriod d = q).
  { induction l as [| ts rest IH]; intros seen N; cbn [fold_left].
    - split; [exact N |]. intros q. split; [auto |].
      intros [H | (ts & d & [] & _)]. exact H.
    - destruct (fold_addPeriod (AccountTimeseries.getAvailablePeriods ts) seen N)
        as [N' M'].
      destruct (IH _ N') as [N'' M'']. split; [exact N'' |].
      intros q. rewrite M'', M'.
      assert (A : In q (AccountTimeseries.getAvailablePeriods ts)
                  <-> exists d, In d (Js.values (AccountTimeseries.monthlyData ts))
                                /\ MonthlyAccountData.getPeriod d = q).
      { unfold AccountTimeseries.getAvailablePeriods. split.
        - intros H. apply (Permutation_in _ (sort_permutation _ _)) in H.
          apply in_map_iff in H. destruct H as (d & E & H). eauto.
        - intros (d & H & E).
          apply (Permutation_in _ (Permutation_sym (sort_permutation _ _))).
          apply in_map_iff. eauto. }
      rewrite A. split.
      + intros [[H | (d & H & E)] | (t & d & Ht & H & E)]; [now left | right .. ].
        * exists ts, d. cbn. auto.
        * exists t, d. cbn. auto.
      + intros [H | (t & d & [<- | Ht] & H & E)]; [now left; left | left; right | right];
          eauto. }
  destruct (G (Js.values (accountTimeseries ds)) [] (NoDup_nil _)) as [N M].
  split; [exact N |]. intros q. rewrite M. cbn. split; [intros [[] | H] | intros H]; auto.
Qed.

Lemma hasPeriod_iff ds p :
  wellFormed ds ->
  hasPeriod ds p
  <-> exists ts d,
        In ts (Js.values (accountTimeseries ds))
        /\ In d (Js.values (AccountTimeseries.monthlyData ts))
        /\ MonthlyAccountData.getPeriod d = p.
Proof.
  intros [N W]. unfold hasPeriod, Spec.recordOf, getAccountTimeseries,
    AccountTimeseries.getMonthlyData. split.
  - intros (accountId & d & H).
    destruct (Js.get (accountTimeseries ds) _) as [ts |] eqn:G; [| discriminate].
    apply get_In in G, H. exists ts, d. split; [apply values_In; eauto |].
    split; [apply values_In; eauto |].
    destruct (W _ _ G) as [_ [_ Wts]]. destruct (Wts _ _ H) as [E _].
    apply Keys.periodKey_inj in E. destruct E as [Ey Em].
    unfold MonthlyAccountData.getPeriod. rewrite <- Ey, <- Em. now destruct p.
  - intros (ts & d & Hts & Hd & E). apply values_In in Hts, Hd.
    destruct Hts as (key & Hts). destruct Hd as (k & Hd).
    destruct (W _ _ Hts) as [K [Nts Wts]]. destruct (Wts _ _ Hd) as [Ek _].
    exists (InstagramAccount.accountId (AccountTimeseries.account ts)), d.
    change ("account_" ++ InstagramAccount.accountId (AccountTimeseries.account ts))%string
      with (InstagramAccount.getKey (AccountTimeseries.account ts)).
    rewrite <- K, (In_get _ _ _ N Hts). subst p. cbn [MonthlyAccountData.getPeriod year month].
    rewrite <- Ek. now apply In_get.
Qed.

(** X12.  On a dataset of the invariant, [getAllPeriods] reads every key
    back as the period it was made of: the result lists, in strictly
    ascending chronological order, exactly the periods for which some account
    holds a record, and [getStats] counts them. *)
Theorem getAllPeriods_periods ds :
  wellFormed ds ->
  exists periods,
    getAllPeriods ds = List.map parsed periods
    /\ StronglySorted earlier periods
    /\ (forall p, In p periods <-> hasPeriod ds p)
    /\ totalPeriods (getStats ds) = List.length periods.
Proof.
  intros W. exists (Js.sort periodAfter (collected ds)).
  assert (E : getAllPeriods ds = List.map parsed (Js.sort periodAfter (collected ds))).
  { unfold getAllPeriods. rewrite periodKeys_collected, map_map.
    rewrite (map_ext _ parsed) by (intros p; apply parseKey_periodKey).
    apply sort_map. apply parsedAfter_parsed. }
  destruct (collected_spec ds) as [N M].
  split; [exact E |]. split; [| split].
  - apply (strictly_sorted (fun p => p)).
    + exact (sort_chronological (fun p => p) (collected ds)).
    + rewrite map_id. eapply Permutation_NoDup; [| exact N].
      apply Permutation_sym, sort_permutation.
  - intros p. rewrite (hasPeriod_iff ds p W), <- M. split; apply Permutation_in;
      [| apply Permutation_sym]; apply sort_permutation.
  - unfold getStats. cbn [totalPeriods]. now rewrite E, length_map.
Qed.

Lemma getAllPeriods_periods_witness :
  exists periods,
    getAllPeriods Examples.threeMonths = List.map parsed periods
    /\ StronglySorted earlier periods
    /\ (forall p, In p periods <-> hasPeriod Examples.threeMonths p)
    /\ totalPeriods (getStats Examples.threeMonths) = List.length periods.
Proof.
  apply (getAllPeriods_periods Examples.threeMonths).
  apply ingest_keeps_wellFormed, new_wellFormed.
Defined.

End AllPeriods.

(** ** reach_calculator.js: the statistics of reach *)

Module ReachStatistics.
Import ReachCalculator.
Local Open Scope string_scope.

Lemma validValues_cons_reach d rest :
  validValues (d :: rest) "reach"
  = ((if negb (isNaN (MonthlyAccountData.reach (MonthlyAccountData.metrics d)))
         && geb (MonthlyAccountData.reach (MonthlyAccountData.metrics d)) zero
      then [MonthlyAccountData.reach (MonthlyAccountData.metrics d)] else [])
     ++ validValues rest "reach")%list.
Proof.
  unfold validValues. cbn [flat_map]. f_equal.
Qed.

(** The loop of [calculateAverageReach] computes the sum, the number, the
    least and the greatest of the valid values. *)
Lemma reachLoop monthlyData : forall state,
  fold_left reachStep monthlyData state
  = {| totalReach := fold_left add (validValues monthlyData "reach") (totalReach state);
       validCount := (validCount state + List.length (validValues monthlyData "reach"))%nat;
       loopMin := fold_left min2 (validValues monthlyData "reach") (loopMin state);
       loopMax := fold_left max2 (validValues monthlyData "reach") (loopMax state) |}.
Proof.
  induction monthlyData as [| d rest IH]; intros [t c mn mx].
  - cbn. now rewrite Nat.add_0_r.
  - cbn [fold_left]. rewrite IH, validValues_cons_reach. unfold reachStep.
    destruct (negb _ && _); cbn; [| reflexivity].
    f_equal. lia.
Qed.

Lemma valid_values monthlyData metric v :
  In v (validValues monthlyData metric) -> isValidValue (Some v) = true.
Proof.
  unfold validValues. rewrite in_flat_map. intros (d & _ & H).
  destruct (isValidValue _) eqn:E; [| contradiction].
  destruct (MonthlyAccountData.metric _ metric); [| contradiction].
  now destruct H as [<- | []].
Qed.

Lemma max2_valid a b :
  isValidValue (Some a) = true -> isValidValue (Some b) = true ->
  isValidValue (Some (max2 a b)) = true.
Proof.
  intros Ha Hb. unfold max2.
  assert (isNaN a = false /\ isNaN b = false) as [-> ->].
  { unfold isValidValue in *. split; [destruct (isNaN a) | destruct (isNaN b)];
      auto; discriminate. }
  cbn [orb]. now destruct (ltb a b).
Qed.

Lemma fold_max2_valid values : forall a,
  isValidValue (Some a) = true ->
  (forall v, In v values -> isValidValue (Some v) = true) ->
  isValidValue (Some (fold_left max2 values a)) = true.
Proof.
  induction values as [| v rest IH]; intros a Ha H; [exact Ha |].
  cbn [fold_left]. apply IH.
  - apply max2_valid; [exact Ha | apply H; now left].
  - intros w Hw. apply H. now right.
Qed.

Lemma Math_max_valid values :
  values <> [] ->
  (forall v, In v values -> isValidValue (Some v) = true) ->
  isValidValue (Some (Math_max values)) = true.
Proof.
  destruct values as [| v rest]; [contradiction |]. intros _ H.
  unfold Math_max. cbn [fold_left].
  assert (Hv : isValidValue (Some v) = true) by (apply H; now left).
  assert (E : max2 NInf v = v).
  { unfold isValidValue in Hv. destruct v; try discriminate Hv; reflexivity. }
  rewrite E. apply fold_max2_valid; [exact Hv |]. intros w Hw. apply H. now right.
Qed.

Lemma outcome_safe_reach ts operation :
  operation = "average" \/ operation = "min" \/ operation = "max" ->
  outcome (safeMetricAggregation ts "reach" operation)
  = Ok (match validValues (AccountTimeseries.getAllMonthlyData ts) "reach" with
        | [] => zero
        | v :: rest =>
            if String.eqb operation "average"
            then Math_round (div (JsNum.sum (v :: rest)) (lengthOf (v :: rest)))
            else if String.eqb operation "min" then Math_min (v :: rest)
            else Math_max (v :: rest)
        end).
Proof.
  intros [-> | [-> | ->]]; unfold safeMetricAggregation; cbn;
    destruct (AccountTimeseries.getAllMonthlyData ts) as [| d l]; try reflexivity;
    destruct (validValues (d :: l) "reach"); reflexivity.
Qed.

(** X13.  [calculateAverageReach] and [safeMetricAggregation] agree on reach:
    the same rounded average and the same maximum; the minimum is the same
    too unless it is [Infinity], which [calculateAverageReach] reports as
    zero.  The number of valid periods is the number of valid values. *)
Theorem calculateAverageReach_agrees ts :
  let stats := calculateAverageReach ts in
  outcome (safeMetricAggregation ts "reach" "average") = Ok (averageReach stats)
  /\ outcome (safeMetricAggregation ts "reach" "max") = Ok (maxReach stats)
  /\ (exists least,
        outcome (safeMetricAggregation ts "reach" "min") = Ok least
        /\ minReach stats = if eqb least PInf then zero else least)
  /\ validPeriods stats
     = List.length (validValues (AccountTimeseries.getAllMonthlyData ts) "reach")
  /\ totalPeriods stats = List.length (AccountTimeseries.getAllMonthlyData ts).
Proof.
  cbv zeta. rewrite !outcome_safe_reach by auto. unfold calculateAverageReach.
  destruct (AccountTimeseries.getAllMonthlyData ts) as [| d l] eqn:E.
  - cbn. repeat split. exists zero. split; reflexivity.
  - rewrite reachLoop. cbn [validCount totalReach loopMin loopMax Nat.add].
    pose proof (valid_values (d :: l) "reach") as V.
    destruct (validValues (d :: l) "reach") as [| v rest] eqn:Ev.
    + cbn. repeat split. exists zero. split; reflexivity.
    + cbn [List.length averageReach maxReach minReach validPeriods totalPeriods].
      cbn [String.eqb Ascii.eqb Bool.eqb].
      assert (M : eqb (Math_max (v :: rest)) NInf = false).
      { pose proof (Math_max_valid (v :: rest) ltac:(discriminate) V) as H.
        unfold isValidValue in H. now destruct (Math_max (v :: rest)). }
      change (fold_left max2 (v :: rest) NInf) with (Math_max (v :: rest)).
      change (fold_left min2 (v :: rest) PInf) with (Math_min (v :: rest)).
      change (fold_left add (v :: rest) zero) with (JsNum.sum (v :: rest)).
      rewrite M. repeat split. eexists. split; reflexivity.
Qed.


(** X14.  The check of [safeMetricAggregation] compares the operation as it
    is written, the dispatch compares it in lower case: an operation that
    reads [sum] or [total] only after lowering is not refused for reach, and
    the monthly values of reach are added up. *)
Theorem safeMetricAggregation_sums_reach ts operation :
  toLowerCase operation = "sum" \/ toLowerCase operation = "total" ->
  operation <> "sum" -> operation <> "total" ->
  outcome (safeMetricAggregation ts "reach" operation)
  = Ok (match validValues (AccountTimeseries.getAllMonthlyData ts) "reach" with
        | [] => zero
        | v :: rest => JsNum.sum (v :: rest)
        end).
Proof.
  intros L Hs Ht.
  assert (H0 : String.eqb operation "" = false).
  { apply String.eqb_neq. intros ->. destruct L as [L | L]; discriminate L. }
  apply String.eqb_neq in Hs, Ht.
  unfold safeMetricAggregation, validateMetricOperation.
  rewrite H0, Hs, Ht. cbn [String.eqb orb andb].
  change (includes SUMMABLE_METRICS "reach") with false. rewrite andb_false_r.
  cbn -[validValues JsNum.sum AccountTimeseries.getAllMonthlyData toLowerCase String.eqb].
  destruct (AccountTimeseries.getAllMonthlyData ts) as [| d l]; [reflexivity |].
  destruct (validValues (d :: l) "reach"); [reflexivity |].
  cbv zeta. destruct L as [-> | ->]; reflexivity.
Qed.

Lemma safeMetricAggregation_sums_reach_witness :
  outcome (safeMetricAggregation Examples.anna "reach" "Total")
  = Ok (match validValues (AccountTimeseries.getAllMonthlyData Examples.anna) "reach" with
        | [] => zero
        | v :: rest => JsNum.sum (v :: rest)
        end).
Proof.
  apply (safeMetricAggregation_sums_reach Examples.anna "Total");
    [right; reflexivity | discriminate | discriminate].
Defined.

End ReachStatistics.

(** ** timeseries_analytics.js *)

Module Analytics.
Import ReachCalculator TimeseriesAnalytics Trends.
Local Open Scope string_scope.

Lemma trendLoop_counts trendData : forall state,
  let final := fold_left trendStep trendData state in
  (loopPositive final + loopNegative final + loopStable final
   = loopPositive state + loopNegative state + loopStable state
     + List.length (filter definedChange trendData))%nat
  /\ (validPercentageCount final
      = validPercentageCount state + List.length (filter definedChange trendData))%nat.
Proof.
  induction trendData as [| trend rest IH]; intros state; cbn [fold_left filter List.length].
  - cbv zeta. lia.
  - specialize (IH (trendStep state trend)). cbv zeta in *.
    destruct IH as [IH1 IH2]. rewrite IH1, IH2. clear IH1 IH2.
    unfold trendStep, definedChange.
    destruct (percentageChange trend) as [change |]; [| cbn; lia].
    destruct (isNaN change); [cbn; lia |].
    set (up := gtb change (ofZ 1)). set (down := ltb change (ofZ (-1))).
    destruct up, down; cbn; lia.
Qed.

(** X15.  [calculateAverageTrend] puts every month whose percentage change is
    a number into exactly one of the positive, the negative and the stable
    months, and no other month into any of them. *)
Theorem calculateAverageTrend_counts trendData :
  let trend := calculateAverageTrend trendData in
  (positiveMonths trend + negativeMonths trend + stableMonths trend
   = List.length (filter definedChange trendData))%nat
  /\ (positiveMonths trend + negativeMonths trend + stableMonths trend
      <= trendTotalPeriods trend)%nat
  /\ trendTotalPeriods trend = List.length trendData.
Proof.
  cbv zeta. unfold calculateAverageTrend. destruct trendData as [| t rest].
  - cbn. lia.
  - cbn [positiveMonths negativeMonths stableMonths trendTotalPeriods].
    destruct (trendLoop_counts (t :: rest) (mkTrendLoop zero zero 0 0 0 0)) as [C _].
    cbv zeta in C. rewrite C. cbn [loopPositive loopNegative loopStable Nat.add].
    split; [reflexivity |]. split; [apply filter_length_le | reflexivity].
Qed.


(** *** The order of numbers *)

Lemma gtb_irreflexive x : gtb x x = false.
Proof.
  destruct x; try reflexivity. unfold gtb, ltb. apply Qltb_ge. apply Qle_refl.
Qed.

Lemma gtb_asymmetric x y : gtb x y = true -> gtb y x = false.
Proof.
  unfold gtb. destruct x, y; cbn; try reflexivity; try discriminate.
  rewrite Qltb_lt, Qltb_ge. apply Qlt_le_weak.
Qed.

Lemma not_gtb_transitive x y z :
  isNaN y = false -> gtb x y = false -> gtb y z = false -> gtb x z = false.
Proof.
  unfold gtb. destruct x, y, z; cbn; try reflexivity; try discriminate.
  rewrite !Qltb_ge. intros _ H1 H2. eapply Qle_trans; eassumption.
Qed.

Lemma extremesStep_spec metric best worst data :
  hasNumber metric best -> hasNumber metric worst -> hasNumber metric data ->
  let (best', worst') := extremesStep metric (best, worst) data in
  (best' = best \/ best' = data) /\ (worst' = worst \/ worst' = data)
  /\ atMost metric best best' /\ atMost metric data best'
  /\ atMost metric worst' worst /\ atMost metric worst' data.
Proof.
  intros (vb & Eb & Nb) (vw & Ew & Nw) (vd & Ed & Nd).
  unfold extremesStep, atMost. rewrite Ed, Eb, Ew. cbn [greater].
  destruct (gtb vd vb) eqn:G1, (gtb vw vd) eqn:G2;
    rewrite ?Ed, ?Eb, ?Ew; cbn [greater];
    repeat split; auto using gtb_irreflexive, gtb_asymmetric.
Qed.

Lemma atMost_trans metric a b c :
  hasNumber metric b -> atMost metric a b -> atMost metric b c -> atMost metric a c.
Proof.
  intros (vb & Eb & Nb). unfold atMost. rewrite Eb.
  destruct (metricOf metric a) as [va |], (metricOf metric c) as [vc |];
    cbn [greater]; try reflexivity.
  now apply not_gtb_transitive.
Qed.

Lemma extremesLoop metric monthlyData : forall best worst,
  hasNumber metric best -> hasNumber metric worst ->
  (forall d, In d monthlyData -> hasNumber metric d) ->
  let (best', worst') := fold_left (extremesStep metric) monthlyData (best, worst) in
  (best' = best \/ In best' monthlyData) /\ (worst' = worst \/ In worst' monthlyData)
  /\ atMost metric best best' /\ atMost metric worst' worst
  /\ forall d, In d monthlyData -> atMost metric d best' /\ atMost metric worst' d.
Proof.
  induction monthlyData as [| data rest IH]; intros best worst Hb Hw H.
  - cbn. unfold atMost. destruct Hb as (vb & -> & _), Hw as (vw & -> & _). cbn [greater].
    repeat split; auto using gtb_irreflexive. all: contradiction.
  - cbn [fold_left].
    pose proof (extremesStep_spec metric best worst data Hb Hw (H data (or_introl eq_refl)))
      as S.
    destruct (extremesStep metric (best, worst) data) as [b1 w1].
    destruct S as (Sb & Sw & B1 & B2 & W1 & W2).
    assert (Hb1 : hasNumber metric b1).
    { destruct Sb as [-> | ->]; [exact Hb | apply H; now left]. }
    assert (Hw1 : hasNumber metric w1).
    { destruct Sw as [-> | ->]; [exact Hw | apply H; now left]. }
    specialize (IH b1 w1 Hb1 Hw1 (fun d Hd => H d (or_intror Hd))).
    destruct (fold_left (extremesStep metric) rest (b1, w1)) as [b' w'].
    destruct IH as (Ib & Iw & Bb & Ww & All).
    assert (Hb' : hasNumber metric b').
    { destruct Ib as [-> | Ib]; [exact Hb1 | apply H; now right]. }
    assert (Hw' : hasNumber metric w').
    { destruct Iw as [-> | Iw]; [exact Hw1 | apply H; now right]. }
    split; [| split; [| split; [| split]]].
    + destruct Ib as [-> | Ib]; [| right; now right].
      destruct Sb as [-> | ->]; [now left | right; now left].
    + destruct Iw as [-> | Iw]; [| right; now right].
      destruct Sw as [-> | ->]; [now left | right; now left].
    + exact (atMost_trans metric best b1 b' Hb1 B1 Bb).
    + exact (atMost_trans metric w' w1 worst Hw1 Ww W1).
    + intros d [<- | Hd].
      * split; [exact (atMost_trans metric _ b1 b' Hb1 B2 Bb)
               | exact (atMost_trans metric w' w1 _ Hw1 Ww W2)].
      * now apply All.
Qed.

(** X16.  When the metric is a number, and not NaN, in every record of a
    series that is not empty, [findPerformanceExtremes] returns two records
    of the series: no record has a greater value than the best, and none a
    smaller value than the worst. *)
Theorem findPerformanceExtremes_bounds ts metric :
  metric <> "" ->
  AccountTimeseries.getAllMonthlyData ts <> [] ->
  (forall d, In d (AccountTimeseries.getAllMonthlyData ts) -> hasNumber metric d) ->
  exists best worst,
    outcome (findPerformanceExtremes ts metric) = Ok (Some (best, worst))
    /\ In best (AccountTimeseries.getAllMonthlyData ts)
    /\ In worst (AccountTimeseries.getAllMonthlyData ts)
    /\ forall d, In d (AccountTimeseries.getAllMonthlyData ts) ->
         atMost metric d best /\ atMost metric worst d.
Proof.
  intros Hm Ne H. unfold findPerformanceExtremes.
  apply String.eqb_neq in Hm. rewrite Hm.
  destruct (AccountTimeseries.getAllMonthlyData ts) as [| first rest] eqn:E;
    [contradiction |].
  pose proof (extremesLoop metric (first :: rest) first first
                (H first (or_introl eq_refl)) (H first (or_introl eq_refl)) H) as L.
  destruct (fold_left (extremesStep metric) (first :: rest) (first, first)) as [b w].
  destruct L as (Ib & Iw & _ & _ & All).
  exists b, w. split; [reflexivity |].
  split; [destruct Ib as [-> | Ib]; [now left | exact Ib] |].
  split; [destruct Iw as [-> | Iw]; [now left | exact Iw] |].
  exact All.
Qed.


Lemma findPerformanceExtremes_bounds_witness :
  exists best worst,
    outcome (findPerformanceExtremes Examples.anna "reach") = Ok (Some (best, worst))
    /\ In best (AccountTimeseries.getAllMonthlyData Examples.anna)
    /\ In worst (AccountTimeseries.getAllMonthlyData Examples.anna)
    /\ forall d, In d (AccountTimeseries.getAllMonthlyData Examples.anna) ->
         atMost "reach" d best /\ atMost "reach" worst d.
Proof.
  apply (findPerformanceExtremes_bounds Examples.anna "reach").
  - discriminate.
  - vm_compute. discriminate.
  - intros d H. vm_compute in H.
    repeat (destruct H as [<- | H]; [eexists; split; reflexivity |]). destruct H.
Defined.

(** *** Totals and averages *)

Lemma validValues_all monthlyData metric :
  (forall d, In d monthlyData -> isValidValue (metricOf metric d) = true) ->
  exists values,
    validValues monthlyData metric = values
    /\ List.length values = List.length monthlyData
    /\ forall state : jsnum * nat,
         fold_left
           (fun state data =>
              match metricOf metric data with
              | Some value =>
                  if negb (isNaN value) then (add (fst state) value, S (snd state))
                  else state
              | None => state
              end) monthlyData state
         = (fold_left add values (fst state), (snd state + List.length values)%nat).
Proof.
  induction monthlyData as [| d rest IH]; intros H.
  - exists []. repeat split. intros [t c]. cbn. f_equal. lia.
  - destruct (IH (fun e He => H e (or_intror He))) as (values & E & L & F).
    pose proof (H d (or_introl eq_refl)) as Hd. unfold metricOf in *.
    destruct (MonthlyAccountData.metric (MonthlyAccountData.metrics d) metric) as [v |] eqn:Ev;
      [| discriminate Hd].
    exists (v :: values). split; [| split].
    + unfold validValues in *. cbn [flat_map]. rewrite Ev, Hd, E. reflexivity.
    + cbn. now rewrite L.
    + intros [t c]. cbn [fold_left]. rewrite Ev.
      unfold isValidValue in Hd. apply andb_prop in Hd. destruct Hd as [-> _].
      rewrite F. cbn [fst snd List.length]. f_equal. lia.
Qed.

Lemma total_loop monthlyData metric :
  (forall d, In d monthlyData -> isValidValue (metricOf metric d) = true) ->
  forall total,
    fold_left
      (fun total data =>
         match MonthlyAccountData.metric (MonthlyAccountData.metrics data) metric with
         | Some value => if negb (isNaN value) then add total value else total
         | None => total
         end) monthlyData total
    = fold_left add (validValues monthlyData metric) total.
Proof.
  induction monthlyData as [| d rest IH]; intros H total; [reflexivity |].
  pose proof (H d (or_introl eq_refl)) as Hd. unfold metricOf in Hd.
  unfold validValues. cbn [fold_left flat_map].
  destruct (MonthlyAccountData.metric (MonthlyAccountData.metrics d) metric) as [v |] eqn:Ev;
    [| discriminate Hd].
  rewrite Hd. cbn [app fold_left].
  unfold isValidValue in Hd. apply andb_prop in Hd. destruct Hd as [-> _].
  apply IH. intros e He. apply H. now right.
Qed.

(** X17.  On a series in which no value of the metric is negative, NaN or
    missing, the two modules agree: [calculateMetricTotal] returns what
    [safeMetricAggregation] returns for [sum], and [safeMetricAggregation]
    for [average] returns [calculateMetricAverage] rounded. *)
Theorem analytics_agree_with_safeMetricAggregation ts metric :
  metric = "followers" \/ metric = "views" ->
  (forall d, In d (AccountTimeseries.getAllMonthlyData ts) ->
     isValidValue (metricOf metric d) = true) ->
  outcome (calculateMetricTotal ts metric)
    = outcome (safeMetricAggregation ts metric "sum")
  /\ exists average,
       outcome (calculateMetricAverage ts metric) = Ok average
       /\ outcome (safeMetricAggregation ts metric "average") = Ok (Math_round average).
Proof.
  intros Hm H.
  destruct (validValues_all _ metric H) as (values & E & L & F).
  pose proof (total_loop _ metric H zero) as T.
  assert (S : forall operation,
            operation = "sum" \/ operation = "average" ->
            outcome (safeMetricAggregation ts metric operation)
            = Ok (match AccountTimeseries.getAllMonthlyData ts with
                  | [] => zero
                  | _ :: _ =>
                      match values with
                      | [] => zero
                      | _ :: _ =>
                          if String.eqb operation "sum" then JsNum.sum values
                          else Math_round (div (JsNum.sum values) (lengthOf values))
                      end
                  end)).
  { intros operation Ho. rewrite <- E.
    destruct Hm as [-> | ->], Ho as [-> | ->]; unfold safeMetricAggregation; cbn;
      destruct (AccountTimeseries.getAllMonthlyData ts) as [| d l]; try reflexivity;
      destruct (validValues (d :: l) _); reflexivity. }
  split.
  - rewrite (S "sum") by auto. unfold calculateMetricTotal.
    assert (I : includes summerableMetrics metric = true)
      by (destruct Hm as [-> | ->]; reflexivity).
    assert (N : String.eqb metric "" = false) by (destruct Hm as [-> | ->]; reflexivity).
    rewrite N, I. cbn [negb].
    destruct (AccountTimeseries.getAllMonthlyData ts) as [| d l]; [reflexivity |].
    cbn [outcome ret snd]. rewrite T, E.
    destruct values; [discriminate L | reflexivity].
  - rewrite (S "average") by auto. unfold calculateMetricAverage.
    assert (N : String.eqb metric "" = false) by (destruct Hm as [-> | ->]; reflexivity).
    rewrite N.
    destruct (AccountTimeseries.getAllMonthlyData ts) as [| d l].
    + exists zero. split; reflexivity.
    + rewrite (F (zero, O)). cbn [fst snd Nat.add].
      destruct values as [| v rest]; [discriminate L |].
      cbn [List.length]. eexists. split; [reflexivity |]. reflexivity.
Qed.

Lemma analytics_agree_with_safeMetricAggregation_witness :
  outcome (calculateMetricTotal Examples.anna "views")
    = outcome (safeMetricAggregation Examples.anna "views" "sum")
  /\ exists average,
       outcome (calculateMetricAverage Examples.anna "views") = Ok average
       /\ outcome (safeMetricAggregation Examples.anna "views" "average")
          = Ok (Math_round average).
Proof.
  apply (analytics_agree_with_safeMetricAggregation Examples.anna "views").
  - right. reflexivity.
  - intros d H. vm_compute in H.
    repeat (destruct H as [<- | H]; [reflexivity |]). destruct H.
Defined.

End Analytics.

(** ** aggregation_service.js: rankings and comparisons *)

Module Rankings.
Import ReachCalculator AggregationService Spec.
Local Open Scope string_scope.

Lemma mapIndexed_values {A B C} (f : A -> nat -> B) (g : B -> C) (h : A -> C) l :
  (forall x i, g (f x i) = h x) ->
  forall index, List.map g (mapIndexed f l index) = List.map h l.
Proof.
  intros H. induction l as [| x rest IH]; intros index; cbn; [reflexivity |].
  now rewrite H, IH.
Qed.

Lemma mapIndexed_ranks {A B} (f : A -> nat -> B) (g : B -> nat) l :
  (forall x i, g (f x i) = (i + 1)%nat) ->
  forall index, List.map g (mapIndexed f l index) = seq (index + 1) (List.length l).
Proof.
  intros H. induction l as [| x rest IH]; intros index; cbn; [reflexivity |].
  now rewrite H, IH.
Qed.

Lemma mapIndexed_length {A B} (f : A -> nat -> B) l :
  forall index, List.length (mapIndexed f l index) = List.length l.
Proof. induction l as [| x rest IH]; intros index; cbn; auto. Qed.

Lemma valid_orderly a :
  isValidValue (Some a) = true -> isNumber a -> orderly a.
Proof.
  intros V N. split; [| exact N].
  unfold isValidValue in V. apply andb_prop in V. destruct V as [V1 V2].
  destruct a as [| | | q]; try discriminate; cbn; [exact I |].
  unfold geb, leb, ltb, eqb, zero in V2. apply orb_prop in V2.
  destruct V2 as [V2 | V2].
  - apply Qltb_lt in V2. now apply Qlt_le_weak.
  - apply Qeq_bool_iff in V2. rewrite V2. apply Qle_refl.
Qed.

Lemma valueAfter_ltb a b :
  isValidValue (Some a) = true -> isValidValue (Some b) = true ->
  isNumber a -> isNumber b ->
  gtb (sub b a) zero = ltb a b.
Proof.
  intros Va Vb Na Nb. apply orderly_after; now apply valid_orderly.
Qed.

Lemma validRecords_valid periodData metric d :
  In d (validRecords periodData metric) ->
  isValidValue (Some (metricNumber d metric)) = true.
Proof.
  unfold validRecords, metricNumber. intros H. apply filter_In in H. destruct H as [_ H].
  now destruct (MonthlyAccountData.metric (MonthlyAccountData.metrics d) metric).
Qed.

Lemma ltb_asymmetric a b : ltb a b = true -> ltb b a = false.
Proof. exact (Analytics.gtb_asymmetric b a). Qed.

Lemma ranking_sorted metric (records : list MonthlyAccountData.t) :
  (forall d, In d records ->
     isValidValue (Some (metricNumber d metric)) = true
     /\ isNumber (metricNumber d metric)) ->
  StronglySorted (fun a b => ltb a b = false)
    (List.map (fun d => metricNumber d metric) (Js.sort (valueAfter metric) records)).
Proof.
  intros V.
  assert (S : StronglySorted
                (fun a b => ltb (metricNumber a metric) (metricNumber b metric) = false)
                (Js.sort (valueAfter metric) records)).
  { apply (sort_sorted _ (fun d => isValidValue (Some (metricNumber d metric)) = true
                                   /\ isNumber (metricNumber d metric))).
    - intros x y z _ [Hy _] _ H1 H2.
      apply (Analytics.not_gtb_transitive _ (metricNumber y metric)); auto.
      unfold isValidValue in Hy. now destruct (isNaN (metricNumber y metric)).
    - intros x y [Hx Nx] [Hy Ny]. unfold valueAfter. now rewrite valueAfter_ltb.
    - intros x y [Hx Nx] [Hy Ny]. unfold valueAfter. rewrite valueAfter_ltb by assumption.
      apply ltb_asymmetric.
    - now apply Forall_forall. }
  induction S as [| x rest Hs IH Hx]; cbn; constructor; [exact IH |].
  apply Forall_forall. intros v Hv. apply in_map_iff in Hv.
  destruct Hv as (d & <- & Hd). exact (proj1 (Forall_forall _ _) Hx d Hd).
Qed.

(** X18.  [getTopPerformers] ranks the valid values of the period from the
    greatest down and returns the first [topCount] of them, numbered from 1.
    The values are Numbers, which the comparator of the sort subtracts. *)
Theorem getTopPerformers_ranking localeCompare dataset year month metric topCount :
  metric <> "" -> (0 <= topCount)%Z ->
  Forall isNumber
    (validValues (TimeseriesDataset.getDataForPeriod localeCompare dataset year month)
                 metric) ->
  exists entries ranked,
    outcome (getTopPerformers localeCompare dataset year month metric topCount) = Ok entries
    /\ Permutation ranked
         (validValues (TimeseriesDataset.getDataForPeriod localeCompare dataset year month)
                      metric)
    /\ StronglySorted (fun a b => ltb a b = false) ranked
    /\ List.map topValue entries = firstn (Z.to_nat topCount) ranked
    /\ List.map rank entries = seq 1 (List.length entries).
Proof.
  intros Hm Hn Hnum. apply String.eqb_neq in Hm.
  unfold getTopPerformers. rewrite Hm.
  set (periodData := TimeseriesDataset.getDataForPeriod localeCompare dataset year month)
    in *.
  destruct periodData as [| d l] eqn:E.
  - exists [], []. repeat split; try constructor. now destruct (Z.to_nat topCount).
  - rewrite <- E in *.
    change (filter _ periodData) with (validRecords periodData metric).
    set (sorted := Js.sort (valueAfter metric) (validRecords periodData metric)).
    eexists. exists (List.map (fun d => metricNumber d metric) sorted).
    split; [reflexivity |]. split; [| split; [| split]].
    + rewrite validValues_records. apply Permutation_map, sort_permutation.
    + apply ranking_sorted. intros r Hr. split; [now apply (validRecords_valid periodData) |].
      apply (proj1 (Forall_forall _ _) Hnum). rewrite validValues_records.
      now apply (in_map (fun data => metricNumber data metric)).
    + rewrite (mapIndexed_values _ topValue (fun d => metricNumber d metric))
        by reflexivity.
      unfold slice0. apply Z.ltb_ge in Hn. rewrite Hn. now rewrite firstn_map.
    + rewrite (mapIndexed_ranks _ rank) by reflexivity.
      now rewrite mapIndexed_length.
Qed.

Lemma getTopPerformers_ranking_witness :
  exists entries ranked,
    outcome (getTopPerformers Examples.codeOrder Examples.twoMonths 2025 9 "views" 1)
      = Ok entries
    /\ Permutation ranked
         (validValues
            (TimeseriesDataset.getDataForPeriod Examples.codeOrder Examples.twoMonths 2025 9)
            "views")
    /\ StronglySorted (fun a b => ltb a b = false) ranked
    /\ List.map topValue entries = firstn (Z.to_nat 1) ranked
    /\ List.map rank entries = seq 1 (List.length entries).
Proof.
  apply (getTopPerformers_ranking Examples.codeOrder Examples.twoMonths 2025 9 "views" 1);
    [discriminate | lia |].
  assert (V : validValues
                (TimeseriesDataset.getDataForPeriod Examples.codeOrder Examples.twoMonths
                   2025 9) "views" = [ofZ 100; ofZ 200])
    by (vm_compute; reflexivity).
  rewrite V. repeat constructor; apply Binary64.isDouble_inject; vm_compute; discriminate.
Defined.

(** *** [comparePeriods] and periods without data *)

Lemma forEach_uniform {A B} (body : A -> M B) (ok : A -> bool) e xs :
  (forall x, In x xs ->
     if ok x then exists y, outcome (body x) = Ok y else outcome (body x) = Throw e) ->
  if forallb ok xs
  then exists ys, outcome (forEach body xs) = Ok ys /\ List.length ys = List.length xs
  else outcome (forEach body xs) = Throw e.
Proof.
  induction xs as [| x rest IH]; intros H; cbn [forallb forEach].
  - exists []. split; reflexivity.
  - rewrite outcome_bind. pose proof (H x (or_introl eq_refl)) as Hx.
    specialize (IH (fun y Hy => H y (or_intror Hy))).
    destruct (ok x); cbn [andb].
    + destruct Hx as (y & ->). rewrite outcome_bind.
      destruct (forallb ok rest).
      * destruct IH as (ys & -> & L). exists (y :: ys). split; [reflexivity |].
        cbn. now rewrite L.
      * now rewrite IH.
    + now rewrite Hx.
Qed.

Lemma calculatePeriodSummary_outcome localeCompare dataset p :
  exists summary,
    outcome (calculatePeriodSummary localeCompare dataset
               (PeriodExtractor.year p) (PeriodExtractor.month p)) = Ok summary
    /\ if Coverage.hasData localeCompare dataset p
       then exists periodData,
              summaryMetrics summary = List.map (summarizeMetric periodData) allMetrics
       else summaryMetrics summary = [].
Proof.
  unfold calculatePeriodSummary, Coverage.hasData.
  destruct (TimeseriesDataset.getDataForPeriod localeCompare dataset _ _) as [| d l];
    eexists; (split; [reflexivity |]); cbn [summaryMetrics]; eauto.
Qed.

Lemma comparePair_outcome previous current :
  (exists pd, summaryMetrics previous = List.map (summarizeMetric pd) allMetrics)
    \/ summaryMetrics previous = [] ->
  (exists pd, summaryMetrics current = List.map (summarizeMetric pd) allMetrics)
    \/ summaryMetrics current = [] ->
  match summaryMetrics previous, summaryMetrics current with
  | _ :: _, _ :: _ => exists comparison, outcome (comparePair (previous, current)) = Ok comparison
  | _, _ => outcome (comparePair (previous, current))
            = Throw (TypeError "Cannot read properties of undefined")
  end.
Proof.
  intros Hp Hc. unfold comparePair.
  assert (T : summaryMetrics previous = [] \/ summaryMetrics current = [] ->
              outcome (metrics <- forEach (compareMetric current previous) allMetrics ;;
                       ret {| currentPeriod := summaryPeriod current;
                              comparedPeriod := summaryPeriod previous;
                              accountCountChange :=
                                (Z.of_nat (totalAccounts current)
                                 - Z.of_nat (totalAccounts previous))%Z;
                              comparisonMetrics := metrics |})
              = Throw (TypeError "Cannot read properties of undefined")).
  { intros E. rewrite outcome_bind. cbn [allMetrics forEach]. rewrite outcome_bind.
    unfold compareMetric.
    destruct E as [E | E]; rewrite E; cbn [metricEntry];
      [now destruct (metricEntry (summaryMetrics current) "reach") | reflexivity]. }
  destruct (summaryMetrics previous) as [| mp lp] eqn:Ep'; [apply T; now left |].
  destruct (summaryMetrics current) as [| mc lc] eqn:Ec'; [apply T; now right |].
  destruct Hp as [(pp & Ep) | Ep]; [| discriminate Ep].
  destruct Hc as [(pc & Ec) | Ec]; [| discriminate Ec].
  rewrite outcome_bind.
  assert (F : exists ys, outcome (forEach (compareMetric current previous) allMetrics) = Ok ys).
  { pose proof (forEach_uniform (compareMetric current previous) (fun _ => true)
                  (TypeError "") allMetrics) as F.
    cbn [forallb andb] in F.
    assert (Each : forall metric, In metric allMetrics ->
                     exists y, outcome (compareMetric current previous metric) = Ok y).
    { intros metric Hm. unfold compareMetric.
      rewrite Ep', Ec', Ep, Ec, !metricEntry_summarized by exact Hm.
      destruct (includes NON_SUMMABLE_METRICS metric); eexists; reflexivity. }
    destruct (F Each) as (ys & E & _). eauto. }
  destruct F as (ys & ->). eexists. reflexivity.
Qed.

Lemma adjacentPairs_forallb {A} (ok : A -> bool) (l : list A) :
  (2 <= List.length l)%nat ->
  forallb (fun pair => ok (fst pair) && ok (snd pair)) (TimeseriesAnalytics.adjacentPairs l)
  = forallb ok l.
Proof.
  induction l as [| x [| y rest] IH]; cbn [List.length]; try lia. intros _.
  destruct rest as [| z rest'].
  - cbn. now rewrite !andb_true_r.
  - cbn [TimeseriesAnalytics.adjacentPairs forallb fst snd] in *.
    rewrite IH by (cbn; lia). now destruct (ok x), (ok y).
Qed.

Lemma forallb_mapped {A B} (f : B -> bool) (g : A -> B) l :
  forallb f (List.map g l) = forallb (fun x => f (g x)) l.
Proof. induction l as [| x rest IH]; cbn; [reflexivity | now rewrite IH]. Qed.

Lemma forallb_same {A} (f g : A -> bool) l :
  (forall x, f x = g x) -> forallb f l = forallb g l.
Proof. intros H. induction l as [| x rest IH]; cbn; [reflexivity | now rewrite H, IH]. Qed.

(** X19.  [comparePeriods] cannot compare a period for which the dataset
    holds no record: given two periods or more, it returns one comparison for
    each pair of neighbours when every period has data, and throws a
    [TypeError] as soon as one has none. *)
Theorem comparePeriods_needs_data localeCompare dataset periods :
  (2 <= List.length periods)%nat ->
  if forallb (Coverage.hasData localeCompare dataset) periods
  then exists comparisons,
         outcome (comparePeriods localeCompare dataset periods) = Ok comparisons
         /\ List.length comparisons = (List.length periods - 1)%nat
  else outcome (comparePeriods localeCompare dataset periods)
       = Throw (TypeError "Cannot read properties of undefined").
Proof.
  intros L. unfold comparePeriods.
  replace (List.length periods <? 2)%nat with false by (symmetry; apply Nat.ltb_ge; lia).
  rewrite outcome_bind.
  set (summaryOf := fun p =>
         match outcome (calculatePeriodSummary localeCompare dataset
                          (PeriodExtractor.year p) (PeriodExtractor.month p)) with
         | Ok summary => summary
         | Throw _ => mkPeriodSummary p O []
         end).
  assert (S : forall p,
            outcome (calculatePeriodSummary localeCompare dataset
                       (PeriodExtractor.year p) (PeriodExtractor.month p))
            = Ok (summaryOf p)
            /\ if Coverage.hasData localeCompare dataset p
               then exists pd, summaryMetrics (summaryOf p)
                               = List.map (summarizeMetric pd) allMetrics
               else summaryMetrics (summaryOf p) = []).
  { intros p. subst summaryOf. cbv beta.
    destruct (calculatePeriodSummary_outcome localeCompare dataset p) as (s & -> & H).
    now split. }
  rewrite (forEach_map _ summaryOf) by (intros p _; apply S).
  rewrite adjacentPairs_map.
  set (ok := fun pair : PeriodSummary * PeriodSummary =>
               match summaryMetrics (fst pair), summaryMetrics (snd pair) with
               | _ :: _, _ :: _ => true
               | _, _ => false
               end).
  pose proof (forEach_uniform comparePair ok
                (TypeError "Cannot read properties of undefined")
                (List.map (fun pair => (summaryOf (fst pair), summaryOf (snd pair)))
                          (TimeseriesAnalytics.adjacentPairs periods))) as F.
  assert (K : forall p, match summaryMetrics (summaryOf p) with
                        | [] => false
                        | _ :: _ => true
                        end = Coverage.hasData localeCompare dataset p).
  { intros p. destruct (S p) as [_ H].
    destruct (Coverage.hasData localeCompare dataset p).
    - destruct H as (pd & ->). reflexivity.
    - now rewrite H. }
  assert (E : forallb ok
                (List.map (fun pair => (summaryOf (fst pair), summaryOf (snd pair)))
                          (TimeseriesAnalytics.adjacentPairs periods))
              = forallb (Coverage.hasData localeCompare dataset) periods).
  { rewrite <- (adjacentPairs_forallb _ periods L), forallb_mapped.
    apply forallb_same. intros [a b]. subst ok. cbn [fst snd].
    rewrite <- !K.
    now destruct (summaryMetrics (summaryOf a)), (summaryMetrics (summaryOf b)). }
  rewrite E in F.
  assert (P : forall pair,
            In pair (List.map (fun pair => (summaryOf (fst pair), summaryOf (snd pair)))
                              (TimeseriesAnalytics.adjacentPairs periods)) ->
            if ok pair then exists y, outcome (comparePair pair) = Ok y
            else outcome (comparePair pair)
                 = Throw (TypeError "Cannot read properties of undefined")).
  { intros pair Hp. apply in_map_iff in Hp. destruct Hp as ([a b] & <- & _).
    cbn [fst snd]. subst ok. cbv beta. cbn [fst snd].
    pose proof (comparePair_outcome (summaryOf a) (summaryOf b)) as C.
    assert (Ha : (exists pd, summaryMetrics (summaryOf a)
                             = List.map (summarizeMetric pd) allMetrics)
                 \/ summaryMetrics (summaryOf a) = []).
    { destruct (S a) as [_ H]. destruct (Coverage.hasData localeCompare dataset a); auto. }
    assert (Hb : (exists pd, summaryMetrics (summaryOf b)
                             = List.map (summarizeMetric pd) allMetrics)
                 \/ summaryMetrics (summaryOf b) = []).
    { destruct (S b) as [_ H]. destruct (Coverage.hasData localeCompare dataset b); auto. }
    specialize (C Ha Hb).
    now destruct (summaryMetrics (summaryOf a)), (summaryMetrics (summaryOf b)). }
  specialize (F P).
  destruct (forallb (Coverage.hasData localeCompare dataset) periods).
  - destruct F as (ys & -> & Ly). exists ys. split; [reflexivity |].
    now rewrite Ly, length_map, adjacentPairs_length.
  - exact F.
Qed.

Lemma comparePeriods_needs_data_witness :
  outcome (comparePeriods Examples.codeOrder Examples.twoMonths
             [mkPeriod 2025 9; mkPeriod 2025 8])
  = Throw (TypeError "Cannot read properties of undefined").
Proof.
  apply (comparePeriods_needs_data Examples.codeOrder Examples.twoMonths
           [mkPeriod 2025 9; mkPeriod 2025 8]).
  cbn. lia.
Defined.

End Rankings.

(** ** metric_categorizer.js: the check of an operation *)

Module OperationCheck.
Import ReachCalculator.
Local Open Scope string_scope.

Lemma includes_iff l x : includes l x = true <-> In x l.
Proof.
  unfold includes. rewrite existsb_exists. split.
  - intros (y & Hy & E). apply String.eqb_eq in E. now subst.
  - intros H. exists x. split; [exact H | apply String.eqb_refl].
Qed.

Lemma getMetricDefinition_known metricKey d :
  MetricCategorizer.getMetricDefinition metricKey = Some d ->
  In (metricKey, d) MetricCategorizer.METRIC_DEFINITIONS.
Proof. apply Dataset.get_In. Qed.

(** X20.  The check of [metric_categorizer.js] is the stricter one.  It
    accepts an operation exactly when the metric is in the table and the
    operation among its valid aggregations; it therefore never accepts
    [total], accepts [sum] only for a metric [reach_calculator.js] lists as
    summable, and whatever it accepts passes the check of
    [reach_calculator.js] without a throw. *)
Theorem categorizer_check_is_stricter operation metricKey check :
  MetricCategorizer.validateMetricOperation operation metricKey = Ok check ->
  (MetricCategorizer.isValid check = true
   <-> exists d,
         MetricCategorizer.getMetricDefinition metricKey = Some d
         /\ In operation (MetricCategorizer.validAggregations d))
  /\ (MetricCategorizer.isValid check = true ->
      operation <> "total"
      /\ (operation = "sum" -> isMetricSummable metricKey = true)
      /\ outcome (validateMetricOperation operation metricKey) = Ok tt).
Proof.
  unfold MetricCategorizer.validateMetricOperation.
  destruct (includes MetricCategorizer.inheritedNames metricKey); [discriminate |].
  destruct (MetricCategorizer.getMetricDefinition metricKey) as [d |] eqn:G.
  2:{ intros [= <-]. cbn. split; [| discriminate].
      split; [discriminate | intros (d & C & _); discriminate]. }
  assert (R : (exists d0, Some d = Some d0
                          /\ In operation (MetricCategorizer.validAggregations d0))
              <-> includes (MetricCategorizer.validAggregations d) operation = true).
  { rewrite includes_iff. split; [intros (d0 & [= <-] & H); exact H | eauto]. }
  rewrite R. clear R.
  apply getMetricDefinition_known in G. cbn in G.
  destruct G as [G | [G | [G | []]]]; injection G as <- <-;
    cbn [MetricCategorizer.validAggregations MetricCategorizer.defCanSumAcrossTime negb];
    rewrite ?andb_false_r, ?andb_true_r;
    destruct (includes _ operation) eqn:I; cbn [negb];
    try (intros [= <-]; cbn [MetricCategorizer.isValid];
         split; [split; congruence | discriminate]).
  - (* reach *)
    assert (N : (String.eqb operation "sum" || String.eqb operation "total") = false).
    { apply includes_iff in I. cbn in I.
      destruct I as [<- | [<- | [<- | []]]]; reflexivity. }
    rewrite N. intros [= <-]. cbn [MetricCategorizer.isValid].
    split; [split; congruence |]. intros _.
    apply includes_iff in I. cbn in I.
    destruct I as [<- | [<- | [<- | []]]]; repeat split; try discriminate; reflexivity.
  - (* followers *)
    intros [= <-]. cbn [MetricCategorizer.isValid].
    split; [split; congruence |]. intros _.
    apply includes_iff in I. cbn in I.
    destruct I as [<- | [<- | [<- | [<- | []]]]]; repeat split; try discriminate; reflexivity.
  - (* views *)
    intros [= <-]. cbn [MetricCategorizer.isValid].
    split; [split; congruence |]. intros _.
    apply includes_iff in I. cbn in I.
    destruct I as [<- | [<- | [<- | [<- | []]]]]; repeat split; try discriminate; reflexivity.
Qed.

Lemma categorizer_check_is_stricter_witness :
  (MetricCategorizer.isValid (MetricCategorizer.mkOperationCheck true None) = true
   <-> exists d,
         MetricCategorizer.getMetricDefinition "views" = Some d
         /\ In "sum" (MetricCategorizer.validAggregations d))
  /\ (MetricCategorizer.isValid (MetricCategorizer.mkOperationCheck true None) = true ->
      "sum" <> "total"
      /\ ("sum" = "sum" -> isMetricSummable "views" = true)
      /\ outcome (validateMetricOperation "sum" "views") = Ok tt).
Proof.
  apply (categorizer_check_is_stricter "sum" "views"
           (MetricCategorizer.mkOperationCheck true None)).
  reflexivity.
Defined.

End OperationCheck.

(** ** csv_processor.js and period_validator.js: the checks of a file *)

Module FileChecks.
Import Csv.
Local Open Scope string_scope.

Lemma mismatches_nil actual : forall expected,
  List.length actual = List.length expected ->
  (CsvProcessor.mismatches actual expected = [] <-> actual = expected).
Proof.
  induction actual as [| a rest IH]; intros [| e expected] L; try discriminate L.
  - cbn. tauto.
  - cbn [CsvProcessor.mismatches]. injection L as L.
    destruct (String.eqb a e) eqn:E; cbn [negb].
    + apply String.eqb_eq in E. subst. rewrite (IH expected L).
      split; [now intros -> | now intros [= ->]].
    + apply String.eqb_neq in E. split; [discriminate | intros [= -> _]; contradiction].
Qed.

Lemma differs_false a e : PeriodValidator.differs a e = false <-> a = e.
Proof.
  destruct a as [a |], e as [e |]; cbn; try (split; [discriminate | discriminate]).
  - rewrite negb_false_iff, String.eqb_eq. split; [now intros -> | now intros [= ->]].
  - tauto.
Qed.

Lemma compareColumns_nil actual expected count : forall i,
  PeriodValidator.compareColumns actual expected i count = ([], [])
  <-> forall j, (i <= j < i + count)%nat -> nth_error actual j = nth_error expected j.
Proof.
  induction count as [| count IH]; intros i; cbn [PeriodValidator.compareColumns].
  - split; [intros _ j Hj; lia | reflexivity].
  - specialize (IH (S i)).
    destruct (PeriodValidator.compareColumns actual expected (S i) count) as [m x].
    destruct (PeriodValidator.differs (nth_error actual i) (nth_error expected i)) eqn:D.
    + split.
      * intros H. exfalso.
        destruct (PeriodValidator.named (nth_error expected i)
                  && negb (PeriodValidator.named (nth_error actual i)));
          [discriminate H |].
        destruct (PeriodValidator.named (nth_error actual i)
                  && negb (PeriodValidator.named (nth_error expected i)));
          discriminate H.
      * intros H. specialize (H i ltac:(lia)). apply differs_false in H. congruence.
    + apply differs_false in D. rewrite IH. split.
      * intros H j Hj. destruct (Nat.eq_dec j i) as [-> | Ne]; [exact D | apply H; lia].
      * intros H j Hj. apply H. lia.
Qed.

Lemma compareColumns_all actual expected :
  PeriodValidator.compareColumns actual expected 0
    (Nat.max (List.length actual) (List.length expected)) = ([], [])
  <-> actual = expected.
Proof.
  rewrite compareColumns_nil. split.
  - intros H. apply nth_error_ext. intros j.
    destruct (Nat.lt_ge_cases j (Nat.max (List.length actual) (List.length expected)))
      as [Lt | Ge]; [apply H; lia |].
    rewrite (proj2 (nth_error_None actual j)) by lia.
    rewrite (proj2 (nth_error_None expected j)) by lia. reflexivity.
  - now intros -> j _.
Qed.

(** X21.  The two checks of the structure of a parsed file agree: the one
    of [period_validator.js] finds it valid exactly when the one of
    [csv_processor.js] returns without a throw, and that is when the columns,
    trimmed, are the expected ones in their order and there is a row. *)
Theorem validateCSVStructure_checks_agree parseResult :
  (PeriodValidator.structureIsValid (PeriodValidator.validateCSVStructure parseResult) = true
   <-> CsvProcessor.validateCSVStructure parseResult = None)
  /\ (CsvProcessor.validateCSVStructure parseResult = None
      <-> exists columns first rest,
            CsvProcessor.fields parseResult = Some columns
            /\ List.map trim columns = List.map trim CsvProcessor.EXPECTED_COLUMNS
            /\ CsvProcessor.data parseResult = Some (first :: rest)).
Proof.
  assert (P : CsvProcessor.validateCSVStructure parseResult = None
              <-> exists columns first rest,
                    CsvProcessor.fields parseResult = Some columns
                    /\ List.map trim columns = List.map trim CsvProcessor.EXPECTED_COLUMNS
                    /\ CsvProcessor.data parseResult = Some (first :: rest)).
  { unfold CsvProcessor.validateCSVStructure.
    destruct (CsvProcessor.fields parseResult) as [columns |].
    2:{ split; [discriminate | intros (c & f & r & C & _); discriminate]. }
    destruct (List.length (List.map trim columns)
              =? List.length (List.map trim CsvProcessor.EXPECTED_COLUMNS))%nat eqn:L;
      cbn [negb].
    2:{ split; [discriminate |]. intros (c & f & r & [= <-] & E & _).
        rewrite E, Nat.eqb_refl in L. discriminate. }
    apply Nat.eqb_eq in L. pose proof (mismatches_nil _ _ L) as M.
    destruct (CsvProcessor.mismatches _ _).
    - destruct (CsvProcessor.data parseResult) as [[| first rest] |].
      + split; [discriminate | intros (c & f & r & _ & _ & D); discriminate].
      + split; [| reflexivity]. intros _. exists columns, first, rest.
        repeat split. now apply M.
      + split; [discriminate | intros (c & f & r & _ & _ & D); discriminate].
    - split; [discriminate |]. intros (c & f & r & [= <-] & E & _).
      apply M in E. discriminate. }
  split; [| exact P]. rewrite P. clear P.
  unfold PeriodValidator.validateCSVStructure.
  destruct (CsvProcessor.fields parseResult) as [columns |].
  2:{ cbn. split; [discriminate | intros (c & f & r & C & _); discriminate]. }
  pose proof (compareColumns_all (List.map trim columns)
                (List.map trim CsvProcessor.EXPECTED_COLUMNS)) as C.
  destruct (PeriodValidator.compareColumns _ _ 0 _) as [m x].
  cbn [PeriodValidator.structureIsValid].
  split.
  - intros V.
    destruct (negb (List.length columns =? PeriodValidator.REQUIRED_COLUMNS_COUNT)%nat);
      [discriminate V |].
    cbn [app] in V.
    assert (E : (m, x) = ([], [])).
    { destruct m; [destruct x; [reflexivity | discriminate V] | discriminate V]. }
    injection E as -> ->. cbn [app] in V.
    destruct (CsvProcessor.data parseResult) as [[| first rest] |];
      try discriminate V.
    exists columns, first, rest. repeat split. now apply C.
  - intros (c & first & rest & [= <-] & E & ->).
    assert (L : List.length columns = PeriodValidator.REQUIRED_COLUMNS_COUNT).
    { apply (f_equal (@List.length string)) in E. now rewrite !length_map in E. }
    rewrite L, Nat.eqb_refl. cbn [negb app].
    apply C in E. injection E as -> ->. reflexivity.
Qed.

(** X22.  The two checks of a row agree on its validity, and every value
    [validateCSVRow] reports as invalid is one [validateDataRow] warns
    about. *)
Theorem row_checks_agree r rowNumber :
  CsvProcessor.rowValid (CsvProcessor.validateCSVRow r)
    = PeriodValidator.rowIsValid (PeriodValidator.validateDataRow r rowNumber)
  /\ forall field value,
       In (CsvProcessor.InvalidValue field value)
          (CsvProcessor.rowErrors (CsvProcessor.validateCSVRow r)) ->
       In (PeriodValidator.NotNumeric rowNumber field value)
          (PeriodValidator.rowWarningList (PeriodValidator.validateDataRow r rowNumber))
       \/ exists number,
            In (PeriodValidator.Negative rowNumber field number)
               (PeriodValidator.rowWarningList
                  (PeriodValidator.validateDataRow r rowNumber)).
Proof.
  unfold CsvProcessor.validateCSVRow, PeriodValidator.validateDataRow,
    PeriodValidator.blank.
  cbn [CsvProcessor.rowValid CsvProcessor.rowErrors PeriodValidator.rowIsValid
       PeriodValidator.rowWarningList].
  split.
  - now destruct (negb (truthy (prop r "Account")) || _),
                 (negb (truthy (prop r "IG ID")) || _).
  - intros field value H.
    assert (N : In (CsvProcessor.InvalidValue field value)
                  (flat_map
                     (fun field =>
                        match prop r field with
                        | Str s =>
                            if String.eqb s "" then []
                            else if isNaN (parseFloat (removeCommas s))
                                    || ltb (parseFloat (removeCommas s)) zero
                                 then [CsvProcessor.InvalidValue field s] else []
                        | _ => []
                        end) ["Reach"; "Views"; "Followers"])).
    { apply in_app_or in H. destruct H as [H | H].
      - destruct (negb (truthy (prop r "Account")) || _); [| contradiction].
        destruct H as [H | []]. discriminate H.
      - apply in_app_or in H. destruct H as [H | H]; [| exact H].
        destruct (negb (truthy (prop r "IG ID")) || _); [| contradiction].
        destruct H as [H | []]. discriminate H. }
    clear H. apply in_flat_map in N. destruct N as (f & Hf & H).
    destruct (prop r f) as [| | s] eqn:Ef; try contradiction.
    destruct (String.eqb s "") eqn:Es; [contradiction |].
    destruct (isNaN (parseFloat (removeCommas s))) eqn:En; cbn [orb] in H.
    + destruct H as [[= <- <-] | []]. left. apply in_flat_map. exists f. split.
      * unfold PeriodValidator.numericFields. cbn in Hf |- *. tauto.
      * rewrite Ef, Es, En. now left.
    + destruct (ltb (parseFloat (removeCommas s)) zero) eqn:El; [| contradiction].
      destruct H as [[= <- <-] | []]. right. eexists. apply in_flat_map. exists f. split.
      * unfold PeriodValidator.numericFields. cbn in Hf |- *. tauto.
      * rewrite Ef, Es, En, El. now left.
Qed.


(** X23.  A row [validateCSVRow] finds valid is not lost: in a valid month
    [convertToMonthlyData] does not throw on a file that holds the row, and
    its result holds the record of the row, under the trimmed account name
    and identifier of the row, neither of which is empty. *)
Theorem accepted_row_is_converted csvRows r year month :
  In r csvRows ->
  CsvProcessor.rowValid (CsvProcessor.validateCSVRow r) = true ->
  year <> 0%Z -> (1 <= month <= 12)%Z ->
  exists data d,
    CsvProcessor.convertToMonthlyData csvRows year month = Ok data
    /\ In d data
    /\ MonthlyAccountData.year d = year /\ MonthlyAccountData.month d = month
    /\ InstagramAccount.username (MonthlyAccountData.account d)
       = trim (text (prop r "Account"))
    /\ InstagramAccount.accountId (MonthlyAccountData.account d)
       = trim (text (prop r "IG ID"))
    /\ InstagramAccount.username (MonthlyAccountData.account d) <> ""
    /\ InstagramAccount.accountId (MonthlyAccountData.account d) <> "".
Proof.
  intros Hin V Hy Hm.
  unfold CsvProcessor.validateCSVRow in V. cbn [CsvProcessor.rowValid] in V.
  apply andb_prop in V. destruct V as [Va Vi].
  apply negb_true_iff, orb_false_elim in Va, Vi.
  destruct Va as [Ta Ea], Vi as [Ti Ei].
  apply negb_false_iff in Ta, Ti. apply String.eqb_neq in Ea, Ei.
  assert (A : exists account,
            InstagramAccount.fromCSVRow r = Ok account
            /\ InstagramAccount.username account = trim (text (prop r "Account"))
            /\ InstagramAccount.accountId account = trim (text (prop r "IG ID"))).
  { unfold InstagramAccount.fromCSVRow, InstagramAccount.new. rewrite Ta, Ti.
    cbn [negb orb]. eexists. split; [reflexivity |]. split; reflexivity. }
  destruct A as (account & Fa & Ua & Ia).
  pose proof (fromCSVRow_succeeds r year month account Fa Hy Hm) as F.
  set (d := MonthlyAccountData.mk account year month (MonthlyAccountData.validateMetrics r))
    in F.
  unfold CsvProcessor.convertToMonthlyData.
  match goal with |- context [flat_map ?f csvRows] => set (l := flat_map f csvRows) end.
  assert (Hd : In d l).
  { subst l. apply in_flat_map. exists r. split; [exact Hin |].
    rewrite Ta. cbn [negb andb]. rewrite F. now left. }
  destruct l as [| d0 l']; [contradiction |].
  exists (d0 :: l'), d. split; [reflexivity |]. split; [exact Hd |].
  subst d. cbn [MonthlyAccountData.year MonthlyAccountData.month MonthlyAccountData.account].
  rewrite Ua, Ia. repeat split; assumption.
Qed.

Lemma accepted_row_is_converted_witness :
  exists data d,
    CsvProcessor.convertToMonthlyData Examples.oneBlankOfFour 2025 9 = Ok data
    /\ In d data
    /\ MonthlyAccountData.year d = 2025%Z /\ MonthlyAccountData.month d = 9%Z
    /\ InstagramAccount.username (MonthlyAccountData.account d)
       = trim (text (prop (Examples.exportRow "bert" "2" "3000" "200" "0") "Account"))
    /\ InstagramAccount.accountId (MonthlyAccountData.account d)
       = trim (text (prop (Examples.exportRow "bert" "2" "3000" "200" "0") "IG ID"))
    /\ InstagramAccount.username (MonthlyAccountData.account d) <> ""
    /\ InstagramAccount.accountId (MonthlyAccountData.account d) <> "".
Proof.
  apply (accepted_row_is_converted Examples.oneBlankOfFour
           (Examples.exportRow "bert" "2" "3000" "200" "0") 2025 9).
  - right. left. reflexivity.
  - reflexivity.
  - discriminate.
  - lia.
Defined.

(** X24.  [validateBasicFileProperties] finds a file valid exactly when it
    has a name and a size that is neither zero nor above five megabytes: the
    type of the file is reported but, being pushed as a warning, never makes
    the file invalid. *)
Theorem validateBasicFileProperties_valid_iff file :
  PeriodValidator.fileIsValid (PeriodValidator.validateBasicFileProperties file) = true
  <-> PeriodValidator.fileName file <> ""
      /\ PeriodValidator.fileSize file <> 0%Z
      /\ (PeriodValidator.fileSize file <= PeriodValidator.MAX_FILE_SIZE)%Z.
Proof.
  unfold PeriodValidator.validateBasicFileProperties.
  destruct (String.eqb (PeriodValidator.fileName file) "") eqn:N.
  - apply String.eqb_eq in N. cbn. split; [discriminate | intros (C & _); contradiction].
  - apply String.eqb_neq in N. cbn [PeriodValidator.fileIsValid].
    rewrite Z.gtb_ltb.
    destruct (Z.eqb_spec (PeriodValidator.fileSize file) 0) as [Z0 | Z0];
      destruct (Z.ltb_spec PeriodValidator.MAX_FILE_SIZE (PeriodValidator.fileSize file))
        as [Big | Big];
      destruct (negb (String.eqb (PeriodValidator.fileType file) "") && _ && _);
      cbn;
      (split; [try discriminate; intros _; repeat split; assumption
              | try reflexivity; intros (_ & A & B); try contradiction;
                unfold PeriodValidator.MAX_FILE_SIZE in *; lia]).
Qed.


(** *** The name of a file *)

Lemma toLowerCase_app a b :
  ReachCalculator.toLowerCase (a ++ b)
  = ReachCalculator.toLowerCase a ++ ReachCalculator.toLowerCase b.
Proof. induction a as [| c a IH]; cbn; [reflexivity | now rewrite IH]. Qed.

Lemma length_app a b : String.length (a ++ b) = (String.length a + String.length b)%nat.
Proof. induction a as [| c a IH]; cbn; [reflexivity | now rewrite IH]. Qed.

Lemma string_app_assoc a b c : ((a ++ b) ++ c = a ++ (b ++ c))%string.
Proof. induction a as [| x a IH]; cbn; [reflexivity | now rewrite IH]. Qed.

Lemma substring_whole s : substring 0 (String.length s) s = s.
Proof. induction s as [| c s IH]; cbn; [reflexivity | now rewrite IH]. Qed.

Lemma substring_skip a : forall n b, substring (String.length a) n (a ++ b) = substring 0 n b.
Proof. induction a as [| c a IH]; intros n b; cbn; [reflexivity | apply IH]. Qed.

Lemma endsWith_app a b : PeriodValidator.endsWith (a ++ b) b = true.
Proof.
  unfold PeriodValidator.endsWith. rewrite length_app.
  replace (String.length a + String.length b - String.length b)%nat
    with (String.length a) by lia.
  rewrite substring_skip, substring_whole, String.eqb_refl, andb_true_r.
  apply Nat.leb_le. lia.
Qed.

Lemma readLiteral_rest literal : forall s rest,
  PeriodExtractor.readLiteral literal s = Some rest -> exists pre, s = pre ++ rest.
Proof.
  induction literal as [| c literal IH]; intros s rest H; cbn in H.
  - injection H as <-. now exists "".
  - destruct s as [| d s]; [discriminate |].
    destruct (PeriodExtractor.sameLetter c d); [| discriminate].
    destruct (IH _ _ H) as (pre & ->). now exists (String d pre).
Qed.

Lemma readExactDigits_rest n : forall s digits rest,
  PeriodExtractor.readExactDigits n s = Some (digits, rest) -> s = digits ++ rest.
Proof.
  induction n as [| n IH]; intros s digits rest H; cbn in H.
  - now injection H as <- <-.
  - destruct s as [| c s]; [discriminate |].
    destruct (isDigit c); [| discriminate].
    destruct (PeriodExtractor.readExactDigits n s) as [[d r] |] eqn:E; [| discriminate].
    injection H as <- <-. cbn. f_equal. now apply IH.
Qed.

Lemma sameLetter_lower (c d : ascii) :
  In c ["."; "c"; "s"; "v"]%char ->
  PeriodExtractor.sameLetter c d = true -> ReachCalculator.lowerChar d = c.
Proof.
  intros [<- | [<- | [<- | [<- | []]]]];
    destruct d as [[] [] [] [] [] [] [] []]; intros H; try discriminate H; reflexivity.
Qed.

Lemma matchExtension_lower t :
  PeriodExtractor.matchExtension t = true -> ReachCalculator.toLowerCase t = ".csv".
Proof.
  unfold PeriodExtractor.matchExtension.
  destruct t as [| c1 [| c2 [| c3 [| c4 t]]]]; cbn [PeriodExtractor.readLiteral];
    try discriminate;
    try (destruct (PeriodExtractor.sameLetter "." c1); discriminate);
    try (destruct (PeriodExtractor.sameLetter "." c1); [| discriminate];
         destruct (PeriodExtractor.sameLetter "c" c2); discriminate);
    try (destruct (PeriodExtractor.sameLetter "." c1); [| discriminate];
         destruct (PeriodExtractor.sameLetter "c" c2); [| discriminate];
         destruct (PeriodExtractor.sameLetter "s" c3); discriminate).
  destruct (PeriodExtractor.sameLetter "." c1) eqn:E1; [| discriminate].
  destruct (PeriodExtractor.sameLetter "c" c2) eqn:E2; [| discriminate].
  destruct (PeriodExtractor.sameLetter "s" c3) eqn:E3; [| discriminate].
  destruct (PeriodExtractor.sameLetter "v" c4) eqn:E4; [| discriminate].
  destruct t; [| discriminate]. intros _. cbn [ReachCalculator.toLowerCase].
  rewrite (sameLetter_lower "." c1), (sameLetter_lower "c" c2),
    (sameLetter_lower "s" c3), (sameLetter_lower "v" c4); cbn; auto 6.
Qed.

Lemma matchPeriodPart_extension s groups :
  PeriodExtractor.matchPeriodPart s = Some groups ->
  exists pre t, s = pre ++ t /\ PeriodExtractor.matchExtension t = true.
Proof.
  unfold PeriodExtractor.matchPeriodPart. intros H.
  destruct (PeriodExtractor.readExactDigits 4 s) as [[yd r] |] eqn:Ey; [| discriminate].
  destruct (PeriodExtractor.readLiteral "_" r) as [t |] eqn:Eu; [| discriminate].
  apply readExactDigits_rest in Ey. apply readLiteral_rest in Eu.
  destruct Eu as (u & ->). subst s.
  assert (G : forall n,
            match PeriodExtractor.readExactDigits n t with
            | Some (md, am) =>
                if PeriodExtractor.matchExtension am then Some (yd, md) else None
            | None => None
            end <> None ->
            exists pre x, t = pre ++ x /\ PeriodExtractor.matchExtension x = true).
  { intros n N.
    destruct (PeriodExtractor.readExactDigits n t) as [[md am] |] eqn:Em;
      [| contradiction].
    destruct (PeriodExtractor.matchExtension am) eqn:X; [| contradiction].
    apply readExactDigits_rest in Em. eauto. }
  cbv beta zeta in H.
  assert (T : exists pre x, t = pre ++ x /\ PeriodExtractor.matchExtension x = true).
  { destruct (match PeriodExtractor.readExactDigits 2 t with
              | Some _ => _ | None => None end) eqn:E2.
    - apply (G 2%nat). rewrite E2. discriminate.
    - apply (G 1%nat). rewrite H. discriminate. }
  destruct T as (pre & x & -> & X).
  exists (yd ++ u ++ pre), x. split; [| exact X].
  now rewrite !string_app_assoc.
Qed.

Lemma matchStrict_extension name groups :
  PeriodExtractor.matchStrict name = Some groups ->
  PeriodValidator.endsWith (ReachCalculator.toLowerCase name) ".csv" = true.
Proof.
  unfold PeriodExtractor.matchStrict. intros H.
  destruct (PeriodExtractor.readLiteral "IG_" name) as [rest |] eqn:E; [| discriminate].
  apply readLiteral_rest in E. destruct E as (p & ->).
  apply matchPeriodPart_extension in H. destruct H as (pre & t & -> & X).
  rewrite !toLowerCase_app, (matchExtension_lower t X).
  rewrite <- !string_app_assoc. apply endsWith_app.
Qed.

(** X25.  In [validateFilenameAndExtractPeriod] the strict pattern decides
    alone: a name is valid exactly when [extractPeriodFromFilename] accepts
    it, and then no error is reported.  The check of the extension cannot
    fail on a name the pattern accepts, and the check of the extracted period
    can never fail. *)
Theorem validateFilenameAndExtractPeriod_decided currentYear file :
  let report := PeriodValidator.validateFilenameAndExtractPeriod currentYear file in
  (forall period,
     PeriodExtractor.extractPeriodFromFilename currentYear
       (PeriodValidator.fileName file) true = Some period ->
     report = PeriodValidator.mkFilenameReport true [] (Some period))
  /\ (PeriodExtractor.extractPeriodFromFilename currentYear
        (PeriodValidator.fileName file) true = None ->
      PeriodValidator.filenameIsValid report = false
      /\ PeriodValidator.filenamePeriod report = None)
  /\ forall year month,
       ~ In (PeriodValidator.InvalidPeriodInName year month)
            (PeriodValidator.filenameErrors report).
Proof.
  cbv zeta. unfold PeriodValidator.validateFilenameAndExtractPeriod.
  destruct (PeriodExtractor.extractPeriodFromFilename currentYear
              (PeriodValidator.fileName file) true) as [period |] eqn:E.
  - assert (X : PeriodValidator.endsWith
                  (ReachCalculator.toLowerCase (PeriodValidator.fileName file)) ".csv"
                = true).
    { unfold PeriodExtractor.extractPeriodFromFilename in E.
      destruct (String.eqb (PeriodValidator.fileName file) ""); [discriminate |].
      destruct (PeriodExtractor.matchStrict (PeriodValidator.fileName file))
        as [groups |] eqn:M; [| discriminate].
      exact (matchStrict_extension _ _ M). }
    destruct (FileNames.extract_inversion _ _ _ _ E) as (_ & V & _).
    rewrite X, V. cbn [negb app].
    split; [now intros p [= <-] |]. split; [discriminate |]. intros y m [].
  - split; [discriminate |]. split.
    + split; reflexivity.
    + intros y m H. cbn [PeriodValidator.filenameErrors] in H.
      apply in_app_or in H. destruct H as [H | [H | []]]; [| discriminate H].
      destruct (negb _); [destruct H as [H | []]; discriminate H | contradiction].
Qed.

End FileChecks.

(** ** aggregation_service.js: the shares of a market add up *)

Module ShareSums.
Import ReachCalculator AggregationService Spec.
Local Open Scope string_scope.

Lemma fold_Qplus l : forall a, (fold_left Qplus l a == a + Qsum l)%Q.
Proof.
  unfold Qsum. induction l as [| x l IH]; intros a; cbn [fold_left].
  - lra.
  - rewrite (IH (a + x)%Q), (IH (0 + x)%Q). lra.
Qed.

Lemma Qsum_cons x l : (Qsum (x :: l) == x + Qsum l)%Q.
Proof. unfold Qsum at 1. cbn [fold_left]. rewrite fold_Qplus. lra. Qed.

Lemma Qsum_permutation l l' : Permutation l l' -> (Qsum l == Qsum l')%Q.
Proof.
  induction 1 as [| x l l' _ IH | x y l | l l' l'' _ IH1 _ IH2].
  - reflexivity.
  - rewrite !Qsum_cons, IH. reflexivity.
  - rewrite !Qsum_cons. lra.
  - now rewrite IH1.
Qed.

Lemma rationals_permutation l l' :
  Permutation l l' -> Permutation (rationals l) (rationals l').
Proof. apply Permutation_flat_map. Qed.

Lemma Qsum_member qs q :
  Forall (fun x => 0 <= x)%Q qs -> In q qs -> (q <= Qsum qs)%Q.
Proof.
  induction 1 as [| x rest Hx Hrest IH]; [intros [] |].
  rewrite Qsum_cons. intros [<- | Hq].
  - assert (0 <= Qsum rest)%Q; [| lra].
    unfold Qsum. apply Qle_trans with (2 := fold_Qplus_ge rest 0 Hrest). apply Qle_refl.
  - specialize (IH Hq). lra.
Qed.

(** The share of a value is within half a hundredth and 2^-44 of its exact
    percentage of the total. *)
Lemma share_close v t :
  (0 <= v)%Q -> (v <= t)%Q -> (0 < t)%Q ->
  exists s,
    shareOf (Fin v) (Fin t) = Fin s
    /\ (Qabs (s - v / t * 100) <= (1 # 200) + (1 # 17592186044416))%Q.
Proof.
  intros Hv Hvt Ht.
  destruct (shareOf_hundredths v t Hv Hvt Ht) as (z & E & [Z0 Z1] & B).
  rewrite E. unfold JsNum.div, ofZ.
  replace (Qeq_bool (inject_Z 100) 0) with false by reflexivity.
  change (inject_Z 100) with 100%Q.
  assert (Q0 : (0 <= inject_Z z)%Q) by (change 0%Q with (inject_Z 0); now rewrite <- Zle_Qle).
  assert (Q1 : (inject_Z z <= 10000)%Q)
    by (change 10000%Q with (inject_Z 10000); now rewrite <- Zle_Qle).
  set (x := (inject_Z z / 100)%Q).
  assert (X : (x == inject_Z z * (1 # 100))%Q) by (unfold x; field).
  assert (M : (Qabs x <= maxValue)%Q).
  { rewrite (Qabs_pos x) by lra. apply Qle_trans with (2 := Binary64.maxValue_pow).
    apply Qle_trans with 100%Q; [lra | vm_compute; discriminate]. }
  destruct (Binary64.fl_error x M) as (s & F & Bs & _ & _ & _).
  exists s. split; [exact F |].
  rewrite (Qabs_pos x) in Bs by lra.
  setoid_replace (2 ^ (- 53))%Q with (1 # 9007199254740992)%Q in Bs by reflexivity.
  pose proof tiny_1075 as T. pose proof (Binary64.pow_pos (- 1075)) as Tp.
  set (eta := (2 ^ (- 1075))%Q) in *.
  apply (proj1 (Qabs_Qle_condition _ _)) in Bs.
  apply (proj1 (Qabs_Qle_condition _ _)) in B.
  assert (D : (v / t * 100 == (10000 * (v / t)) * (1 # 100))%Q) by ring.
  rewrite D. set (e := (10000 * (v / t))%Q) in *.
  apply (proj2 (Qabs_Qle_condition _ _)). lra.
Qed.

(** The shares of values within the total are close to the exact
    percentages, which add up to the percentage of the sum. *)
Lemma shares_close t values :
  (0 < t)%Q ->
  Forall (fun v => exists q, v = Fin q /\ (0 <= q <= t)%Q) values ->
  allFinite (List.map (fun v => shareOf v (Fin t)) values)
  /\ (Qabs (Qsum (rationals (List.map (fun v => shareOf v (Fin t)) values))
            - Qsum (rationals values) / t * 100)
      <= inject_Z (Z.of_nat (List.length values)) * ((1 # 200) + (1 # 17592186044416)))%Q.
Proof.
  intros Ht.
  assert (Nt : ~ (t == 0)%Q) by (intros E; rewrite E in Ht; now apply Qlt_irrefl in Ht).
  induction values as [| v rest IH]; intros F.
  - split; [constructor |]. cbn [List.map rationals flat_map List.length].
    assert (Z0 : (Qsum [] / t * 100 == 0)%Q) by (unfold Qsum; cbn; field; exact Nt).
    apply (proj2 (Qabs_Qle_condition _ _)). rewrite Z0.
    change (inject_Z (Z.of_nat 0)) with 0%Q. unfold Qsum. cbn [fold_left]. lra.
  - inversion F as [| ? ? (q & -> & Q0 & Q1) Frest]; subst.
    destruct (IH Frest) as [Fs B]. clear IH.
    destruct (share_close q t Q0 Q1 Ht) as (s & E & Bz).
    cbn [List.map]. rewrite E. split; [constructor; [reflexivity | exact Fs] |].
    cbn [rationals flat_map app List.length].
    change (flat_map (fun v => match v with Fin q0 => [q0] | _ => [] end))
      with rationals.
    rewrite !Qsum_cons.
    rewrite Nat2Z.inj_succ. unfold Z.succ. rewrite inject_Z_plus.
    change (inject_Z 1) with 1%Q.
    assert (D : ((q + Qsum (rationals rest)) / t * 100
                 == q / t * 100 + Qsum (rationals rest) / t * 100)%Q)
      by (field; exact Nt).
    rewrite D.
    set (S1 := Qsum (rationals (List.map (fun v => shareOf v (Fin t)) rest))) in *.
    set (e := (q / t * 100)%Q) in *.
    set (E1 := (Qsum (rationals rest) / t * 100)%Q) in *.
    set (n := inject_Z (Z.of_nat (List.length rest))) in *.
    apply (proj1 (Qabs_Qle_condition _ _)) in B.
    apply (proj1 (Qabs_Qle_condition _ _)) in Bz.
    apply (proj2 (Qabs_Qle_condition _ _)). lra.
Qed.

(** X26.  When the valid values of a period are whole numbers whose sum is
    below 2^52, which Numbers add without rounding, the market shares
    [calculateMarketShare] returns are finite and add up to one hundred, up
    to half a hundredth and 2^-44 for each entry: the rounding to hundredths
    and that of the three operations on Numbers. *)
Theorem market_shares_add_up localeCompare dataset year month metric entries :
  metric <> "" -> ~ In metric NON_SUMMABLE_METRICS ->
  smallWhole (validValues
                (TimeseriesDataset.getDataForPeriod localeCompare dataset year month)
                metric) ->
  outcome (calculateMarketShare localeCompare dataset year month metric) = Ok entries ->
  entries <> [] ->
  allFinite (List.map marketShare entries)
  /\ (Qabs (Qsum (rationals (List.map marketShare entries)) - 100)
      <= inject_Z (Z.of_nat (List.length entries)) * ((1 # 200) + (1 # 17592186044416)))%Q.
Proof.
  intros Hm Hn [Hi Hb] O Ne.
  rewrite (calculateMarketShare_accepted localeCompare dataset year month metric Hm Hn) in O.
  cbv zeta in O.
  set (periodData := TimeseriesDataset.getDataForPeriod localeCompare dataset year month)
    in *.
  pose proof (validValues_nonNegative periodData metric) as Hv.
  destruct (sum_whole_from (validValues periodData metric) 0 Hi Hv ltac:(lia))
    as (S & F & ES & S0).
  { apply Qlt_le_weak. apply Qlt_le_trans with (1 := Hb). rewrite <- Zle_Qle. lia. }
  fold (Qsum (rationals (validValues periodData metric))) in ES.
  change (fold_left add (validValues periodData metric) (ofZ 0))
    with (JsNum.sum (validValues periodData metric)) in F.
  rewrite F in O. unfold ofZ in O.
  set (t := inject_Z S) in *.
  destruct (eqb (Fin t) zero) eqn:E; [injection O as <-; contradiction |].
  injection O as <-.
  assert (Nt : ~ (t == 0)%Q) by (apply Qeq_bool_neq; exact E).
  assert (Ht : (0 < t)%Q).
  { assert (0 <= t)%Q by (unfold t; change 0%Q with (inject_Z 0); now rewrite <- Zle_Qle).
    destruct (Qlt_le_dec 0 t) as [L | G]; [exact L |]. exfalso. apply Nt.
    now apply Qle_antisym. }
  assert (W : Forall (fun v => exists q, v = Fin q /\ (0 <= q <= t)%Q)
                     (validValues periodData metric)).
  { apply Forall_forall. intros v Hin.
    pose proof (proj1 (Forall_forall _ _) Hv v Hin) as Nv.
    destruct (proj1 (Forall_forall _ _) Hi v Hin) as [z Ez].
    destruct v as [| | | q]; try contradiction.
    exists q. split; [reflexivity |]. split; [exact Nv |]. rewrite ES.
    apply Qsum_member; [now apply rationals_nonNegative |].
    unfold rationals. apply in_flat_map. exists (Fin q). split; [exact Hin | now left]. }
  destruct (shares_close t (validValues periodData metric) Ht W) as [Fs B].
  assert (P : Permutation
                (List.map marketShare
                   (Js.sort shareAfter
                      (List.map (shareEntry year month metric (Fin t))
                         (validRecords periodData metric))))
                (List.map (fun v => shareOf v (Fin t)) (validValues periodData metric))).
  { rewrite validValues_records, map_map.
    eapply Permutation_trans; [apply Permutation_map, sort_permutation |].
    rewrite map_map. apply Permutation_refl. }
  split.
  - unfold allFinite. eapply Permutation_Forall; [apply Permutation_sym, P | exact Fs].
  - rewrite (Qsum_permutation _ _ (rationals_permutation _ _ P)).
    rewrite <- (length_map marketShare), (Permutation_length P), length_map.
    assert (H : (Qsum (rationals (validValues periodData metric)) / t * 100 == 100)%Q)
      by (rewrite <- ES; fold t; field; exact Nt).
    rewrite H in B. exact B.
Qed.

Lemma market_shares_add_up_witness :
  exists entries,
    outcome (calculateMarketShare Examples.codeOrder Examples.smallShare 2025 9 "views")
      = Ok entries
    /\ allFinite (List.map marketShare entries)
    /\ (Qabs (Qsum (rationals (List.map marketShare entries)) - 100)
        <= inject_Z (Z.of_nat (List.length entries)) * ((1 # 200) + (1 # 17592186044416)))%Q.
Proof.
  pose (entries :=
          match outcome (calculateMarketShare Examples.codeOrder Examples.smallShare
                           2025 9 "views") with
          | Ok l => l
          | Throw _ => []
          end).
  assert (E : outcome (calculateMarketShare Examples.codeOrder Examples.smallShare
                         2025 9 "views") = Ok entries)
    by (vm_compute; reflexivity).
  exists entries. split; [exact E |].
  apply (market_shares_add_up Examples.codeOrder Examples.smallShare 2025 9 "views").
  - discriminate.
  - intros [H | []]. discriminate H.
  - assert (V : validValues
                  (TimeseriesDataset.getDataForPeriod Examples.codeOrder
                     Examples.smallShare 2025 9) "views" = [ofZ 57; ofZ 743])
      by (vm_compute; reflexivity).
    rewrite V. split; [| vm_compute; reflexivity].
    repeat (constructor; [eexists; reflexivity |]). constructor.
  - exact E.
  - vm_compute. discriminate.
Defined.

End ShareSums.

(** ** reach_calculator.js and timeseries_analytics.js: a month without change *)

Module MonthlyChange.
Import ReachCalculator TimeseriesAnalytics Unchanged.
Local Open Scope string_scope.

Lemma consecutive_adjacentPairs {A} (l : list A) : consecutive l = adjacentPairs l.
Proof.
  induction l as [| x [| y rest] IH]; try reflexivity; cbn in *; now rewrite IH.
Qed.

Lemma short_no_pairs {A} (l : list A) :
  (List.length l <? 2)%nat = true -> adjacentPairs l = [].
Proof. destruct l as [| x [| y rest]]; try reflexivity. discriminate. Qed.

(** Without a change the relative change is computed as 0, rounding none of
    its three operations. *)
Lemma unchanged_ratio q :
  Qeq_bool q 0 = false ->
  mul (div (sub (Fin q) (Fin q)) (Fin q)) (ofZ 100) = Fin 0.
Proof.
  intros Z. assert (Nz : ~ (q == 0)%Q) by (apply Qeq_bool_neq; exact Z).
  unfold sub, neg, add. rewrite (Binary64.fl_zero (q + - q)) by ring.
  unfold JsNum.div. rewrite Z.
  rewrite (Binary64.fl_zero (0 / q)) by (field; exact Nz).
  unfold JsNum.mul, ofZ. rewrite (Binary64.fl_zero (0 * inject_Z 100)) by ring.
  reflexivity.
Qed.

Lemma unchanged_pair previous current :
  unchangedMonth (previous, current)
    (reachComparison previous current) (trendEntry "reach" previous current).
Proof.
  unfold unchangedMonth. cbn [fst snd]. split; [reflexivity |]. split; [reflexivity |].
  intros (q & Ep & Ec). unfold reachComparison, trendEntry.
  cbn [reachPercentageChange percentageChange].
  change (MonthlyAccountData.metric (MonthlyAccountData.metrics current) "reach")
    with (Some (MonthlyAccountData.reach (MonthlyAccountData.metrics current))).
  change (MonthlyAccountData.metric (MonthlyAccountData.metrics previous) "reach")
    with (Some (MonthlyAccountData.reach (MonthlyAccountData.metrics previous))).
  rewrite Ep, Ec. unfold calculatePercentageChange, orZero, eqb, zero.
  destruct (Qeq_bool q 0) eqn:Z.
  - split; [| eexists; split; [reflexivity |]].
    + cbn. reflexivity.
    + apply Qeq_bool_eq in Z. unfold gtb, ltb, Qltb.
      destruct (0 ?= q)%Q eqn:C; cbn; try reflexivity.
      apply Qlt_alt in C. rewrite Z in C. now apply Qlt_irrefl in C.
  - pose proof (unchanged_ratio q Z) as R.
    split.
    + unfold gtb, ltb. destruct (Qltb 0 q); [| reflexivity].
      change (Fin (inject_Z 100)) with (ofZ 100). fold zero in R. unfold zero in R.
      rewrite R. reflexivity.
    + eexists. split; [reflexivity |].
      change hundred with (ofZ 100). rewrite R. reflexivity.
Qed.

(** X27.  Month by month, [compareMonthlyReach] and
    [calculateMonthToMonthTrend] for reach describe the same pairs of
    months, and differ on a month whose reach did not change:
    [compareMonthlyReach] reports no percentage for it,
    [calculateMonthToMonthTrend] reports zero. *)
Theorem unchanged_month_reported_differently ts :
  exists trend,
    outcome (calculateMonthToMonthTrend ts "reach") = Ok trend
    /\ List.length (compareMonthlyReach ts) = List.length trend
    /\ forall i pair comparison entry,
         nth_error (adjacentPairs (AccountTimeseries.getAllMonthlyData ts)) i = Some pair ->
         nth_error (compareMonthlyReach ts) i = Some comparison ->
         nth_error trend i = Some entry ->
         unchangedMonth pair comparison entry.
Proof.
  unfold calculateMonthToMonthTrend, compareMonthlyReach. cbn [String.eqb Ascii.eqb].
  set (l := AccountTimeseries.getAllMonthlyData ts).
  assert (C : (if (List.length l <? 2)%nat then []
               else List.map (fun pair => reachComparison (fst pair) (snd pair))
                             (consecutive l))
              = List.map (fun pair => reachComparison (fst pair) (snd pair))
                         (adjacentPairs l)).
  { rewrite consecutive_adjacentPairs.
    destruct (List.length l <? 2)%nat eqn:S; [| reflexivity].
    now rewrite (short_no_pairs l S). }
  assert (T : outcome (if (List.length l <? 2)%nat then ret []
                       else ret (List.map (fun pair => trendEntry "reach" (fst pair) (snd pair))
                                          (adjacentPairs l)))
              = Ok (List.map (fun pair => trendEntry "reach" (fst pair) (snd pair))
                             (adjacentPairs l))).
  { destruct (List.length l <? 2)%nat eqn:S; [| reflexivity].
    now rewrite (short_no_pairs l S). }
  rewrite C. eexists. split; [exact T |]. split; [now rewrite !length_map |].
  intros i [previous current] comparison entry Hp Hc He.
  rewrite nth_error_map, Hp in Hc, He. cbn in Hc, He.
  injection Hc as <-. injection He as <-. apply unchanged_pair.
Qed.

End MonthlyChange.

(** ** timeseries_analytics.js: the comprehensive analysis *)

Module Comprehensive.
Import ReachCalculator TimeseriesAnalytics TrendAnalysis.
Local Open Scope string_scope.

Lemma ret_bind {A B} (m : M A) (k : A -> M B) v : m = ret v -> bind m k = k v.
Proof. intros ->. unfold bind, ret. now destruct (k v). Qed.

Lemma trend_returns ts metric :
  metric <> "" ->
  calculateMonthToMonthTrend ts metric
  = ret (List.map (fun pair => trendEntry metric (fst pair) (snd pair))
                  (adjacentPairs (AccountTimeseries.getAllMonthlyData ts))).
Proof.
  intros H. apply String.eqb_neq in H. unfold calculateMonthToMonthTrend. rewrite H.
  destruct (List.length _ <? 2)%nat eqn:S; [| reflexivity].
  now rewrite (MonthlyChange.short_no_pairs _ S).
Qed.

Lemma extremes_return ts metric :
  metric <> "" -> exists v, findPerformanceExtremes ts metric = ret v.
Proof.
  intros H. apply String.eqb_neq in H. unfold findPerformanceExtremes. rewrite H.
  destruct (AccountTimeseries.getAllMonthlyData ts); eexists; reflexivity.
Qed.

Lemma total_returns ts metric :
  includes summerableMetrics metric = true ->
  exists v, calculateMetricTotal ts metric = ret v.
Proof.
  intros H. unfold calculateMetricTotal. rewrite H.
  assert (N : String.eqb metric "" = false).
  { destruct (String.eqb metric "") eqn:E; [| reflexivity].
    apply String.eqb_eq in E. subst. discriminate H. }
  rewrite N. cbn [negb].
  destruct (AccountTimeseries.getAllMonthlyData ts); eexists; reflexivity.
Qed.

Lemma average_returns ts metric :
  metric <> "" -> exists v, calculateMetricAverage ts metric = ret v.
Proof.
  intros H. apply String.eqb_neq in H. unfold calculateMetricAverage. rewrite H.
  destruct (AccountTimeseries.getAllMonthlyData ts) as [| d l]; [eexists; reflexivity |].
  destruct (fold_left _ (d :: l) (zero, O)) as [total [| n]]; eexists; reflexivity.
Qed.

Lemma trendTotalPeriods_length trendData :
  trendTotalPeriods (calculateAverageTrend trendData) = List.length trendData.
Proof. destruct trendData; reflexivity. Qed.

Lemma analyseMetric_returns ts metric :
  metric <> "" ->
  exists value extremes,
    outcome (if includes summerableMetrics metric then calculateMetricTotal ts metric
             else calculateMetricAverage ts metric) = Ok value
    /\ outcome (findPerformanceExtremes ts metric) = Ok extremes
    /\ analyseMetric ts metric
       = ret (metric,
              {| aggregated :=
                   mkAggregated (if includes summerableMetrics metric
                                 then "total" else "average") value;
                 trend :=
                   calculateAverageTrend
                     (List.map (fun pair => trendEntry metric (fst pair) (snd pair))
                        (adjacentPairs (AccountTimeseries.getAllMonthlyData ts)));
                 extremes := extremes;
                 monthlyTrends :=
                   List.map (fun pair => trendEntry metric (fst pair) (snd pair))
                     (adjacentPairs (AccountTimeseries.getAllMonthlyData ts)) |}).
Proof.
  intros H. unfold analyseMetric.
  rewrite (ret_bind _ _ _ (trend_returns ts metric H)).
  destruct (extremes_return ts metric H) as (e & Ee).
  rewrite (ret_bind _ _ _ Ee), Ee.
  destruct (includes summerableMetrics metric) eqn:I.
  - destruct (total_returns ts metric I) as (v & Ev).
    rewrite (ret_bind _ _ _ Ev), Ev. exists v, e. repeat split.
  - destruct (average_returns ts metric H) as (v & Ev).
    rewrite (ret_bind _ _ _ Ev), Ev. exists v, e. repeat split.
Qed.

(** X29.  [calculateComprehensiveTrendAnalysis] returns for every series,
    without a throw and without going through [validateMetricOperation].  For
    a series with data it analyses the three metrics in their order; the
    aggregated value of followers and of views is the total of
    [calculateMetricTotal], that of reach the average of
    [calculateMetricAverage], and each metric has one monthly trend for each
    pair of consecutive months. *)
Theorem calculateComprehensiveTrendAnalysis_returns ts :
  exists analysis,
    calculateComprehensiveTrendAnalysis ts = ret analysis
    /\ analysisTotalPeriods analysis
       = List.length (AccountTimeseries.getAllMonthlyData ts)
    /\ (AccountTimeseries.getAllMonthlyData ts <> [] ->
        List.map fst (analysisMetrics analysis) = ["reach"; "followers"; "views"])
    /\ forall metric a,
         In (metric, a) (analysisMetrics analysis) ->
         aggregatedType (aggregated a)
           = (if includes summerableMetrics metric then "total" else "average")
         /\ outcome (if includes summerableMetrics metric
                     then calculateMetricTotal ts metric
                     else calculateMetricAverage ts metric)
            = Ok (aggregatedValue (aggregated a))
         /\ List.length (monthlyTrends a)
            = (List.length (AccountTimeseries.getAllMonthlyData ts) - 1)%nat
         /\ trendTotalPeriods (trend a) = List.length (monthlyTrends a).
Proof.
  unfold calculateComprehensiveTrendAnalysis.
  destruct (AccountTimeseries.getAllMonthlyData ts) as [| first rest] eqn:E.
  - eexists. split; [reflexivity |]. cbn. split; [reflexivity |].
    split; [intros C; now elim C |]. intros metric a [].
  - rewrite <- E.
    destruct (analyseMetric_returns ts "reach" ltac:(discriminate))
      as (v1 & e1 & V1 & _ & A1).
    destruct (analyseMetric_returns ts "followers" ltac:(discriminate))
      as (v2 & e2 & V2 & _ & A2).
    destruct (analyseMetric_returns ts "views" ltac:(discriminate))
      as (v3 & e3 & V3 & _ & A3).
    cbn [AggregationService.allMetrics AggregationService.forEach].
    rewrite A1, A2, A3. cbn [ret bind app].
    eexists. split; [reflexivity |].
    cbn [analysisTotalPeriods analysisMetrics List.map fst].
    split; [reflexivity |]. split; [reflexivity |].
    intros metric a [H | [H | [H | []]]]; injection H as <- <-;
      cbn [aggregated aggregatedType aggregatedValue monthlyTrends trend];
      (split; [reflexivity |]); (split; [assumption |]);
      rewrite trendTotalPeriods_length, length_map, adjacentPairs_length;
      split; reflexivity.
Qed.

End Comprehensive.

(** ** aggregation_service.js: the check of the parameters *)

Module Parameters.
Import ReachCalculator AggregationService.
Local Open Scope string_scope.

(** X30.  [validateAggregationParams] and [validateMetricOperation] do not
    refuse the same operations on a metric that cannot be summed (reach):
    with a dataset given, the first
    refuses [sum] alone, the second [sum] and [total]; on [total] the
    parameters are found valid and the operation throws. *)
Theorem validateAggregationParams_accepts_total params metric operation :
  paramDataset params <> None ->
  paramMetric params = Some metric ->
  In metric NON_SUMMABLE_METRICS ->
  paramOperation params = Some operation ->
  (paramsValid (validateAggregationParams params) = true <-> operation <> "sum")
  /\ (outcome (validateMetricOperation operation metric) = Ok tt
      <-> operation <> "sum" /\ operation <> "total").
Proof.
  intros Hd Hm Hin Ho.
  assert (metric = "reach") as -> by (destruct Hin as [E | []]; now symmetry).
  split.
  - unfold validateAggregationParams. rewrite Hm, Ho.
    destruct (paramDataset params); [| contradiction].
    cbn [app negb String.eqb Ascii.eqb Bool.eqb andb].
    change (includes NON_SUMMABLE_METRICS "reach") with true. cbn [andb].
    destruct (String.eqb_spec operation "sum") as [-> | Ne]; cbn [paramsValid].
    + split; [discriminate | intros C; now elim C].
    + split; [intros _; exact Ne | reflexivity].
  - unfold validateMetricOperation.
    change (includes NON_SUMMABLE_METRICS "reach") with true.
    change (includes SUMMABLE_METRICS "reach") with false.
    rewrite andb_true_r, andb_false_r.
    destruct (String.eqb_spec operation "sum") as [-> | Ns].
    + cbn. split; [discriminate | intros [C _]; now elim C].
    + destruct (String.eqb_spec operation "total") as [-> | Nt].
      * cbn. split; [discriminate | intros [_ C]; now elim C].
      * cbn. split; [intros _; now split | reflexivity].
Qed.

Lemma validateAggregationParams_accepts_total_witness :
  (paramsValid
     (validateAggregationParams
        (mkAggregationParams (Some Examples.twoMonths) None (Some "reach") (Some "total")))
   = true <-> "total" <> "sum")
  /\ (outcome (validateMetricOperation "total" "reach") = Ok tt
      <-> "total" <> "sum" /\ "total" <> "total").
Proof.
  apply (validateAggregationParams_accepts_total
           (mkAggregationParams (Some Examples.twoMonths) None (Some "reach") (Some "total"))
           "reach" "total").
  - discriminate.
  - reflexivity.
  - left; reflexivity.
  - reflexivity.
Defined.

End Parameters.
